(* ===== verification/_CoqProject ===== *)
-Q . S2P
Prelude.v
Crc.v
ParseState.v
MessageParser.v
ParseNmea.v
ParseRtcm.v
ParseUblox.v
ParseUnicoreBinary.v
ParseUnicoreHash.v
ParseCustom.v
NextByte.v
BeginParser.v
FrameSpec.v
Sentences.v
Representation.v
FrameRefine.v
SentenceRefine.v
HashRefine.v
Refine.v
Lifecycle.v
Messages.v
MessageRuns.v
Machine.v
RoundTrip.v
ParserTheorems.v
CheckTheorems.v
Utilities.v
UtilityTheorems.v
SempParser.v
SempTheorems.v
MultiParser.v
MultiSpec.v
MultiRep.v
MultiSemp.v
MultiUblox.v
MultiNmea.v
MultiMachine.v
MultiTheorems.v
LibParser.v
LibFramework.v
ShiftRegister.v
LibCrc.v
LibCrcTheorems.v
LibBinary.v
LibText.v
LibSbf.v
LibSpartn.v
LibReports.v
LibNextByte.v
LibSpec.v
LibRep.v
LibFrames.v
LibCrcFrames.v
LibSbfRefine.v
LibSpartnRefine.v
LibSentence.v
LibHash.v
LibRefine.v
LibMessages.v
LibMachine.v
LibLifecycle.v
LibRoundTrip.v
LibConserve.v
LibOverlap.v
LibTheorems.v
LibFields.v
AppPrelude.v
SempClient.v
SempExample.v
SempTool.v
SempDemonstration.v
MultiDemo.v
MultiExample.v
FunctionalTest.v
StressProgram.v
FrameworkDemoTheorems.v
MultiExampleRefine.v
MultiExampleTheorems.v
SempProgramTheorems.v
TestSuite.v
