(* ===== verification/Prelude.v ===== *)
(** * Verification of the GNSS message parsers

    The repository holds four parsers that take a stream of bytes from a serial
    line apart into messages of satellite-navigation protocols, and call the
    application with every complete message whose check is right.

    - [src/my_parser]: a C framework.  [sempBeginParser] allocates a parse
      structure for a table of protocol parsers, [sempParseNextByte] feeds it one
      byte.  The structure's [state] is a pointer to the routine for the next
      byte; [sempFirstByte] offers a byte to the preamble routine of each
      protocol in turn.  Protocols: NMEA, RTCM 3, u-blox, Unicore binary, Unicore
      hash and a custom binary format.  Utilities print hexadecimal text, compute
      checksums and split fields.
    - [src/lib]: the C++ library the framework was ported from, with the same
      structure and the further protocols Septentrio SBF, SPARTN and Bluetooth.
      Its scratch areas overlap in one union, and the SBF parser can hand data it
      does not recognise back to the application.
    - [src/single_parser/semp_parser.c]: a parser for the SEMP (Bluetooth) frame
      alone, in memory of the caller.
    - [src/single_parser/multi_protocol_parser.c]: a parser for SEMP, NMEA and
      u-blox with counters; all its structures share one static scratch area.

    ** How the code is modelled

    An integer of the code is a [Z] with its wrap-around written out ([u8],
    [u16], [u32]).  Code runs in the monad [M S E A := S -> res (A * S * list E)]
    of this file: [S] is the parse structure, a [Record] with the members of the
    C struct; [E] are the events the outside sees, that is the calls of the
    application's callbacks, each with the structure it was called with, and the
    printed text as format and arguments; [res] is [Ok] or [Ub], undefined
    behaviour with its kind (an access outside an object, the shift of a negative
    number or past the greatest one, an increment of the greatest [int], the use of
    a missing return value, a call through a damaged pointer).
    A pointer to a routine is a constructor [fn_...] of an inductive type that a
    dispatch function maps to the routine.  Scratch areas are byte arrays with
    members at the offsets of the C struct, so that overlapping members overlap.
    A callback is a number; what the [badCrc] callback answers is a function of
    the class [Application], the memory [malloc] returns is the class
    [Allocator] with the law [AllocatorSpec] about the size of a block, the width
    of a pointer is the class [Platform].

    ** The C framework (src/my_parser)

    - [Crc]: the tables and updates of CRC-32 and CRC-24Q, and their bit-serial
      definitions.
    - [ParseState]: structure, scratch members, callbacks ([Message_Parser.h]).
      [MessageParser]: printing, [semp_util_asciiToNibble], [sempFirstByte].
      [ParseNmea], [ParseRtcm], [ParseUblox], [ParseUnicoreBinary],
      [ParseUnicoreHash], [ParseCustom]: the file [Parse_*.c] of the same name,
      one definition per routine.  [NextByte]: dispatch and [sempParseNextByte].
      [BeginParser]: allocation, [sempBeginParser], configuration.  [Utilities]:
      the utilities.
    - [FrameSpec]: the abstract machine.  It scans, or reads a frame (a list of
      bytes about which a verdict function says continue, restart, or complete
      with a right or wrong check), or reads a sentence or its end.  It knows
      nothing of scratch areas, counts of remaining bytes or running checks.
      [Representation] relates structures to machine states ([R]) and refines the
      scan; [Sentences], [FrameRefine] (u-blox, RTCM, custom), [SentenceRefine]
      (NMEA), [HashRefine] and [Refine] prove routine by routine that the code
      refines the machine; the protocols are joined through the classes
      [ParserTable] and [PreambleSpec].
    - [Messages] defines the messages of each protocol, [MessageRuns] how a machine
      reads one, [Machine] the invariant of runs, [RoundTrip] the delivery of
      streams and the return to the scan, [Lifecycle] what [sempBeginParser]
      establishes.
    - [ParserTheorems], [CheckTheorems], [UtilityTheorems]: the results.

    ** The C++ library (src/lib)

    - [LibCrc]: the tables and checks of [semp_crc_spartn.h], [semp_crc_sbf.h] and
      [semp_crc32.h]; [ShiftRegister] the theory of shift registers behind
      [LibCrcTheorems].
    - [LibParser], [LibFramework], [LibNextByte]: structure, framework and
      dispatch ([SparkFun_Extensible_Message_Parser.h] and [.cpp]).  [LibBinary]:
      [Parse_UBLOX.cpp], [Parse_RTCM.cpp], [Parse_Unicore_Binary.cpp],
      [Parse_BT.cpp].  [LibText]: [Parse_NMEA.cpp], [Parse_Unicore_Hash.cpp].
      [LibSbf], [LibSpartn]: [Parse_SBF.cpp], [Parse_SPARTN.cpp].  [LibReports]:
      names and numbers the parsers report.
    - [LibSpec]: the abstract machine, whose output has messages and data handed
      back.  [LibRep] is the representation and the scan,
      [LibFrames] to [LibHash] the refinements of the routines, [LibRefine] the
      refinement of [sempParseNextByte].
    - [LibMessages], [LibMachine], [LibRoundTrip], [LibConserve], [LibLifecycle],
      [LibOverlap]: messages and their runs, invariant, streams and the return to
      the scan, the account of all bytes, the start, and the overlap of the
      scratch areas.
    - [LibTheorems], [LibFields]: the results.

    ** The parsers of src/single_parser

    [SempParser] and [SempTheorems] model and verify [semp_parser.c].
    [MultiParser] models [multi_protocol_parser.c] with the static objects in its
    state; [MultiSpec] is its machine, [MultiRep], [MultiSemp], [MultiUblox],
    [MultiNmea] the refinement of its routines, [MultiMachine] the refinement of the
    whole and the runs, and [MultiTheorems] the results.

    ** The programs that use the parsers

    [AppPrelude] models a program that calls a parser: its state has the parse
    structure as a part, what it prints is [Output] (format and arguments), and
    [call_parser] runs a routine of the parser on that part and then the
    program's callbacks on the recorded calls.  It also holds the logic of such
    programs: [runs] and [shows] (the run returns and prints), [respects] (an
    invariant of the part and a property of every callback).

    - [SempClient]: the members of a SEMP message the programs read.
      [SempExample]: [semp_example.c].  [SempTool]: [test_tool.c] ([Tool]).
      [SempDemonstration]: [main.cpp] ([Demonstration]).
    - [MultiDemo]: [multi_protocol_demo.c] ([Demo]).  [MultiExample]:
      [multi_protocol_example.c] ([Embedded]), with the UART and DMA registers,
      the receive ring and the four message buffers in its state.
    - [FunctionalTest] ([FuncTest]) and [StressProgram] ([StressTest]):
      [func_test.c] and [stress_test.c] of [src/my_parser/demo].
    - [TestSuite] ([Suite]): [src/my_parser/main.cpp].  The functions [msgp_...]
      it calls are not in the repository; they are the class [Library], and
      [cpp_library] is an instance made of the parsers of [src/lib].
    - [MultiExampleRefine]: every call the multi-protocol parser makes has a
      message inside the buffer, and the embedded example refines the machine of
      [MultiSpec] followed by a mailbox of four buffers.
    - [FrameworkDemoTheorems], [MultiExampleTheorems], [SempProgramTheorems]: the
      results.

    ** What the theorems show

    - Refinement: on any input, each of the three table driven parsers behaves as
      its machine, undefined behaviour and its kind included, for every
      configuration with one exception: a table of the C++ library does not combine
      SBF with NMEA, Unicore hash or SPARTN, whose values overlap the SBF parser's
      callback ([LSetup]).  [lib_callback_overwritten] shows why.  This condition
      holds in all theorems about the library's byte interface but that one.
    - Safety: the parsers access no memory outside their objects on any input,
      for the protocols for which this is so; counterexamples for the others (the
      MODE sentences of Unicore hash, the missing byte of the multi-protocol
      parser, the missing return value of Unicore binary).
    - Soundness: without a [badCrc] callback, a delivered message is a message of
      its protocol, check included; with one, the multi-protocol parser also
      delivers well-formed sentences that the callback let pass.
      In the C++ library the numbers, types and names that the accessors report
      in the callback are those in the bytes of the message ([reported]).
    - Round trip: a stream of encoded messages with noise in between is delivered
      completely and in order.  The messages are those of [sent], [lsent] and
      [msent]: Unicore binary frames of the C framework are undefined, and the table
      driven parsers lose some of the shortest frames.  Recovery: after any input,
      more other bytes than the buffer holds bring a parser of a safe table back to
      the scan.
    - Start: [sempBeginParser] returns a structure that represents the scanning
      machine exactly when its arguments are valid and memory is available.
    - SBF: every byte is delivered, handed back, under way or in a block that did
      not fit; the readers invert the encodings of integers and IEEE 754 numbers.
    - Checks: the table-driven checks are the bit-serial ones and detect bursts
      of errors up to their width.
    - Error behaviour: the messages the parsers lose, and the interference
      through shared state.
    - Programs: the embedded example refines machine and mailbox, keeps its
      members within their types, holds the last four messages, and its
      background task empties the ring; the stress test counts exactly the
      messages of its input; the test suite reports the numbers of messages and
      of bad checks of its library; the SEMP example returns on any input, and the
      packet tool exactly on the frames whose values it can shift.  The
      counterexamples are inputs for which the programs drop bytes or leave
      their buffers.

    ** Bounds

    Every routine is total.  Three loops have fuel: the check loop of the
    Unicore hash parsers, bounded by the length of the buffer since every turn
    reads one byte further and a read outside is undefined anyway, and the loops of
    the hexadecimal printer and the checksum utility, which make [length] turns.
    The background task of the embedded example has fuel too; 255 turns are
    enough, the most bytes a ring of 256 holds ([background_task_ends]).  The
    loop over a file in the SEMP example is by well-founded recursion on the
    bytes left.  The length of the message is a 16-bit number, so the buffers of
    the configurations are shorter than 65,536 bytes; their lower bound, 32 or
    256, is the minimum of the code.

    ** What is not modelled

    The build files, and the library of [my_parser/main.cpp] ([MP_PARSE_STATE],
    [msgp_...]), which no source of the repository defines: it is a parameter.
    The text of formatted output is kept as format and arguments.  A file is given
    to a program as the list of its bytes.  Callbacks read the structure and do not
    write it, so that a program runs them after the routine that made the calls, in
    their order.  The counters of type [long] do not overflow.  Memory is taken to
    be aligned as the casts of buffers to header structures need it, and reads
    through a cast pointer are reads of the bytes: the rules on aliasing are not
    modelled.  A two-dimensional array is one array of its size.  A conversion of
    printf is not compared with the width of its argument.  What a [badCrc] callback
    answers depends on the parser's index and the message only.  The payloads of a
    NaN are collapsed into one value. *)
From stdpp Require Export base tactics list numbers strings.
From Stdlib Require Export ZArith Lia ZifyBool ZifyNat.
From Stdlib Require Floats.SpecFloat.
#[export] Set Default Goal Selector "!".

Declare Scope c_scope.
Delimit Scope c_scope with c.
#[global] Open Scope Z_scope.
#[global] Open Scope c_scope.

(* ------------------------------------------------------------------ *)
(** ** Fixed-width unsigned integers

    A [uint8_t], [uint16_t] or [uint32_t] is a [Z]; every assignment to an
    object of such a type goes through the wrap-around function of its
    width. *)

Definition u8 (x : Z) : Z := x mod 0x100.
Definition u16 (x : Z) : Z := x mod 0x10000.
Definition u32 (x : Z) : Z := x mod 0x100000000.

#[global] Arguments u8 _ : simpl never.
#[global] Arguments u16 _ : simpl never.
#[global] Arguments u32 _ : simpl never.

Definition is_u8 (x : Z) : Prop := 0 <= x < 0x100.
Definition is_u16 (x : Z) : Prop := 0 <= x < 0x10000.
Definition is_u32 (x : Z) : Prop := 0 <= x < 0x100000000.

Abbreviation bytes := (Forall is_u8).

Create HintDb width.

(** [lia] after turning quotients and remainders into equations. *)
Ltac mlia := Z.div_mod_to_equations; lia.

Lemma u8_range x : is_u8 (u8 x).
Proof. apply Z.mod_pos_bound. lia. Qed.
Lemma u16_range x : is_u16 (u16 x).
Proof. apply Z.mod_pos_bound. lia. Qed.
Lemma u32_range x : is_u32 (u32 x).
Proof. apply Z.mod_pos_bound. lia. Qed.
Lemma u8_id x : is_u8 x -> u8 x = x.
Proof. unfold is_u8, u8. intros. apply Z.mod_small. lia. Qed.
Lemma u16_id x : is_u16 x -> u16 x = x.
Proof. unfold is_u16, u16. intros. apply Z.mod_small. lia. Qed.
Lemma u32_id x : is_u32 x -> u32 x = x.
Proof. unfold is_u32, u32. intros. apply Z.mod_small. lia. Qed.

#[export] Hint Resolve u8_range u16_range u32_range : width.

(* ------------------------------------------------------------------ *)
(** ** Bitwise operations stay in range *)

Lemma log2_below a n : 0 < n -> 0 <= a < 2 ^ n -> Z.log2 a < n.
Proof.
  intros Hn Ha. destruct (decide (a = 0)) as [->|H0]; [done|].
  apply Z.log2_lt_pow2; lia.
Qed.

Lemma below_pow2 a n : 0 < n -> 0 <= a -> Z.log2 a < n -> 0 <= a < 2 ^ n.
Proof.
  intros Hn Ha Hl. destruct (decide (a = 0)) as [->|H0]; [lia|].
  split; [done|]. apply Z.log2_lt_pow2; lia.
Qed.

Lemma lxor_range a b n :
  0 < n -> 0 <= a < 2 ^ n -> 0 <= b < 2 ^ n -> 0 <= Z.lxor a b < 2 ^ n.
Proof.
  intros Hn Ha Hb. apply below_pow2; [done|apply Z.lxor_nonneg; lia|].
  pose proof (Z.log2_lxor a b ltac:(lia) ltac:(lia)).
  pose proof (log2_below a n Hn Ha). pose proof (log2_below b n Hn Hb). lia.
Qed.

Lemma lor_range a b n :
  0 < n -> 0 <= a < 2 ^ n -> 0 <= b < 2 ^ n -> 0 <= Z.lor a b < 2 ^ n.
Proof.
  intros Hn Ha Hb. apply below_pow2; [done|apply Z.lor_nonneg; lia|].
  rewrite Z.log2_lor by lia.
  pose proof (log2_below a n Hn Ha). pose proof (log2_below b n Hn Hb). lia.
Qed.

Lemma land_ff a : Z.land a 0xff = a mod 256.
Proof. change 0xff with (Z.ones 8). by rewrite Z.land_ones. Qed.

Lemma lxor_u8 a b : is_u8 a -> is_u8 b -> is_u8 (Z.lxor a b).
Proof. apply (lxor_range a b 8). lia. Qed.
Lemma lxor_u32 a b : is_u32 a -> is_u32 b -> is_u32 (Z.lxor a b).
Proof. apply (lxor_range a b 32). lia. Qed.
Lemma is_u8_u32 a : is_u8 a -> is_u32 a.
Proof. unfold is_u8, is_u32. lia. Qed.
#[export] Hint Resolve lxor_u8 lxor_u32 is_u8_u32 : width.

(** A value below [2^n] and a multiple of [2^n] have no bit in common, so their
    bitwise combinations are their sum. *)
Lemma land_shiftl_zero a b n :
  0 < n -> 0 <= a < 2 ^ n -> Z.land a (Z.shiftl b n) = 0.
Proof.
  intros Hn Ha. apply Z.bits_inj'. intros i Hi. rewrite Z.land_spec, Z.bits_0.
  destruct (decide (i < n)).
  - rewrite (Z.shiftl_spec_low b) by lia. apply andb_false_r.
  - rewrite (Z.bits_above_log2 a); [done|lia|]. pose proof (log2_below a n Hn Ha). lia.
Qed.

Lemma lxor_shiftl_add a b n :
  0 < n -> 0 <= a < 2 ^ n -> Z.lxor a (Z.shiftl b n) = a + b * 2 ^ n.
Proof.
  intros Hn Ha. rewrite <-Z.shiftl_mul_pow2 by lia.
  by rewrite Z.add_nocarry_lxor by by apply land_shiftl_zero.
Qed.

Lemma lor_shiftl_add a b n :
  0 < n -> 0 <= a < 2 ^ n -> Z.lor a (Z.shiftl b n) = a + b * 2 ^ n.
Proof.
  intros Hn Ha. rewrite <-lxor_shiftl_add by done.
  symmetry. by apply Z.lxor_lor, land_shiftl_zero.
Qed.

(* ------------------------------------------------------------------ *)
(** ** Results and undefined behaviour

    The C functions of the repository have no error codes of their own; what
    can go wrong while one runs is undefined behaviour, which the model
    returns as a value. *)

Inductive ub :=
| OutOfBounds        (* an array is read or written outside its extent *)
| MissingReturn      (* the value of a function that returned none is used *)
| NullCall           (* a null function pointer is called *)
| NegativeShift      (* a negative [int] is shifted to the left *)
| WildCall           (* a pointer that points to no function is called *)
| ShiftOverflow      (* an [int] is shifted to the left past its greatest value *)
| IntOverflow.       (* an [int] is incremented past its greatest value *)

Inductive res (A : Type) :=
| Ok (a : A)
| Ub (u : ub).
Arguments Ok {_} _.
Arguments Ub {_} _.

#[global] Instance ub_eq_dec : EqDecision ub.
Proof. solve_decision. Defined.

Definition res_bind {A B} (r : res A) (k : A -> res B) : res B :=
  match r with Ok a => k a | Ub u => Ub u end.

(** ** Stateful code

    A C function that works on an object of type [S] and calls the application
    back (observable events of type [E]) is a function of the state before the
    call; it returns its value, the state after the call and the events. *)

Definition M (S E A : Type) : Type := S -> res (A * S * list E).

Section monad.
  Context {S E : Type}.

Definition ret {A} (a : A) : M S E A := fun s => Ok (a, s, []).
Definition bind {A B} (m : M S E A) (k : A -> M S E B) : M S E B := fun s =>
  match m s with
  | Ok (a, s1, e1) =>
      match k a s1 with
      | Ok (b, s2, e2) => Ok (b, s2, e1 ++ e2)
      | Ub u => Ub u
      end
  | Ub u => Ub u
  end.
Definition undefined {A} (u : ub) : M S E A := fun _ => Ub u.
Definition gets {A} (f : S -> A) : M S E A := fun s => Ok (f s, s, []).
Definition modify (f : S -> S) : M S E unit := fun s => Ok (tt, f s, []).
Definition emit (e : E) : M S E unit := fun s => Ok (tt, s, [e]).
Definition lift {A} (r : res A) : M S E A := fun s =>
  match r with Ok a => Ok (a, s, []) | Ub u => Ub u end.
Definition when (b : bool) (m : M S E unit) : M S E unit :=
  if b then m else ret tt.

(** [for x in l: m x] for effects only. *)
Fixpoint for_each {X} (l : list X) (m : X -> M S E unit) : M S E unit :=
  match l with
  | [] => ret tt
  | x :: l => bind (m x) (fun _ => for_each l m)
  end.

Lemma bind_ok {A B} (m : M S E A) (k : A -> M S E B) s a s1 e1 :
  m s = Ok (a, s1, e1) ->
  bind m k s = match k a s1 with
               | Ok (b, s2, e2) => Ok (b, s2, e1 ++ e2)
               | Ub u => Ub u
               end.
Proof. unfold bind. by intros ->. Qed.

Lemma bind_ub {A B} (m : M S E A) (k : A -> M S E B) s u :
  m s = Ub u -> bind m k s = Ub u.
Proof. unfold bind. by intros ->. Qed.

Lemma bind_silent {A B} (m : M S E A) (k : A -> M S E B) s a s' :
  m s = Ok (a, s', []) -> bind m k s = k a s'.
Proof. intros H. unfold bind. rewrite H. by destruct (k a s') as [[[??]?]|]. Qed.

Lemma bind_gets {A B} (f : S -> A) (k : A -> M S E B) s : bind (gets f) k s = k (f s) s.
Proof. unfold bind, gets. by destruct (k (f s) s) as [[[??]?]|?]. Qed.

Lemma bind_modify {B} (f : S -> S) (k : unit -> M S E B) s : bind (modify f) k s = k tt (f s).
Proof. unfold bind, modify. by destruct (k tt (f s)) as [[[??]?]|?]. Qed.

Lemma bind_ret {A B} (a : A) (k : A -> M S E B) s : bind (ret a) k s = k a s.
Proof. unfold bind, ret. by destruct (k a s) as [[[??]?]|?]. Qed.

Lemma bind_assoc {A B C} (m : M S E A) (k : A -> M S E B) (k' : B -> M S E C) s :
  bind (bind m k) k' s = bind m (fun a => bind (k a) k') s.
Proof.
  unfold bind. destruct (m s) as [[[a s1] e1]|]; [|done]. destruct (k a s1) as [[[b s2] e2]|]; [|done].
  destruct (k' b s2) as [[[c s3] e3]|]; [|done]. by rewrite app_assoc.
Qed.

Lemma for_each_app {X} (l1 l2 : list X) (m : X -> M S E unit) s :
  for_each (l1 ++ l2) m s = bind (for_each l1 m) (fun _ => for_each l2 m) s.
Proof.
  revert s. induction l1 as [|x l1 IH]; intros s; cbn.
  - unfold bind, ret. by destruct (for_each l2 m s) as [[[[] ?] ?]|?].
  - unfold bind in *. destruct (m x s) as [[[[] s1] e1]|?]; [|done].
    rewrite IH. destruct (for_each l1 m s1) as [[[[] s2] e2]|?]; [|done].
    destruct (for_each l2 m s2) as [[[[] s3] e3]|?]; [|done]. by rewrite app_assoc.
Qed.
End monad.

(** Execute the leading reads and updates of a routine. *)
Ltac run_monad := repeat (first [rewrite bind_gets | rewrite bind_modify | rewrite bind_ret]; cbn beta).

Notation "x <- m ;; k" := (bind m (fun x => k))
  (at level 100, m at next level, right associativity) : c_scope.
Notation "m ;; k" := (bind m (fun _ => k))
  (at level 100, right associativity) : c_scope.

(** Bytes, as a test. *)
Definition bytesb (l : list Z) : bool := forallb (fun b => (0 <=? b) && (b <? 256)) l.

Lemma bytesb_spec l : bytesb l = true -> bytes l.
Proof.
  unfold bytesb. induction l as [|b l IH]; cbn; [done|].
  intros [Hb Hl]%andb_true_iff. constructor; [unfold is_u8; lia|auto].
Qed.

(* ------------------------------------------------------------------ *)
(** ** Byte arrays *)

Definition load (l : list Z) (i : Z) : res Z :=
  if 0 <=? i then
    match l !! Z.to_nat i with Some v => Ok v | None => Ub OutOfBounds end
  else Ub OutOfBounds.

Definition store (l : list Z) (i v : Z) : res (list Z) :=
  if (0 <=? i) && (i <? Z.of_nat (length l))
  then Ok (<[Z.to_nat i := v]> l) else Ub OutOfBounds.

#[global] Arguments load _ _ : simpl never.
#[global] Arguments store _ _ _ : simpl never.

Lemma load_ok (l : list Z) i v : l !! i = Some v -> load l (Z.of_nat i) = Ok v.
Proof. intros H. unfold load. rewrite Nat2Z.id, H. by destruct i. Qed.

Lemma store_ok (l : list Z) i v :
  0 <= i < Z.of_nat (length l) -> store l i v = Ok (<[Z.to_nat i := v]> l).
Proof.
  intros H. unfold store.
  by destruct ((0 <=? i) && (i <? Z.of_nat (length l))) eqn:E; [|lia].
Qed.

Lemma store_oob (l : list Z) i v :
  i < 0 \/ Z.of_nat (length l) <= i -> store l i v = Ub OutOfBounds.
Proof.
  intros H. unfold store.
  by destruct ((0 <=? i) && (i <? Z.of_nat (length l))) eqn:E; [lia|].
Qed.

Lemma load_in_range (l : list Z) i :
  0 <= i < Z.of_nat (length l) -> exists v, load l i = Ok v /\ v ∈ l.
Proof.
  intros H. destruct (lookup_lt_is_Some_2 l (Z.to_nat i)) as [v Hv]; [lia|].
  exists v. split; [|by eapply list_elem_of_lookup_2].
  rewrite <-(Z2Nat.id i) by lia. by apply load_ok.
Qed.

(** Writing the byte after a prefix extends the prefix. *)
Lemma take_store (l : list Z) n v :
  (n < length l)%nat -> take (S n) (<[n := v]> l) = take n l ++ [v].
Proof.
  intros H. rewrite (take_S_r _ n v) by by apply list_lookup_insert_eq.
  by rewrite take_insert_ge.
Qed.

(* ------------------------------------------------------------------ *)
(** ** Little-endian integers inside byte arrays

    Scratch areas and message headers are read and written through C
    structures; [get] and [put] access the [n]-byte member at offset [o]. *)

Fixpoint le_combine (l : list Z) : Z :=
  match l with [] => 0 | b :: l => b + 256 * le_combine l end.

Fixpoint le_split (n : nat) (v : Z) : list Z :=
  match n with O => [] | S n => v mod 256 :: le_split n (v / 256) end.

Record member := Member { offset : nat; size : nat }.

Definition get (f : member) (l : list Z) : Z :=
  le_combine (take (size f) (drop (offset f) l)).

Definition put (f : member) (v : Z) (l : list Z) : list Z :=
  take (offset f) l ++ le_split (size f) v ++ drop (offset f + size f) l.

#[global] Arguments get _ _ : simpl never.
#[global] Arguments put _ _ _ : simpl never.

(** Four bytes combined by shifts, the way the code assembles a 32-bit value. *)
Lemma lor_bytes_4 b1 b2 b3 b4 :
  is_u8 b1 -> is_u8 b2 -> is_u8 b3 ->
  Z.lor (Z.lor (Z.lor b1 (Z.shiftl b2 8)) (Z.shiftl b3 16)) (Z.shiftl b4 24) = le_combine [b1; b2; b3; b4].
Proof.
  unfold is_u8. intros. rewrite (lor_shiftl_add b1) by lia. rewrite (lor_shiftl_add _ b3) by lia.
  rewrite lor_shiftl_add by lia. cbn [le_combine]. lia.
Qed.

Definition fits (f : member) (l : list Z) : Prop :=
  (offset f + size f <= length l)%nat.

Definition disjoint_members (f g : member) : bool :=
  (offset f + size f <=? offset g)%nat || (offset g + size g <=? offset f)%nat.

Lemma length_le_split n v : length (le_split n v) = n.
Proof. revert v. induction n; intros; cbn; auto. Qed.

Lemma le_split_bytes n v : bytes (le_split n v).
Proof.
  revert v. induction n as [|n IH]; intros v; cbn; [constructor|].
  constructor; [apply u8_range|auto].
Qed.

Lemma le_combine_split_mod n v : le_combine (le_split n v) = v mod 256 ^ Z.of_nat n.
Proof.
  revert v. induction n as [|n IH]; intros v; cbn [le_combine le_split].
  - by rewrite Z.pow_0_r, Z.mod_1_r.
  - rewrite Nat2Z.inj_succ, Z.pow_succ_r, IH by lia.
    rewrite Z.rem_mul_r by lia. lia.
Qed.

Lemma le_combine_split n v : 0 <= v < 256 ^ Z.of_nat n -> le_combine (le_split n v) = v.
Proof. intros H. rewrite le_combine_split_mod. by apply Z.mod_small. Qed.

Lemma le_combine_range l : bytes l -> 0 <= le_combine l < 256 ^ Z.of_nat (length l).
Proof.
  induction 1 as [|b l Hb Hl IH]; cbn [le_combine length]; [lia|].
  unfold is_u8 in Hb. rewrite Nat2Z.inj_succ, Z.pow_succ_r by lia. lia.
Qed.

Lemma le_split_combine l : bytes l -> le_split (length l) (le_combine l) = l.
Proof.
  induction 1 as [|b l Hb Hl IH]; cbn [le_combine le_split length]; [done|].
  unfold is_u8 in Hb. f_equal.
  - rewrite Z.mul_comm, Z.mod_add, Z.mod_small; lia.
  - rewrite Z.mul_comm, Z.div_add, Z.div_small, Z.add_0_l by lia. done.
Qed.

Lemma length_put f v l : fits f l -> length (put f v l) = length l.
Proof.
  unfold fits, put. intros H. rewrite !length_app, length_take, length_le_split, length_drop. lia.
Qed.

(** A member holds the value written to it, reduced to the member's width. *)
Lemma get_put_eq f v l :
  fits f l -> get f (put f v l) = v mod 256 ^ Z.of_nat (size f).
Proof.
  unfold fits, get, put. intros H.
  rewrite drop_app_length' by (rewrite length_take; lia).
  rewrite take_app_length' by by rewrite length_le_split.
  apply le_combine_split_mod.
Qed.

Lemma get_put_ne f g v l :
  fits f l -> fits g l -> disjoint_members f g = true -> get f (put g v l) = get f l.
Proof.
  unfold fits, get, put. intros Hf Hg Hd. f_equal.
  apply list_eq. intros i. destruct (decide (i < size f)%nat) as [Hi|Hi].
  2: { rewrite !(lookup_ge_None_2 (take _ _)); [done| |]; rewrite length_take; lia. }
  rewrite !lookup_take_lt, !lookup_drop by done. unfold disjoint_members in Hd.
  rewrite orb_true_iff, !Nat.leb_le in Hd.
  destruct (decide (offset f + i < offset g)%nat).
  - rewrite lookup_app_l by (rewrite length_take; lia). by rewrite lookup_take_lt by lia.
  - rewrite lookup_app_r by (rewrite length_take; lia).
    rewrite lookup_app_r by (rewrite length_take, length_le_split; lia).
    rewrite lookup_drop, length_le_split, length_take. f_equal. lia.
Qed.

Lemma put_bytes f v l : bytes l -> bytes (put f v l).
Proof.
  intros H. unfold put. apply Forall_app. split; [by apply Forall_take|].
  apply Forall_app. split; [apply le_split_bytes|by apply Forall_drop].
Qed.

Lemma get_take f n l : (offset f + size f <= n)%nat -> get f (take n l) = get f l.
Proof.
  intros H. unfold get. rewrite skipn_firstn_comm, firstn_firstn. do 2 f_equal. lia.
Qed.

Lemma get_app f l l' : fits f l -> get f (l ++ l') = get f l.
Proof.
  unfold fits. intros H. rewrite <-(get_take f (length l)) by done. by rewrite take_app_length.
Qed.

Lemma get_range f l : bytes l -> fits f l -> 0 <= get f l < 256 ^ Z.of_nat (size f).
Proof.
  unfold fits, get. intros H Hf.
  pose proof (le_combine_range (take (size f) (drop (offset f) l))) as Hr.
  rewrite length_take, length_drop in Hr. replace (size f `min` _)%nat with (size f) in Hr by lia.
  apply Hr. by apply Forall_take, Forall_drop.
Qed.

(* ------------------------------------------------------------------ *)
(** ** Callbacks, strings and formatted output *)

(** A callback of the application; [None] is the null pointer. *)
Abbreviation callback := (option nat).

(** The arguments of a formatted print. *)
Inductive arg :=
| AInt (v : Z)                               (* an integer or a character *)
| AStr (s : string)                          (* a string constant *)
| AChars (l : list Z)                        (* a character array *)
| AFloat (f : SpecFloat.spec_float)          (* a floating-point number *)
| APtr (f : callback)                        (* the address of a callback *)
| AOpaque.                                   (* any other address *)

(** The text of a character array is read up to its terminator. *)
Definition printable (a : arg) : bool :=
  match a with AChars l => existsb (fun c => c =? 0) l | _ => true end.

(** The characters of a C string: the array up to its terminator. *)
Fixpoint c_string (l : list Z) : res (list Z) :=
  match l with
  | [] => Ub OutOfBounds
  | c :: l => if c =? 0 then Ok [] else res_bind (c_string l) (fun s => Ok (c :: s))
  end.

(** [nibble << 4] on [int] *)
Definition shift_left_int {S E} (v : Z) (n : Z) : M S E Z :=
  if v <? 0 then undefined NegativeShift else ret (Z.shiftl v n).

(* ------------------------------------------------------------------ *)
(** ** Code without a state that returns *)

Create HintDb prints.

Section returns.
  Context {E : Type}.

Definition returns {A} (m : M unit E A) (Q : A -> Prop) : Prop :=
  exists a ev, m tt = Ok (a, tt, ev) /\ Q a.

Lemma returns_ret {A} (a : A) (Q : A -> Prop) : Q a -> returns (ret a) Q.
Proof. by exists a, []. Qed.

Lemma returns_bind {A A'} (m : M unit E A) (k : A -> M unit E A') Q Q' :
  returns m Q -> (forall a, Q a -> returns (k a) Q') -> returns (bind m k) Q'.
Proof.
  intros (a & ev & Hm & HQ) Hk. destruct (Hk a HQ) as (a' & ev' & Hk' & HQ').
  exists a', (ev ++ ev'). by rewrite (bind_ok _ _ _ _ _ _ Hm), Hk'.
Qed.

Lemma returns_then {A} (m : M unit E unit) (k : M unit E A) Q :
  returns m (fun _ => True) -> returns k Q -> returns (m;; k) Q.
Proof. intros Hm Hk. eapply returns_bind; [exact Hm|]. by intros [] _. Qed.

Lemma returns_if {A} (b : bool) (m m' : M unit E A) Q :
  (b = true -> returns m Q) -> (b = false -> returns m' Q) -> returns (if b then m else m') Q.
Proof. destruct b; auto. Qed.

End returns.

(** Step over the output of a routine. *)
Ltac skip_prints := repeat (apply returns_then; [solve [auto with prints]|]).

(* ------------------------------------------------------------------ *)
(** ** Scratch areas

    Reads and writes of the members of a scratch area of at least [pad_size]
    bytes, shared by the parsers that keep their working values in one. *)

Class PadSize := pad_size : nat.

Section pads.
  Context `{PS : PadSize}.

Definition pad_ok (l : list Z) : Prop := (pad_size <= length l)%nat /\ bytes l.

Definition in_pad (f : member) : bool := (offset f + size f <=? pad_size)%nat.

Lemma pad_fits f l : pad_ok l -> in_pad f = true -> fits f l.
Proof. intros [H _]. unfold in_pad, fits. rewrite Nat.leb_le. lia. Qed.

Lemma pad_ok_put f v l : pad_ok l -> in_pad f = true -> pad_ok (put f v l).
Proof.
  intros Hl Hf. pose proof (pad_fits f l Hl Hf). destruct Hl. split.
  - by rewrite length_put.
  - by apply put_bytes.
Qed.

Lemma pad_get_eq f v l :
  pad_ok l -> in_pad f = true -> get f (put f v l) = v mod 256 ^ Z.of_nat (size f).
Proof. intros. apply get_put_eq. by apply pad_fits. Qed.

Lemma pad_get_ne f g v l :
  pad_ok l -> in_pad f = true -> in_pad g = true -> disjoint_members f g = true ->
  get f (put g v l) = get f l.
Proof. intros. apply get_put_ne; auto using pad_fits. Qed.

Lemma pad_get_range f l :
  pad_ok l -> in_pad f = true -> 0 <= get f l < 256 ^ Z.of_nat (size f).
Proof. intros Hl Hf. apply get_range; [apply Hl|by apply pad_fits]. Qed.

(** Members below an array do not change it. *)
Lemma drop_put_below f o v l :
  pad_ok l -> in_pad f = true -> (offset f + size f <= o)%nat -> drop o (put f v l) = drop o l.
Proof.
  intros Hl Hf Ho. pose proof (pad_fits f l Hl Hf) as Hfit. unfold fits in Hfit. unfold put.
  rewrite app_assoc, drop_app_ge by (rewrite length_app, length_take, length_le_split; lia).
  rewrite length_app, length_take, length_le_split, drop_drop. f_equal. lia.
Qed.

End pads.

Create HintDb pad.
#[export] Hint Resolve pad_ok_put : pad.
#[export] Hint Extern 1 (in_pad _ = true) => reflexivity : pad.
#[export] Hint Extern 1 (disjoint_members _ _ = true) => reflexivity : pad.

(** Reads of members after writes to others. *)
Ltac pad_simpl :=
  repeat first [rewrite pad_get_eq by auto 20 with pad | rewrite pad_get_ne by auto 20 with pad].
