(* ===== verification/Crc.v ===== *)
(** * Cyclic redundancy checks

    The lookup tables of [src/my_parser/Message_Parser.c] (CRC-32) and
    [src/lib/semp_crc24q.h] (CRC-24Q, used by [src/my_parser/Parse_RTCM.c]), the
    byte-at-a-time updates that use them, and a bit-at-a-time reference for
    each.  The theorems show that the tables are those of the two polynomials,
    that one table lookup is eight steps of the shift register, and that
    running a check over its own check bytes gives zero exactly for the right
    bytes. *)
From S2P Require Import Prelude.

(** [semp_crc32Table], the table of the reflected polynomial 0xEDB88320. *)
Definition semp_crc32Table : list Z := [
   0x00000000; 0x77073096; 0xEE0E612C; 0x990951BA; 0x076DC419; 0x706AF48F;
   0xE963A535; 0x9E6495A3; 0x0EDB8832; 0x79DCB8A4; 0xE0D5E91E; 0x97D2D988;
   0x09B64C2B; 0x7EB17CBD; 0xE7B82D07; 0x90BF1D91; 0x1DB71064; 0x6AB020F2;
   0xF3B97148; 0x84BE41DE; 0x1ADAD47D; 0x6DDDE4EB; 0xF4D4B551; 0x83D385C7;
   0x136C9856; 0x646BA8C0; 0xFD62F97A; 0x8A65C9EC; 0x14015C4F; 0x63066CD9;
   0xFA0F3D63; 0x8D080DF5; 0x3B6E20C8; 0x4C69105E; 0xD56041E4; 0xA2677172;
   0x3C03E4D1; 0x4B04D447; 0xD20D85FD; 0xA50AB56B; 0x35B5A8FA; 0x42B2986C;
   0xDBBBC9D6; 0xACBCF940; 0x32D86CE3; 0x45DF5C75; 0xDCD60DCF; 0xABD13D59;
   0x26D930AC; 0x51DE003A; 0xC8D75180; 0xBFD06116; 0x21B4F4B5; 0x56B3C423;
   0xCFBA9599; 0xB8BDA50F; 0x2802B89E; 0x5F058808; 0xC60CD9B2; 0xB10BE924;
   0x2F6F7C87; 0x58684C11; 0xC1611DAB; 0xB6662D3D; 0x76DC4190; 0x01DB7106;
   0x98D220BC; 0xEFD5102A; 0x71B18589; 0x06B6B51F; 0x9FBFE4A5; 0xE8B8D433;
   0x7807C9A2; 0x0F00F934; 0x9609A88E; 0xE10E9818; 0x7F6A0DBB; 0x086D3D2D;
   0x91646C97; 0xE6635C01; 0x6B6B51F4; 0x1C6C6162; 0x856530D8; 0xF262004E;
   0x6C0695ED; 0x1B01A57B; 0x8208F4C1; 0xF50FC457; 0x65B0D9C6; 0x12B7E950;
   0x8BBEB8EA; 0xFCB9887C; 0x62DD1DDF; 0x15DA2D49; 0x8CD37CF3; 0xFBD44C65;
   0x4DB26158; 0x3AB551CE; 0xA3BC0074; 0xD4BB30E2; 0x4ADFA541; 0x3DD895D7;
   0xA4D1C46D; 0xD3D6F4FB; 0x4369E96A; 0x346ED9FC; 0xAD678846; 0xDA60B8D0;
   0x44042D73; 0x33031DE5; 0xAA0A4C5F; 0xDD0D7CC9; 0x5005713C; 0x270241AA;
   0xBE0B1010; 0xC90C2086; 0x5768B525; 0x206F85B3; 0xB966D409; 0xCE61E49F;
   0x5EDEF90E; 0x29D9C998; 0xB0D09822; 0xC7D7A8B4; 0x59B33D17; 0x2EB40D81;
   0xB7BD5C3B; 0xC0BA6CAD; 0xEDB88320; 0x9ABFB3B6; 0x03B6E20C; 0x74B1D29A;
   0xEAD54739; 0x9DD277AF; 0x04DB2615; 0x73DC1683; 0xE3630B12; 0x94643B84;
   0x0D6D6A3E; 0x7A6A5AA8; 0xE40ECF0B; 0x9309FF9D; 0x0A00AE27; 0x7D079EB1;
   0xF00F9344; 0x8708A3D2; 0x1E01F268; 0x6906C2FE; 0xF762575D; 0x806567CB;
   0x196C3671; 0x6E6B06E7; 0xFED41B76; 0x89D32BE0; 0x10DA7A5A; 0x67DD4ACC;
   0xF9B9DF6F; 0x8EBEEFF9; 0x17B7BE43; 0x60B08ED5; 0xD6D6A3E8; 0xA1D1937E;
   0x38D8C2C4; 0x4FDFF252; 0xD1BB67F1; 0xA6BC5767; 0x3FB506DD; 0x48B2364B;
   0xD80D2BDA; 0xAF0A1B4C; 0x36034AF6; 0x41047A60; 0xDF60EFC3; 0xA867DF55;
   0x316E8EEF; 0x4669BE79; 0xCB61B38C; 0xBC66831A; 0x256FD2A0; 0x5268E236;
   0xCC0C7795; 0xBB0B4703; 0x220216B9; 0x5505262F; 0xC5BA3BBE; 0xB2BD0B28;
   0x2BB45A92; 0x5CB36A04; 0xC2D7FFA7; 0xB5D0CF31; 0x2CD99E8B; 0x5BDEAE1D;
   0x9B64C2B0; 0xEC63F226; 0x756AA39C; 0x026D930A; 0x9C0906A9; 0xEB0E363F;
   0x72076785; 0x05005713; 0x95BF4A82; 0xE2B87A14; 0x7BB12BAE; 0x0CB61B38;
   0x92D28E9B; 0xE5D5BE0D; 0x7CDCEFB7; 0x0BDBDF21; 0x86D3D2D4; 0xF1D4E242;
   0x68DDB3F8; 0x1FDA836E; 0x81BE16CD; 0xF6B9265B; 0x6FB077E1; 0x18B74777;
   0x88085AE6; 0xFF0F6A70; 0x66063BCA; 0x11010B5C; 0x8F659EFF; 0xF862AE69;
   0x616BFFD3; 0x166CCF45; 0xA00AE278; 0xD70DD2EE; 0x4E048354; 0x3903B3C2;
   0xA7672661; 0xD06016F7; 0x4969474D; 0x3E6E77DB; 0xAED16A4A; 0xD9D65ADC;
   0x40DF0B66; 0x37D83BF0; 0xA9BCAE53; 0xDEBB9EC5; 0x47B2CF7F; 0x30B5FFE9;
   0xBDBDF21C; 0xCABAC28A; 0x53B39330; 0x24B4A3A6; 0xBAD03605; 0xCDD70693;
   0x54DE5729; 0x23D967BF; 0xB3667A2E; 0xC4614AB8; 0x5D681B02; 0x2A6F2B94;
   0xB40BBE37; 0xC30C8EA1; 0x5A05DF1B; 0x2D02EF8D ].

(** [semp_crc24qTable], the table of the polynomial 0x1864CFB. *)
Definition semp_crc24qTable : list Z := [
   0x00000000; 0x01864CFB; 0x028AD50D; 0x030C99F6; 0x0493E6E1; 0x0515AA1A;
   0x061933EC; 0x079F7F17; 0x08A18139; 0x0927CDC2; 0x0A2B5434; 0x0BAD18CF;
   0x0C3267D8; 0x0DB42B23; 0x0EB8B2D5; 0x0F3EFE2E; 0x10C54E89; 0x11430272;
   0x124F9B84; 0x13C9D77F; 0x1456A868; 0x15D0E493; 0x16DC7D65; 0x175A319E;
   0x1864CFB0; 0x19E2834B; 0x1AEE1ABD; 0x1B685646; 0x1CF72951; 0x1D7165AA;
   0x1E7DFC5C; 0x1FFBB0A7; 0x200CD1E9; 0x218A9D12; 0x228604E4; 0x2300481F;
   0x249F3708; 0x25197BF3; 0x2615E205; 0x2793AEFE; 0x28AD50D0; 0x292B1C2B;
   0x2A2785DD; 0x2BA1C926; 0x2C3EB631; 0x2DB8FACA; 0x2EB4633C; 0x2F322FC7;
   0x30C99F60; 0x314FD39B; 0x32434A6D; 0x33C50696; 0x345A7981; 0x35DC357A;
   0x36D0AC8C; 0x3756E077; 0x38681E59; 0x39EE52A2; 0x3AE2CB54; 0x3B6487AF;
   0x3CFBF8B8; 0x3D7DB443; 0x3E712DB5; 0x3FF7614E; 0x4019A3D2; 0x419FEF29;
   0x429376DF; 0x43153A24; 0x448A4533; 0x450C09C8; 0x4600903E; 0x4786DCC5;
   0x48B822EB; 0x493E6E10; 0x4A32F7E6; 0x4BB4BB1D; 0x4C2BC40A; 0x4DAD88F1;
   0x4EA11107; 0x4F275DFC; 0x50DCED5B; 0x515AA1A0; 0x52563856; 0x53D074AD;
   0x544F0BBA; 0x55C94741; 0x56C5DEB7; 0x5743924C; 0x587D6C62; 0x59FB2099;
   0x5AF7B96F; 0x5B71F594; 0x5CEE8A83; 0x5D68C678; 0x5E645F8E; 0x5FE21375;
   0x6015723B; 0x61933EC0; 0x629FA736; 0x6319EBCD; 0x648694DA; 0x6500D821;
   0x660C41D7; 0x678A0D2C; 0x68B4F302; 0x6932BFF9; 0x6A3E260F; 0x6BB86AF4;
   0x6C2715E3; 0x6DA15918; 0x6EADC0EE; 0x6F2B8C15; 0x70D03CB2; 0x71567049;
   0x725AE9BF; 0x73DCA544; 0x7443DA53; 0x75C596A8; 0x76C90F5E; 0x774F43A5;
   0x7871BD8B; 0x79F7F170; 0x7AFB6886; 0x7B7D247D; 0x7CE25B6A; 0x7D641791;
   0x7E688E67; 0x7FEEC29C; 0x803347A4; 0x81B50B5F; 0x82B992A9; 0x833FDE52;
   0x84A0A145; 0x8526EDBE; 0x862A7448; 0x87AC38B3; 0x8892C69D; 0x89148A66;
   0x8A181390; 0x8B9E5F6B; 0x8C01207C; 0x8D876C87; 0x8E8BF571; 0x8F0DB98A;
   0x90F6092D; 0x917045D6; 0x927CDC20; 0x93FA90DB; 0x9465EFCC; 0x95E3A337;
   0x96EF3AC1; 0x9769763A; 0x98578814; 0x99D1C4EF; 0x9ADD5D19; 0x9B5B11E2;
   0x9CC46EF5; 0x9D42220E; 0x9E4EBBF8; 0x9FC8F703; 0xA03F964D; 0xA1B9DAB6;
   0xA2B54340; 0xA3330FBB; 0xA4AC70AC; 0xA52A3C57; 0xA626A5A1; 0xA7A0E95A;
   0xA89E1774; 0xA9185B8F; 0xAA14C279; 0xAB928E82; 0xAC0DF195; 0xAD8BBD6E;
   0xAE872498; 0xAF016863; 0xB0FAD8C4; 0xB17C943F; 0xB2700DC9; 0xB3F64132;
   0xB4693E25; 0xB5EF72DE; 0xB6E3EB28; 0xB765A7D3; 0xB85B59FD; 0xB9DD1506;
   0xBAD18CF0; 0xBB57C00B; 0xBCC8BF1C; 0xBD4EF3E7; 0xBE426A11; 0xBFC426EA;
   0xC02AE476; 0xC1ACA88D; 0xC2A0317B; 0xC3267D80; 0xC4B90297; 0xC53F4E6C;
   0xC633D79A; 0xC7B59B61; 0xC88B654F; 0xC90D29B4; 0xCA01B042; 0xCB87FCB9;
   0xCC1883AE; 0xCD9ECF55; 0xCE9256A3; 0xCF141A58; 0xD0EFAAFF; 0xD169E604;
   0xD2657FF2; 0xD3E33309; 0xD47C4C1E; 0xD5FA00E5; 0xD6F69913; 0xD770D5E8;
   0xD84E2BC6; 0xD9C8673D; 0xDAC4FECB; 0xDB42B230; 0xDCDDCD27; 0xDD5B81DC;
   0xDE57182A; 0xDFD154D1; 0xE026359F; 0xE1A07964; 0xE2ACE092; 0xE32AAC69;
   0xE4B5D37E; 0xE5339F85; 0xE63F0673; 0xE7B94A88; 0xE887B4A6; 0xE901F85D;
   0xEA0D61AB; 0xEB8B2D50; 0xEC145247; 0xED921EBC; 0xEE9E874A; 0xEF18CBB1;
   0xF0E37B16; 0xF16537ED; 0xF269AE1B; 0xF3EFE2E0; 0xF4709DF7; 0xF5F6D10C;
   0xF6FA48FA; 0xF77C0401; 0xF842FA2F; 0xF9C4B6D4; 0xFAC82F22; 0xFB4E63D9;
   0xFCD11CCE; 0xFD575035; 0xFE5BC9C3; 0xFFDD8538 ].

(** [t[i]] of a constant table; every index of the sources is masked to 8 bits. *)
Definition table_at (t : list Z) (i : Z) : Z := nth (Z.to_nat i) t 0.

(* ------------------------------------------------------------------ *)
(** ** CRC-32 *)

(** [table[(crc ^ data) & 0xff] ^ (crc >> 8)] on 32 bits *)
Definition crc32_lookup (table : list Z) (crc data : Z) : Z :=
  u32 (Z.lxor (table_at table (Z.land (Z.lxor crc data) 0xff)) (Z.shiftr crc 8)).

Definition crc32_update (crc data : Z) : Z := crc32_lookup semp_crc32Table crc data.

Definition crc32_run (crc : Z) (l : list Z) : Z := foldl crc32_update crc l.

(** The reference: one step of the reflected shift register. *)
Definition crc32_bit (c : Z) : Z :=
  if Z.odd c then Z.lxor (Z.shiftr c 1) 0xEDB88320 else Z.shiftr c 1.

Definition crc32_byte (c : Z) : Z := Nat.iter 8 crc32_bit c.

Lemma crc32_table_ref i :
  is_u8 i -> table_at semp_crc32Table i = crc32_byte i.
Proof.
  assert (forallb (fun k => table_at semp_crc32Table (Z.of_nat k) =? crc32_byte (Z.of_nat k))
            (seq 0 256) = true) as H by by vm_compute.
  rewrite forallb_forall in H. intros Hi. unfold is_u8 in Hi.
  specialize (H (Z.to_nat i)). rewrite Z2Nat.id, Z.eqb_eq in H by lia.
  apply H, in_seq. lia.
Qed.

Lemma crc32_bit_lxor x y : crc32_bit (Z.lxor x y) = Z.lxor (crc32_bit x) (crc32_bit y).
Proof.
  unfold crc32_bit. rewrite Z.shiftr_lxor.
  rewrite <-!Z.bit0_odd, Z.lxor_spec.
  destruct (Z.testbit x 0), (Z.testbit y 0); cbn [xorb];
    apply Z.bits_inj'; intros i Hi; rewrite !Z.lxor_spec;
    repeat match goal with |- context [Z.testbit ?z i] => destruct (Z.testbit z i) end; done.
Qed.

Lemma crc32_iter_lxor n x y :
  Nat.iter n crc32_bit (Z.lxor x y) = Z.lxor (Nat.iter n crc32_bit x) (Nat.iter n crc32_bit y).
Proof. induction n as [|n IH]; [done|]. by rewrite !Nat.iter_succ, IH, crc32_bit_lxor. Qed.

Lemma crc32_byte_lxor x y : crc32_byte (Z.lxor x y) = Z.lxor (crc32_byte x) (crc32_byte y).
Proof. apply crc32_iter_lxor. Qed.

Lemma crc32_iter_shiftl n y : Nat.iter n crc32_bit (Z.shiftl y (Z.of_nat n)) = y.
Proof.
  revert y. induction n as [|n IH]; intros y; [apply Z.shiftl_0_r|].
  rewrite Nat.iter_succ_r. rewrite <-(IH y) at 2. f_equal. unfold crc32_bit.
  rewrite <-Z.bit0_odd, Z.shiftl_spec_low by lia.

  rewrite Z.shiftr_shiftl_l by lia. f_equal. lia.
Qed.

Lemma crc32_byte_shiftl y : crc32_byte (Z.shiftl y 8) = y.
Proof. apply (crc32_iter_shiftl 8). Qed.

Lemma crc32_bit_range x : is_u32 x -> is_u32 (crc32_bit x).
Proof.
  intros H. unfold crc32_bit.
  assert (is_u32 (Z.shiftr x 1)).
  { unfold is_u32 in *. rewrite Z.shiftr_div_pow2 by lia. mlia. }
  destruct (Z.odd x); [|done]. apply lxor_u32; [done|done].
Qed.

Lemma crc32_iter_range n x : is_u32 x -> is_u32 (Nat.iter n crc32_bit x).
Proof. intros H. induction n; [done|]. rewrite Nat.iter_succ. by apply crc32_bit_range. Qed.

Lemma crc32_bit_zero x : is_u32 x -> crc32_bit x = 0 -> x = 0.
Proof.
  intros H. unfold crc32_bit, is_u32 in *. rewrite Z.shiftr_div_pow2 by lia.
  destruct (Z.odd x) eqn:E; intros H0.
  - apply Z.lxor_eq in H0. exfalso. mlia.
  - rewrite <-Z.negb_even, negb_false_iff, Z.even_spec in E. destruct E as [k ->]. mlia.
Qed.

Lemma crc32_iter_zero n x : is_u32 x -> Nat.iter n crc32_bit x = 0 -> x = 0.
Proof.
  revert x. induction n as [|n IH]; intros x Hx H; [done|].
  rewrite Nat.iter_succ_r in H. apply crc32_bit_zero; [done|].
  apply IH; [by apply crc32_bit_range|done].
Qed.

Lemma crc32_iter_0 n : Nat.iter n crc32_bit 0 = 0.
Proof. induction n as [|n IH]; [done|]. by rewrite Nat.iter_succ, IH. Qed.

(** A byte is its low and its high part. *)
Lemma split_low8 x : x = Z.lxor (Z.land x 0xff) (Z.shiftl (Z.shiftr x 8) 8).
Proof.
  apply Z.bits_inj'. intros i Hi. rewrite Z.lxor_spec, Z.land_spec.
  change 0xff with (Z.ones 8). destruct (decide (i < 8)).
  - rewrite Z.ones_spec_low, Z.shiftl_spec_low by lia. by rewrite andb_true_r, xorb_false_r.
  - rewrite Z.ones_spec_high, Z.shiftl_spec, Z.shiftr_spec by lia.
    rewrite andb_false_r, xorb_false_l. f_equal. lia.
Qed.

Lemma shiftr_lxor_byte c b : is_u8 b -> Z.shiftr (Z.lxor c b) 8 = Z.shiftr c 8.
Proof.
  intros Hb. rewrite Z.shiftr_lxor, (Z.shiftr_div_pow2 b) by lia.
  unfold is_u8 in Hb. by rewrite Z.div_small, Z.lxor_0_r by lia.
Qed.

Lemma crc32_update_ref c b :
  is_u32 c -> is_u8 b -> crc32_update c b = crc32_byte (Z.lxor c b).
Proof.
  intros Hc Hb. unfold crc32_update, crc32_lookup.
  rewrite crc32_table_ref by (rewrite land_ff; apply u8_range).
  rewrite (split_low8 (Z.lxor c b)) at 2.
  rewrite shiftr_lxor_byte by done.
  rewrite crc32_byte_lxor, crc32_byte_shiftl. apply u32_id.
  apply lxor_u32; [|unfold is_u32 in *; rewrite Z.shiftr_div_pow2 by lia; mlia].
  apply crc32_iter_range. rewrite land_ff. apply is_u8_u32, u8_range.
Qed.

Lemma crc32_update_range c b : is_u32 (crc32_update c b).
Proof. apply u32_range. Qed.
#[export] Hint Resolve crc32_update_range : width.

Lemma crc32_run_range c l : is_u32 c -> is_u32 (crc32_run c l).
Proof.
  unfold crc32_run. revert c. induction l as [|b l IH]; intros c Hc; cbn; [done|].
  apply IH, crc32_update_range.
Qed.
#[export] Hint Resolve crc32_run_range : width.

Lemma crc32_run_app c l1 l2 : crc32_run c (l1 ++ l2) = crc32_run (crc32_run c l1) l2.
Proof. apply foldl_app. Qed.

(** Running the check over [l] is shifting the register by [8 * length l] after
    combining it with [l] read as a little-endian number. *)
Lemma crc32_run_combine c l :
  is_u32 c -> bytes l ->
  crc32_run c l = Nat.iter (8 * length l) crc32_bit (Z.lxor c (le_combine l)).
Proof.
  intros Hc Hl. revert c Hc.
  induction Hl as [|b l Hb Hl IH]; intros c Hc; [by cbn; rewrite Z.lxor_0_r|].
  change (crc32_run c (b :: l)) with (crc32_run (crc32_update c b) l).
  rewrite IH by auto with width. rewrite crc32_update_ref by done.
  rewrite <-(crc32_byte_shiftl (le_combine l)), <-crc32_byte_lxor.
  unfold crc32_byte. rewrite <-Nat.iter_add. cbn [length le_combine].
  replace (8 * length l + 8)%nat with (8 * S (length l))%nat by lia. f_equal.
  rewrite Z.lxor_assoc. f_equal. rewrite lxor_shiftl_add; [lia|lia|done].
Qed.

(** The register reaches zero over four bytes exactly when they are the
    register, least significant byte first. *)
Lemma crc32_residue c l :
  is_u32 c -> bytes l -> length l = 4%nat ->
  crc32_run c l = 0 <-> l = le_split 4 c.
Proof.
  intros Hc Hl Hlen. rewrite crc32_run_combine by done.
  pose proof (le_combine_range l Hl) as Hr. rewrite Hlen in Hr.
  split.
  - intros H. apply crc32_iter_zero in H.
    + apply Z.lxor_eq in H. rewrite <-(le_split_combine l) by done. by rewrite Hlen, H.
    + apply lxor_u32; [done|]. exact Hr.
  - intros ->. rewrite le_combine_split by done. rewrite Z.lxor_nilpotent.
    apply crc32_iter_0.
Qed.

(* ------------------------------------------------------------------ *)
(** ** CRC-24Q *)

Definition is_u24 (x : Z) : Prop := 0 <= x < 0x1000000.

(** [((crc << 8) ^ semp_crc24qTable[data ^ ((crc >> 16) & 0xff)]) & 0x00ffffff] *)
Definition crc24q_update (crc data : Z) : Z :=
  Z.land
    (u32 (Z.lxor (u32 (Z.shiftl crc 8))
            (table_at semp_crc24qTable (Z.lxor data (Z.land (Z.shiftr crc 16) 0xff)))))
    0x00ffffff.

Definition crc24q_run (crc : Z) (l : list Z) : Z := foldl crc24q_update crc l.

(** The reference: one step of the shift register, most significant bit first. *)
Definition crc24q_bit (c : Z) : Z :=
  if Z.testbit c 23 then Z.lxor (Z.shiftl c 1) 0x1864CFB else Z.shiftl c 1.

Definition crc24q_byte (c : Z) : Z := Nat.iter 8 crc24q_bit c.

Lemma crc24q_table_ref i :
  is_u8 i ->
  Z.land (table_at semp_crc24qTable i) 0xffffff = crc24q_byte (Z.shiftl i 16) /\
  is_u32 (table_at semp_crc24qTable i).
Proof.
  assert (forallb (fun k => let i := Z.of_nat k in
            (Z.land (table_at semp_crc24qTable i) 0xffffff =? crc24q_byte (Z.shiftl i 16))
            && (0 <=? table_at semp_crc24qTable i) && (table_at semp_crc24qTable i <? 0x100000000))
            (seq 0 256) = true) as H by by vm_compute.
  rewrite forallb_forall in H. intros Hi. unfold is_u8, is_u32 in *.
  specialize (H (Z.to_nat i)). rewrite Z2Nat.id in H by lia. cbn zeta in H.
  rewrite !andb_true_iff, Z.eqb_eq in H. destruct H as [[-> ?] ?]; [apply in_seq; lia|].
  split; [done|lia].
Qed.

Lemma crc24q_bit_lxor x y : crc24q_bit (Z.lxor x y) = Z.lxor (crc24q_bit x) (crc24q_bit y).
Proof.
  unfold crc24q_bit. rewrite Z.shiftl_lxor, Z.lxor_spec.
  destruct (Z.testbit x 23), (Z.testbit y 23); cbn [xorb];
    apply Z.bits_inj'; intros i Hi; rewrite !Z.lxor_spec;
    repeat match goal with |- context [Z.testbit ?z i] => destruct (Z.testbit z i) end; done.
Qed.

Lemma crc24q_iter_lxor n x y :
  Nat.iter n crc24q_bit (Z.lxor x y) = Z.lxor (Nat.iter n crc24q_bit x) (Nat.iter n crc24q_bit y).
Proof. induction n as [|n IH]; [done|]. by rewrite !Nat.iter_succ, IH, crc24q_bit_lxor. Qed.

Lemma testbit23_range x : is_u24 x -> Z.testbit x 23 = (0x800000 <=? x).
Proof.
  intros Hx. unfold is_u24 in Hx. rewrite Z.testbit_odd, Z.shiftr_div_pow2 by lia.
  change (2 ^ 23) with 0x800000. destruct (0x800000 <=? x) eqn:E.
  - assert (x / 0x800000 = 1) as -> by mlia. done.
  - by rewrite Z.div_small by lia.
Qed.

Lemma crc24q_bit_range x : is_u24 x -> is_u24 (crc24q_bit x).
Proof.
  intros Hx. unfold crc24q_bit. rewrite testbit23_range by done. unfold is_u24 in *.
  rewrite Z.shiftl_mul_pow2 by lia. change (2 ^ 1) with 2.
  destruct (0x800000 <=? x) eqn:E; [|lia].
  replace (x * 2) with (Z.lxor (x * 2 - 0x1000000) (Z.shiftl 1 24))
    by (rewrite lxor_shiftl_add; lia).
  rewrite Z.lxor_assoc. change (Z.lxor (Z.shiftl 1 24) 0x1864CFB) with 0x864CFB.
  apply (lxor_range _ _ 24); lia.
Qed.

Lemma crc24q_bit_zero x : is_u24 x -> crc24q_bit x = 0 -> x = 0.
Proof.
  intros Hx. unfold crc24q_bit. rewrite testbit23_range by done.
  rewrite Z.shiftl_mul_pow2 by lia. destruct (0x800000 <=? x); [|lia].
  intros H. apply Z.lxor_eq in H. lia.
Qed.

Lemma crc24q_iter_zero n x : is_u24 x -> Nat.iter n crc24q_bit x = 0 -> x = 0.
Proof.
  revert x. induction n as [|n IH]; intros x Hx H; [done|].
  rewrite Nat.iter_succ_r in H. apply crc24q_bit_zero; [done|].
  apply IH; [by apply crc24q_bit_range|done].
Qed.

(** A register with its upper [n] bits clear is shifted without feedback. *)
Lemma crc24q_iter_shiftl n x :
  (n <= 24)%nat -> 0 <= x < 2 ^ (24 - Z.of_nat n) ->
  Nat.iter n crc24q_bit x = Z.shiftl x (Z.of_nat n).
Proof.
  revert x. induction n as [|n IH]; intros x Hn Hx; [by rewrite Z.shiftl_0_r|].
  assert (2 * 2 ^ (24 - Z.of_nat (S n)) = 2 ^ (24 - Z.of_nat n)) as Hp.
  { rewrite <-Z.pow_succ_r by lia. f_equal. lia. }
  assert (2 ^ (24 - Z.of_nat n) <= 2 ^ 24) by (apply Z.pow_le_mono_r; lia).
  rewrite Nat.iter_succ_r. assert (crc24q_bit x = Z.shiftl x 1) as ->.
  { unfold crc24q_bit. rewrite testbit23_range by (unfold is_u24; lia).
    by destruct (0x800000 <=? x) eqn:E; [lia|]. }
  rewrite IH by (rewrite ?Z.shiftl_mul_pow2; lia).
  rewrite Z.shiftl_shiftl by lia. f_equal. lia.
Qed.

Lemma crc24q_byte_shiftl x : 0 <= x < 0x10000 -> crc24q_byte x = Z.shiftl x 8.
Proof. intros H. apply (crc24q_iter_shiftl 8); [lia|exact H]. Qed.

Lemma crc24q_byte_lxor x y : crc24q_byte (Z.lxor x y) = Z.lxor (crc24q_byte x) (crc24q_byte y).
Proof. apply crc24q_iter_lxor. Qed.

(** A register is its low sixteen bits and its top byte. *)
Lemma split_high8 x : is_u24 x ->
  x = Z.lxor (x mod 0x10000) (Z.shiftl (Z.land (Z.shiftr x 16) 0xff) 16).
Proof.
  intros Hx. unfold is_u24 in Hx.
  rewrite land_ff, Z.shiftr_div_pow2 by lia. change (2 ^ 16) with 0x10000.
  rewrite (Z.mod_small (x / 0x10000)) by mlia.
  rewrite lxor_shiftl_add by mlia. change (2 ^ 16) with 0x10000. mlia.
Qed.

Lemma land_24 x : Z.land x 0xffffff = x mod 0x1000000.
Proof. change 0xffffff with (Z.ones 24). by rewrite Z.land_ones. Qed.

Lemma crc24q_update_range c b : is_u24 (crc24q_update c b).
Proof. unfold crc24q_update. rewrite land_24. unfold is_u24. mlia. Qed.

Lemma is_u24_u32 c : is_u24 c -> is_u32 c.
Proof. unfold is_u24, is_u32. lia. Qed.
#[export] Hint Resolve crc24q_update_range is_u24_u32 : width.

Lemma crc24q_update_ref c b :
  is_u24 c -> is_u8 b -> crc24q_update c b = crc24q_byte (Z.lxor c (Z.shiftl b 16)).
Proof.
  intros Hc Hb. unfold crc24q_update.
  set (h := Z.land (Z.shiftr c 16) 0xff).
  assert (is_u8 h) as Hh by (unfold h; rewrite land_ff; apply u8_range).
  assert (0 <= c mod 0x10000 < 0x10000) as Hlo by mlia.
  destruct (crc24q_table_ref (Z.lxor b h)) as [Ht Hr]; [auto with width|].
  rewrite (u32_id (Z.lxor _ _)) by auto with width.
  assert (Z.land (Z.lxor (u32 (Z.shiftl c 8)) (table_at semp_crc24qTable (Z.lxor b h))) 0xffffff
     = Z.lxor (Z.shiftl (c mod 0x10000) 8) (crc24q_byte (Z.shiftl (Z.lxor b h) 16))) as ->.
  { rewrite <-Ht, !land_24. unfold u32.
    replace (Z.shiftl (c mod 0x10000) 8) with ((Z.shiftl c 8 mod 0x100000000) mod 0x1000000).
    2: { rewrite !Z.shiftl_mul_pow2 by lia. change (2 ^ 8) with 256. unfold is_u24 in Hc. mlia. }
    rewrite <-!land_24. apply Z.bits_inj'. intros i Hi.
    rewrite !Z.land_spec, !Z.lxor_spec, !Z.land_spec.
    destruct (Z.testbit 0xffffff i); rewrite ?andb_true_r, ?andb_false_r; done. }
  rewrite (split_high8 c) at 2 by done. fold h.
  rewrite Z.lxor_assoc, <-Z.shiftl_lxor, (Z.lxor_comm h b).
  by rewrite crc24q_byte_lxor, (crc24q_byte_shiftl (c mod _)).
Qed.

Lemma crc24q_run_range c l : is_u24 c -> is_u24 (crc24q_run c l).
Proof.
  unfold crc24q_run. revert c. induction l as [|b l IH]; intros c Hc; cbn; [done|].
  apply IH, crc24q_update_range.
Qed.

Lemma crc24q_run_app c l1 l2 : crc24q_run c (l1 ++ l2) = crc24q_run (crc24q_run c l1) l2.
Proof. apply foldl_app. Qed.

(** The register reaches zero over three bytes exactly when they are the
    register, most significant byte first. *)
Lemma crc24q_residue c b0 b1 b2 :
  is_u24 c -> is_u8 b0 -> is_u8 b1 -> is_u8 b2 ->
  crc24q_run c [b0; b1; b2] = 0 <-> [b0; b1; b2] = rev (le_split 3 c).
Proof.
  intros Hc H0 H1 H2. unfold crc24q_run. cbn [foldl].
  assert (forall b, is_u8 b -> is_u24 (Z.shiftl b 16)) as Hs.
  { intros b. unfold is_u8, is_u24. rewrite Z.shiftl_mul_pow2 by lia. lia. }
  rewrite !crc24q_update_ref by auto with width.
  assert (Z.shiftl b1 16 = crc24q_byte (Z.shiftl b1 8)) as ->.
  { unfold is_u8 in *. rewrite crc24q_byte_shiftl by (rewrite Z.shiftl_mul_pow2; lia).
    by rewrite Z.shiftl_shiftl by lia. }
  assert (Z.shiftl b2 16 = crc24q_byte (crc24q_byte b2)) as ->.
  { unfold is_u8 in *. rewrite (crc24q_byte_shiftl b2) by lia.
    rewrite crc24q_byte_shiftl by (rewrite Z.shiftl_mul_pow2; lia).
    by rewrite Z.shiftl_shiftl by lia. }
  rewrite <-!crc24q_byte_lxor. unfold crc24q_byte. rewrite <-!Nat.iter_add.
  set (v := b2 + (b1 + b0 * 256) * 256).
  assert (Z.lxor (Z.lxor (Z.lxor c (Z.shiftl b0 16)) (Z.shiftl b1 8)) b2 = Z.lxor c v) as ->.
  { unfold v. change 256 with (2 ^ 8).
    rewrite <-(lxor_shiftl_add b1 b0 8), <-(lxor_shiftl_add b2 _ 8) by (done || lia).
    rewrite Z.shiftl_lxor, Z.shiftl_shiftl by lia.
    rewrite !Z.lxor_assoc. f_equal. rewrite (Z.lxor_comm (Z.shiftl b0 16)).
    rewrite (Z.lxor_comm _ b2), !Z.lxor_assoc. done. }
  unfold is_u8, is_u24 in *. split.
  - intros H. apply crc24q_iter_zero in H; [|apply (lxor_range c v 24); unfold v; lia].
    apply Z.lxor_eq in H. subst c. cbn. unfold v. repeat f_equal; mlia.
  - intros H. cbn in H. injection H as E0 E1 E2.
    assert (c = v) as -> by (unfold v; mlia). rewrite Z.lxor_nilpotent. reflexivity.
Qed.
