(* ===== verification/ParseState.v ===== *)
(** * The parse structure

    The data types of [src/my_parser/Message_Parser.h]: the parse structure, its
    scratch area, the routines and callbacks it points at, and the events an
    application observes.  Function pointers are names: a routine of the library
    is a constructor, a callback of the application is [Some] number or [None]
    for a null pointer. *)
From S2P Require Import Prelude.

(** ** Routines of the library *)

(** The entries of a parser table: the preamble routine of each protocol. *)
Inductive PREAMBLE_ROUTINE :=
| fn_sempNmeaPreamble
| fn_sempRtcmPreamble
| fn_sempUbloxPreamble
| fn_sempUnicoreBinaryPreamble
| fn_sempUnicoreHashPreamble
| fn_sempCustomPreamble.

(** The values of the [state] member: the routine that takes the next byte. *)
Inductive SEMP_PARSE_ROUTINE :=
| fn_sempFirstByte
| fn_sempNmeaFindFirstComma
| fn_sempNmeaFindAsterisk
| fn_sempNmeaChecksumByte1
| fn_sempNmeaChecksumByte2
| fn_sempNmeaLineTermination
| fn_sempNmeaCarriageReturn
| fn_sempNmeaLineFeed
| fn_sempRtcmReadLength1
| fn_sempRtcmReadLength2
| fn_sempRtcmReadMessage1
| fn_sempRtcmReadMessage2
| fn_sempRtcmReadData
| fn_sempRtcmReadCrc
| fn_sempUbloxSync2
| fn_sempUbloxClass
| fn_sempUbloxId
| fn_sempUbloxLength1
| fn_sempUbloxLength2
| fn_sempUbloxPayload
| fn_sempUbloxCkB
| fn_sempUnicoreBinarySync2
| fn_sempUnicoreBinarySync3
| fn_sempUnicoreBinaryReadHeader
| fn_sempUnicoreBinaryReadData
| fn_sempUnicoreBinaryReadCrc
| fn_sempUnicoreHashFindFirstComma
| fn_sempUnicoreHashFindAsterisk
| fn_sempUnicoreHashChecksumByte
| fn_sempUnicoreHashLineTermination
| fn_sempUnicoreHashCarriageReturn
| fn_sempUnicoreHashLineFeed
| fn_sempCustomSync2
| fn_sempCustomSync3
| fn_sempCustomReadHeader
| fn_sempCustomReadData
| fn_sempCustomReadCrc.

(** The values of the [computeCrc] member. *)
Inductive SEMP_COMPUTE_CRC :=
| fn_sempRtcmComputeCrc24q
| fn_sempUnicoreBinaryComputeCrc
| fn_sempCustomComputeCrc.

#[global] Instance PREAMBLE_ROUTINE_eq_dec : EqDecision PREAMBLE_ROUTINE.
Proof. solve_decision. Defined.
#[global] Instance SEMP_PARSE_ROUTINE_eq_dec : EqDecision SEMP_PARSE_ROUTINE.
Proof. solve_decision. Defined.
#[global] Instance SEMP_COMPUTE_CRC_eq_dec : EqDecision SEMP_COMPUTE_CRC.
Proof. solve_decision. Defined.

(* ------------------------------------------------------------------ *)
(** ** The scratch area

    [SEMP_SCRATCH_PAD] is a union: the members of the protocols overlap.  The
    model keeps its bytes; a member is its offset and size under the usual
    alignment rules. *)

Definition SEMP_NMEA_SENTENCE_NAME_BYTES : nat := 16.
Definition SEMP_UNICORE_HASH_SENTENCE_NAME_BYTES : nat := 16.

Definition nmea_sentenceName : nat := 0.
Definition nmea_sentenceNameLength : member := Member 16 1.

Definition rtcm_crc : member := Member 0 4.
Definition rtcm_bytesRemaining : member := Member 4 2.
Definition rtcm_message : member := Member 6 2.

Definition ublox_bytesRemaining : member := Member 0 2.
Definition ublox_message : member := Member 2 2.
Definition ublox_ck_a : member := Member 4 1.
Definition ublox_ck_b : member := Member 5 1.

Definition unicoreBinary_crc : member := Member 0 4.
Definition unicoreBinary_bytesRemaining : member := Member 4 2.

Definition unicoreHash_bytesRemaining : member := Member 0 1.
Definition unicoreHash_checksumBytes : member := Member 1 1.
Definition unicoreHash_sentenceName : nat := 2.
Definition unicoreHash_sentenceNameLength : member := Member 18 1.

Definition custom_crc : member := Member 0 4.
Definition custom_bytesRemaining : member := Member 4 2.

(** [sizeof(SEMP_SCRATCH_PAD)]: nineteen bytes of the largest member, padded to
    the alignment of its 32-bit members. *)
Definition sizeof_SEMP_SCRATCH_PAD : Z := 20.

(* ------------------------------------------------------------------ *)
(** ** The parse structure and the observable events *)

Record SEMP_PARSE_STATE := mkParse {
  parserName : string;
  parsers_table : list PREAMBLE_ROUTINE;
  parserNames_table : list string;
  parsers_count : Z;
  parser_type : Z;
  state : SEMP_PARSE_ROUTINE;
  eomCallback : callback;
  badCrc : callback;
  computeCrc : option SEMP_COMPUTE_CRC;
  printError : callback;
  printDebug : callback;
  scratchPad : list Z;
  crc : Z;
  buffer : list Z;
  msg_length : Z;
  buffer_length : Z
}.

(** [EvPrint f format args] is the call [f(format, args)], and [EvLine f format
    args] the call [f(s, text)] with the format s for one string, where [text] is [args] formatted by [format]
    and followed by CR LF. *)
Inductive Event :=
| EvEom (f : nat) (parse : SEMP_PARSE_STATE) (type : Z)
| EvBadCrc (f : nat) (parse : SEMP_PARSE_STATE)
| EvPrint (f : nat) (format : string) (args : list arg)
| EvLine (f : nat) (format : string) (args : list arg).

(** The application's [badCrc] callbacks: the answer of callback [f] on a parse
    structure ([true]: the message is bad).  Callbacks read the structure. *)
Class Application := badCrc_fn : nat -> SEMP_PARSE_STATE -> bool.

Abbreviation P := (M SEMP_PARSE_STATE Event).

(** ** Member updates *)

Definition with_parser_type (v : Z) (p : SEMP_PARSE_STATE) : SEMP_PARSE_STATE :=
  mkParse (parserName p) (parsers_table p) (parserNames_table p) (parsers_count p) v
    (state p) (eomCallback p) (badCrc p) (computeCrc p) (printError p) (printDebug p)
    (scratchPad p) (crc p) (buffer p) (msg_length p) (buffer_length p).
Definition with_state (v : SEMP_PARSE_ROUTINE) (p : SEMP_PARSE_STATE) : SEMP_PARSE_STATE :=
  mkParse (parserName p) (parsers_table p) (parserNames_table p) (parsers_count p) (parser_type p)
    v (eomCallback p) (badCrc p) (computeCrc p) (printError p) (printDebug p)
    (scratchPad p) (crc p) (buffer p) (msg_length p) (buffer_length p).
Definition with_computeCrc (v : option SEMP_COMPUTE_CRC) (p : SEMP_PARSE_STATE) : SEMP_PARSE_STATE :=
  mkParse (parserName p) (parsers_table p) (parserNames_table p) (parsers_count p) (parser_type p)
    (state p) (eomCallback p) (badCrc p) v (printError p) (printDebug p)
    (scratchPad p) (crc p) (buffer p) (msg_length p) (buffer_length p).
Definition with_printError (v : callback) (p : SEMP_PARSE_STATE) : SEMP_PARSE_STATE :=
  mkParse (parserName p) (parsers_table p) (parserNames_table p) (parsers_count p) (parser_type p)
    (state p) (eomCallback p) (badCrc p) (computeCrc p) v (printDebug p)
    (scratchPad p) (crc p) (buffer p) (msg_length p) (buffer_length p).
Definition with_printDebug (v : callback) (p : SEMP_PARSE_STATE) : SEMP_PARSE_STATE :=
  mkParse (parserName p) (parsers_table p) (parserNames_table p) (parsers_count p) (parser_type p)
    (state p) (eomCallback p) (badCrc p) (computeCrc p) (printError p) v
    (scratchPad p) (crc p) (buffer p) (msg_length p) (buffer_length p).
Definition with_scratchPad (v : list Z) (p : SEMP_PARSE_STATE) : SEMP_PARSE_STATE :=
  mkParse (parserName p) (parsers_table p) (parserNames_table p) (parsers_count p) (parser_type p)
    (state p) (eomCallback p) (badCrc p) (computeCrc p) (printError p) (printDebug p)
    v (crc p) (buffer p) (msg_length p) (buffer_length p).
Definition with_crc (v : Z) (p : SEMP_PARSE_STATE) : SEMP_PARSE_STATE :=
  mkParse (parserName p) (parsers_table p) (parserNames_table p) (parsers_count p) (parser_type p)
    (state p) (eomCallback p) (badCrc p) (computeCrc p) (printError p) (printDebug p)
    (scratchPad p) v (buffer p) (msg_length p) (buffer_length p).
Definition with_buffer (v : list Z) (p : SEMP_PARSE_STATE) : SEMP_PARSE_STATE :=
  mkParse (parserName p) (parsers_table p) (parserNames_table p) (parsers_count p) (parser_type p)
    (state p) (eomCallback p) (badCrc p) (computeCrc p) (printError p) (printDebug p)
    (scratchPad p) (crc p) v (msg_length p) (buffer_length p).
Definition with_msg_length (v : Z) (p : SEMP_PARSE_STATE) : SEMP_PARSE_STATE :=
  mkParse (parserName p) (parsers_table p) (parserNames_table p) (parsers_count p) (parser_type p)
    (state p) (eomCallback p) (badCrc p) (computeCrc p) (printError p) (printDebug p)
    (scratchPad p) (crc p) (buffer p) v (buffer_length p).

(** ** Accesses through the structure *)

(** [parse->buffer[i]], [parse->buffer[i] = v] and
    [parse->buffer[parse->msg_length++] = v] *)
Definition buffer_at (i : Z) : P Z := p <- gets id;; lift (load (buffer p) i).

Definition buffer_set (i v : Z) : P unit :=
  p <- gets id;; b <- lift (store (buffer p) i v);; modify (with_buffer b).

Definition buffer_push (v : Z) : P unit :=
  n <- gets msg_length;; modify (with_msg_length (u16 (n + 1)));; buffer_set n v.

(** [header->member], where [header] is the buffer seen as a structure *)
Definition header_get (f : member) : P Z :=
  p <- gets id;;
  if (offset f + size f <=? length (buffer p))%nat then ret (get f (buffer p))
  else undefined OutOfBounds.

(** [scratchPad->member] and [scratchPad->member = v] *)
Definition pad_get (f : member) : P Z := gets (fun p => get f (scratchPad p)).

Definition pad_set (f : member) (v : Z) : P unit :=
  modify (fun p => with_scratchPad (put f v (scratchPad p)) p).

(** [array[i] = v] for the [n]-byte array at offset [o] of the scratch area *)
Definition pad_array_set (o n : nat) (i v : Z) : P unit :=
  if (0 <=? i) && (i <? Z.of_nat n)
  then pad_set (Member (o + Z.to_nat i) 1) v
  else undefined OutOfBounds.

Definition pad_array (o n : nat) (p : SEMP_PARSE_STATE) : list Z :=
  take n (drop o (scratchPad p)).

(** [parse->eomCallback(parse, parse->parser_type)] *)
Definition call_eomCallback : P unit :=
  p <- gets id;;
  match eomCallback p with
  | None => undefined NullCall
  | Some f => emit (EvEom f p (parser_type p))
  end.

(** [parse->badCrc && (!parse->badCrc(parse))] *)
Definition badCrc_overrides `{Application} : P bool :=
  p <- gets id;;
  match badCrc p with
  | None => ret false
  | Some f => emit (EvBadCrc f p);; ret (negb (badCrc_fn f p))
  end.
