(* ===== verification/MessageParser.v ===== *)
(** * The parser core

    The part of [src/my_parser/Message_Parser.c] every protocol parser calls:
    formatted output, the conversion of a hexadecimal digit, the names of the
    parsers, and [sempFirstByte], the scan for a preamble byte.  The preamble
    routines the scan calls through the parser table are an interface,
    [ParserTable]; the protocol files implement them. *)
From S2P Require Import Prelude ParseState.

(** [sempPrintf(callback, format, ...)] *)
Definition sempPrintf {S} (cb : callback) (format : string) (args : list arg) : M S Event unit :=
  match cb with
  | None => ret tt
  | Some f => if forallb printable args then emit (EvLine f format args)
              else undefined OutOfBounds
  end.

(** [sempPrintln(print, string)] *)
Definition sempPrintln {S} (print : callback) (s : string) : M S Event unit :=
  match print with
  | None => ret tt
  | Some f => emit (EvPrint f "%s\r\n" [AStr s])
  end.

(** [semp_util_asciiToNibble(data)] *)
Definition semp_util_asciiToNibble (data : Z) : Z :=
  let data := Z.lor data 0x20 in
  if (0x61 <=? data) && (data <=? 0x66) then data - 0x61 + 10
  else if (0x30 <=? data) && (data <=? 0x39) then data - 0x30
  else -1.

(* ------------------------------------------------------------------ *)
(** ** The preamble routines, as the scan sees them *)

Class ParserTable := call_preamble : PREAMBLE_ROUTINE -> Z -> P bool.

Section core.
  Context `{PT : ParserTable}.

(** The loop of [sempFirstByte] over the parser table: entries [index] to
    [index + n - 1]. *)
Fixpoint walk_parsers_table (n : nat) (index data : Z) : P bool :=
  match n with
  | O => modify (with_state fn_sempFirstByte);; ret false
  | S n =>
      table <- gets parsers_table;;
      match table !! Z.to_nat index with
      | None => undefined OutOfBounds
      | Some parseRoutine =>
          found <- call_preamble parseRoutine data;;
          if (found : bool) then modify (with_parser_type index);; ret true
          else walk_parsers_table n (u8 (index + 1)) data
      end
  end.

(** [sempFirstByte(parse, data)] for a parse structure that is not null *)
Definition sempFirstByte (data : Z) : P bool :=
  modify (with_crc 0);;
  modify (with_computeCrc None);;
  modify (with_msg_length 0);;
  count <- gets parsers_count;;
  modify (with_parser_type count);;
  buffer_push data;;
  walk_parsers_table (Z.to_nat count) 0 data.

End core.

(* ------------------------------------------------------------------ *)
(** ** Names of the parsers *)

(** [sempGetTypeName(parse, type)]; [None] is the null parse structure. *)
Definition sempGetTypeName (parse : option SEMP_PARSE_STATE) (type : Z) : res string :=
  match parse with
  | None => Ok "Unknown parser"
  | Some p =>
      if type =? parsers_count p then Ok "No active parser, scanning for preamble"
      else if type <? parsers_count p then
        match parserNames_table p !! Z.to_nat type with
        | Some name => Ok name
        | None => Ub OutOfBounds
        end
      else Ok "Unknown parser"
  end.

(** [semp_getProtocolName(parse, protocolIndex)] *)
Definition semp_getProtocolName (parse : option SEMP_PARSE_STATE) (protocolIndex : Z) : res string :=
  match parse with
  | None => Ok "Unknown"
  | Some p =>
      if parsers_count p <=? protocolIndex then Ok "Unknown"
      else match parserNames_table p !! Z.to_nat protocolIndex with
           | Some name => Ok name
           | None => Ub OutOfBounds
           end
  end.

(** [semp_getProtocolDescription(protocolIndex)] *)
Definition semp_getProtocolDescription (protocolIndex : Z) : string := "Description Removed".
