(* ===== verification/ParseNmea.v ===== *)
(** * The NMEA parser

    [src/my_parser/Parse_NMEA.c]: one definition per state routine. *)
From S2P Require Import Prelude ParseState MessageParser.

(** Space kept for the asterisk's checksum digits, CR, LF and the terminator. *)
Definition NMEA_BUFFER_OVERHEAD : Z := 1 + 2 + 2 + 1.

(** [((upper < 'A') || (upper > 'Z')) && ((data < '0') || (data > '9'))] with
    [upper = data & ~0x20] *)
Definition invalid_name_character (data : Z) : bool :=
  let upper := u8 (Z.land data (Z.lnot 0x20)) in
  ((upper <? 0x41) || (0x5A <? upper)) && ((data <? 0x30) || (0x39 <? data)).

Section nmea.
  Context `{PT : ParserTable} `{App : Application}.

Definition sempNmeaValidateChecksum : P unit :=
  n <- gets msg_length;;
  c2 <- buffer_at (n - 2);;
  high <- shift_left_int (semp_util_asciiToNibble c2) 4;;
  c1 <- buffer_at (n - 1);;
  let checksum := Z.lor high (semp_util_asciiToNibble c1) in
  crc <- gets crc;;
  good <- (if u32 checksum =? crc then ret true else badCrc_overrides);;
  if (good : bool) then
    buffer_push 0x0D;;
    buffer_push 0x0A;;
    n <- gets msg_length;; buffer_set n 0;;
    call_eomCallback
  else
    dbg <- gets printDebug;; name <- gets parserName;;
    sentence <- gets (pad_array nmea_sentenceName SEMP_NMEA_SENTENCE_NAME_BYTES);;
    sempPrintf dbg
      "SEMP: %s NMEA %s, 0x%04x (%d) bytes, bad checksum, received 0x%c%c, computed: 0x%02x"
      [AStr name; AChars sentence; AInt n; AInt n; AInt c2; AInt c1; AInt crc].

Definition sempNmeaLineFeed (data : Z) : P bool :=
  n <- gets msg_length;; modify (with_msg_length (u16 (n - 1)));;
  if data =? 0x0A then
    sempNmeaValidateChecksum;;
    modify (with_state fn_sempFirstByte);; ret true
  else
    sempNmeaValidateChecksum;;
    sempFirstByte data.

Definition sempNmeaCarriageReturn (data : Z) : P bool :=
  n <- gets msg_length;; modify (with_msg_length (u16 (n - 1)));;
  if data =? 0x0D then
    sempNmeaValidateChecksum;;
    modify (with_state fn_sempFirstByte);; ret true
  else
    sempNmeaValidateChecksum;;
    sempFirstByte data.

Definition sempNmeaLineTermination (data : Z) : P bool :=
  n <- gets msg_length;; modify (with_msg_length (u16 (n - 1)));;
  if data =? 0x0D then modify (with_state fn_sempNmeaLineFeed);; ret true
  else if data =? 0x0A then modify (with_state fn_sempNmeaCarriageReturn);; ret true
  else
    sempNmeaValidateChecksum;;
    sempFirstByte data.

Definition sempNmeaChecksumByte2 (data : Z) : P bool :=
  n <- gets msg_length;; c <- buffer_at (n - 1);;
  if 0 <=? semp_util_asciiToNibble c then
    modify (with_state fn_sempNmeaLineTermination);; ret true
  else
    dbg <- gets printDebug;; name <- gets parserName;;
    sempPrintf dbg "SEMP %s: NMEA invalid second checksum character" [AStr name];;
    sempFirstByte data.

Definition sempNmeaChecksumByte1 (data : Z) : P bool :=
  n <- gets msg_length;; c <- buffer_at (n - 1);;
  if 0 <=? semp_util_asciiToNibble c then
    modify (with_state fn_sempNmeaChecksumByte2);; ret true
  else
    dbg <- gets printDebug;; name <- gets parserName;;
    sempPrintf dbg "SEMP %s: NMEA invalid first checksum character" [AStr name];;
    sempFirstByte data.

Definition sempNmeaFindAsterisk (data : Z) : P bool :=
  if data =? 0x2A then
    modify (with_state fn_sempNmeaChecksumByte1);; ret true
  else
    c <- gets crc;; modify (with_crc (Z.lxor c data));;
    n <- gets msg_length;; len <- gets buffer_length;;
    if len <? u32 (n + NMEA_BUFFER_OVERHEAD) then
      dbg <- gets printDebug;; name <- gets parserName;;
      sempPrintf dbg "SEMP %s: NMEA sentence too long, increase buffer size > %d"
        [AStr name; AInt len];;
      sempFirstByte data
    else ret true.

Definition sempNmeaFindFirstComma (data : Z) : P bool :=
  c <- gets crc;; modify (with_crc (Z.lxor c data));;
  k <- pad_get nmea_sentenceNameLength;;
  if negb (data =? 0x2C) || (k =? 0) then
    if invalid_name_character data then
      dbg <- gets printDebug;; name <- gets parserName;;
      sempPrintf dbg "SEMP %s: NMEA invalid sentence name character 0x%02x"
        [AStr name; AInt data];;
      sempFirstByte data
    else if k =? Z.of_nat SEMP_NMEA_SENTENCE_NAME_BYTES - 1 then
      dbg <- gets printDebug;; name <- gets parserName;;
      sempPrintf dbg "SEMP %s: NMEA sentence name > %ld characters"
        [AStr name; AInt (Z.of_nat SEMP_NMEA_SENTENCE_NAME_BYTES - 1)];;
      sempFirstByte data
    else
      pad_set nmea_sentenceNameLength (u8 (k + 1));;
      pad_array_set nmea_sentenceName SEMP_NMEA_SENTENCE_NAME_BYTES k data;;
      ret true
  else
    pad_array_set nmea_sentenceName SEMP_NMEA_SENTENCE_NAME_BYTES k 0;;
    modify (with_state fn_sempNmeaFindAsterisk);;
    ret true.

Definition sempNmeaPreamble (data : Z) : P bool :=
  if negb (data =? 0x24) && negb (data =? 0x21) then ret false
  else
    pad_set nmea_sentenceNameLength 0;;
    modify (with_state fn_sempNmeaFindFirstComma);; ret true.

End nmea.
