(* ===== verification/ParseRtcm.v ===== *)
(** * The RTCM parser

    [src/my_parser/Parse_RTCM.c]: the CRC-24Q update and one definition per state
    routine. *)
From S2P Require Import Prelude Crc ParseState MessageParser.

Section rtcm.
  Context `{PT : ParserTable} `{App : Application}.

Definition sempRtcmComputeCrc24q (data : Z) : P Z :=
  crc <- gets crc;; ret (crc24q_update crc data).

Definition sempRtcmReadCrc (data : Z) : P bool :=
  n <- pad_get rtcm_bytesRemaining;;
  pad_set rtcm_bytesRemaining (u16 (n - 1));;
  n <- pad_get rtcm_bytesRemaining;;
  if 0 <? n then ret true
  else
    crc <- gets crc;;
    good <- (if crc =? 0 then ret true else badCrc_overrides);;
    (if (good : bool) then call_eomCallback
     else
       dbg <- gets printDebug;; name <- gets parserName;;
       message <- pad_get rtcm_message;; len <- gets msg_length;; computed <- pad_get rtcm_crc;;
       sempPrintf dbg "SEMP: %s RTCM %d, 0x%04x (%d) bytes, bad CRC, computed: %06x"
         [AStr name; AInt message; AInt len; AInt len; AInt computed]);;
    modify (with_state fn_sempFirstByte);;
    ret false.

Definition sempRtcmReadData (data : Z) : P bool :=
  n <- pad_get rtcm_bytesRemaining;;
  pad_set rtcm_bytesRemaining (u16 (n - 1));;
  n <- pad_get rtcm_bytesRemaining;;
  when (n <=? 0)
    (c <- gets crc;; pad_set rtcm_crc c;;
     pad_set rtcm_bytesRemaining 3;;
     modify (with_state fn_sempRtcmReadCrc));;
  ret true.

Definition sempRtcmReadMessage2 (data : Z) : P bool :=
  m <- pad_get rtcm_message;;
  pad_set rtcm_message (u16 (Z.lor m (Z.shiftr data 4)));;
  n <- pad_get rtcm_bytesRemaining;;
  pad_set rtcm_bytesRemaining (u16 (n - 1));;
  modify (with_state fn_sempRtcmReadData);; ret true.

Definition sempRtcmReadMessage1 (data : Z) : P bool :=
  pad_set rtcm_message (u16 (Z.shiftl data 4));;
  n <- pad_get rtcm_bytesRemaining;;
  pad_set rtcm_bytesRemaining (u16 (n - 1));;
  modify (with_state fn_sempRtcmReadMessage2);; ret true.

Definition sempRtcmReadLength2 (data : Z) : P bool :=
  n <- pad_get rtcm_bytesRemaining;;
  pad_set rtcm_bytesRemaining (u16 (Z.lor n data));;
  modify (with_state fn_sempRtcmReadMessage1);; ret true.

Definition sempRtcmReadLength1 (data : Z) : P bool :=
  if negb (Z.land data (Z.lnot 3) =? 0) then sempFirstByte data
  else
    pad_set rtcm_bytesRemaining (u16 (Z.shiftl data 8));;
    modify (with_state fn_sempRtcmReadLength2);; ret true.

Definition sempRtcmPreamble (data : Z) : P bool :=
  if data =? 0xd3 then
    modify (with_computeCrc (Some fn_sempRtcmComputeCrc24q));;
    c <- sempRtcmComputeCrc24q data;;
    modify (with_crc c);;
    modify (with_state fn_sempRtcmReadLength1);; ret true
  else ret false.

End rtcm.
