(* ===== verification/ParseUblox.v ===== *)
(** * The u-blox UBX parser

    [src/my_parser/Parse_UBLOX.c]: one definition per state routine. *)
From S2P Require Import Prelude ParseState MessageParser.

Section ublox.
  Context `{PT : ParserTable} `{App : Application}.

(** [ck_a += data; ck_b += ck_a] *)
Definition ublox_checksum (data : Z) : P unit :=
  a <- pad_get ublox_ck_a;; pad_set ublox_ck_a (u8 (a + data));;
  b <- pad_get ublox_ck_b;; a <- pad_get ublox_ck_a;; pad_set ublox_ck_b (u8 (b + a)).

Definition sempUbloxCkB (data : Z) : P bool :=
  n <- gets msg_length;;
  rx_a <- buffer_at (n - 2);; a <- pad_get ublox_ck_a;;
  rx_b <- buffer_at (n - 1);; b <- pad_get ublox_ck_b;;
  let badChecksum := negb (rx_a =? a) || negb (rx_b =? b) in
  good <- (if negb badChecksum then ret true else badCrc_overrides);;
  (if (good : bool) then call_eomCallback
   else
     dbg <- gets printDebug;; name <- gets parserName;;
     sempPrintf dbg "SEMP %s: UBLOX bad checksum received 0x%02x%02x computed 0x%02x%02x"
       [AStr name; AInt rx_a; AInt rx_b; AInt a; AInt b]);;
  modify (with_msg_length 0);;
  modify (with_state fn_sempFirstByte);;
  ret false.

Definition sempUbloxCkA (data : Z) : P bool :=
  modify (with_state fn_sempUbloxCkB);; ret true.

Definition sempUbloxPayload (data : Z) : P bool :=
  n <- pad_get ublox_bytesRemaining;;
  pad_set ublox_bytesRemaining (u16 (n - 1));;
  if negb (n =? 0) then ublox_checksum data;; ret true
  else sempUbloxCkA data.

Definition sempUbloxLength2 (data : Z) : P bool :=
  ublox_checksum data;;
  n <- pad_get ublox_bytesRemaining;;
  pad_set ublox_bytesRemaining (u16 (Z.lor n (Z.shiftl data 8)));;
  modify (with_state fn_sempUbloxPayload);; ret true.

Definition sempUbloxLength1 (data : Z) : P bool :=
  ublox_checksum data;;
  pad_set ublox_bytesRemaining data;;
  modify (with_state fn_sempUbloxLength2);; ret true.

Definition sempUbloxId (data : Z) : P bool :=
  ublox_checksum data;;
  m <- pad_get ublox_message;;
  pad_set ublox_message (u16 (Z.lor m data));;
  modify (with_state fn_sempUbloxLength1);; ret true.

Definition sempUbloxClass (data : Z) : P bool :=
  pad_set ublox_ck_a data;;
  pad_set ublox_ck_b data;;
  pad_set ublox_message (u16 (Z.shiftl data 8));;
  modify (with_state fn_sempUbloxId);; ret true.

Definition sempUbloxSync2 (data : Z) : P bool :=
  if negb (data =? 0x62) then
    dbg <- gets printDebug;; name <- gets parserName;;
    sempPrintf dbg "SEMP %s: UBLOX invalid second sync byte" [AStr name];;
    sempFirstByte data
  else modify (with_state fn_sempUbloxClass);; ret true.

Definition sempUbloxPreamble (data : Z) : P bool :=
  if negb (data =? 0xb5) then ret false
  else modify (with_state fn_sempUbloxSync2);; ret true.

End ublox.
