(* ===== verification/ParseUnicoreBinary.v ===== *)
(** * The Unicore binary parser

    [src/my_parser/Parse_Unicore_Binary.c].  Its CRC routine has an empty body:
    the call returns no value, and the caller uses it. *)
From S2P Require Import Prelude ParseState MessageParser.

(** [SEMP_UNICORE_HEADER]: the member the code reads, and the size. *)
Definition sizeof_SEMP_UNICORE_HEADER : Z := 24.
Definition unicore_header_messageLength : member := Member 6 2.

Section unicore_binary.
  Context `{PT : ParserTable} `{App : Application}.

Definition sempUnicoreBinaryComputeCrc (data : Z) : P Z := undefined MissingReturn.

Definition sempUnicoreBinaryReadCrc (data : Z) : P bool :=
  n <- pad_get unicoreBinary_bytesRemaining;;
  pad_set unicoreBinary_bytesRemaining (u16 (n - 1));;
  n <- pad_get unicoreBinary_bytesRemaining;;
  if negb (n =? 0) then ret true
  else
    crc <- gets crc;;
    good <- (if crc =? 0 then ret true else badCrc_overrides);;
    (if (good : bool) then call_eomCallback
     else
       dbg <- gets printDebug;; name <- gets parserName;;
       sempPrintf dbg "SEMP: %s Unicore, bad CRC" [AStr name]);;
    modify (with_state fn_sempFirstByte);;
    ret false.

Definition sempUnicoreBinaryReadData (data : Z) : P bool :=
  n <- pad_get unicoreBinary_bytesRemaining;;
  pad_set unicoreBinary_bytesRemaining (u16 (n - 1));;
  n <- pad_get unicoreBinary_bytesRemaining;;
  when (n =? 0)
    (pad_set unicoreBinary_bytesRemaining 4;;
     c <- gets crc;; pad_set unicoreBinary_crc c;;
     modify (with_state fn_sempUnicoreBinaryReadCrc));;
  ret true.

Definition sempUnicoreBinaryReadHeader (data : Z) : P bool :=
  n <- gets msg_length;;
  when (sizeof_SEMP_UNICORE_HEADER <=? n)
    (len <- header_get unicore_header_messageLength;;
     pad_set unicoreBinary_bytesRemaining len;;
     modify (with_state fn_sempUnicoreBinaryReadData));;
  ret true.

Definition sempUnicoreBinarySync3 (data : Z) : P bool :=
  if negb (data =? 0xB5) then sempFirstByte data
  else modify (with_state fn_sempUnicoreBinaryReadHeader);; ret true.

Definition sempUnicoreBinarySync2 (data : Z) : P bool :=
  if negb (data =? 0x44) then sempFirstByte data
  else modify (with_state fn_sempUnicoreBinarySync3);; ret true.

Definition sempUnicoreBinaryPreamble (data : Z) : P bool :=
  if negb (data =? 0xAA) then ret false
  else
    modify (with_crc 0);;
    modify (with_computeCrc (Some fn_sempUnicoreBinaryComputeCrc));;
    c <- sempUnicoreBinaryComputeCrc data;;
    modify (with_crc c);;
    modify (with_state fn_sempUnicoreBinarySync2);; ret true.

End unicore_binary.
