(* ===== verification/ParseUnicoreHash.v ===== *)
(** * The Unicore hash parser

    [src/my_parser/Parse_Unicore_Hash.c]: sentences that start with a hash sign
    and end in a CRC-32 of eight hexadecimal digits, or, when the sentence name
    contains MODE, in a two-digit checksum. *)
From S2P Require Import Prelude Crc ParseState MessageParser ParseNmea.

Definition UNICORE_HASH_BUFFER_OVERHEAD : Z := 1 + 1 + 1.

Fixpoint starts_with (needle hay : list Z) : bool :=
  match needle, hay with
  | [], _ => true
  | a :: needle, b :: hay => (a =? b) && starts_with needle hay
  | _ :: _, [] => false
  end.

(** [strstr(hay, needle) != NULL] *)
Fixpoint strstr (hay needle : list Z) : bool :=
  starts_with needle hay ||
  match hay with [] => false | _ :: hay => strstr hay needle end.

(** The characters of MODE. *)
Definition str_MODE : list Z := [0x4D; 0x4F; 0x44; 0x45].

Section unicore_hash.
  Context `{PT : ParserTable} `{App : Application}.

(** The [do ... while] loop that computes the check from the byte at index [i]
    on, until the next byte is an asterisk; returns
    the check and the index of the asterisk.  Each turn reads one byte further,
    so the length of the buffer bounds the turns. *)
Fixpoint unicore_hash_crc_loop (fuel : nat) (i crc : Z) : P (Z * Z) :=
  match fuel with
  | O => undefined OutOfBounds
  | S fuel =>
      d <- buffer_at i;;
      let crc := crc32_update crc d in
      d <- buffer_at (i + 1);;
      if d =? 0x2A then ret (crc, i + 1)
      else unicore_hash_crc_loop fuel (i + 1) crc
  end.

(** [crcRx = (crcRx << 4) | nibble], [n] times from the byte at index [i] *)
Fixpoint unicore_hash_read_crc (n : nat) (i crcRx : Z) : P Z :=
  match n with
  | O => ret crcRx
  | S n =>
      d <- buffer_at i;;
      unicore_hash_read_crc n (i + 1)
        (u32 (Z.lor (u32 (Z.shiftl crcRx 4)) (u32 (semp_util_asciiToNibble d))))
  end.

Definition sempUnicoreHashValidateCrc : P unit :=
  b <- gets buffer;;
  r <- unicore_hash_crc_loop (length b) 1 0;;
  let '(crc, i) := r in
  crcRx <- unicore_hash_read_crc 8 (i + 1) 0;;
  if negb (crc =? crcRx) then
    dbg <- gets printDebug;; name <- gets parserName;;
    sentence <- gets (pad_array unicoreHash_sentenceName SEMP_UNICORE_HASH_SENTENCE_NAME_BYTES);;
    sempPrintf dbg "SEMP: %s Unicore hash (#) %s, bad CRC" [AStr name; AChars sentence]
  else
    n <- gets msg_length;; len <- gets buffer_length;;
    if len <? u32 (n + UNICORE_HASH_BUFFER_OVERHEAD) then
      dbg <- gets printDebug;; name <- gets parserName;;
      sempPrintf dbg "SEMP %s: Unicore hash (#) sentence too long" [AStr name];;
      modify (with_state fn_sempFirstByte)
    else
      buffer_push 0x0D;;
      buffer_push 0x0A;;
      n <- gets msg_length;; buffer_set n 0;;
      call_eomCallback.

Definition sempUnicoreHashValidateChecksum : P unit :=
  k <- pad_get unicoreHash_checksumBytes;;
  if 2 <? k then sempUnicoreHashValidateCrc
  else
    n <- gets msg_length;;
    c2 <- buffer_at (n - 2);;
    high <- shift_left_int (semp_util_asciiToNibble c2) 4;;
    c1 <- buffer_at (n - 1);;
    let checksum := u32 (Z.lor high (semp_util_asciiToNibble c1)) in
    crc <- gets crc;;
    good <- (if checksum =? crc then ret true else badCrc_overrides);;
    if (good : bool) then
      buffer_push 0x0D;;
      buffer_push 0x0A;;
      n <- gets msg_length;; buffer_set n 0;;
      call_eomCallback
    else
      dbg <- gets printDebug;; name <- gets parserName;;
      sentence <- gets (pad_array unicoreHash_sentenceName SEMP_UNICORE_HASH_SENTENCE_NAME_BYTES);;
      sempPrintf dbg "SEMP: %s Unicore hash (#) %s, bad checksum" [AStr name; AChars sentence].

Definition sempUnicoreHashLineFeed (data : Z) : P bool :=
  n <- gets msg_length;; modify (with_msg_length (u16 (n - 1)));;
  if data =? 0x0A then
    sempUnicoreHashValidateChecksum;;
    modify (with_state fn_sempFirstByte);; ret true
  else
    sempUnicoreHashValidateChecksum;;
    sempFirstByte data.

Definition sempUnicoreHashCarriageReturn (data : Z) : P bool :=
  n <- gets msg_length;; modify (with_msg_length (u16 (n - 1)));;
  if data =? 0x0D then
    sempUnicoreHashValidateChecksum;;
    modify (with_state fn_sempFirstByte);; ret true
  else
    sempUnicoreHashValidateChecksum;;
    sempFirstByte data.

Definition sempUnicoreHashLineTermination (data : Z) : P bool :=
  n <- gets msg_length;; modify (with_msg_length (u16 (n - 1)));;
  if data =? 0x0D then modify (with_state fn_sempUnicoreHashLineFeed);; ret true
  else if data =? 0x0A then modify (with_state fn_sempUnicoreHashCarriageReturn);; ret true
  else
    sempUnicoreHashValidateChecksum;;
    sempFirstByte data.

Definition sempUnicoreHashChecksumByte (data : Z) : P bool :=
  k <- pad_get unicoreHash_bytesRemaining;;
  pad_set unicoreHash_bytesRemaining (u8 (k - 1));;
  n <- gets msg_length;; c <- buffer_at (n - 1);;
  if semp_util_asciiToNibble c <? 0 then
    dbg <- gets printDebug;; name <- gets parserName;;
    sempPrintf dbg "SEMP %s: Unicore hash (#) invalid checksum character" [AStr name];;
    sempFirstByte data
  else
    k <- pad_get unicoreHash_bytesRemaining;;
    when (k =? 0) (modify (with_state fn_sempUnicoreHashLineTermination));;
    ret true.

Definition sempUnicoreHashFindAsterisk (data : Z) : P bool :=
  if data =? 0x2A then
    k <- pad_get unicoreHash_checksumBytes;;
    pad_set unicoreHash_bytesRemaining k;;
    modify (with_state fn_sempUnicoreHashChecksumByte);; ret true
  else
    c <- gets crc;; modify (with_crc (Z.lxor c data));;
    n <- gets msg_length;; len <- gets buffer_length;;
    if len <? u32 (n + UNICORE_HASH_BUFFER_OVERHEAD) then
      dbg <- gets printDebug;; name <- gets parserName;;
      sempPrintf dbg "SEMP %s: Unicore hash (#) sentence too long" [AStr name];;
      sempFirstByte data
    else ret true.

Definition sempUnicoreHashFindFirstComma (data : Z) : P bool :=
  c <- gets crc;; modify (with_crc (Z.lxor c data));;
  k <- pad_get unicoreHash_sentenceNameLength;;
  if negb (data =? 0x2C) || (k =? 0) then
    if invalid_name_character data then
      dbg <- gets printDebug;; name <- gets parserName;;
      sempPrintf dbg "SEMP %s: Unicore hash (#) invalid sentence name character" [AStr name];;
      sempFirstByte data
    else if k =? Z.of_nat SEMP_UNICORE_HASH_SENTENCE_NAME_BYTES - 1 then
      dbg <- gets printDebug;; name <- gets parserName;;
      sempPrintf dbg "SEMP %s: Unicore hash (#) sentence name too long" [AStr name];;
      sempFirstByte data
    else
      pad_set unicoreHash_sentenceNameLength (u8 (k + 1));;
      pad_array_set unicoreHash_sentenceName SEMP_UNICORE_HASH_SENTENCE_NAME_BYTES k data;;
      ret true
  else
    pad_array_set unicoreHash_sentenceName SEMP_UNICORE_HASH_SENTENCE_NAME_BYTES k 0;;
    chars <- gets (pad_array unicoreHash_sentenceName SEMP_UNICORE_HASH_SENTENCE_NAME_BYTES);;
    name <- lift (c_string chars);;
    pad_set unicoreHash_checksumBytes (if strstr name str_MODE then 2 else 8);;
    modify (with_state fn_sempUnicoreHashFindAsterisk);;
    ret true.

Definition sempUnicoreHashPreamble (data : Z) : P bool :=
  if negb (data =? 0x23) then ret false
  else
    pad_set unicoreHash_sentenceNameLength 0;;
    modify (with_state fn_sempUnicoreHashFindFirstComma);; ret true.

End unicore_hash.
