(* ===== verification/ParseCustom.v ===== *)
(** * The custom binary protocol

    [src/my_parser/Parse_Custom.c]: a twenty-byte header, a payload and a CRC-32. *)
From S2P Require Import Prelude Crc ParseState MessageParser.

(** [SEMP_CUSTOM_HEADER]: the members the code reads, and the size. *)
Definition sizeof_SEMP_CUSTOM_HEADER : Z := 20.
Definition custom_header_messageLength : member := Member 12 2.

Section custom.
  Context `{PT : ParserTable} `{App : Application}.

Definition sempCustomComputeCrc (data : Z) : P Z :=
  crc <- gets crc;; ret (crc32_update crc data).

Definition sempCustomReadCrc (data : Z) : P bool :=
  n <- pad_get custom_bytesRemaining;;
  pad_set custom_bytesRemaining (u16 (n - 1));;
  n <- pad_get custom_bytesRemaining;;
  if negb (n =? 0) then ret true
  else
    crc <- gets crc;;
    good <- (if crc =? 0 then ret true else badCrc_overrides);;
    (if (good : bool) then call_eomCallback
     else
       dbg <- gets printDebug;; name <- gets parserName;;
       len <- gets msg_length;;
       b4 <- buffer_at (len - 4);; b3 <- buffer_at (len - 3);;
       b2 <- buffer_at (len - 2);; b1 <- buffer_at (len - 1);;
       c <- pad_get custom_crc;;
       sempPrintf dbg
         "SEMP: %s Unicore, bad CRC, received %02x %02x %02x %02x, computed: %02x %02x %02x %02x"
         [AStr name; AInt b4; AInt b3; AInt b2; AInt b1;
          AInt (Z.land c 0xff); AInt (Z.land (Z.shiftr c 8) 0xff);
          AInt (Z.land (Z.shiftr c 16) 0xff); AInt (Z.land (Z.shiftr c 24) 0xff)]);;
    modify (with_state fn_sempFirstByte);;
    ret false.

Definition sempCustomReadData (data : Z) : P bool :=
  n <- pad_get custom_bytesRemaining;;
  pad_set custom_bytesRemaining (u16 (n - 1));;
  n <- pad_get custom_bytesRemaining;;
  when (n =? 0)
    (pad_set custom_bytesRemaining 4;;
     c <- gets crc;; modify (with_crc (Z.lxor c 0xFFFFFFFF));;
     c <- gets crc;; pad_set custom_crc c;;
     modify (with_state fn_sempCustomReadCrc));;
  ret true.

Definition sempCustomReadHeader (data : Z) : P bool :=
  n <- gets msg_length;;
  when (sizeof_SEMP_CUSTOM_HEADER <=? n)
    (len <- header_get custom_header_messageLength;;
     pad_set custom_bytesRemaining len;;
     modify (with_state fn_sempCustomReadData));;
  ret true.

Definition sempCustomSync3 (data : Z) : P bool :=
  if negb (data =? 0x18) then sempFirstByte data
  else modify (with_state fn_sempCustomReadHeader);; ret true.

Definition sempCustomSync2 (data : Z) : P bool :=
  if negb (data =? 0x44) then sempFirstByte data
  else modify (with_state fn_sempCustomSync3);; ret true.

Definition sempCustomPreamble (data : Z) : P bool :=
  if negb (data =? 0xAA) then ret false
  else
    modify (with_crc 0xFFFFFFFF);;
    modify (with_computeCrc (Some fn_sempCustomComputeCrc));;
    c <- sempCustomComputeCrc data;;
    modify (with_crc c);;
    modify (with_state fn_sempCustomSync2);; ret true.

End custom.
