(* ===== verification/NextByte.v ===== *)
(** * Dispatch and the byte interface

    The indirect calls of [src/my_parser/Message_Parser.c] resolved: the parser
    table, [parse->computeCrc] and [parse->state]; [sempParseNextByte] and the
    loops of the demonstration programs that feed it. *)
From S2P Require Import Prelude Crc ParseState MessageParser ParseNmea ParseRtcm ParseUblox.
From S2P Require Import ParseUnicoreBinary ParseUnicoreHash ParseCustom.

(** [parse->parsers_table[index](parse, data)] *)
#[global] Instance preambles : ParserTable := fun r data =>
  match r with
  | fn_sempNmeaPreamble => sempNmeaPreamble data
  | fn_sempRtcmPreamble => sempRtcmPreamble data
  | fn_sempUbloxPreamble => sempUbloxPreamble data
  | fn_sempUnicoreBinaryPreamble => sempUnicoreBinaryPreamble data
  | fn_sempUnicoreHashPreamble => sempUnicoreHashPreamble data
  | fn_sempCustomPreamble => sempCustomPreamble data
  end.

(** [parse->computeCrc(parse, data)] *)
Definition call_computeCrc (f : SEMP_COMPUTE_CRC) (data : Z) : P Z :=
  match f with
  | fn_sempRtcmComputeCrc24q => sempRtcmComputeCrc24q data
  | fn_sempUnicoreBinaryComputeCrc => sempUnicoreBinaryComputeCrc data
  | fn_sempCustomComputeCrc => sempCustomComputeCrc data
  end.

Section next_byte.
  Context `{App : Application}.

(** [parse->state(parse, data)] *)
Definition call_state (f : SEMP_PARSE_ROUTINE) (data : Z) : P bool :=
  match f with
  | fn_sempFirstByte => sempFirstByte data
  | fn_sempNmeaFindFirstComma => sempNmeaFindFirstComma data
  | fn_sempNmeaFindAsterisk => sempNmeaFindAsterisk data
  | fn_sempNmeaChecksumByte1 => sempNmeaChecksumByte1 data
  | fn_sempNmeaChecksumByte2 => sempNmeaChecksumByte2 data
  | fn_sempNmeaLineTermination => sempNmeaLineTermination data
  | fn_sempNmeaCarriageReturn => sempNmeaCarriageReturn data
  | fn_sempNmeaLineFeed => sempNmeaLineFeed data
  | fn_sempRtcmReadLength1 => sempRtcmReadLength1 data
  | fn_sempRtcmReadLength2 => sempRtcmReadLength2 data
  | fn_sempRtcmReadMessage1 => sempRtcmReadMessage1 data
  | fn_sempRtcmReadMessage2 => sempRtcmReadMessage2 data
  | fn_sempRtcmReadData => sempRtcmReadData data
  | fn_sempRtcmReadCrc => sempRtcmReadCrc data
  | fn_sempUbloxSync2 => sempUbloxSync2 data
  | fn_sempUbloxClass => sempUbloxClass data
  | fn_sempUbloxId => sempUbloxId data
  | fn_sempUbloxLength1 => sempUbloxLength1 data
  | fn_sempUbloxLength2 => sempUbloxLength2 data
  | fn_sempUbloxPayload => sempUbloxPayload data
  | fn_sempUbloxCkB => sempUbloxCkB data
  | fn_sempUnicoreBinarySync2 => sempUnicoreBinarySync2 data
  | fn_sempUnicoreBinarySync3 => sempUnicoreBinarySync3 data
  | fn_sempUnicoreBinaryReadHeader => sempUnicoreBinaryReadHeader data
  | fn_sempUnicoreBinaryReadData => sempUnicoreBinaryReadData data
  | fn_sempUnicoreBinaryReadCrc => sempUnicoreBinaryReadCrc data
  | fn_sempUnicoreHashFindFirstComma => sempUnicoreHashFindFirstComma data
  | fn_sempUnicoreHashFindAsterisk => sempUnicoreHashFindAsterisk data
  | fn_sempUnicoreHashChecksumByte => sempUnicoreHashChecksumByte data
  | fn_sempUnicoreHashLineTermination => sempUnicoreHashLineTermination data
  | fn_sempUnicoreHashCarriageReturn => sempUnicoreHashCarriageReturn data
  | fn_sempUnicoreHashLineFeed => sempUnicoreHashLineFeed data
  | fn_sempCustomSync2 => sempCustomSync2 data
  | fn_sempCustomSync3 => sempCustomSync3 data
  | fn_sempCustomReadHeader => sempCustomReadHeader data
  | fn_sempCustomReadData => sempCustomReadData data
  | fn_sempCustomReadCrc => sempCustomReadCrc data
  end.

(** [sempParseNextByte(parse, data)] for a parse structure that is not null *)
Definition sempParseNextByte (data : Z) : P unit :=
  n <- gets msg_length;; len <- gets buffer_length;;
  if len <=? n then
    err <- gets printError;; name <- gets parserName;;
    sempPrintf err "SEMP %s: Message too long, increase the buffer size > %d\r\n"
      [AStr name; AInt len];;
    sempFirstByte data;;
    ret tt
  else
    buffer_push data;;
    f <- gets computeCrc;;
    match f with
    | None => ret tt
    | Some f => c <- call_computeCrc f data;; modify (with_crc c)
    end;;
    f <- gets state;;
    call_state f data;;
    ret tt.

(** The feeding loops: [for (i...) sempParseNextByte(parser, message[i])] *)
Definition parse_bytes (l : list Z) : P unit := for_each l sempParseNextByte.

End next_byte.
