(* ===== verification/BeginParser.v ===== *)
(** * Start and stop of a parser

    The rest of the interface of [src/my_parser/Message_Parser.c]: allocation,
    [sempBeginParser], the print of the configuration, [sempStopParser] and the
    switches of the output.  Memory comes from an allocator of the platform. *)
From S2P Require Import Prelude ParseState MessageParser.

(** [malloc(size)]: the bytes of a new block, or null. *)
Class Allocator := malloc : Z -> option (list Z).

(** What the C library promises of it. *)
Class AllocatorSpec (A : Allocator) : Prop := malloc_spec :
  forall n block, malloc n = Some block -> Z.of_nat (length block) = n /\ bytes block.

(** Code that works without a parse structure. *)
Abbreviation IO := (M unit Event).

(* ------------------------------------------------------------------ *)
(** ** Sizes *)

Definition SEMP_MINIMUM_BUFFER_LENGTH : Z := 256.
Definition SEMP_ALIGNMENT_MASK : Z := 7.

(** [SEMP_ALIGN(x)] *)
Definition SEMP_ALIGN (x : Z) : Z := Z.land (x + SEMP_ALIGNMENT_MASK) (Z.lnot SEMP_ALIGNMENT_MASK).

(** The size of a structure from the sizes and alignments of its members. *)
Fixpoint sizeof_struct (size align : Z) (members : list Z) : Z :=
  match members with
  | [] => (size + align - 1) / align * align
  | m :: members => sizeof_struct ((size + m - 1) / m * m + m) (Z.max align m) members
  end.

(** [sizeof(SEMP_PARSE_STATE)] for pointers of [ptr] bytes. *)
Definition sizeof_SEMP_PARSE_STATE (ptr : Z) : Z :=
  sizeof_struct 0 1 [ptr; ptr; ptr; 1; 1; ptr; ptr; ptr; ptr; ptr; ptr; ptr; 4; ptr; 2; 2].

#[global] Opaque sizeof_SEMP_PARSE_STATE.

(* ------------------------------------------------------------------ *)
(** ** Allocation *)

(** The members [sempAllocateParseStructure] sets; the others are zero. *)
Record allocated := Allocated {
  alloc_printDebug : callback;
  alloc_scratchPad : list Z;
  alloc_buffer : list Z;
  alloc_buffer_length : Z
}.

Section begin_parser.
  Context `{Alloc : Allocator} (ptr : Z).

(** [semp_util_malloc(size)] *)
Definition semp_util_malloc (size : Z) : option (list Z) := malloc size.

(** [sempAllocateParseStructure(printDebug, scratchPadBytes, bufferLength)] *)
Definition sempAllocateParseStructure (printDebug : callback) (scratchPadBytes bufferLength : Z)
    : IO (option allocated) :=
  sempPrintf printDebug "scratchPadBytes: 0x%04x (%d) bytes"
    [AInt scratchPadBytes; AInt scratchPadBytes];;
  scratchPadBytes <-
    (if scratchPadBytes <? SEMP_ALIGN scratchPadBytes then
       let scratchPadBytes := u16 (SEMP_ALIGN scratchPadBytes) in
       sempPrintf printDebug "scratchPadBytes: 0x%04x (%d) bytes after alignment"
         [AInt scratchPadBytes; AInt scratchPadBytes];;
       ret scratchPadBytes
     else ret scratchPadBytes);;
  let length := SEMP_ALIGN sizeof_SEMP_SCRATCH_PAD in
  scratchPadBytes <-
    (if scratchPadBytes <? length then
       let scratchPadBytes := u16 length in
       sempPrintf printDebug "scratchPadBytes: 0x%04x (%d) bytes after mimimum size adjustment"
         [AInt scratchPadBytes; AInt scratchPadBytes];;
       ret scratchPadBytes
     else ret scratchPadBytes);;
  let parseBytes := SEMP_ALIGN (sizeof_SEMP_PARSE_STATE ptr) in
  sempPrintf printDebug "parseBytes: 0x%04x (%d)" [AInt parseBytes; AInt parseBytes];;
  bufferLength <-
    (if bufferLength <? SEMP_MINIMUM_BUFFER_LENGTH then
       sempPrintf printDebug
         "SEMP: Increasing bufferLength from %ld to %d bytes, minimum size adjustment"
         [AInt bufferLength; AInt SEMP_MINIMUM_BUFFER_LENGTH];;
       ret SEMP_MINIMUM_BUFFER_LENGTH
     else ret bufferLength);;
  let length := parseBytes + scratchPadBytes in
  let parse := semp_util_malloc (length + bufferLength) in
  sempPrintf printDebug "parse: %p" [AOpaque];;
  match parse with
  | None => ret None
  | Some block =>
      (* the first [length] bytes are set to zero, the buffer keeps its contents *)
      sempPrintf printDebug "parse->scratchPad: %p" [AOpaque];;
      sempPrintf printDebug "parse->buffer: %p" [AOpaque];;
      ret (Some (Allocated printDebug (replicate (Z.to_nat scratchPadBytes) 0)
                   (drop (Z.to_nat length) block) bufferLength))
  end.

(** [sempPrintParserConfiguration(parse, print)] *)
Definition sempPrintParserConfiguration (parse : option SEMP_PARSE_STATE) (print : callback) : IO unit :=
  match print, parse with
  | Some _, Some p =>
      sempPrintln print "SparkFun Extensible Message Parser";;
      sempPrintf print "    Name: %p (%s)" [AOpaque; AStr (parserName p)];;
      sempPrintf print "    parsers: %p" [AOpaque];;
      sempPrintf print "    parserNames: %p" [AOpaque];;
      sempPrintf print "    parserCount: %d" [AInt (parsers_count p)];;
      sempPrintf print "    printError: %p" [APtr (printError p)];;
      sempPrintf print "    printDebug: %p" [APtr (printDebug p)];;
      sempPrintf print "    Scratch Pad: %p (%ld bytes)"
        [AOpaque; AInt (Z.of_nat (length (scratchPad p)))];;
      sempPrintf print "    computeCrc: %p" [AOpaque];;
      sempPrintf print "    crc: 0x%08x" [AInt (crc p)];;
      sempPrintf print "    State: %p%s"
        [AOpaque; AStr (if decide (state p = fn_sempFirstByte) then " (sempFirstByte)" else "")];;
      sempPrintf print "    EomCallback: %p" [APtr (eomCallback p)];;
      sempPrintf print "    Buffer: %p (%d bytes)" [AOpaque; AInt (buffer_length p)];;
      sempPrintf print "    length: %d message bytes" [AInt (msg_length p)];;
      name <- lift (sempGetTypeName (Some p) (parser_type p));;
      sempPrintf print "    type: %d (%s)" [AInt (parser_type p); AStr name]
  | _, _ => ret tt
  end.

(** [sempBeginParser(...)]; null pointers are [None]. *)
Definition sempBeginParser (parserName : option string)
    (parsersTable : option (list PREAMBLE_ROUTINE)) (parsersCount : Z)
    (parserNamesTable : option (list string)) (parserNamesCount : Z)
    (scratchPadBytes bufferLength : Z)
    (eomCallback printError printDebug badCrcCallback : callback) : IO (option SEMP_PARSE_STATE) :=
  if negb (parsersCount =? parserNamesCount) then
    sempPrintln printError
      "SEMP: Please fix parserTable and parserNameTable parserCount != parserNameCount";; ret None
  else
  match parsersTable with
  | None => sempPrintln printError "SEMP: Please specify a parserTable data structure";; ret None
  | Some parsersTable =>
  match parserNamesTable with
  | None => sempPrintln printError "SEMP: Please specify a parserNameTable data structure";; ret None
  | Some parserNamesTable =>
  match eomCallback with
  | None => sempPrintln printError "SEMP: Please specify an eomCallback routine";; ret None
  | Some _ =>
  match parserName with
  | None | Some EmptyString =>
      sempPrintln printError "SEMP: Please provide a name for the parser";; ret None
  | Some parserName =>
  if parsersCount =? 0 then
    sempPrintln printError "SEMP: Please provide at least one parser in parserTable";; ret None
  else
    parse <- sempAllocateParseStructure printDebug scratchPadBytes bufferLength;;
    match parse with
    | None => sempPrintln printError "SEMP: Failed to allocate the parse structure";; ret None
    | Some a =>
        let parse := mkParse parserName parsersTable parserNamesTable parsersCount 0
          fn_sempFirstByte eomCallback badCrcCallback None printError (alloc_printDebug a)
          (alloc_scratchPad a) 0 (alloc_buffer a) 0 (alloc_buffer_length a) in
        sempPrintParserConfiguration (Some parse) (alloc_printDebug a);;
        ret (Some parse)
    end
  end end end end.

(** [semp_util_free(ptr)]: whether a block is released. *)
Definition semp_util_free {A} (p : option A) : bool := match p with Some _ => true | None => false end.

(** [sempStopParser(&parse)]: the pointer after the call, and whether the
    structure is released.  [None] is a null address of the pointer. *)
Definition sempStopParser (parse : option (option SEMP_PARSE_STATE))
    : option (option SEMP_PARSE_STATE) * bool :=
  match parse with
  | Some (Some p) => (Some None, semp_util_free (Some p))
  | _ => (parse, false)
  end.

End begin_parser.

(* ------------------------------------------------------------------ *)
(** ** Output switches; [None] is the null parse structure *)

Definition sempEnableDebugOutput (parse : option SEMP_PARSE_STATE) (print : callback) :=
  option_map (with_printDebug print) parse.
Definition sempDisableDebugOutput (parse : option SEMP_PARSE_STATE) :=
  option_map (with_printDebug None) parse.
Definition sempEnableErrorOutput (parse : option SEMP_PARSE_STATE) (print : callback) :=
  option_map (with_printError print) parse.
Definition sempDisableErrorOutput (parse : option SEMP_PARSE_STATE) :=
  option_map (with_printError None) parse.
