(* ===== verification/FrameSpec.v ===== *)
(** * What the parsers promise

    An abstract specification of the framework of [src/my_parser], written
    without the parse structure: the frame formats of the protocols, with their
    checks in terms of the bit-level references of [Crc], and a machine that
    turns a byte stream into the messages delivered to the application.  The
    machine keeps only the bytes of the message under way; an undefined step is
    [None]. *)
From S2P Require Import Prelude Crc ParseState.

(* ------------------------------------------------------------------ *)
(** ** Checks *)

(** The CRC-32 and CRC-24Q registers after the bytes [l]. *)
Definition crc32_ref (c : Z) (l : list Z) : Z :=
  foldl (fun c b => crc32_byte (Z.lxor c b)) c l.
Definition crc24q_ref (c : Z) (l : list Z) : Z :=
  foldl (fun c b => crc24q_byte (Z.lxor c (Z.shiftl b 16))) c l.

Definition xor_all (l : list Z) : Z := foldl Z.lxor 0 l.

Lemma xor_all_range l : bytes l -> is_u8 (xor_all l).
Proof.
  intros Hl. unfold xor_all. assert (forall c, is_u8 c -> is_u8 (foldl Z.lxor c l)) as H; [|by apply H].
  induction Hl as [|b l Hb Hl IH]; intros c Hc; cbn; [done|]. apply IH. by apply lxor_u8.
Qed.

(** The two u-blox checksum bytes of [l]. *)
Definition fletcher_step (ck : Z * Z) (d : Z) : Z * Z :=
  let a := (ck.1 + d) mod 256 in (a, (ck.2 + a) mod 256).
Definition fletcher (l : list Z) : Z * Z := foldl fletcher_step (0, 0) l.

Lemma fletcher_app l d : fletcher (l ++ [d]) = fletcher_step (fletcher l) d.
Proof. unfold fletcher. by rewrite foldl_app. Qed.

(* ------------------------------------------------------------------ *)
(** ** Binary frames *)

(** What is known of a message after its last byte: it needs more bytes, it
    cannot be a message, or it is complete and its check succeeds or fails. *)
Inductive verdict := More | Reject | Done (ok : bool).

Definition ublox_verdict (m : list Z) : verdict :=
  match m with
  | _ :: s2 :: rest =>
      if negb (s2 =? 0x62) then Reject
      else match rest with
           | c :: i :: l1 :: l2 :: body =>
               let n := Z.to_nat (l1 + 256 * l2) in
               if (length body <? n + 2)%nat then More
               else let ck := fletcher (c :: i :: l1 :: l2 :: take n body) in
                    Done (bool_decide (drop n body = [ck.1; ck.2]))
           | _ => More
           end
  | _ => More
  end.

(** The length field of a frame with fewer than three bytes of data is never
    counted down to zero within a buffer. *)
Definition rtcm_verdict (m : list Z) : verdict :=
  match m with
  | _ :: h :: rest =>
      if 3 <? h then Reject
      else match rest with
           | l :: body =>
               let n := Z.to_nat (256 * h + l) in
               if (n <? 3)%nat || (length body <? n + 3)%nat then More
               else Done (bool_decide
                      (drop n body = rev (le_split 3 (crc24q_ref 0 (take (3 + n) m)))))
           | _ => More
           end
  | _ => More
  end.

Lemma rtcm_verdict_more s1 h l body :
  h <= 3 -> 256 * h + l < 3 \/ Z.of_nat (length body) < 256 * h + l + 3 ->
  rtcm_verdict (s1 :: h :: l :: body) = More.
Proof.
  intros Hh Hn. unfold rtcm_verdict. destruct (3 <? h) eqn:E; [lia|]. cbn zeta.
  destruct ((Z.to_nat (256 * h + l) <? 3) || (length body <? Z.to_nat (256 * h + l) + 3))%nat eqn:E2;
    [done|lia].
Qed.

Definition custom_length (m : list Z) : nat := Z.to_nat (get (Member 12 2) m).

Definition custom_check (l : list Z) : list Z :=
  le_split 4 (Z.lxor (crc32_ref 0xFFFFFFFF l) 0xFFFFFFFF).

(** Neither is the length field of a custom frame without payload. *)
Definition custom_verdict (m : list Z) : verdict :=
  match m with
  | _ :: s2 :: rest =>
      if negb (s2 =? 0x44) then Reject
      else match rest with
           | s3 :: _ =>
               if negb (s3 =? 0x18) then Reject
               else
                 let n := custom_length m in
                 if (length m <? 20)%nat || (n =? 0)%nat || (length m <? 24 + n)%nat then More
                 else Done (bool_decide (drop (20 + n) m = custom_check (take (20 + n) m)))
           | _ => More
           end
  | _ => More
  end.

Lemma custom_verdict_synced m s1 rest :
  m = s1 :: 0x44 :: 0x18 :: rest ->
  custom_verdict m =
    let n := custom_length m in
    if (length m <? 20)%nat || (n =? 0)%nat || (length m <? 24 + n)%nat then More
    else Done (bool_decide (drop (20 + n) m = custom_check (take (20 + n) m))).
Proof. by intros ->. Qed.

(* ------------------------------------------------------------------ *)
(** ** Sentences *)

(** The parts of a sentence read so far: the name, after the comma the body,
    after the asterisk the check digits. *)
Inductive text :=
| TName (name : list Z)
| TBody (name body : list Z)
| TSum (name body digits : list Z).

Definition name_character (b : Z) : bool :=
  ((0x41 <=? b) && (b <=? 0x5A)) || ((0x61 <=? b) && (b <=? 0x7A))
  || ((0x30 <=? b) && (b <=? 0x39)).

(** The characters accepted as hexadecimal digits, and their values.  The
    control characters 0x10 to 0x19 count as the decimal digits. *)
Definition digit_value (b : Z) : option Z :=
  if (0x30 <=? b) && (b <=? 0x39) then Some (b - 0x30)
  else if (0x10 <=? b) && (b <=? 0x19) then Some (b - 0x10)
  else if (0x41 <=? b) && (b <=? 0x46) then Some (b - 0x37)
  else if (0x61 <=? b) && (b <=? 0x66) then Some (b - 0x57)
  else None.

Definition digits_value (l : list Z) : Z :=
  foldl (fun v b => 16 * v + default 0 (digit_value b)) 0 l.

(** The bytes of a sentence that starts with [sigil]. *)
Definition flatten (sigil : Z) (t : text) : list Z :=
  sigil :: match t with
           | TName name => name
           | TBody name body => name ++ 0x2C :: body
           | TSum name body digits => name ++ 0x2C :: body ++ 0x2A :: digits
           end.

Definition contains_MODE (name : list Z) : Prop :=
  exists a b, name = a ++ [0x4D; 0x4F; 0x44; 0x45] ++ b.

Fixpoint contains_MODEb (name : list Z) : bool :=
  bool_decide (take 4 name = [0x4D; 0x4F; 0x44; 0x45]) ||
  match name with [] => false | _ :: name => contains_MODEb name end.

Lemma contains_MODEb_spec name : contains_MODEb name = true <-> contains_MODE name.
Proof.
  induction name as [|c name IH]; cbn [contains_MODEb].
  - split; [done|]. by intros ([|??] & b & H).
  - rewrite orb_true_iff, bool_decide_eq_true, IH. split.
    + intros [H|(a & b & ->)]; [|by exists (c :: a), b].
      exists [], (drop 4 (c :: name)). by rewrite <-H, take_drop.
    + intros ([|d a] & b & H); [left; by rewrite H|right]. injection H as -> ->. by exists a, b.
Qed.

(** The number of check digits of a sentence. *)
Definition check_digits (k : PREAMBLE_ROUTINE) (name : list Z) : nat :=
  match k with
  | fn_sempUnicoreHashPreamble => if contains_MODEb name then 2 else 8
  | _ => 2
  end.

Definition sentence_overhead (k : PREAMBLE_ROUTINE) : Z :=
  match k with fn_sempUnicoreHashPreamble => 3 | _ => 6 end.

(** The next part of a sentence in a buffer of [B] bytes; [None] when the byte
    cannot continue it. *)
Definition text_step (B : Z) (k : PREAMBLE_ROUTINE) (sigil : Z) (t : text) (b : Z) : option text :=
  match t with
  | TName name =>
      if (b =? 0x2C) && negb (bool_decide (name = [])) then Some (TBody name [])
      else if negb (name_character b) then None
      else if (length name =? 15)%nat then None
      else Some (TName (name ++ [b]))
  | TBody name body =>
      if b =? 0x2A then Some (TSum name body [])
      else if B <? Z.of_nat (length (flatten sigil (TBody name (body ++ [b])))) + sentence_overhead k
      then None
      else Some (TBody name (body ++ [b]))
  | TSum name body digits =>
      match digit_value b with
      | Some _ => Some (TSum name body (digits ++ [b]))
      | None => None
      end
  end.

(** All digits of a sentence have been read. *)
Definition closed (k : PREAMBLE_ROUTINE) (t : text) : bool :=
  match t with
  | TSum name _ digits => (length digits =? check_digits k name)%nat
  | _ => false
  end.

(** The digits of a closed sentence are its check. *)
Definition text_check (t : text) : bool :=
  match t with
  | TSum name body digits =>
      let content := name ++ 0x2C :: body in
      if (2 <? length digits)%nat then digits_value digits =? crc32_ref 0 content
      else digits_value digits =? xor_all content
  | _ => false
  end.

(* ------------------------------------------------------------------ *)
(** ** The machine *)

Inductive spec_state :=
| Scan                                            (* looking for a preamble byte *)
| Frame (i : nat) (k : PREAMBLE_ROUTINE) (m : list Z)
| Sentence (i : nat) (k : PREAMBLE_ROUTINE) (sigil : Z) (t : text)
| Ending (i : nat) (k : PREAMBLE_ROUTINE) (sigil : Z) (t : text) (expect : Z).

(** The messages delivered: the parser's index and the bytes. *)
Abbreviation output := (list (Z * list Z)).

Definition starts (k : PREAMBLE_ROUTINE) (b : Z) : bool :=
  match k with
  | fn_sempNmeaPreamble => (b =? 0x24) || (b =? 0x21)
  | fn_sempRtcmPreamble => b =? 0xd3
  | fn_sempUbloxPreamble => b =? 0xb5
  | fn_sempUnicoreBinaryPreamble => b =? 0xAA
  | fn_sempUnicoreHashPreamble => b =? 0x23
  | fn_sempCustomPreamble => b =? 0xAA
  end.

(** [None]: the routine uses the value of a check that returns none. *)
Definition begin (i : nat) (k : PREAMBLE_ROUTINE) (b : Z) : option spec_state :=
  match k with
  | fn_sempNmeaPreamble | fn_sempUnicoreHashPreamble => Some (Sentence i k b (TName []))
  | fn_sempUnicoreBinaryPreamble => None
  | _ => Some (Frame i k [b])
  end.

Definition frame_verdict (k : PREAMBLE_ROUTINE) (m : list Z) : verdict :=
  match k with
  | fn_sempRtcmPreamble => rtcm_verdict m
  | fn_sempUbloxPreamble => ublox_verdict m
  | _ => custom_verdict m
  end.

Section machine.
  Context (B : Z) (table : list PREAMBLE_ROUTINE) (accepts : Z -> list Z -> bool).

Fixpoint scan_from (l : list PREAMBLE_ROUTINE) (i : nat) (b : Z) : option spec_state :=
  match l with
  | [] => Some Scan
  | k :: l => if starts k b then begin i k b else scan_from l (S i) b
  end.

Definition scan (out : output) (b : Z) : res (spec_state * output) :=
  match scan_from table 0 b with Some st => Ok (st, out) | None => Ub MissingReturn end.

(** The end of a closed sentence: CR and LF replace the terminator, if the
    message fits.  [None]: they are written outside the buffer. *)
Definition finish (i : nat) (k : PREAMBLE_ROUTINE) (sigil : Z) (t : text) : option output :=
  let m := flatten sigil t in
  let fits := Z.of_nat (length m) + 3 <=? B in
  let sent := [(Z.of_nat i, m ++ [0x0D; 0x0A])] in
  match t with
  | TSum _ _ digits =>
      if (2 <? length digits)%nat then Some (if text_check t && fits then sent else [])
      else if text_check t || accepts (Z.of_nat i) m then
        if fits then Some sent else None
      else Some []
  | _ => Some []
  end.

Definition frame_step (i : nat) (k : PREAMBLE_ROUTINE) (m : list Z) (b : Z)
    : res (spec_state * output) :=
  match frame_verdict k m with
  | More => Ok (Frame i k m, [])
  | Reject => scan [] b
  | Done ok => Ok (Scan, if ok || accepts (Z.of_nat i) m then [(Z.of_nat i, m)] else [])
  end.

Definition spec_step (st : spec_state) (b : Z) : res (spec_state * output) :=
  match st with
  | Scan => scan [] b
  | Frame i k m =>
      if B <=? Z.of_nat (length m) then scan [] b
      else frame_step i k (m ++ [b]) b
  | Sentence i k sigil t =>
      if B <=? Z.of_nat (length (flatten sigil t)) then scan [] b
      else if closed k t then
        if b =? 0x0D then Ok (Ending i k sigil t 0x0A, [])
        else if b =? 0x0A then Ok (Ending i k sigil t 0x0D, [])
        else match finish i k sigil t with Some out => scan out b | None => Ub OutOfBounds end
      else match text_step B k sigil t b with
           | Some t => Ok (Sentence i k sigil t, [])
           | None => scan [] b
           end
  | Ending i k sigil t expect =>
      if B <=? Z.of_nat (length (flatten sigil t)) then scan [] b
      else match finish i k sigil t with
           | Some out => if b =? expect then Ok (Scan, out) else scan out b
           | None => Ub OutOfBounds
           end
  end.

Fixpoint spec_run (st : spec_state) (l : list Z) : res (spec_state * output) :=
  match l with
  | [] => Ok (st, [])
  | b :: l =>
      match spec_step st b with
      | Ok (st, out) =>
          match spec_run st l with
          | Ok (st, out') => Ok (st, out ++ out')
          | Ub u => Ub u
          end
      | Ub u => Ub u
      end
  end.

Lemma spec_run_app st l1 l2 :
  spec_run st (l1 ++ l2) =
  match spec_run st l1 with
  | Ok (st, out) =>
      match spec_run st l2 with
      | Ok (st, out') => Ok (st, out ++ out')
      | Ub u => Ub u
      end
  | Ub u => Ub u
  end.
Proof.
  revert st. induction l1 as [|b l1 IH]; intros st; cbn.
  - by destruct (spec_run st l2) as [[??]|].
  - destruct (spec_step st b) as [[st1 out1]|]; [|done]. rewrite IH.
    destruct (spec_run st1 l1) as [[st2 out2]|]; [|done].
    destruct (spec_run st2 l2) as [[st3 out3]|]; [|done]. by rewrite app_assoc.
Qed.

End machine.

(* ------------------------------------------------------------------ *)
(** ** The table-driven checks agree with the references *)

Lemma crc32_run_ref c l : is_u32 c -> bytes l -> crc32_run c l = crc32_ref c l.
Proof.
  intros Hc Hl. revert c Hc. induction Hl as [|b l Hb Hl IH]; intros c Hc; [done|].
  change (crc32_run (crc32_update c b) l = crc32_ref (crc32_byte (Z.lxor c b)) l).
  rewrite <-crc32_update_ref by done. auto with width.
Qed.

Lemma crc24q_run_ref c l : is_u24 c -> bytes l -> crc24q_run c l = crc24q_ref c l.
Proof.
  intros Hc Hl. revert c Hc. induction Hl as [|b l Hb Hl IH]; intros c Hc; [done|].
  change (crc24q_run (crc24q_update c b) l = crc24q_ref (crc24q_byte (Z.lxor c (Z.shiftl b 16))) l).
  rewrite <-crc24q_update_ref by done. auto with width.
Qed.
