(* ===== verification/Sentences.v ===== *)
(** * Sentences

    What the sentence parsers share: characters and digits, the array that holds
    the name of a sentence, and the steps of a sentence. *)
From S2P Require Import Prelude Crc ParseState MessageParser ParseNmea FrameSpec.

(* ------------------------------------------------------------------ *)
(** ** Characters *)

Lemma byte_cases (f : Z -> bool) :
  forallb f (map Z.of_nat (seq 0 256)) = true -> forall b, is_u8 b -> f b = true.
Proof.
  intros H b Hb. unfold is_u8 in Hb. rewrite forallb_forall in H. apply H.
  rewrite in_map_iff. exists (Z.to_nat b). rewrite in_seq. lia.
Qed.

Lemma invalid_name_character_spec b :
  is_u8 b -> invalid_name_character b = negb (name_character b).
Proof.
  intros Hb. apply eqb_prop.
  by apply (byte_cases (fun b => Bool.eqb (invalid_name_character b) (negb (name_character b)))).
Qed.

Lemma asciiToNibble_spec b :
  is_u8 b -> semp_util_asciiToNibble b = default (-1) (digit_value b).
Proof.
  intros Hb. apply Z.eqb_eq.
  by apply (byte_cases (fun b => semp_util_asciiToNibble b =? default (-1) (digit_value b))).
Qed.

Lemma digit_value_range b v : digit_value b = Some v -> 0 <= v < 16.
Proof.
  unfold digit_value. intros H.
  repeat match type of H with (if ?c then _ else _) = _ => destruct c eqn:? end; simplify_eq; lia.
Qed.

Lemma asciiToNibble_nonneg b :
  is_u8 b -> (0 <=? semp_util_asciiToNibble b) = bool_decide (is_Some (digit_value b)).
Proof.
  intros Hb. rewrite asciiToNibble_spec by done. destruct (digit_value b) as [v|] eqn:E; cbn.
  - pose proof (digit_value_range b v E). lia.
  - done.
Qed.

Lemma name_character_nonzero b : name_character b = true -> b <> 0.
Proof. by intros H ->. Qed.

Lemma xor_all_app l b : xor_all (l ++ [b]) = Z.lxor (xor_all l) b.
Proof. unfold xor_all. by rewrite foldl_app. Qed.

(** Two digits combine into a byte. *)
Lemma two_digits_byte d1 d2 :
  is_u8 d1 -> is_u8 d2 -> is_Some (digit_value d1) -> is_Some (digit_value d2) ->
  (semp_util_asciiToNibble d1 <? 0) = false /\
  Z.lor (Z.shiftl (semp_util_asciiToNibble d1) 4) (semp_util_asciiToNibble d2) = digits_value [d1; d2] /\
  is_u8 (digits_value [d1; d2]).
Proof.
  intros H1 H2 [v1 E1] [v2 E2]. rewrite !asciiToNibble_spec by done.
  pose proof (digit_value_range _ _ E1). pose proof (digit_value_range _ _ E2).
  unfold digits_value. cbn -[Z.lor Z.shiftl Z.mul]. rewrite E1, E2. cbn -[Z.lor Z.shiftl Z.mul].
  split; [lia|]. rewrite Z.lor_comm, lor_shiftl_add by lia. change (2 ^ 4) with 16. unfold is_u8. lia.
Qed.

Lemma two_digits d1 d2 :
  is_u8 d1 -> is_u8 d2 -> is_Some (digit_value d1) -> is_Some (digit_value d2) ->
  (semp_util_asciiToNibble d1 <? 0) = false /\
  u32 (Z.lor (Z.shiftl (semp_util_asciiToNibble d1) 4) (semp_util_asciiToNibble d2))
    = digits_value [d1; d2].
Proof.
  intros H1 H2 E1 E2. destruct (two_digits_byte d1 d2 H1 H2 E1 E2) as (H & -> & Hr).
  split; [done|]. by apply u32_id, is_u8_u32.
Qed.

(* ------------------------------------------------------------------ *)
(** ** The name array *)

(** The name array of a sentence holds the name read so far, and a terminator
    once the name is complete. *)
Definition name_pad (o : nat) (len : member) (sp : list Z) (name : list Z) : Prop :=
  get len sp = Z.of_nat (length name) /\ take (length name) (drop o sp) = name.

Definition terminated (o : nat) (sp : list Z) : Prop :=
  existsb (fun c => c =? 0) (take 16 (drop o sp)) = true.

Definition name_ok (name : list Z) : Prop :=
  (length name <= 15)%nat /\ Forall (fun b => name_character b = true) name.

Lemma put_byte k v l : (k < length l)%nat -> put (Member k 1) v l = <[k := v mod 256]> l.
Proof.
  intros H. unfold put. cbn [offset size le_split]. cbn [app].
  rewrite insert_take_drop by done. cbn. by rewrite Nat.add_1_r.
Qed.

Lemma pad_array_take o n v l :
  (o + n < length l)%nat -> is_u8 v ->
  take (S n) (drop o (put (Member (o + n) 1) v l)) = take n (drop o l) ++ [v].
Proof.
  intros H Hv. rewrite put_byte, drop_insert_ge by lia. rewrite Z.mod_small by done.
  replace (o + n - o)%nat with n by lia. apply take_store. rewrite length_drop. lia.
Qed.

(** An array below the member [len] that counts its characters. *)
Record name_array `{PSize : PadSize} (o : nat) (len : member) : Prop := {
  array_below : (o + 16 <= offset len)%nat;
  array_len : in_pad len = true;
  array_size : size len = 1%nat
}.

Section name.
  Context `{PSize : PadSize}.
  Context (o : nat) (len : member) (Harr : name_array o len).

Lemma name_room (n : nat) : (n < 16)%nat -> in_pad (Member (o + n) 1) = true.
Proof.
  destruct Harr as [Hb Hl Hs]. unfold in_pad in *. cbn. rewrite Nat.leb_le in *. lia.
Qed.

(** The counter of the characters lies outside the array. *)
Lemma name_kept sp v n :
  pad_ok sp -> (n <= 16)%nat -> take n (drop o (put len v sp)) = take n (drop o sp).
Proof.
  intros [Hsp _] Hn. destruct Harr as [Hbelow Hin Hs]. unfold in_pad in Hin. rewrite Nat.leb_le in Hin.
  unfold put. rewrite drop_app_le by (rewrite length_take; lia).
  rewrite take_app_le by (rewrite length_drop, length_take; lia).
  rewrite skipn_firstn_comm, firstn_firstn. f_equal. lia.
Qed.

Lemma name_pad_push sp name b :
  pad_ok sp -> is_u8 b -> (length name < 15)%nat -> name_pad o len sp name ->
  name_pad o len
    (put (Member (o + length name) 1) b (put len (u8 (Z.of_nat (length name) + 1)) sp))
    (name ++ [b]).
Proof.
  intros Hsp Hb Hn [Hlen Hname]. destruct Harr as [Hbelow Hin Hs].
  pose proof (name_room (length name)) as Hroom.
  assert (pad_ok (put len (u8 (Z.of_nat (length name) + 1)) sp)) as Hsp' by auto with pad.
  split.
  - rewrite pad_get_ne; [|done|done|apply Hroom; lia|].
    + rewrite pad_get_eq, Hs by done. rewrite length_app. cbn.
      unfold u8. rewrite !Z.mod_small; lia.
    + unfold disjoint_members. cbn. apply orb_true_iff. right. apply Nat.leb_le. lia.
  - unfold in_pad in Hin. rewrite Nat.leb_le in Hin. pose proof Hsp' as [Hl' _].
    rewrite length_app, Nat.add_1_r. rewrite pad_array_take by (done || lia).
    f_equal. by rewrite name_kept by (done || lia).
Qed.

(** Closing the name. *)
Lemma name_pad_close sp name :
  pad_ok sp -> (length name <= 15)%nat -> take (length name) (drop o sp) = name ->
  take (S (length name)) (drop o (put (Member (o + length name) 1) 0 sp)) = name ++ [0].
Proof.
  intros [Hl _] Hn Hname. destruct Harr as [Hbelow Hin Hs]. unfold in_pad in Hin.
  rewrite Nat.leb_le in Hin. rewrite pad_array_take by (done || lia). by rewrite Hname.
Qed.

Lemma closed_terminated sp name :
  (length name <= 15)%nat -> take (S (length name)) (drop o sp) = name ++ [0] -> terminated o sp.
Proof.
  intros Hn H. unfold terminated.
  rewrite <-(take_drop (S (length name)) (drop o sp)), H.
  rewrite take_app_ge by (rewrite length_app; cbn; lia).
  rewrite !existsb_app. cbn. by rewrite orb_true_r.
Qed.

Lemma c_string_name sp name :
  name_ok name -> take (S (length name)) (drop o sp) = name ++ [0] ->
  c_string (take 16 (drop o sp)) = Ok name.
Proof.
  intros [Hn Hc] H.
  replace (take 16 (drop o sp))
    with ((name ++ [0]) ++ take (15 - length name) (drop (S (length name)) (drop o sp))).
  2: { rewrite <-H. rewrite (take_take_drop (drop o sp) (S (length name)) (15 - length name)).
       f_equal. lia. }
  clear H Hn. generalize (take (15 - length name) (drop (S (length name)) (drop o sp))). intros rest.
  induction Hc as [|c name Hc _ IH]; [done|].
  cbn. apply name_character_nonzero in Hc. destruct (Z.eqb_spec c 0); [done|].
  cbn in IH. by rewrite IH.
Qed.

End name.

(* ------------------------------------------------------------------ *)
(** ** Steps *)

(** The parts of a sentence respect the limits of the format and of the buffer. *)
Definition text_fits (B : Z) (k : PREAMBLE_ROUTINE) (sigil : Z) (t : text) : Prop :=
  match t with
  | TName name => name_ok name
  | TBody name body | TSum name body _ =>
      name_ok name /\ name <> [] /\ Forall (fun b => b <> 0x2A) body /\
      Z.of_nat (length (flatten sigil (TBody name body))) + sentence_overhead k <= B /\
      match t with
      | TSum _ _ digits => Forall (fun b => is_Some (digit_value b)) digits
      | _ => True
      end
  end.

Lemma flatten_step Bl k sigil t b t' :
  text_step Bl k sigil t b = Some t' -> flatten sigil t' = flatten sigil t ++ [b].
Proof.
  intros H. destruct t as [name|name body|name body digits]; cbn -[flatten] in H.
  - destruct (b =? 0x2C) eqn:Eb; cbn -[flatten] in H.
    + apply Z.eqb_eq in Eb as ->. case_bool_decide; cbn -[flatten] in H; by simplify_eq.
    + repeat case_match; by simplify_eq.
  - destruct (b =? 0x2A) eqn:Eb; [apply Z.eqb_eq in Eb as ->|case_match];
      simplify_eq; cbn; by rewrite <-app_assoc.
  - case_match; simplify_eq. cbn. by rewrite <-app_assoc, <-!app_comm_cons, <-app_assoc.
Qed.

Lemma text_fits_step B k sigil t b t' :
  32 <= B -> text_fits B k sigil t -> text_step B k sigil t b = Some t' -> text_fits B k sigil t'.
Proof.
  intros HB Hok H'. destruct t as [name|name body|name body digits].
  - cbn -[flatten] in H'. destruct Hok as [Hl Hn]. case_match eqn:E1.
    + simplify_eq. apply andb_true_iff in E1 as [_ E1%negb_true_iff%bool_decide_eq_false].
      repeat split; try done. cbn. rewrite length_app. cbn. destruct k; cbn; lia.
    + repeat case_match; simplify_eq. split.
      * rewrite length_app. cbn. lia.
      * apply Forall_app. split; [done|]. apply Forall_singleton. by apply negb_false_iff.
  - cbn -[flatten] in H'. destruct Hok as (Hn & Hne & Hbody & Hlen & _).
    destruct (b =? 0x2A) eqn:E; [simplify_eq; unfold text_fits; split_and!; done|]. case_match; simplify_eq.
    unfold text_fits; split_and!; try done; [|lia].
    apply Forall_app. split; [done|]. apply Forall_singleton. lia.
  - cbn in H'. destruct Hok as (Hn & Hne & Hbody & Hlen & Hd). case_match eqn:E; simplify_eq.
    unfold text_fits; split_and!; try done. apply Forall_app. split; [done|].
    apply Forall_singleton. by eexists.
Qed.

(** The condition of the name states in terms of the name's length. *)
Lemma name_continues b (name : list Z) :
  negb (b =? 0x2C) || (Z.of_nat (length name) =? 0)
    = negb ((b =? 0x2C) && negb (bool_decide (name = []))).
Proof.
  rewrite negb_andb, negb_involutive. f_equal.
  case_bool_decide; destruct name; done.
Qed.

(** ** The step of a sentence in its name *)

Section name_step.
  Context (B : Z) (k : PREAMBLE_ROUTINE) (sigil b : Z) (name : list Z).
  Abbreviation comma := ((b =? 0x2C) && negb (bool_decide (name = []))).
  Abbreviation step := (text_step B k sigil (TName name) b).

Lemma text_step_comma : comma = true -> step = Some (TBody name []).
Proof. intros E. cbn [text_step]. by rewrite E. Qed.

Lemma text_step_stray : comma = false -> negb (name_character b) = true -> step = None.
Proof. intros E E2. cbn [text_step]. by rewrite E, E2. Qed.

Lemma text_step_long : comma = false -> (Z.of_nat (length name) =? 15) = true -> step = None.
Proof.
  intros E E2. cbn [text_step]. rewrite E.
  destruct (negb (name_character b)), (Nat.eqb_spec (length name) 15); done || lia.
Qed.

Lemma text_step_name :
  comma = false -> negb (name_character b) = false -> (Z.of_nat (length name) =? 15) = false ->
  step = Some (TName (name ++ [b])).
Proof.
  intros E E2 E3. cbn [text_step]. rewrite E, E2.
  destruct (Nat.eqb_spec (length name) 15); done || lia.
Qed.

End name_step.
