(* ===== verification/Representation.v ===== *)
(** * Representation of the abstract machine by the parse structure

    The well-formedness invariant of a parse structure, the relation between a
    parse structure and a state of the machine of [FrameSpec], and what it means
    for a routine to refine a step of the machine.  [Setup] names what is fixed
    while a parser runs and what the application promises. *)
From S2P Require Import Prelude Crc ParseState MessageParser FrameSpec Sentences.

(** The message bytes received so far. *)
Definition message (p : SEMP_PARSE_STATE) : list Z :=
  take (Z.to_nat (msg_length p)) (buffer p).

(** The configuration of a parser.  A [badCrc] callback decides from the parser
    index and the message; [accepts] is its decision to take the message. *)
Class Setup `{App : Application} := {
  B : Z;
  table : list PREAMBLE_ROUTINE;
  eom : nat;
  bad : callback;
  accepts : Z -> list Z -> bool;
  B_range : 256 <= B < 65536;
  table_small : (length table < 256)%nat;
  accepts_spec :
    match bad with
    | None => forall i m, accepts i m = false
    | Some f => forall p, badCrc_fn f p = negb (accepts (parser_type p) (message p))
    end
}.

(** The messages an application receives. *)
Fixpoint delivered (l : list Event) : output :=
  match l with
  | [] => []
  | EvEom _ p type :: l => (type, message p) :: delivered l
  | _ :: l => delivered l
  end.

Lemma delivered_app l1 l2 : delivered (l1 ++ l2) = delivered l1 ++ delivered l2.
Proof. induction l1 as [|[]]; cbn; congruence. Qed.

(** The scratch area holds the members of every protocol. *)
#[export] Instance port_pad : PadSize := 20%nat.

(* ------------------------------------------------------------------ *)
(** ** The invariant *)

Section invariant.
  Context `{SU : Setup}.

Record wf (p : SEMP_PARSE_STATE) : Prop := {
  wf_buffer_length : buffer_length p = B;
  wf_buffer : Z.of_nat (length (buffer p)) = B;
  wf_bytes : bytes (buffer p);
  wf_msg_length : 0 <= msg_length p <= B;
  wf_crc : is_u32 (crc p);
  wf_pad : pad_ok (scratchPad p);
  wf_table : parsers_table p = table;
  wf_count : parsers_count p = Z.of_nat (length table);
  wf_eom : eomCallback p = Some eom;
  wf_bad : badCrc p = bad;
  wf_computeCrc : computeCrc p <> Some fn_sempUnicoreBinaryComputeCrc
}.

Lemma wf_with_state v p : wf p -> wf (with_state v p).
Proof. by intros []. Qed.
Lemma wf_with_parser_type v p : wf p -> wf (with_parser_type v p).
Proof. by intros []. Qed.
Lemma wf_with_computeCrc v p :
  wf p -> v <> Some fn_sempUnicoreBinaryComputeCrc -> wf (with_computeCrc v p).
Proof. by intros []. Qed.
Lemma wf_with_crc v p : wf p -> is_u32 v -> wf (with_crc v p).
Proof. by intros []. Qed.
Lemma wf_with_msg_length v p : wf p -> 0 <= v <= B -> wf (with_msg_length v p).
Proof. by intros []. Qed.
Lemma wf_with_scratchPad l p : wf p -> pad_ok l -> wf (with_scratchPad l p).
Proof. by intros []. Qed.
Lemma wf_with_buffer l p :
  wf p -> bytes l -> length l = length (buffer p) -> wf (with_buffer l p).
Proof. intros [] ??. split; cbn; congruence. Qed.

(** ** States of the protocols

    Each relation lists, per state routine, what the scratch area and the check
    hold for the message bytes received so far. *)

Definition ublox_pad (sp : list Z) (l : list Z) : Prop :=
  get ublox_ck_a sp = (fletcher l).1 /\ get ublox_ck_b sp = (fletcher l).2.

Inductive ublox_rel (sp : list Z) : SEMP_PARSE_ROUTINE -> list Z -> Prop :=
| ublox_sync2 s1 : ublox_rel sp fn_sempUbloxSync2 [s1]
| ublox_class s1 : ublox_rel sp fn_sempUbloxClass [s1; 0x62]
| ublox_id s1 c :
    ublox_pad sp [c] -> ublox_rel sp fn_sempUbloxId [s1; 0x62; c]
| ublox_length1 s1 c i :
    ublox_pad sp [c; i] -> ublox_rel sp fn_sempUbloxLength1 [s1; 0x62; c; i]
| ublox_length2 s1 c i l1 :
    ublox_pad sp [c; i; l1] -> get ublox_bytesRemaining sp = l1 ->
    ublox_rel sp fn_sempUbloxLength2 [s1; 0x62; c; i; l1]
| ublox_payload s1 c i l1 l2 pl :
    ublox_pad sp (c :: i :: l1 :: l2 :: pl) ->
    get ublox_bytesRemaining sp + Z.of_nat (length pl) = l1 + 256 * l2 ->
    ublox_rel sp fn_sempUbloxPayload (s1 :: 0x62 :: c :: i :: l1 :: l2 :: pl)
| ublox_ckb s1 c i l1 l2 pl a :
    ublox_pad sp (c :: i :: l1 :: l2 :: pl) ->
    Z.of_nat (length pl) = l1 + 256 * l2 ->
    ublox_rel sp fn_sempUbloxCkB (s1 :: 0x62 :: c :: i :: l1 :: l2 :: pl ++ [a]).

Inductive rtcm_rel (sp : list Z) : SEMP_PARSE_ROUTINE -> list Z -> Prop :=
| rtcm_length1 s1 : rtcm_rel sp fn_sempRtcmReadLength1 [s1]
| rtcm_length2 s1 h :
    h <= 3 -> get rtcm_bytesRemaining sp = 256 * h ->
    rtcm_rel sp fn_sempRtcmReadLength2 [s1; h]
| rtcm_message1 s1 h l :
    h <= 3 -> get rtcm_bytesRemaining sp = 256 * h + l ->
    rtcm_rel sp fn_sempRtcmReadMessage1 [s1; h; l]
| rtcm_message2 s1 h l d :
    h <= 3 -> get rtcm_bytesRemaining sp = u16 (256 * h + l - 1) ->
    rtcm_rel sp fn_sempRtcmReadMessage2 [s1; h; l; d]
| rtcm_data s1 h l d1 d2 body :
    h <= 3 ->
    get rtcm_bytesRemaining sp = u16 (256 * h + l - 2 - Z.of_nat (length body)) ->
    256 * h + l < 3 \/ 2 + Z.of_nat (length body) < 256 * h + l ->
    rtcm_rel sp fn_sempRtcmReadData (s1 :: h :: l :: d1 :: d2 :: body)
| rtcm_crcbytes s1 h l body cks :
    h <= 3 -> 3 <= 256 * h + l ->
    Z.of_nat (length body) = 256 * h + l ->
    get rtcm_bytesRemaining sp = 3 - Z.of_nat (length cks) ->
    (length cks < 3)%nat ->
    rtcm_rel sp fn_sempRtcmReadCrc (s1 :: h :: l :: body ++ cks).

(** For the custom protocol the check is inverted when the payload ends. *)
Definition custom_crc_of (n : nat) (m : list Z) : Z :=
  if (20 + n <=? length m)%nat
  then crc32_run (Z.lxor (crc32_run 0xFFFFFFFF (take (20 + n) m)) 0xFFFFFFFF) (drop (20 + n) m)
  else crc32_run 0xFFFFFFFF m.

Inductive custom_rel (sp : list Z) (c : Z) : SEMP_PARSE_ROUTINE -> list Z -> Prop :=
| custom_sync2 s1 :
    c = crc32_run 0xFFFFFFFF [s1] -> custom_rel sp c fn_sempCustomSync2 [s1]
| custom_sync3 s1 :
    c = crc32_run 0xFFFFFFFF [s1; 0x44] -> custom_rel sp c fn_sempCustomSync3 [s1; 0x44]
| custom_header s1 rest :
    (length rest < 17)%nat -> c = crc32_run 0xFFFFFFFF (s1 :: 0x44 :: 0x18 :: rest) ->
    custom_rel sp c fn_sempCustomReadHeader (s1 :: 0x44 :: 0x18 :: rest)
| custom_data s1 rest m :
    m = s1 :: 0x44 :: 0x18 :: rest ->
    (20 <= length m)%nat ->
    (custom_length m = 0 \/ length m < 20 + custom_length m)%nat ->
    get custom_bytesRemaining sp = u16 (Z.of_nat (custom_length m) - (Z.of_nat (length m) - 20)) ->
    c = crc32_run 0xFFFFFFFF m ->
    custom_rel sp c fn_sempCustomReadData m
| custom_crcbytes s1 rest m :
    m = s1 :: 0x44 :: 0x18 :: rest ->
    (0 < custom_length m)%nat ->
    (20 + custom_length m <= length m < 24 + custom_length m)%nat ->
    get custom_bytesRemaining sp = 24 + Z.of_nat (custom_length m) - Z.of_nat (length m) ->
    c = custom_crc_of (custom_length m) m ->
    custom_rel sp c fn_sempCustomReadCrc m.

(** The routine that waits for the end of a closed sentence; [expect] is the
    second terminator once the first has been seen. *)
Definition nmea_end (expect : option Z) : SEMP_PARSE_ROUTINE :=
  match expect with
  | None => fn_sempNmeaLineTermination
  | Some e => if e =? 0x0A then fn_sempNmeaLineFeed else fn_sempNmeaCarriageReturn
  end.

Inductive nmea_rel (sp : list Z) (c : Z) (expect : option Z) : SEMP_PARSE_ROUTINE -> text -> Prop :=
| nmea_name name :
    name_pad nmea_sentenceName nmea_sentenceNameLength sp name -> c = xor_all name ->
    nmea_rel sp c expect fn_sempNmeaFindFirstComma (TName name)
| nmea_body name body :
    terminated nmea_sentenceName sp -> c = xor_all (name ++ 0x2C :: body) ->
    nmea_rel sp c expect fn_sempNmeaFindAsterisk (TBody name body)
| nmea_digit1 name body :
    terminated nmea_sentenceName sp -> c = xor_all (name ++ 0x2C :: body) ->
    nmea_rel sp c expect fn_sempNmeaChecksumByte1 (TSum name body [])
| nmea_digit2 name body d1 :
    terminated nmea_sentenceName sp -> c = xor_all (name ++ 0x2C :: body) ->
    nmea_rel sp c expect fn_sempNmeaChecksumByte2 (TSum name body [d1])
| nmea_closed name body d1 d2 :
    terminated nmea_sentenceName sp -> c = xor_all (name ++ 0x2C :: body) ->
    nmea_rel sp c expect (nmea_end expect) (TSum name body [d1; d2]).

Definition hash_end (expect : option Z) : SEMP_PARSE_ROUTINE :=
  match expect with
  | None => fn_sempUnicoreHashLineTermination
  | Some e => if e =? 0x0A then fn_sempUnicoreHashLineFeed else fn_sempUnicoreHashCarriageReturn
  end.

Definition hash_digits (name : list Z) : nat := check_digits fn_sempUnicoreHashPreamble name.

Inductive hash_rel (sp : list Z) (c : Z) (expect : option Z) : SEMP_PARSE_ROUTINE -> text -> Prop :=
| hash_name name :
    name_pad unicoreHash_sentenceName unicoreHash_sentenceNameLength sp name -> c = xor_all name ->
    hash_rel sp c expect fn_sempUnicoreHashFindFirstComma (TName name)
| hash_body name body :
    terminated unicoreHash_sentenceName sp ->
    get unicoreHash_checksumBytes sp = Z.of_nat (hash_digits name) ->
    c = xor_all (name ++ 0x2C :: body) ->
    hash_rel sp c expect fn_sempUnicoreHashFindAsterisk (TBody name body)
| hash_sum name body digits :
    terminated unicoreHash_sentenceName sp ->
    get unicoreHash_checksumBytes sp = Z.of_nat (hash_digits name) ->
    get unicoreHash_bytesRemaining sp = Z.of_nat (hash_digits name - length digits) ->
    (length digits < hash_digits name)%nat ->
    c = xor_all (name ++ 0x2C :: body) ->
    hash_rel sp c expect fn_sempUnicoreHashChecksumByte (TSum name body digits)
| hash_closed name body digits :
    terminated unicoreHash_sentenceName sp ->
    get unicoreHash_checksumBytes sp = Z.of_nat (hash_digits name) ->
    length digits = hash_digits name ->
    c = xor_all (name ++ 0x2C :: body) ->
    hash_rel sp c expect (hash_end expect) (TSum name body digits).

Definition text_rel (k : PREAMBLE_ROUTINE) (expect : option Z) (p : SEMP_PARSE_STATE) (t : text) : Prop :=
  match k with
  | fn_sempNmeaPreamble => nmea_rel (scratchPad p) (crc p) expect (state p) t
  | fn_sempUnicoreHashPreamble => hash_rel (scratchPad p) (crc p) expect (state p) t
  | _ => False
  end.

Definition frame_rel (k : PREAMBLE_ROUTINE) (p : SEMP_PARSE_STATE) (m : list Z) : Prop :=
  match k with
  | fn_sempUbloxPreamble =>
      computeCrc p = None /\ ublox_rel (scratchPad p) (state p) m
  | fn_sempRtcmPreamble =>
      computeCrc p = Some fn_sempRtcmComputeCrc24q /\ crc p = crc24q_run 0 m /\
      rtcm_rel (scratchPad p) (state p) m
  | fn_sempCustomPreamble =>
      computeCrc p = Some fn_sempCustomComputeCrc /\ custom_rel (scratchPad p) (crc p) (state p) m
  | _ => False
  end.

(** ** The representation relation *)
Definition R (p : SEMP_PARSE_STATE) (st : spec_state) : Prop :=
  wf p /\
  match st with
  | Scan => state p = fn_sempFirstByte
  | Frame i k m =>
      message p = m /\ parser_type p = Z.of_nat i /\ frame_rel k p m
  | Sentence i k sigil t =>
      message p = flatten sigil t /\ parser_type p = Z.of_nat i /\ computeCrc p = None /\
      text_fits B k sigil t /\ text_rel k None p t
  | Ending i k sigil t expect =>
      message p = flatten sigil t /\ parser_type p = Z.of_nat i /\ computeCrc p = None /\
      text_fits B k sigil t /\ text_rel k (Some expect) p t /\ closed k t = true /\
      (expect = 0x0A \/ expect = 0x0D)
  end.

(** A routine refines a step of the machine: it reaches a state that represents
    the machine's and delivers what the machine outputs, or it is undefined
    where the machine is and in the same way. *)
Definition refines {A} (m : P A) (p : SEMP_PARSE_STATE) (o : res (spec_state * output)) : Prop :=
  match o with
  | Ok (st, out) => exists a p' ev, m p = Ok (a, p', ev) /\ R p' st /\ delivered ev = out
  | Ub u => m p = Ub u
  end.

End invariant.
Arguments refines : simpl never.
Arguments R : simpl never.
Arguments hash_digits : simpl never.

(** What a parser table promises to the scan: a preamble routine that does not
    know the byte changes nothing; one that does starts its protocol. *)
Class PreambleSpec `{SU : Setup} (PT : ParserTable) : Prop := preamble_spec :
  forall k i p b,
    wf p -> is_u8 b -> message p = [b] -> computeCrc p = None -> crc p = 0 ->
    if starts k b then
      match begin i k b with
      | None => call_preamble k b p = Ub MissingReturn
      | Some st => exists p', call_preamble k b p = Ok (true, p', []) /\
                              R (with_parser_type (Z.of_nat i) p') st
      end
    else call_preamble k b p = Ok (false, p, []).

Create HintDb wf.
#[export] Hint Resolve wf_with_state wf_with_parser_type wf_with_computeCrc wf_with_crc
  wf_with_msg_length wf_with_scratchPad wf_with_buffer : wf.
#[export] Hint Resolve wf_buffer_length wf_buffer wf_bytes wf_msg_length wf_crc wf_pad
  wf_table wf_count wf_eom wf_bad : wf.

(** Well-formedness of a structure after member updates. *)
Ltac wf_tac :=
  repeat first
    [ assumption | apply wf_with_state | apply wf_with_parser_type | apply wf_with_computeCrc
    | apply wf_with_scratchPad | apply wf_with_crc | apply wf_with_msg_length ];
  cbn; auto with pad width; try done.

(* ------------------------------------------------------------------ *)
(** ** Messages *)

Section messages.
  Context `{SU : Setup}.

Lemma length_message p : wf p -> Z.of_nat (length (message p)) = msg_length p.
Proof.
  intros H. unfold message. rewrite length_take.
  pose proof (wf_buffer p H). pose proof (wf_msg_length p H). lia.
Qed.

Lemma message_bytes p : wf p -> bytes (message p).
Proof. intros H. apply Forall_take, H. Qed.

(** A byte of the message, counted from its end. *)
Lemma buffer_at_message p m i v :
  wf p -> message p = m -> m !! Z.to_nat i = Some v -> 0 <= i ->
  load (buffer p) i = Ok v.
Proof.
  intros Hwf <- Hv Hi. unfold message in Hv. unfold load.
  assert (Z.to_nat i < Z.to_nat (msg_length p))%nat.
  { apply lookup_lt_Some in Hv. rewrite length_take in Hv. lia. }
  rewrite lookup_take_lt in Hv by done. rewrite Hv. by destruct (0 <=? i) eqn:E; [|lia].
Qed.

Lemma load_end p l s j i v :
  wf p -> message p = l ++ s -> s !! j = Some v ->
  i = msg_length p - Z.of_nat (length s - j) -> load (buffer p) i = Ok v.
Proof.
  intros Hwf Hm Hv ->. pose proof (length_message p Hwf) as Hl.
  rewrite Hm, length_app in Hl. pose proof (lookup_lt_Some _ _ _ Hv).
  eapply buffer_at_message; [done|exact Hm| |lia].
  rewrite lookup_app_r by lia. rewrite <-Hv. f_equal. lia.
Qed.

Lemma buffer_at_ok i p :
  wf p -> 0 <= i < B -> exists v, buffer_at i p = Ok (v, p, []).
Proof.
  intros Hwf Hi. pose proof (wf_buffer p Hwf).
  destruct (lookup_lt_is_Some_2 (buffer p) (Z.to_nat i)) as [v Hv]; [lia|].
  exists v. unfold buffer_at, bind, gets, lift, load. cbn. rewrite Hv.
  by destruct (0 <=? i) eqn:E; [|lia].
Qed.

(** A member of a header lies in the buffer and in a message long enough. *)
Lemma header_get_ok f p :
  wf p -> Z.of_nat (offset f + size f) <= msg_length p ->
  header_get f p = Ok (get f (message p), p, []).
Proof.
  intros Hwf Hf. pose proof (wf_buffer p Hwf). pose proof (wf_msg_length p Hwf).
  unfold header_get, bind, gets, message. rewrite get_take by lia.
  destruct (offset f + size f <=? length (buffer (id p)))%nat eqn:E; [done|].
  unfold id in E. lia.
Qed.

Definition pushed (v : Z) (p : SEMP_PARSE_STATE) : SEMP_PARSE_STATE :=
  with_buffer (<[Z.to_nat (msg_length p) := v]> (buffer p))
    (with_msg_length (msg_length p + 1) p).

Lemma buffer_push_ok v p :
  wf p -> msg_length p < B -> buffer_push v p = Ok (tt, pushed v p, []).
Proof.
  intros Hwf Hlt. pose proof (wf_buffer p Hwf). pose proof (wf_msg_length p Hwf).
  pose proof B_range.
  unfold buffer_push, buffer_set, bind, gets, modify, lift, pushed. cbn.
  rewrite store_ok by lia. by rewrite u16_id by (unfold is_u16; lia).
Qed.

Lemma wf_pushed v p : wf p -> is_u8 v -> msg_length p < B -> wf (pushed v p).
Proof.
  intros Hwf Hv Hlt. pose proof (wf_msg_length p Hwf). unfold pushed.
  apply wf_with_buffer; [apply wf_with_msg_length; [done|lia]| |by rewrite length_insert].
  apply Forall_insert; [apply Hwf|done].
Qed.

Lemma message_pushed v p : wf p -> msg_length p < B -> message (pushed v p) = message p ++ [v].
Proof.
  intros Hwf Hlt. pose proof (wf_buffer p Hwf). pose proof (wf_msg_length p Hwf).
  unfold message, pushed. cbn. replace (Z.to_nat (msg_length p + 1)) with (S (Z.to_nat (msg_length p))) by lia.
  apply take_store. lia.
Qed.

End messages.

(* ------------------------------------------------------------------ *)
(** ** Refinement of composed routines *)

Section refinement.
  Context `{SU : Setup}.

(** Output to the print callbacks changes nothing and delivers nothing. *)
Lemma sempPrintf_ok {S} cb format args (p : S) :
  forallb printable args = true ->
  exists ev, sempPrintf cb format args p = Ok (tt, p, ev) /\ delivered ev = [].
Proof. intros H. unfold sempPrintf. destruct cb; [rewrite H|]; by eexists. Qed.

Lemma refines_bind {A A'} (m : P A) (k : A -> P A') p a p' ev o :
  m p = Ok (a, p', ev) -> delivered ev = [] -> refines (k a) p' o -> refines (bind m k) p o.
Proof.
  intros Hm Hev Hk. unfold refines in *. destruct o as [[st out]|].
  - destruct Hk as (a' & p'' & ev' & Hk & HR & <-). exists a', p'', (ev ++ ev').
    rewrite (bind_ok _ _ _ _ _ _ Hm), Hk. by rewrite delivered_app, Hev.
  - by rewrite (bind_ok _ _ _ _ _ _ Hm), Hk.
Qed.

(** The debug line that follows a failed check. *)
Lemma refines_bind_print {A'} (m : P unit) (k : unit -> P A') cb format args (p : SEMP_PARSE_STATE) o :
  m p = sempPrintf cb format args p -> forallb printable args = true ->
  refines (k tt) p o -> refines (bind m k) p o.
Proof.
  intros Hm Ha Hk. destruct (sempPrintf_ok cb format args p Ha) as (ev & Hp & Hev).
  eapply refines_bind; [by rewrite Hm|done|done].
Qed.

Lemma refines_ok {A} (m : P A) p a p' ev st out :
  m p = Ok (a, p', ev) -> R p' st -> delivered ev = out -> refines m p (Ok (st, out)).
Proof. intros. by exists a, p', ev. Qed.

(** The value a routine returns does not matter to its caller. *)
Lemma refines_ignore {A A'} (m : P A) (a' : A') p o :
  refines m p o -> refines (m;; ret a') p o.
Proof.
  unfold refines. destruct o as [[st out]|].
  - intros (a & p' & ev & Hm & HR & <-). exists a', p', ev. unfold bind.
    rewrite Hm. cbn. by rewrite app_nil_r.
  - intros Hu. unfold bind. by rewrite Hu.
Qed.

Lemma scan_delivers out b :
  scan table out b = match scan table [] b with Ok (st, _) => Ok (st, out) | Ub u => Ub u end.
Proof. unfold scan. by destruct (scan_from table 0 b). Qed.

(** The alternative check of the application. *)
Lemma badCrc_overrides_ok p :
  wf p -> exists ev,
    badCrc_overrides p = Ok (accepts (parser_type p) (message p), p, ev) /\ delivered ev = [].
Proof.
  intros Hwf. unfold badCrc_overrides, bind, gets. cbn. rewrite (wf_bad p Hwf).
  pose proof accepts_spec as H. destruct bad as [f|].
  - cbn. rewrite H, negb_involutive. by eexists.
  - cbn. rewrite H. by eexists.
Qed.

Lemma check_ok (c : bool) p :
  wf p -> exists ev,
    (if c then ret true else badCrc_overrides) p =
      Ok (c || accepts (parser_type p) (message p), p, ev) /\ delivered ev = [].
Proof. intros Hwf. destruct c; [by eexists|by apply badCrc_overrides_ok]. Qed.

Lemma call_eomCallback_ok p :
  wf p -> call_eomCallback p = Ok (tt, p, [EvEom eom p (parser_type p)]).
Proof. intros Hwf. unfold call_eomCallback, bind, gets. cbn. by rewrite (wf_eom p Hwf). Qed.

(** The end of a binary frame: delivery or a debug line, then [k]. *)
Lemma refines_deliver {A} (good : bool) (prt : P unit) (k : P A) cb format args (p : SEMP_PARSE_STATE) a q :
  wf p -> prt p = sempPrintf cb format args p -> forallb printable args = true ->
  k p = Ok (a, q, []) -> R q Scan ->
  refines ((if good then call_eomCallback else prt);; k) p
    (Ok (Scan, if good then [(parser_type p, message p)] else [])).
Proof.
  intros Hwf Hprt Ha Hk HR. destruct good.
  - eapply refines_ok; [unfold bind; rewrite call_eomCallback_ok by done; rewrite Hk; reflexivity|done|done].
  - eapply refines_bind_print; [exact Hprt|done|]. by eapply refines_ok.
Qed.

(** A routine that delivers [out] and then restarts the scan. *)
Lemma refines_bind_scan {A A'} (m : P A) (k : A -> P A') p a p' ev b :
  m p = Ok (a, p', ev) -> refines (k a) p' (scan table [] b) ->
  refines (bind m k) p (scan table (delivered ev) b).
Proof.
  intros Hm Hk. rewrite scan_delivers. unfold scan in *. destruct (scan_from table 0 b) as [st|].
  - destruct Hk as (a' & p'' & ev' & Hk & HR & Hev). exists a', p'', (ev ++ ev').
    rewrite (bind_ok _ _ _ _ _ _ Hm), Hk. by rewrite delivered_app, Hev, app_nil_r.
  - unfold refines in *. by rewrite (bind_ok _ _ _ _ _ _ Hm), Hk.
Qed.

End refinement.

(* ------------------------------------------------------------------ *)
(** ** The scan for a preamble byte

    [sempFirstByte] refines the machine's scan, for every parser table that keeps
    the promise [PreambleSpec]. *)

Section scan.
  Context `{SU : Setup} `{PS : !PreambleSpec PT}.

Lemma walk_refines l i p b :
  table = take i table ++ l -> (i + length l = length table)%nat ->
  wf p -> is_u8 b -> message p = [b] -> computeCrc p = None -> crc p = 0 ->
  refines (walk_parsers_table (length l) (Z.of_nat i) b) p
    (match scan_from l i b with Some st => Ok (st, []) | None => Ub MissingReturn end).
Proof.
  revert i p. induction l as [|k l IH]; intros i p Ht Hi Hwf Hb Hm Hc H0.
  - cbn. eapply refines_ok; [reflexivity| |done]. split; [by apply wf_with_state|done].
  - cbn [length walk_parsers_table scan_from].
    eapply refines_bind; [reflexivity|done|]. rewrite (wf_table p Hwf), Nat2Z.id.
    assert (table !! i = Some k) as ->.
    { rewrite Ht, lookup_app_r by (rewrite length_take; lia).
      rewrite length_take. replace (i - _)%nat with 0%nat by lia. done. }
    pose proof (preamble_spec k i p b Hwf Hb Hm Hc H0) as Hk.
    destruct (starts k b).
    + destruct (begin i k b) as [st|].
      * destruct Hk as (p' & Hk & HR). eapply refines_bind; [exact Hk|done|].
        eapply refines_ok; [reflexivity|exact HR|done].
      * by apply bind_ub.
    + eapply refines_bind; [exact Hk|done|].
      pose proof table_small. cbn [length] in Hi.
      replace (u8 (Z.of_nat i + 1)) with (Z.of_nat (S i)) by (rewrite u8_id; unfold is_u8; lia).
      apply IH; [|lia|done..].
      rewrite Ht at 2. rewrite take_app. replace (take (S i) (take i table)) with (take i table).
      * rewrite length_take. replace (S i - i `min` length table)%nat with 1%nat by lia.
        cbn. by rewrite <-app_assoc.
      * rewrite take_take. f_equal. lia.
Qed.

Lemma sempFirstByte_refines p b :
  wf p -> is_u8 b -> refines (sempFirstByte b) p (scan table [] b).
Proof.
  intros Hwf Hb. unfold sempFirstByte.
  do 5 (eapply refines_bind; [reflexivity|done|]). pose proof B_range.
  set (p0 := with_parser_type _ _).
  assert (wf p0) as Hwf0.
  { apply wf_with_parser_type, wf_with_msg_length; [|lia].
    apply wf_with_computeCrc; [by apply wf_with_crc|done]. }
  eapply refines_bind; [apply buffer_push_ok; [done|cbn; lia]|done|].
  match goal with |- context [Z.to_nat ?c] => change c with (parsers_count p0) end.
  rewrite (wf_count p0 Hwf0), Nat2Z.id.
  apply (walk_refines table 0); [done|done|apply wf_pushed; [done|done|cbn; lia]|done| |done|done].
  rewrite message_pushed by (done || cbn; lia). done.
Qed.

(** A message on the way and a restart of the scan. *)
Lemma print_scan_refines cb format args (p : SEMP_PARSE_STATE) b :
  wf p -> is_u8 b -> forallb printable args = true ->
  refines (sempPrintf cb format args;; sempFirstByte b) p (scan table [] b).
Proof.
  intros Hwf Hb Ha. destruct (sempPrintf_ok cb format args p Ha) as (ev & Hp & Hev).
  eapply refines_bind; [exact Hp|done|]. by apply sempFirstByte_refines.
Qed.

End scan.
