(* ===== verification/FrameRefine.v ===== *)
(** * Refinement of the u-blox, RTCM and custom parsers

    Every state routine of [ParseUblox], [ParseRtcm] and [ParseCustom] takes the
    step of the machine. *)
From S2P Require Import Prelude Crc ParseState MessageParser ParseRtcm ParseUblox ParseCustom.
From S2P Require Import FrameSpec Sentences Representation.

Section ublox_refine.
  Context `{SU : Setup} `{PS : !PreambleSpec PT}.
  Context (i : nat) (p : SEMP_PARSE_STATE) (b : Z).
  Context (Hwf : wf p) (Hb : is_u8 b) (Htype : parser_type p = Z.of_nat i)
    (Hcrc : computeCrc p = None).
  Abbreviation step m := (frame_step table accepts i fn_sempUbloxPreamble m b).

Definition checksummed (q : SEMP_PARSE_STATE) (d : Z) : list Z :=
  put ublox_ck_b (u8 (get ublox_ck_b (scratchPad q) + u8 (get ublox_ck_a (scratchPad q) + d)))
    (put ublox_ck_a (u8 (get ublox_ck_a (scratchPad q) + d)) (scratchPad q)).

Lemma ublox_checksum_ok q d :
  wf q -> ublox_checksum d q = Ok (tt, with_scratchPad (checksummed q d) q, []).
Proof.
  intros Hq. pose proof (wf_pad q Hq).
  unfold ublox_checksum, pad_get, pad_set, bind, gets, modify, checksummed. cbn.
  pad_simpl. rewrite Z.mod_small; [done|apply u8_range].
Qed.

Lemma checksummed_ok q d : wf q -> pad_ok (checksummed q d).
Proof. intros Hq. pose proof (wf_pad q Hq). unfold checksummed. auto with pad. Qed.

Lemma checksummed_pad q l d :
  wf q -> ublox_pad (scratchPad q) l -> ublox_pad (checksummed q d) (l ++ [d]).
Proof.
  intros Hq [Ha Hb']. pose proof (wf_pad q Hq). unfold ublox_pad, checksummed.
  rewrite fletcher_app. pad_simpl. rewrite Ha, Hb'. cbn.
  split; (rewrite Z.mod_small; [done|apply u8_range]).
Qed.

Lemma sempUbloxSync2_refines s1 :
  message p = [s1; b] -> refines (sempUbloxSync2 b) p (step [s1; b]).
Proof.
  intros Hm. unfold sempUbloxSync2, frame_step. cbn. destruct (b =? 0x62) eqn:E; cbn.
  - apply Z.eqb_eq in E as ->. eapply refines_ok; [reflexivity| |done].
    split; [wf_tac|]. repeat split; try done. constructor.
  - do 2 (eapply refines_bind; [reflexivity|done|]). by apply print_scan_refines.
Qed.

Lemma sempUbloxClass_refines s1 :
  message p = [s1; 0x62; b] -> refines (sempUbloxClass b) p (step [s1; 0x62; b]).
Proof.
  intros Hm. pose proof (wf_pad p Hwf).
  eapply refines_ok; [reflexivity| |done]. split; [wf_tac|].
  repeat split; try done. constructor. cbn. unfold ublox_pad. pad_simpl.
  unfold is_u8 in Hb. cbn. rewrite !Z.mod_small; done || lia.
Qed.

Lemma sempUbloxId_refines s1 c :
  message p = [s1; 0x62; c; b] -> ublox_pad (scratchPad p) [c] ->
  refines (sempUbloxId b) p (step [s1; 0x62; c; b]).
Proof.
  intros Hm Hck. pose proof (checksummed_ok p b Hwf).
  eapply refines_bind; [by apply ublox_checksum_ok|done|].
  eapply refines_ok; [reflexivity| |done]. split; [wf_tac|].
  repeat split; try done. constructor. cbn. unfold ublox_pad. pad_simpl.
  by apply (checksummed_pad p [c]).
Qed.

Lemma sempUbloxLength1_refines s1 c d :
  message p = [s1; 0x62; c; d; b] -> ublox_pad (scratchPad p) [c; d] ->
  refines (sempUbloxLength1 b) p (step [s1; 0x62; c; d; b]).
Proof.
  intros Hm Hck. pose proof (checksummed_ok p b Hwf).
  eapply refines_bind; [by apply ublox_checksum_ok|done|].
  eapply refines_ok; [reflexivity| |done]. split; [wf_tac|].
  repeat split; try done. constructor; cbn.
  - unfold ublox_pad. pad_simpl. by apply (checksummed_pad p [c; d]).
  - pad_simpl. unfold is_u8 in Hb. apply Z.mod_small. cbn. lia.
Qed.

Lemma sempUbloxLength2_refines s1 c d l1 :
  message p = [s1; 0x62; c; d; l1; b] -> ublox_pad (scratchPad p) [c; d; l1] ->
  get ublox_bytesRemaining (scratchPad p) = l1 ->
  refines (sempUbloxLength2 b) p (step [s1; 0x62; c; d; l1; b]).
Proof.
  intros Hm Hck Hl. pose proof (checksummed_ok p b Hwf). pose proof (wf_pad p Hwf).
  assert (bytes [s1; 0x62; c; d; l1; b]) as Hbs by (rewrite <-Hm; by apply message_bytes).
  do 4 apply Forall_cons_1 in Hbs as [_ Hbs]. apply Forall_cons_1 in Hbs as [Hl1 _].
  unfold is_u8 in *.
  assert (step [s1; 0x62; c; d; l1; b]
          = Ok (Frame i fn_sempUbloxPreamble [s1; 0x62; c; d; l1; b], [])) as ->.
  { unfold frame_step, frame_verdict, ublox_verdict. cbn -[Nat.ltb].
    destruct (0 <? Z.to_nat (l1 + 256 * b) + 2)%nat eqn:E; [done|lia]. }
  eapply refines_bind; [by apply ublox_checksum_ok|done|].
  eapply refines_ok; [reflexivity| |done]. split; [wf_tac|].
  repeat split; try done. apply (ublox_payload _ s1 c d l1 b []); cbn.
  - unfold ublox_pad. pad_simpl. by apply (checksummed_pad p [c; d; l1]).
  - pad_simpl. unfold checksummed. pad_simpl. rewrite Hl.
    rewrite lor_shiftl_add by lia. cbn. unfold u16. rewrite !Z.mod_small; lia.
Qed.

Lemma sempUbloxPayload_refines s1 c d l1 l2 pl :
  let m := s1 :: 0x62 :: c :: d :: l1 :: l2 :: pl in
  message p = m ++ [b] -> ublox_pad (scratchPad p) (c :: d :: l1 :: l2 :: pl) ->
  get ublox_bytesRemaining (scratchPad p) + Z.of_nat (length pl) = l1 + 256 * l2 ->
  state p = fn_sempUbloxPayload ->
  refines (sempUbloxPayload b) p (step (m ++ [b])).
Proof.
  intros m Hm Hck Hl Hst. pose proof (wf_pad p Hwf) as Hpad.
  pose proof (pad_get_range ublox_bytesRemaining (scratchPad p) Hpad eq_refl) as Hr. cbn in Hr.
  unfold m. cbn [app].
  assert (step (s1 :: 0x62 :: c :: d :: l1 :: l2 :: pl ++ [b])
     = Ok (Frame i fn_sempUbloxPreamble (s1 :: 0x62 :: c :: d :: l1 :: l2 :: pl ++ [b]), [])) as ->.
  { unfold frame_step, frame_verdict, ublox_verdict. cbn -[Nat.ltb]. rewrite length_app. cbn -[Nat.ltb].
    by destruct (length pl + 1 <? Z.to_nat (l1 + 256 * l2) + 2)%nat eqn:E; [|lia]. }
  unfold sempUbloxPayload. do 2 (eapply refines_bind; [reflexivity|done|]).
  set (q := with_scratchPad _ p). assert (wf q) as Hq by (unfold q; wf_tac).
  assert (ublox_pad (scratchPad q) (c :: d :: l1 :: l2 :: pl)) as Hckq.
  { unfold q, ublox_pad. cbn. pad_simpl. exact Hck. }
  destruct (get ublox_bytesRemaining (scratchPad p) =? 0) eqn:E; cbn [negb].
  - eapply refines_ok; [reflexivity| |done]. split; [wf_tac|]. repeat split; try done.
    constructor; [exact Hckq|lia].
  - eapply refines_bind; [by apply ublox_checksum_ok|done|].
    pose proof (checksummed_ok q b Hq).
    eapply refines_ok; [reflexivity| |done]. split; [wf_tac|]. repeat split; try done. cbn. rewrite Hst.
    constructor.
    + by apply (checksummed_pad q (c :: d :: l1 :: l2 :: pl)).
    + unfold checksummed. pose proof (wf_pad q Hq). pad_simpl. unfold q. cbn. pad_simpl.
      rewrite length_app. cbn. unfold u16. rewrite !Z.mod_small; lia.
Qed.

Lemma sempUbloxCkB_refines s1 c d l1 l2 pl a :
  let m := s1 :: 0x62 :: c :: d :: l1 :: l2 :: pl ++ [a] in
  message p = m ++ [b] -> ublox_pad (scratchPad p) (c :: d :: l1 :: l2 :: pl) ->
  Z.of_nat (length pl) = l1 + 256 * l2 ->
  refines (sempUbloxCkB b) p (step (m ++ [b])).
Proof.
  intros m Hm Hck Hl.
  pose proof (length_message p Hwf) as Hlen. rewrite Hm in Hlen.
  assert (Z.of_nat (length (m ++ [b])) = 8 + Z.of_nat (length pl)) as Hlm.
  { unfold m. rewrite length_app. cbn. rewrite length_app. cbn. lia. }
  unfold m in *. rewrite <-!app_comm_cons, <-app_assoc in *. cbn [app] in Hm |- *.
  set (m' := s1 :: 0x62 :: c :: d :: l1 :: l2 :: pl ++ [a; b]) in *.
  assert (load (buffer p) (msg_length p - 2) = Ok a) as Ha
    by by eapply (load_end p (s1 :: 0x62 :: c :: d :: l1 :: l2 :: pl) [a; b] 0).
  assert (load (buffer p) (msg_length p - 1) = Ok b) as Hbb
    by by eapply (load_end p (s1 :: 0x62 :: c :: d :: l1 :: l2 :: pl) [a; b] 1).
  assert (step m' = Ok (Scan,
     if bool_decide ([a; b] = [(fletcher (c :: d :: l1 :: l2 :: pl)).1; (fletcher (c :: d :: l1 :: l2 :: pl)).2])
        || accepts (Z.of_nat i) m' then [(Z.of_nat i, m')] else [])) as ->.
  { unfold frame_step, frame_verdict, ublox_verdict, m'. cbn -[Nat.ltb fletcher].
    rewrite length_app. destruct (length pl + length [a; b] <? _)%nat eqn:E; [cbn [length] in E; lia|].
    by rewrite take_app_length', drop_app_length' by lia. }
  destruct Hck as [Hca Hcb]. set (ck := fletcher (c :: d :: l1 :: l2 :: pl)) in *.
  destruct (check_ok (negb (negb (a =? ck.1) || negb (b =? ck.2))) p Hwf) as (ev & Hchk & Hev).
  rewrite Hm, Htype in Hchk.
  assert (negb (negb (a =? ck.1) || negb (b =? ck.2)) = bool_decide ([a; b] = [ck.1; ck.2])) as Heq.
  { destruct (Z.eqb_spec a ck.1), (Z.eqb_spec b ck.2); case_bool_decide; cbn; congruence. }
  rewrite Heq in Hchk. unfold sempUbloxCkB. 
  do 5 (eapply refines_bind; [cbn; unfold buffer_at, bind, gets, lift, pad_get; cbn; rewrite ?Ha, ?Hbb; reflexivity|done|]).
  rewrite Hca, Hcb, Heq. eapply refines_bind; [exact Hchk|exact Hev|].
  destruct (bool_decide _ || accepts _ _) eqn:E.
  - eapply refines_ok.
    + unfold bind. rewrite call_eomCallback_ok by done. reflexivity.
    + split; [|done]. pose proof B_range. wf_tac. lia.
    + cbn. by rewrite Hm, Htype.
  - eapply refines_bind_print; [run_monad; reflexivity|done|].
    eapply refines_ok; [reflexivity| |done]. split; [|done]. pose proof B_range. wf_tac. lia.
Qed.

End ublox_refine.

Lemma sempUbloxPreamble_spec `{SU : Setup} i p b :
  wf p -> message p = [b] -> computeCrc p = None ->
  if b =? 0xb5
  then exists p', sempUbloxPreamble b p = Ok (true, p', []) /\
                  R (with_parser_type (Z.of_nat i) p') (Frame i fn_sempUbloxPreamble [b])
  else sempUbloxPreamble b p = Ok (false, p, []).
Proof.
  intros Hwf Hm Hc. unfold sempUbloxPreamble. destruct (b =? 0xb5); [|done]. cbn [negb].
  eexists. split; [reflexivity|]. split; [wf_tac|]. repeat split; try done. constructor.
Qed.

(* ------------------------------------------------------------------ *)
(** ** Refinement of the RTCM parser

    Every state routine of [ParseRtcm] takes the step of the machine. *)

Section rtcm_refine.
  Context `{SU : Setup} `{PS : !PreambleSpec PT}.
  Context (i : nat) (p : SEMP_PARSE_STATE) (m : list Z) (b : Z).
  Context (Hwf : wf p) (Hb : is_u8 b) (Htype : parser_type p = Z.of_nat i)
    (Hfun : computeCrc p = Some fn_sempRtcmComputeCrc24q)
    (Hm : message p = m ++ [b]) (Hcrc : crc p = crc24q_run 0 (m ++ [b])).
  Abbreviation step := (frame_step table accepts i fn_sempRtcmPreamble (m ++ [b]) b).
  Abbreviation stay := (Ok (Frame i fn_sempRtcmPreamble (m ++ [b]), [])).

Lemma rtcm_message_bytes : bytes (m ++ [b]).
Proof. rewrite <-Hm. by apply message_bytes. Qed.

Lemma rtcm_message_short : Z.of_nat (length (m ++ [b])) <= B.
Proof. rewrite <-Hm, length_message by done. apply wf_msg_length, Hwf. Qed.

(** A frame that is not complete. *)
Lemma rtcm_more s1 h l body :
  m ++ [b] = s1 :: h :: l :: body -> h <= 3 ->
  256 * h + l < 3 \/ Z.of_nat (length body) < 256 * h + l + 3 -> step = stay.
Proof.
  intros -> Hh Hn. unfold frame_step, frame_verdict. by rewrite rtcm_verdict_more.
Qed.

Lemma sempRtcmReadLength1_refines s1 :
  m = [s1] -> refines (sempRtcmReadLength1 b) p step.
Proof.
  intros Hm1. pose proof (wf_pad p Hwf). unfold sempRtcmReadLength1.
  assert (negb (Z.land b (Z.lnot 3) =? 0) = (3 <? b)) as ->.
  { rewrite <-Z.ldiff_land. change 3 with (Z.ones 2) at 1. rewrite Z.ldiff_ones_r by lia.
    unfold is_u8 in Hb. rewrite Z.shiftr_div_pow2, Z.shiftl_mul_pow2 by lia. change (2 ^ 2) with 4.
    destruct (3 <? b) eqn:E; destruct (Z.eqb_spec (b / 4 * 4) 0); cbn; try done; mlia. }
  unfold frame_step, frame_verdict. rewrite Hm1. cbn [app rtcm_verdict].
  destruct (3 <? b) eqn:E; [by apply sempFirstByte_refines|].
  eapply refines_ok; [reflexivity| |done]. split; [wf_tac|].
  rewrite Hm1 in *. repeat split; try done. constructor; [lia|].
  cbn. pad_simpl. unfold is_u8 in Hb. rewrite Z.shiftl_mul_pow2 by lia. change (2 ^ 8) with 256.
  unfold u16. cbn. rewrite !Z.mod_small; lia.
Qed.

Lemma sempRtcmReadLength2_refines s1 h :
  m = [s1; h] -> h <= 3 -> get rtcm_bytesRemaining (scratchPad p) = 256 * h ->
  refines (sempRtcmReadLength2 b) p step.
Proof.
  intros Hm1 Hh Hn. pose proof (wf_pad p Hwf). pose proof rtcm_message_bytes as Hbs.
  rewrite Hm1 in Hbs. apply Forall_cons_1 in Hbs as [_ [Hh' _]%Forall_cons_1].
  unfold is_u8 in *. rewrite (rtcm_more s1 h b []) by (rewrite ?Hm1; cbn; done || lia).
  eapply refines_ok; [reflexivity| |done]. split; [wf_tac|].
  rewrite Hm1 in *. repeat split; try done. constructor; [done|]. cbn. pad_simpl. rewrite Hn.
  assert (Z.lor (256 * h) b = 256 * h + b) as ->.
  { replace (256 * h) with (Z.shiftl h 8) by (rewrite Z.shiftl_mul_pow2; lia).
    rewrite Z.lor_comm, lor_shiftl_add, Z.shiftl_mul_pow2 by lia. lia. }
  unfold u16. cbn. rewrite !Z.mod_small; lia.
Qed.

Lemma rtcm_length_range s1 h l body :
  m ++ [b] = s1 :: h :: l :: body -> is_u8 h /\ is_u8 l.
Proof.
  intros Ht. pose proof rtcm_message_bytes as Hbs. rewrite Ht in Hbs.
  apply Forall_cons_1 in Hbs as [_ [? [? _]%Forall_cons_1]%Forall_cons_1]. done.
Qed.

Lemma sempRtcmReadMessage1_refines s1 h l :
  m = [s1; h; l] -> h <= 3 -> get rtcm_bytesRemaining (scratchPad p) = 256 * h + l ->
  refines (sempRtcmReadMessage1 b) p step.
Proof.
  intros Hm1 Hh Hn. pose proof (wf_pad p Hwf).
  destruct (rtcm_length_range s1 h l [b]) as [? ?]; [by rewrite Hm1|]. unfold is_u8 in *.
  rewrite (rtcm_more s1 h l [b]) by (rewrite ?Hm1; cbn; done || lia).
  eapply refines_ok; [reflexivity| |done]. split; [wf_tac|].
  rewrite Hm1 in *. repeat split; try done. constructor; [done|].
  cbn. pad_simpl. rewrite Hn. apply Z.mod_small, u16_range.
Qed.

Lemma sempRtcmReadMessage2_refines s1 h l d :
  m = [s1; h; l; d] -> h <= 3 -> get rtcm_bytesRemaining (scratchPad p) = u16 (256 * h + l - 1) ->
  refines (sempRtcmReadMessage2 b) p step.
Proof.
  intros Hm1 Hh Hn. pose proof (wf_pad p Hwf).
  destruct (rtcm_length_range s1 h l [d; b]) as [? ?]; [by rewrite Hm1|]. unfold is_u8 in *.
  rewrite (rtcm_more s1 h l [d; b]) by (rewrite ?Hm1; cbn; done || lia).
  eapply refines_ok; [reflexivity| |done]. split; [wf_tac|].
  rewrite Hm1 in *. repeat split; try done. constructor; [done| |cbn; lia].
  cbn. pad_simpl. rewrite Hn. cbn. unfold u16. mlia.
Qed.

Lemma sempRtcmReadData_refines s1 h l d1 d2 body :
  m = s1 :: h :: l :: d1 :: d2 :: body -> h <= 3 ->
  get rtcm_bytesRemaining (scratchPad p) = u16 (256 * h + l - 2 - Z.of_nat (length body)) ->
  256 * h + l < 3 \/ 2 + Z.of_nat (length body) < 256 * h + l ->
  state p = fn_sempRtcmReadData ->
  refines (sempRtcmReadData b) p step.
Proof.
  intros Hm1 Hh Hn Hl Hst. pose proof (wf_pad p Hwf).
  destruct (rtcm_length_range s1 h l (d1 :: d2 :: body ++ [b])) as [? ?]; [by rewrite Hm1|].
  pose proof rtcm_message_short as Hshort. pose proof B_range.
  rewrite length_app, Hm1 in Hshort. cbn [length] in Hshort. unfold is_u8 in *.
  rewrite (rtcm_more s1 h l (d1 :: d2 :: body ++ [b]))
    by (rewrite ?Hm1; cbn; rewrite ?length_app; cbn; done || lia).
  rewrite Hm1 in *. unfold sempRtcmReadData.
  do 3 (eapply refines_bind; [reflexivity|done|]). cbn. pad_simpl. rewrite Hn.
  set (n := u16 (u16 _ - 1) mod _).
  assert (n = u16 (256 * h + l - 3 - Z.of_nat (length body))) as Hn' by (unfold n, u16; cbn; mlia).
  destruct (n <=? 0) eqn:E.
  - assert (256 * h + l = 3 + Z.of_nat (length body)) by (unfold u16 in Hn'; mlia).
    eapply refines_ok; [reflexivity| |done]. split; [wf_tac|]. repeat split; try done.
    eapply (rtcm_crcbytes _ s1 h l (d1 :: d2 :: body ++ [b]) []) in Hh; cbn.
    + rewrite app_nil_r in Hh. exact Hh.
    + lia.
    + rewrite length_app. cbn. lia.
    + by pad_simpl.
    + lia.
  - eapply refines_ok; [reflexivity| |done]. split; [wf_tac|]. repeat split; try done.
    cbn. rewrite Hst. constructor; [done| |].
    + pad_simpl. fold n. rewrite Hn', length_app. cbn. f_equal. lia.
    + rewrite length_app. cbn. unfold u16 in Hn'. mlia.
Qed.

(** The verdict on a complete frame is the register being zero. *)
Lemma rtcm_done s1 h l body c0 c1 :
  m = s1 :: h :: l :: body ++ [c0; c1] -> h <= 3 -> 3 <= 256 * h + l ->
  Z.of_nat (length body) = 256 * h + l ->
  frame_verdict fn_sempRtcmPreamble (m ++ [b]) = Done (crc p =? 0).
Proof.
  intros Hm1 Hh Hl Hbody. rewrite Hcrc. pose proof rtcm_message_bytes as Hbs.
  assert (m ++ [b] = (s1 :: h :: l :: body) ++ [c0; c1; b]) as Hmb
    by (rewrite Hm1; cbn; by rewrite <-app_assoc).
  rewrite Hmb in Hbs |- *. apply Forall_app in Hbs as [Hbs Hck].
  do 2 apply Forall_cons_1 in Hck as [? Hck]. clear Hck.
  pose proof (crc24q_run_range 0 (s1 :: h :: l :: body) ltac:(done)) as Hr.
  pose proof (crc24q_residue _ c0 c1 b Hr ltac:(done) ltac:(done) ltac:(done)) as Hres.
  rewrite crc24q_run_app.
  unfold frame_verdict, rtcm_verdict. cbn [app]. destruct (3 <? h) eqn:E; [lia|]. cbn zeta.
  rewrite length_app. destruct (_ || _)%nat eqn:E2; [cbn [length] in E2; lia|].
  rewrite drop_app_length' by lia. f_equal.
  replace (take (3 + Z.to_nat (256 * h + l)) (s1 :: h :: l :: body ++ [c0; c1; b]))
    with (s1 :: h :: l :: body).
  2: { cbn. by rewrite take_app_length' by lia. }
  rewrite <-crc24q_run_ref by done.
  case_bool_decide; destruct (Z.eqb_spec (crc24q_run (crc24q_run 0 (s1 :: h :: l :: body)) [c0; c1; b]) 0); tauto.
Qed.

Lemma sempRtcmReadCrc_refines s1 h l body cks :
  m = s1 :: h :: l :: body ++ cks -> h <= 3 -> 3 <= 256 * h + l ->
  Z.of_nat (length body) = 256 * h + l ->
  get rtcm_bytesRemaining (scratchPad p) = 3 - Z.of_nat (length cks) ->
  (length cks < 3)%nat -> state p = fn_sempRtcmReadCrc ->
  refines (sempRtcmReadCrc b) p step.
Proof.
  intros Hm1 Hh Hl Hbody Hn Hc Hst. pose proof (wf_pad p Hwf).
  unfold sempRtcmReadCrc. do 3 (eapply refines_bind; [reflexivity|done|]). cbn. pad_simpl.
  rewrite Hn. rewrite Z.mod_small by apply u16_range. rewrite u16_id by (unfold is_u16; lia).
  destruct (0 <? 3 - Z.of_nat (length cks) - 1) eqn:E.
  - rewrite (rtcm_more s1 h l (body ++ cks ++ [b])).
    2: by rewrite Hm1, app_assoc. 2: done. 2: rewrite !length_app; cbn; lia.
    eapply refines_ok; [reflexivity| |done]. split; [wf_tac|]. repeat split; try done.
    cbn. rewrite Hst. replace (m ++ [b]) with (s1 :: h :: l :: body ++ (cks ++ [b])).
    2: by rewrite Hm1, app_assoc.
    constructor; rewrite ?length_app; cbn; try (done || lia). pad_simpl.
    cbn. rewrite Z.mod_small by lia. lia.
  - destruct cks as [|c0 [|c1 [|c2 cks]]]; cbn [length] in E, Hc; try lia.
    set (q := with_scratchPad _ p). assert (wf q) as Hq by (unfold q; wf_tac).
    eapply refines_bind; [reflexivity|done|].
    destruct (check_ok (crc q =? 0) q Hq) as (ev & Hchk & Hev).
    eapply refines_bind; [exact Hchk|exact Hev|].
    unfold frame_step. rewrite (rtcm_done s1 h l body c0 c1) by done.
    rewrite <-Hm, <-Htype. change (crc p) with (crc q).
    change (message p) with (message q). change (parser_type p) with (parser_type q).
    eapply refines_deliver; [done|unfold pad_get; run_monad; reflexivity|done|reflexivity|].
    split; [wf_tac|done].
Qed.

End rtcm_refine.

Lemma sempRtcmPreamble_spec `{SU : Setup} i p b :
  wf p -> message p = [b] -> crc p = 0 ->
  if b =? 0xd3
  then exists p', sempRtcmPreamble b p = Ok (true, p', []) /\
                  R (with_parser_type (Z.of_nat i) p') (Frame i fn_sempRtcmPreamble [b])
  else sempRtcmPreamble b p = Ok (false, p, []).
Proof.
  intros Hwf Hm Hc. unfold sempRtcmPreamble. destruct (b =? 0xd3); [|done].
  eexists. split; [reflexivity|]. split; [wf_tac|]. cbn. rewrite Hc.
  repeat split; try done. constructor.
Qed.

(* ------------------------------------------------------------------ *)
(** ** Refinement of the parser of the custom protocol

    Every state routine of [ParseCustom] takes the step of the machine. *)

(** The length field is fixed once it has been received. *)
Lemma custom_length_app m l : (14 <= length m)%nat -> custom_length (m ++ l) = custom_length m.
Proof. intros H. unfold custom_length. by rewrite get_app. Qed.

Lemma custom_length_range m :
  bytes m -> (14 <= length m)%nat -> Z.of_nat (custom_length m) = get (Member 12 2) m /\
  Z.of_nat (custom_length m) < 65536.
Proof.
  intros Hm Hl. unfold custom_length. pose proof (get_range (Member 12 2) m Hm Hl) as Hr.
  cbn in Hr. lia.
Qed.

Lemma custom_crc_of_app n m b :
  (20 + n <= length m)%nat -> custom_crc_of n (m ++ [b]) = crc32_update (custom_crc_of n m) b.
Proof.
  intros H. unfold custom_crc_of. rewrite length_app.
  destruct (20 + n <=? length m + length [b])%nat eqn:E; [|cbn [length] in E; lia].
  destruct (20 + n <=? length m)%nat eqn:E2; [|lia].
  by rewrite take_app_le, drop_app_le, crc32_run_app by lia.
Qed.

Section custom_refine.
  Context `{SU : Setup} `{PS : !PreambleSpec PT}.
  Context (i : nat) (p : SEMP_PARSE_STATE) (m : list Z) (b : Z).
  Context (Hwf : wf p) (Hb : is_u8 b) (Htype : parser_type p = Z.of_nat i)
    (Hfun : computeCrc p = Some fn_sempCustomComputeCrc)
    (Hm : message p = m ++ [b]).
  Abbreviation step := (frame_step table accepts i fn_sempCustomPreamble (m ++ [b]) b).
  Abbreviation stay := (Ok (Frame i fn_sempCustomPreamble (m ++ [b]), [])).

Lemma custom_message_bytes : bytes (m ++ [b]).
Proof. rewrite <-Hm. by apply message_bytes. Qed.

Lemma custom_message_length : Z.of_nat (length (m ++ [b])) = msg_length p.
Proof. by rewrite <-Hm, length_message. Qed.

(** A frame that is not complete. *)
Lemma custom_more s1 rest :
  m ++ [b] = s1 :: 0x44 :: 0x18 :: rest ->
  (length (m ++ [b]) < 20 \/ custom_length (m ++ [b]) = 0 \/
   length (m ++ [b]) < 24 + custom_length (m ++ [b]))%nat -> step = stay.
Proof.
  intros Hmb Hn. unfold frame_step, frame_verdict. rewrite (custom_verdict_synced _ _ _ Hmb).
  cbn zeta. destruct (_ || _)%nat eqn:E; [done|lia].
Qed.

Lemma sempCustomSync2_refines s1 :
  m = [s1] -> crc p = crc32_run 0xFFFFFFFF (m ++ [b]) -> refines (sempCustomSync2 b) p step.
Proof.
  intros -> Hcrc. unfold sempCustomSync2, frame_step, frame_verdict. cbn [app custom_verdict].
  destruct (b =? 0x44) eqn:E; cbn [negb]; [|by apply sempFirstByte_refines].
  apply Z.eqb_eq in E as ->. eapply refines_ok; [reflexivity| |done].
  split; [wf_tac|]. repeat split; try done. by constructor.
Qed.

Lemma sempCustomSync3_refines s1 :
  m = [s1; 0x44] -> crc p = crc32_run 0xFFFFFFFF (m ++ [b]) -> refines (sempCustomSync3 b) p step.
Proof.
  intros Hm1 Hcrc. unfold sempCustomSync3. destruct (b =? 0x18) eqn:E; cbn [negb].
  - apply Z.eqb_eq in E. rewrite (custom_more s1 []) by (rewrite Hm1, E; done || cbn; lia).
    eapply refines_ok; [reflexivity| |done].
    split; [wf_tac|]. repeat split; try done. rewrite Hm1, E in *. constructor; [cbn; lia|done].
  - unfold frame_step, frame_verdict, custom_verdict. rewrite Hm1. cbn [app]. rewrite E.
    by apply sempFirstByte_refines.
Qed.

Lemma sempCustomReadHeader_refines s1 rest :
  m = s1 :: 0x44 :: 0x18 :: rest -> (length rest < 17)%nat ->
  crc p = crc32_run 0xFFFFFFFF (m ++ [b]) -> state p = fn_sempCustomReadHeader ->
  refines (sempCustomReadHeader b) p step.
Proof.
  intros Hm1 Hr Hcrc Hst. pose proof (wf_pad p Hwf). pose proof custom_message_length as Hlen.
  pose proof (wf_buffer p Hwf). pose proof B_range. pose proof custom_message_bytes as Hbs.
  rewrite (custom_more s1 (rest ++ [b])); [|by rewrite Hm1|].
  2: { rewrite length_app, Hm1. cbn [length]. lia. }
  unfold sempCustomReadHeader, sizeof_SEMP_CUSTOM_HEADER. eapply refines_bind; [reflexivity|done|].
  destruct (20 <=? msg_length p) eqn:E; cbn [when].
  - assert (length (m ++ [b]) = 20)%nat as Hlm.
    { rewrite length_app, Hm1 in *. cbn [length] in *. lia. }
    destruct (custom_length_range (m ++ [b]) Hbs) as [Hcl Hcl']; [lia|].
    eapply refines_ok.
    { unfold bind. rewrite header_get_ok by (done || cbn; lia). reflexivity. }
    2: done.
    split; [wf_tac|]. repeat split; try done. apply (custom_data _ _ s1 (rest ++ [b])).
    + by rewrite Hm1.
    + lia.
    + lia.
    + cbn. pad_simpl. unfold custom_header_messageLength.
      rewrite Hm, <-Hcl, Hlm. unfold u16. f_equal. cbn. lia.
    + done.
  - eapply refines_ok; [reflexivity| |done]. split; [wf_tac|]. repeat split; try done. rewrite Hst.
    rewrite Hm1 in *. cbn [app] in *. constructor; [|done].
    cbn [length] in Hlen. lia.
Qed.

Lemma sempCustomReadData_refines s1 rest :
  m = s1 :: 0x44 :: 0x18 :: rest -> (20 <= length m)%nat ->
  (custom_length m = 0 \/ length m < 20 + custom_length m)%nat ->
  get custom_bytesRemaining (scratchPad p)
    = u16 (Z.of_nat (custom_length m) - (Z.of_nat (length m) - 20)) ->
  crc p = crc32_run 0xFFFFFFFF (m ++ [b]) -> state p = fn_sempCustomReadData ->
  refines (sempCustomReadData b) p step.
Proof.
  intros Hm1 Hl20 Hn Hget Hcrc Hst. pose proof (wf_pad p Hwf). pose proof B_range.
  pose proof custom_message_length as Hlen. pose proof (wf_msg_length p Hwf).
  pose proof custom_message_bytes as Hbs. rewrite length_app in Hlen. cbn [length] in Hlen.
  assert (custom_length (m ++ [b]) = custom_length m) as Hcl by (apply custom_length_app; lia).
  destruct (custom_length_range m) as [_ Hcl']; [by apply Forall_app in Hbs as []|lia|].
  rewrite (custom_more s1 (rest ++ [b])); [|by rewrite Hm1|].
  2: { rewrite Hcl, length_app. cbn [length]. lia. }
  unfold sempCustomReadData. do 3 (eapply refines_bind; [reflexivity|done|]).
  cbn. pad_simpl. rewrite Hget. set (n := u16 (u16 _ - 1) mod _).
  assert (n = u16 (Z.of_nat (custom_length m) - (Z.of_nat (length m) - 19))) as Hn'
    by (unfold n, u16; cbn; mlia).
  assert (length (m ++ [b]) = length m + 1)%nat as Hlm by (by rewrite length_app).
  destruct (n =? 0) eqn:E; cbn [when].
  - assert (length m + 1 = 20 + custom_length m)%nat by (unfold u16 in Hn'; mlia).
    assert (is_u32 (Z.lxor (crc p) 0xFFFFFFFF)) by (apply lxor_u32; [apply Hwf|done]).
    eapply refines_ok; [reflexivity| |done]. split; [wf_tac|].
    repeat split; try done. apply (custom_crcbytes _ _ s1 (rest ++ [b])); rewrite ?Hcl, ?Hlm; cbn.
    + by rewrite Hm1.
    + lia.
    + lia.
    + pad_simpl. cbn. lia.
    + unfold custom_crc_of. rewrite Hlm. destruct (20 + custom_length m <=? length m + 1)%nat eqn:E2; [|lia].
      rewrite take_ge, drop_ge by lia. by rewrite Hcrc.
  - eapply refines_ok; [reflexivity| |done]. split; [wf_tac|]. repeat split; try done.
    cbn. rewrite Hst. apply (custom_data _ _ s1 (rest ++ [b])); rewrite ?Hcl, ?Hlm.
    + by rewrite Hm1.
    + lia.
    + unfold u16 in Hn'. mlia.
    + pad_simpl. fold n. rewrite Hn'. f_equal. lia.
    + done.
Qed.

(** The verdict on a complete frame is the register being zero. *)
Lemma custom_done s1 rest :
  m ++ [b] = s1 :: 0x44 :: 0x18 :: rest ->
  let n := custom_length (m ++ [b]) in
  (0 < n)%nat -> length (m ++ [b]) = (24 + n)%nat -> crc p = custom_crc_of n (m ++ [b]) ->
  frame_verdict fn_sempCustomPreamble (m ++ [b]) = Done (crc p =? 0).
Proof.
  intros Hmb n Hn Hlen Hcrc. pose proof custom_message_bytes as Hbs.
  assert (frame_verdict fn_sempCustomPreamble (m ++ [b]) =
    Done (bool_decide (drop (20 + n) (m ++ [b]) = custom_check (take (20 + n) (m ++ [b]))))) as ->.
  { unfold frame_verdict. rewrite (custom_verdict_synced _ _ _ Hmb). cbn zeta. fold n.
    destruct (_ || _)%nat eqn:E; [lia|done]. }
  f_equal. rewrite Hcrc. unfold custom_crc_of, custom_check.
  destruct (20 + n <=? length (m ++ [b]))%nat eqn:E; [|lia].
  rewrite <-crc32_run_ref by (done || by apply Forall_take).
  pose proof (crc32_run_range 0xFFFFFFFF (take (20 + n) (m ++ [b])) ltac:(done)) as Hr.
  set (c := crc32_run _ (take _ _)) in *.
  pose proof (crc32_residue (Z.lxor c 0xFFFFFFFF) (drop (20 + n) (m ++ [b]))) as Hres.
  assert (is_u32 (Z.lxor c 0xFFFFFFFF)) by (by apply lxor_u32).
  specialize (Hres ltac:(done) ltac:(by apply Forall_drop) ltac:(rewrite length_drop; lia)).
  case_bool_decide as Hd; symmetry; [apply Z.eqb_eq|apply Z.eqb_neq]; tauto.
Qed.

Lemma sempCustomReadCrc_refines s1 rest :
  m = s1 :: 0x44 :: 0x18 :: rest -> (0 < custom_length m)%nat ->
  (20 + custom_length m <= length m < 24 + custom_length m)%nat ->
  get custom_bytesRemaining (scratchPad p) = 24 + Z.of_nat (custom_length m) - Z.of_nat (length m) ->
  crc p = crc32_update (custom_crc_of (custom_length m) m) b -> state p = fn_sempCustomReadCrc ->
  refines (sempCustomReadCrc b) p step.
Proof.
  intros Hm1 Hn Hl Hget Hcrc Hst. pose proof (wf_pad p Hwf). pose proof (wf_msg_length p Hwf).
  assert (custom_length (m ++ [b]) = custom_length m) as Hcl by (apply custom_length_app; lia).
  assert (length (m ++ [b]) = length m + 1)%nat as Hlm by (by rewrite length_app).
  assert (m ++ [b] = s1 :: 0x44 :: 0x18 :: rest ++ [b]) as Hmb by (by rewrite Hm1).
  rewrite <-custom_crc_of_app, <-Hcl in Hcrc by lia. pose proof custom_message_length as Hlen.
  unfold sempCustomReadCrc. do 3 (eapply refines_bind; [reflexivity|done|]).
  cbn. pad_simpl. rewrite Hget. rewrite Z.mod_small by apply u16_range.
  rewrite u16_id by (unfold is_u16; lia).
  set (q := with_scratchPad _ p). assert (wf q) as Hq by (unfold q; wf_tac).
  destruct (_ - 1 =? 0) eqn:E; cbn [negb].
  - eapply refines_bind; [reflexivity|done|].
    destruct (check_ok (crc q =? 0) q Hq) as (ev & Hchk & Hev).
    eapply refines_bind; [exact Hchk|exact Hev|].
    unfold frame_step. rewrite (custom_done s1 (rest ++ [b])) by (done || lia).
    rewrite <-Hm, <-Htype. change (crc p) with (crc q).
    change (message p) with (message q). change (parser_type p) with (parser_type q).
    destruct (buffer_at_ok (msg_length q - 4) q Hq) as [b4 H4]; [cbn; lia|].
    destruct (buffer_at_ok (msg_length q - 3) q Hq) as [b3 H3]; [cbn; lia|].
    destruct (buffer_at_ok (msg_length q - 2) q Hq) as [b2 H2]; [cbn; lia|].
    destruct (buffer_at_ok (msg_length q - 1) q Hq) as [b1 H1]; [cbn; lia|].
    eapply refines_deliver; [done| | |reflexivity|split; [wf_tac|done]].
    { unfold pad_get. run_monad. rewrite (bind_silent _ _ _ _ _ H4), (bind_silent _ _ _ _ _ H3),
      (bind_silent _ _ _ _ _ H2), (bind_silent _ _ _ _ _ H1). run_monad. reflexivity. }
    done.
  - rewrite (custom_more s1 (rest ++ [b])) by (done || lia).
    eapply refines_ok; [reflexivity| |done]. split; [wf_tac|]. repeat split; try done. cbn.
    rewrite Hst. apply (custom_crcbytes _ _ s1 (rest ++ [b])); rewrite ?Hcl, ?Hlm; try (done || lia).
    + pad_simpl. cbn. rewrite Z.mod_small; lia.
    + by rewrite Hcrc, Hcl.
Qed.

End custom_refine.

Lemma sempCustomPreamble_spec `{SU : Setup} i p b :
  wf p -> message p = [b] ->
  if b =? 0xAA
  then exists p', sempCustomPreamble b p = Ok (true, p', []) /\
                  R (with_parser_type (Z.of_nat i) p') (Frame i fn_sempCustomPreamble [b])
  else sempCustomPreamble b p = Ok (false, p, []).
Proof.
  intros Hwf Hm. unfold sempCustomPreamble. destruct (b =? 0xAA); cbn [negb]; [|done].
  eexists. split; [reflexivity|]. split; [wf_tac; done|].
  repeat split; try done. by constructor.
Qed.
