(* ===== verification/SentenceRefine.v ===== *)
(** * Refinement of the NMEA parser

    What the refinements of the two sentence parsers share (the name array, the
    check digits, the steps of a sentence and its end), and the refinement of the
    routines of [ParseNmea]. *)
From S2P Require Import Prelude Crc ParseState MessageParser ParseNmea FrameSpec Sentences.
From S2P Require Import Representation.

(* ------------------------------------------------------------------ *)
(** ** The name array *)

Lemma pad_array_set_ok o n k v p :
  (k < n)%nat ->
  pad_array_set o n (Z.of_nat k) v p =
    Ok (tt, with_scratchPad (put (Member (o + k) 1) v (scratchPad p)) p, []).
Proof.
  intros H. unfold pad_array_set.
  destruct ((0 <=? Z.of_nat k) && (Z.of_nat k <? Z.of_nat n)) eqn:E; [|lia]. by rewrite Nat2Z.id.
Qed.

(* ------------------------------------------------------------------ *)
(** ** Steps *)

Section step.
  Context `{SU : Setup}.

(** The next state of a sentence or a restart of the scan. *)
Definition text_target (i : nat) (k : PREAMBLE_ROUTINE) (sigil : Z) (t : text) (b : Z) :=
  match text_step B k sigil t b with
  | Some t' => Ok (Sentence i k sigil t', [])
  | None => scan table [] b
  end.

Lemma text_target_scan i k sigil t b :
  text_step B k sigil t b = None -> text_target i k sigil t b = scan table [] b.
Proof. unfold text_target. by intros ->. Qed.

(** A routine that moves to the next part of the sentence. *)
Lemma refines_text {A} (m : P A) i k sigil t t' p b a q :
  message p = flatten sigil t ++ [b] -> text_fits B k sigil t ->
  text_step B k sigil t b = Some t' ->
  m p = Ok (a, q, []) -> wf q -> message q = message p ->
  parser_type q = Z.of_nat i -> computeCrc q = None -> text_rel k None q t' ->
  refines m p (text_target i k sigil t b).
Proof.
  intros Hm Hok Hs Hp Hwf Hmq Ht Hc Hr. unfold text_target. rewrite Hs.
  eapply refines_ok; [exact Hp| |done]. split; [done|].
  split; [by rewrite Hmq, (flatten_step _ _ _ _ _ _ Hs)|]. split_and!; try done.
  pose proof B_range. eapply text_fits_step; [|done|done]. lia.
Qed.

End step.

(* ------------------------------------------------------------------ *)
(** ** Ends *)

Section ending.
  Context `{SU : Setup} `{PS : !PreambleSpec PT}.

(** CR, LF and a terminator after the message, then its delivery. *)
Abbreviation send_sentence :=
  (buffer_push 0x0D;; buffer_push 0x0A;;
   n <- gets msg_length;; buffer_set n 0;; call_eomCallback)%c.

Lemma send_sentence_ok p :
  wf p -> msg_length p + 3 <= B ->
  exists q, send_sentence p = Ok (tt, q, [EvEom eom q (parser_type p)]) /\
            wf q /\ message q = message p ++ [0x0D; 0x0A].
Proof.
  intros Hwf Hl. pose proof (wf_msg_length p Hwf). pose proof B_range.
  pose proof (wf_pushed 0x0D p Hwf ltac:(done) ltac:(lia)) as Hwf1.
  pose proof (wf_pushed 0x0A (pushed 0x0D p) Hwf1 ltac:(done) ltac:(cbn; lia)) as Hwf2.
  set (p2 := pushed 0x0A (pushed 0x0D p)) in *.
  assert (msg_length p2 = msg_length p + 2) as Hl2 by (cbn; lia).
  set (q := with_buffer (<[Z.to_nat (msg_length p2) := 0]> (buffer p2)) p2).
  assert (wf q) as Hq.
  { apply wf_with_buffer; [done|apply Forall_insert; [apply Hwf2|done]|by rewrite length_insert]. }
  exists q. split_and!; [|done|].
  - rewrite (bind_silent _ _ _ _ _ (buffer_push_ok 0x0D p Hwf ltac:(lia))).
    rewrite (bind_silent _ _ _ _ _ (buffer_push_ok 0x0A _ Hwf1 ltac:(cbn; lia))). fold p2.
    rewrite bind_gets. rewrite (bind_silent _ _ p2 tt q); [exact (call_eomCallback_ok q Hq)|].
    unfold buffer_set. rewrite bind_gets. unfold bind, lift, id.
    rewrite store_ok by (rewrite (wf_buffer p2 Hwf2); lia). done.
  - transitivity (message p2).
    + unfold message, q. cbn [buffer msg_length with_buffer]. by rewrite take_insert_ge by lia.
    + unfold p2. rewrite !message_pushed, <-app_assoc by (done || cbn; lia). done.
Qed.

Lemma buffer_push_oob v p : wf p -> msg_length p = B -> buffer_push v p = Ub OutOfBounds.
Proof.
  intros Hwf Hl. unfold buffer_push. run_monad. unfold buffer_set, bind, gets, lift, id. cbn.
  by rewrite store_oob by (rewrite (wf_buffer p Hwf); lia).
Qed.

(** Without room for the three bytes, the last of them leaves the buffer. *)
Lemma send_sentence_oob p :
  wf p -> B < msg_length p + 3 -> send_sentence p = Ub OutOfBounds.
Proof.
  intros Hwf Hl. pose proof (wf_msg_length p Hwf). pose proof B_range.
  destruct (decide (msg_length p = B)); [by apply bind_ub, buffer_push_oob|].
  rewrite (bind_silent _ _ _ _ _ (buffer_push_ok 0x0D p Hwf ltac:(lia))).
  pose proof (wf_pushed 0x0D p Hwf ltac:(done) ltac:(lia)) as Hwf1.
  destruct (decide (msg_length p = B - 1)); [apply bind_ub, buffer_push_oob; [done|cbn; lia]|].
  rewrite (bind_silent _ _ _ _ _ (buffer_push_ok 0x0A _ Hwf1 ltac:(cbn; lia))).
  pose proof (wf_pushed 0x0A (pushed 0x0D p) Hwf1 ltac:(done) ltac:(cbn; lia)) as Hwf2.
  rewrite bind_gets. apply bind_ub. unfold buffer_set. rewrite bind_gets. unfold bind, lift, id.
  by rewrite store_oob by (rewrite (wf_buffer _ Hwf2); cbn; lia).
Qed.

(** A validation routine delivers what the end of the sentence outputs. *)
Definition validates (m : P unit) (p : SEMP_PARSE_STATE) (o : option output) : Prop :=
  match o with
  | Some out => exists q ev, m p = Ok (tt, q, ev) /\ wf q /\ delivered ev = out
  | None => m p = Ub OutOfBounds
  end.

Lemma validates_scan m p o b :
  validates m p o -> is_u8 b ->
  refines (m;; sempFirstByte b) p
    (match o with Some out => scan table out b | None => Ub OutOfBounds end).
Proof.
  intros Hv Hb. destruct o as [out|].
  - destruct Hv as (q & ev & Hm & Hq & <-). eapply refines_bind_scan; [exact Hm|].
    by apply sempFirstByte_refines.
  - by apply bind_ub.
Qed.

Lemma validates_end m p o :
  validates m p o ->
  refines (m;; modify (with_state fn_sempFirstByte);; ret true) p
    (match o with Some out => Ok (Scan, out) | None => Ub OutOfBounds end).
Proof.
  intros Hv. destruct o as [out|].
  - destruct Hv as (q & ev & Hm & Hq & <-). eapply refines_ok.
    + rewrite (bind_ok _ _ _ _ _ _ Hm). reflexivity.
    + split; [wf_tac|done].
    + by rewrite delivered_app, app_nil_r.
  - by apply bind_ub.
Qed.

(** The terminator that [sempParseNextByte] stored is taken off again. *)
Definition unpushed (p : SEMP_PARSE_STATE) : SEMP_PARSE_STATE :=
  with_msg_length (u16 (msg_length p - 1)) p.

Lemma unpushed_ok p m b :
  wf p -> message p = m ++ [b] -> wf (unpushed p) /\ message (unpushed p) = m.
Proof.
  intros Hwf Hm. pose proof (length_message p Hwf) as Hl. pose proof (wf_msg_length p Hwf).
  pose proof B_range. rewrite Hm, length_app in Hl. cbn in Hl. unfold unpushed.
  rewrite u16_id by (unfold is_u16; lia). split; [apply wf_with_msg_length; [done|lia]|].
  unfold message in *. cbn. replace (take _ (buffer p)) with (take (length m) (m ++ [b])).
  - apply take_app_length.
  - rewrite <-Hm, firstn_firstn. f_equal. lia.
Qed.

(** The steps of a closed sentence. *)
Definition closed_target (i : nat) (k : PREAMBLE_ROUTINE) (sigil : Z) (t : text) (b : Z) :=
  if b =? 0x0D then Ok (Ending i k sigil t 0x0A, [])
  else if b =? 0x0A then Ok (Ending i k sigil t 0x0D, [])
  else match finish B accepts i k sigil t with Some out => scan table out b | None => Ub OutOfBounds end.

Definition ending_target (i : nat) (k : PREAMBLE_ROUTINE) (sigil : Z) (t : text) (expect b : Z) :=
  match finish B accepts i k sigil t with
  | Some out => if b =? expect then Ok (Scan, out) else scan table out b
  | None => Ub OutOfBounds
  end.

(** A routine that takes a terminator off and validates. *)
Lemma ending_refines validate i k sigil t expect p b :
  wf p -> is_u8 b -> message p = flatten sigil t ++ [b] ->
  validates validate (unpushed p) (finish B accepts i k sigil t) ->
  refines (n <- gets msg_length;; modify (with_msg_length (u16 (n - 1)));;
           if b =? expect then validate;; modify (with_state fn_sempFirstByte);; ret true
           else validate;; sempFirstByte b) p
    (ending_target i k sigil t expect b).
Proof.
  intros Hwf Hb Hm Hv. do 2 (eapply refines_bind; [reflexivity|done|]). fold (unpushed p).
  unfold ending_target. destruct (b =? expect).
  - by apply validates_end.
  - by apply validates_scan.
Qed.

(** The bytes at the end of a message. *)
Lemma buffer_at_end p l s j v :
  wf p -> message p = l ++ s -> s !! j = Some v ->
  buffer_at (msg_length p - Z.of_nat (length s - j)) p = Ok (v, p, []).
Proof.
  intros Hwf Hm Hv. unfold buffer_at. rewrite bind_gets. unfold lift, id.
  by rewrite (load_end p l s j _ v).
Qed.

(** A closed sentence ends in its digits. *)
Lemma closed_split k sigil name body digits p :
  wf p -> message p = flatten sigil (TSum name body digits) ->
  text_fits B k sigil (TSum name body digits) ->
  exists l, message p = l ++ digits /\ bytes digits /\
            Forall (fun b => is_Some (digit_value b)) digits.
Proof.
  intros Hwf Hm (_ & _ & _ & _ & Hd). exists (sigil :: name ++ 0x2C :: body ++ [0x2A]).
  assert (message p = (sigil :: name ++ 0x2C :: body ++ [0x2A]) ++ digits) as Hs.
  { rewrite Hm. cbn. by rewrite <-app_assoc, <-app_comm_cons, <-app_assoc. }
  pose proof (message_bytes p Hwf) as Hbs. rewrite Hs in Hbs. by apply Forall_app in Hbs as [].
Qed.

End ending.

(* ------------------------------------------------------------------ *)
(** ** Refinement of the NMEA parser

    Every state routine of [ParseNmea] takes the step of the machine. *)

Lemma nmea_name_array : name_array nmea_sentenceName nmea_sentenceNameLength.
Proof. split; cbn; done || lia. Qed.

Section nmea_refine.
  Context `{SU : Setup} `{PS : !PreambleSpec PT}.
  Context (i : nat) (sigil : Z) (p : SEMP_PARSE_STATE) (b : Z).
  Context (Hwf : wf p) (Hb : is_u8 b) (Htype : parser_type p = Z.of_nat i)
    (Hnone : computeCrc p = None).
  Abbreviation target t := (text_target i fn_sempNmeaPreamble sigil t b).
  Abbreviation arrived t :=
    (message p = flatten sigil t ++ [b] /\ text_fits B fn_sempNmeaPreamble sigil t).

Lemma sempNmeaFindFirstComma_refines name :
  arrived (TName name) -> name_pad nmea_sentenceName nmea_sentenceNameLength (scratchPad p) name ->
  crc p = xor_all name -> state p = fn_sempNmeaFindFirstComma ->
  refines (sempNmeaFindFirstComma b) p (target (TName name)).
Proof.
  intros [Hm Hok] Hname Hcrc Hst. pose proof (wf_pad p Hwf) as Hpad.
  assert (is_u32 (Z.lxor (crc p) b)) as Hx by (apply lxor_u32; [apply Hwf|auto with width]).
  pose proof Hok as [Hlen _]. pose proof nmea_name_array as Harr.
  unfold sempNmeaFindFirstComma. do 3 (eapply refines_bind; [reflexivity|done|]).
  set (q := with_crc _ p). assert (wf q) as Hq by (unfold q; wf_tac).
  pose proof Hname as [Hk _]. cbn [scratchPad with_crc q]. rewrite Hk, invalid_name_character_spec by done.
  rewrite name_continues.
  destruct ((b =? 0x2C) && negb (bool_decide (name = []))) eqn:E; cbn [negb].
  - assert (text_step B fn_sempNmeaPreamble sigil (TName name) b = Some (TBody name [])) as Hstep
      by exact (text_step_comma _ _ _ _ _ E).
    assert (b = 0x2C) as Hb2 by lia.
    eapply refines_bind; [apply pad_array_set_ok; unfold SEMP_NMEA_SENTENCE_NAME_BYTES; lia|done|].
    pose proof (name_room _ _ Harr (length name) ltac:(lia)).
    eapply refines_text; [done|done|exact Hstep|reflexivity|wf_tac|done..|].
    constructor.
    + apply (closed_terminated _ _ name); [done|].
      exact (name_pad_close _ _ Harr _ _ Hpad Hlen (proj2 Hname)).
    + cbn. by rewrite xor_all_app, Hcrc, Hb2.
  - destruct (negb (name_character b)) eqn:E2.
    { rewrite text_target_scan by exact (text_step_stray _ _ _ _ _ E E2).
      do 2 (eapply refines_bind; [reflexivity|done|]). by apply print_scan_refines. }
    change (Z.of_nat SEMP_NMEA_SENTENCE_NAME_BYTES - 1) with 15.
    destruct (Z.of_nat (length name) =? 15) eqn:E3.
    { rewrite text_target_scan by exact (text_step_long _ _ _ _ _ E E3).
      do 2 (eapply refines_bind; [reflexivity|done|]). by apply print_scan_refines. }
    assert (length name < 15)%nat by lia.
    assert (text_step B fn_sempNmeaPreamble sigil (TName name) b = Some (TName (name ++ [b])))
      by exact (text_step_name _ _ _ _ _ E E2 E3).
    eapply refines_bind; [reflexivity|done|].
    eapply refines_bind; [apply pad_array_set_ok; unfold SEMP_NMEA_SENTENCE_NAME_BYTES; lia|done|].
    pose proof (name_room _ _ Harr (length name) ltac:(lia)).
    eapply refines_text; [done|done|eassumption|reflexivity|wf_tac|done..|].
    cbn [text_rel state with_scratchPad q with_crc]. rewrite Hst. constructor.
    + exact (name_pad_push _ _ Harr _ name _ Hpad Hb ltac:(lia) Hname).
    + cbn. by rewrite xor_all_app, Hcrc.
Qed.

Lemma sempNmeaFindAsterisk_refines name body :
  arrived (TBody name body) -> terminated nmea_sentenceName (scratchPad p) ->
  crc p = xor_all (name ++ 0x2C :: body) -> state p = fn_sempNmeaFindAsterisk ->
  refines (sempNmeaFindAsterisk b) p (target (TBody name body)).
Proof.
  intros [Hm Hok] Hterm Hcrc Hst.
  assert (is_u32 (Z.lxor (crc p) b)) as Hx by (apply lxor_u32; [apply Hwf|auto with width]).
  unfold sempNmeaFindAsterisk. destruct (b =? 0x2A) eqn:E.
  - eapply refines_text; [done|done|cbn -[flatten]; by rewrite E|reflexivity|wf_tac|done..|].
    by constructor.
  - do 4 (eapply refines_bind; [reflexivity|done|]).
    pose proof (length_message p Hwf) as Hlen. pose proof (wf_msg_length p Hwf). pose proof B_range.
    assert (flatten sigil (TBody name body) ++ [b] = flatten sigil (TBody name (body ++ [b]))) as Hf
      by (cbn; by rewrite <-app_assoc).
    rewrite Hm, Hf in Hlen. cbn [buffer_length msg_length with_crc].
    rewrite (wf_buffer_length p Hwf), u32_id by (unfold is_u32, NMEA_BUFFER_OVERHEAD; lia).
    rewrite <-Hlen. change NMEA_BUFFER_OVERHEAD with (sentence_overhead fn_sempNmeaPreamble).
    destruct (B <? _) eqn:E2.
    + rewrite text_target_scan by (cbn [text_step]; by rewrite E, E2).
      do 2 (eapply refines_bind; [reflexivity|done|]). apply print_scan_refines; [wf_tac|done|done].
    + eapply refines_text; [done|done|cbn [text_step]; by rewrite E, E2|reflexivity|wf_tac|done..|].
      cbn [text_rel state with_crc]. rewrite Hst. constructor; [done|].
      cbn. by rewrite app_comm_cons, app_assoc, xor_all_app, Hcrc.
Qed.

(** The last byte received is the one that is looked at. *)
Lemma nmea_last t : arrived t -> buffer_at (msg_length p - 1) p = Ok (b, p, []).
Proof.
  intros [Hm _]. exact (buffer_at_end p (flatten sigil t) [b] 0 b Hwf Hm eq_refl).
Qed.

Lemma sempNmeaChecksumByte1_refines name body :
  arrived (TSum name body []) -> terminated nmea_sentenceName (scratchPad p) ->
  crc p = xor_all (name ++ 0x2C :: body) ->
  refines (sempNmeaChecksumByte1 b) p (target (TSum name body [])).
Proof.
  intros Harr Hterm Hcrc. pose proof Harr as [Hm Hok]. unfold sempNmeaChecksumByte1.
  eapply refines_bind; [reflexivity|done|]. eapply refines_bind; [by eapply nmea_last|done|].
  rewrite asciiToNibble_nonneg by done. destruct (digit_value b) as [v|] eqn:E; cbn -[flatten].
  - eapply refines_text; [done|done|cbn; by rewrite E|reflexivity|wf_tac|done..|]. by constructor.
  - rewrite text_target_scan by (cbn; by rewrite E).
    do 2 (eapply refines_bind; [reflexivity|done|]). by apply print_scan_refines.
Qed.

Lemma sempNmeaChecksumByte2_refines name body d1 :
  arrived (TSum name body [d1]) -> terminated nmea_sentenceName (scratchPad p) ->
  crc p = xor_all (name ++ 0x2C :: body) ->
  refines (sempNmeaChecksumByte2 b) p (target (TSum name body [d1])).
Proof.
  intros Harr Hterm Hcrc. pose proof Harr as [Hm Hok]. unfold sempNmeaChecksumByte2.
  eapply refines_bind; [reflexivity|done|]. eapply refines_bind; [by eapply nmea_last|done|].
  rewrite asciiToNibble_nonneg by done. destruct (digit_value b) as [v|] eqn:E; cbn -[flatten].
  - eapply refines_text; [done|done|cbn; by rewrite E|reflexivity|wf_tac|done..|].
    by apply (nmea_closed _ _ None).
  - rewrite text_target_scan by (cbn; by rewrite E).
    do 2 (eapply refines_bind; [reflexivity|done|]). by apply print_scan_refines.
Qed.

Section nmea_end.
  Context (name body : list Z) (d1 d2 : Z).
  Abbreviation t := (TSum name body [d1; d2]).
  Context (Harr : arrived t) (Hterm : terminated nmea_sentenceName (scratchPad p))
    (Hcrc : crc p = xor_all (name ++ 0x2C :: body)).

Lemma nmea_fits : Z.of_nat (length (flatten sigil t)) + 3 <= B.
Proof.
  destruct Harr as [_ (_ & _ & _ & Hlen & _)]. cbn in *. rewrite length_app in *. cbn in *.
  rewrite length_app. cbn. lia.
Qed.

Lemma sempNmeaValidateChecksum_validates :
  validates sempNmeaValidateChecksum (unpushed p) (finish B accepts i fn_sempNmeaPreamble sigil t).
Proof.
  destruct Harr as [Hm Hok]. destruct (unpushed_ok p _ _ Hwf Hm) as [Hq Hmq].
  set (q := unpushed p) in *. pose proof nmea_fits as Hfits.
  pose proof (length_message q Hq) as Hlen. rewrite Hmq in Hlen.
  destruct (closed_split _ _ _ _ _ q Hq Hmq Hok) as (l & Hl & Hb12 & Hd12).
  apply Forall_cons_1 in Hb12 as [Hb1 [Hb2 _]%Forall_cons_1].
  apply Forall_cons_1 in Hd12 as [Hd1 [Hd2 _]%Forall_cons_1].
  pose proof (buffer_at_end q l _ 0 d1 Hq Hl eq_refl) as Hat1.
  pose proof (buffer_at_end q l _ 1 d2 Hq Hl eq_refl) as Hat2.
  change (Z.of_nat _) with 2 in Hat1. change (Z.of_nat _) with 1 in Hat2.
  destruct (two_digits d1 d2 Hb1 Hb2 Hd1 Hd2) as [Hneg Hval].
  assert (finish B accepts i fn_sempNmeaPreamble sigil t =
    Some (if (digits_value [d1; d2] =? crc q) || accepts (parser_type q) (message q)
          then [(parser_type q, message q ++ [0x0D; 0x0A])] else [])) as ->.
  { change (crc q) with (crc p). change (parser_type q) with (parser_type p).
    rewrite Hcrc, Hmq, Htype. cbn -[flatten digits_value xor_all].
    destruct (_ || _); [|done]. by destruct (_ <=? B) eqn:E; [|lia]. }
  destruct (check_ok (digits_value [d1; d2] =? crc q) q Hq) as (ev & Hchk & Hev).
  unfold validates, sempNmeaValidateChecksum.
  rewrite bind_gets, (bind_silent _ _ _ _ _ Hat1). unfold shift_left_int. rewrite Hneg.
  rewrite bind_ret, (bind_silent _ _ _ _ _ Hat2), bind_gets, Hval, (bind_ok _ _ _ _ _ _ Hchk).
  destruct (_ || _).
  - destruct (send_sentence_ok q Hq) as (q' & Hs & Hq' & Hmq'); [lia|]. rewrite Hs.
    eexists _, _. split_and!; [done|done|]. rewrite delivered_app, Hev. cbn. by rewrite Hmq'.
  - run_monad. destruct (sempPrintf_ok (printDebug q)
      "SEMP: %s NMEA %s, 0x%04x (%d) bytes, bad checksum, received 0x%c%c, computed: 0x%02x"
      [AStr (parserName q); AChars (pad_array nmea_sentenceName SEMP_NMEA_SENTENCE_NAME_BYTES q);
       AInt (msg_length q); AInt (msg_length q); AInt d1; AInt d2; AInt (crc q)] q) as (ev' & Hp & Hev').
    { cbn -[existsb]. rewrite andb_true_r. exact Hterm. }
    rewrite Hp. eexists _, _. split_and!; [done|done|]. by rewrite delivered_app, Hev.
Qed.

Lemma sempNmeaLineTermination_refines :
  refines (sempNmeaLineTermination b) p (closed_target i fn_sempNmeaPreamble sigil t b).
Proof.
  pose proof Harr as [Hm Hok]. destruct (unpushed_ok p _ _ Hwf Hm) as [Hq Hmq].
  unfold sempNmeaLineTermination, closed_target.
  do 2 (eapply refines_bind; [reflexivity|done|]). fold (unpushed p).
  destruct (b =? 0x0D); [|destruct (b =? 0x0A)].
  - eapply refines_ok; [reflexivity| |done]. split; [by apply wf_with_state|].
    split_and!; try done; [|by left]. by apply (nmea_closed _ _ (Some 0x0A)).
  - eapply refines_ok; [reflexivity| |done]. split; [by apply wf_with_state|].
    split_and!; try done; [|by right]. by apply (nmea_closed _ _ (Some 0x0D)).
  - apply validates_scan; [apply sempNmeaValidateChecksum_validates|done].
Qed.

Lemma sempNmeaLineFeed_refines :
  refines (sempNmeaLineFeed b) p (ending_target i fn_sempNmeaPreamble sigil t 0x0A b).
Proof. eapply ending_refines; [done|done|apply Harr|apply sempNmeaValidateChecksum_validates]. Qed.

Lemma sempNmeaCarriageReturn_refines :
  refines (sempNmeaCarriageReturn b) p (ending_target i fn_sempNmeaPreamble sigil t 0x0D b).
Proof. eapply ending_refines; [done|done|apply Harr|apply sempNmeaValidateChecksum_validates]. Qed.

End nmea_end.
End nmea_refine.

Lemma sempNmeaPreamble_spec `{SU : Setup} i p b :
  wf p -> message p = [b] -> computeCrc p = None -> crc p = 0 ->
  if (b =? 0x24) || (b =? 0x21)
  then exists p', sempNmeaPreamble b p = Ok (true, p', []) /\
                  R (with_parser_type (Z.of_nat i) p') (Sentence i fn_sempNmeaPreamble b (TName []))
  else sempNmeaPreamble b p = Ok (false, p, []).
Proof.
  intros Hwf Hm Hn Hc. unfold sempNmeaPreamble. rewrite <-negb_orb.
  destruct ((b =? 0x24) || (b =? 0x21)); cbn [negb]; [|done].
  pose proof (wf_pad p Hwf).
  eexists. split; [reflexivity|]. split; [wf_tac|]. split_and!; try done.
  - split; [cbn; lia|done].
  - constructor; [|done]. split; [cbn; by pad_simpl|done].
Qed.
