(* ===== verification/HashRefine.v ===== *)
(** * Refinement of the Unicore hash parser

    Every state routine of [ParseUnicoreHash] takes the step of the machine. *)
From S2P Require Import Prelude Crc ParseState MessageParser ParseNmea ParseUnicoreHash FrameSpec.
From S2P Require Import Sentences Representation SentenceRefine.

Lemma hash_name_array : name_array unicoreHash_sentenceName unicoreHash_sentenceNameLength.
Proof. split; cbn; done || lia. Qed.

(** ** The search for MODE *)

Lemma starts_with_spec needle hay :
  starts_with needle hay = bool_decide (take (length needle) hay = needle).
Proof.
  revert hay. induction needle as [|a needle IH]; intros [|c hay]; cbn; try done.
  rewrite IH. destruct (Z.eqb_spec a c) as [->|]; cbn.
  - case_bool_decide as H1; case_bool_decide as H2; congruence.
  - case_bool_decide; congruence.
Qed.

Lemma strstr_MODE name : strstr name str_MODE = contains_MODEb name.
Proof.
  induction name as [|c name IH]; [done|]. cbn [strstr contains_MODEb].
  by rewrite IH, starts_with_spec.
Qed.

(** ** The CRC over the buffer *)

(** The loop from index [i] over the bytes [l], which end before an asterisk. *)
Lemma unicore_hash_crc_loop_ok p l d rest fuel i c :
  (forall j v, (d :: l ++ 0x2A :: rest) !! j = Some v -> buffer_at (i + Z.of_nat j) p = Ok (v, p, [])) ->
  Forall (fun b => b <> 0x2A) l -> (length l < fuel)%nat ->
  unicore_hash_crc_loop fuel i c p
    = Ok ((crc32_run c (d :: l), i + Z.of_nat (S (length l))), p, []).
Proof.
  revert d fuel i c. induction l as [|d' l IH]; intros d fuel i c Hat Hl Hf;
    (destruct fuel as [|fuel]; [cbn in Hf; lia|]); cbn [unicore_hash_crc_loop].
  - rewrite (bind_silent _ _ _ d p) by (rewrite <-(Z.add_0_r i); by apply (Hat 0%nat)).
    rewrite (bind_silent _ _ _ 0x2A p) by by apply (Hat 1%nat). done.
  - apply Forall_cons_1 in Hl as [Hd' Hl].
    rewrite (bind_silent _ _ _ d p) by (rewrite <-(Z.add_0_r i); by apply (Hat 0%nat)).
    rewrite (bind_silent _ _ _ d' p) by by apply (Hat 1%nat).
    destruct (Z.eqb_spec d' 0x2A); [done|]. rewrite (IH d').
    + cbn. do 4 f_equal. lia.
    + intros j v Hj. replace (i + 1 + Z.of_nat j) with (i + Z.of_nat (S j)) by lia. by apply Hat.
    + done.
    + cbn in Hf. lia.
Qed.

(** The value of the digits so far, at most eight. *)
Lemma unicore_hash_read_crc_ok p l i acc :
  (forall j v, l !! j = Some v -> buffer_at (i + Z.of_nat j) p = Ok (v, p, [])) ->
  bytes l -> Forall (fun b => is_Some (digit_value b)) l ->
  0 <= acc -> acc * 16 ^ Z.of_nat (length l) + 16 ^ Z.of_nat (length l) <= 2 ^ 32 ->
  unicore_hash_read_crc (length l) i acc p
    = Ok (foldl (fun v b => 16 * v + default 0 (digit_value b)) acc l, p, []).
Proof.
  revert i acc. induction l as [|d l IH]; intros i acc Hat Hb Hd Hacc Hmax; [done|].
  apply Forall_cons_1 in Hb as [Hb Hbs]. apply Forall_cons_1 in Hd as [[v Hv] Hds].
  cbn [length unicore_hash_read_crc foldl].
  rewrite (bind_silent _ _ _ d p) by (rewrite <-(Z.add_0_r i); by apply (Hat 0%nat)).
  pose proof (digit_value_range _ _ Hv). rewrite asciiToNibble_spec, Hv by done. cbn [default from_option id].
  cbn [length] in Hmax. rewrite Nat2Z.inj_succ, Z.pow_succ_r in Hmax by lia.
  assert (1 <= 16 ^ Z.of_nat (length l)) by (pose proof (Z.pow_pos_nonneg 16 (Z.of_nat (length l))); lia).
  assert (acc < 2 ^ 28) by nia.
  assert (u32 (Z.lor (u32 (Z.shiftl acc 4)) (u32 v)) = 16 * acc + v) as ->.
  { rewrite (u32_id v) by (unfold is_u32; lia). rewrite (u32_id (Z.shiftl acc 4)).
    2: { rewrite Z.shiftl_mul_pow2 by lia. unfold is_u32. lia. }
    rewrite Z.lor_comm, lor_shiftl_add by lia. rewrite u32_id; [lia|]. unfold is_u32. lia. }
  apply IH; [|done|done|lia|nia].
  intros j w Hj. replace (i + 1 + Z.of_nat j) with (i + Z.of_nat (S j)) by lia. by apply Hat.
Qed.

(** ** The states *)

Section hash_refine.
  Context `{SU : Setup} `{PS : !PreambleSpec PT}.
  Context (i : nat) (sigil : Z) (p : SEMP_PARSE_STATE) (b : Z).
  Context (Hwf : wf p) (Hb : is_u8 b) (Htype : parser_type p = Z.of_nat i)
    (Hnone : computeCrc p = None).
  Abbreviation K := fn_sempUnicoreHashPreamble.
  Abbreviation target t := (text_target i K sigil t b).
  Abbreviation arrived t := (message p = flatten sigil t ++ [b] /\ text_fits B K sigil t).

(** The comma closes the name and fixes the number of check digits. *)
Lemma hash_comma name :
  arrived (TName name) ->
  name_pad unicoreHash_sentenceName unicoreHash_sentenceNameLength (scratchPad p) name ->
  crc p = xor_all name -> (b =? 0x2C) && negb (bool_decide (name = [])) = true ->
  refines
    (pad_array_set unicoreHash_sentenceName SEMP_UNICORE_HASH_SENTENCE_NAME_BYTES (Z.of_nat (length name)) 0;;
     chars <- gets (pad_array unicoreHash_sentenceName SEMP_UNICORE_HASH_SENTENCE_NAME_BYTES);;
     name <- lift (c_string chars);;
     pad_set unicoreHash_checksumBytes (if strstr name str_MODE then 2 else 8);;
     modify (with_state fn_sempUnicoreHashFindAsterisk);;
     ret true) (with_crc (Z.lxor (crc p) b) p) (target (TName name)).
Proof.
  intros [Hm Hok] Hname Hcrc E. pose proof (wf_pad p Hwf) as Hpad.
  assert (is_u32 (Z.lxor (crc p) b)) as Hx by (apply lxor_u32; [apply Hwf|auto with width]).
  pose proof Hok as [Hlen _]. pose proof hash_name_array as Harr.
  set (q := with_crc _ p). assert (wf q) as Hq by (unfold q; wf_tac).
  assert (text_step B K sigil (TName name) b = Some (TBody name [])) as Hstep
    by exact (text_step_comma _ _ _ _ _ E).
  assert (b = 0x2C) as Hb2 by lia.
  eapply refines_bind;
    [apply pad_array_set_ok; unfold SEMP_UNICORE_HASH_SENTENCE_NAME_BYTES; lia|done|].
  pose proof (name_room _ _ Harr (length name) ltac:(lia)) as Hroom.
  pose proof (name_pad_close _ _ Harr _ _ Hpad Hlen (proj2 Hname)) as Hclose.
  eapply refines_bind; [reflexivity|done|].
  eapply refines_bind; [unfold lift, pad_array; erewrite c_string_name; [reflexivity|done|exact Hclose]|done|].
  rewrite strstr_MODE. set (sp := put (Member _ 1) 0 _) in *.
  assert (pad_ok sp) by (unfold sp; auto with pad).
  eapply refines_text; [done|done|exact Hstep|reflexivity|unfold q in *; wf_tac|done..|].
  constructor.
  - apply (closed_terminated _ _ name); [done|]. rewrite <-Hclose. cbn [scratchPad with_scratchPad with_state].
    by rewrite drop_put_below by (done || (unfold unicoreHash_sentenceName; cbn; lia)).
  - cbn. pad_simpl. unfold hash_digits, check_digits. by destruct (contains_MODEb name).
  - cbn. by rewrite xor_all_app, Hcrc, Hb2.
Qed.

Lemma sempUnicoreHashFindFirstComma_refines name :
  arrived (TName name) ->
  name_pad unicoreHash_sentenceName unicoreHash_sentenceNameLength (scratchPad p) name ->
  crc p = xor_all name -> state p = fn_sempUnicoreHashFindFirstComma ->
  refines (sempUnicoreHashFindFirstComma b) p (target (TName name)).
Proof.
  intros [Hm Hok] Hname Hcrc Hst. pose proof (wf_pad p Hwf) as Hpad.
  assert (is_u32 (Z.lxor (crc p) b)) as Hx by (apply lxor_u32; [apply Hwf|auto with width]).
  pose proof Hok as [Hlen _]. pose proof hash_name_array as Harr.
  unfold sempUnicoreHashFindFirstComma. do 3 (eapply refines_bind; [reflexivity|done|]).
  set (q := with_crc _ p). assert (wf q) as Hq by (unfold q; wf_tac).
  pose proof Hname as [Hk _]. cbn [scratchPad with_crc q]. rewrite Hk, invalid_name_character_spec by done.
  rewrite name_continues.
  destruct ((b =? 0x2C) && negb (bool_decide (name = []))) eqn:E; cbn [negb].
  - by apply hash_comma.
  - destruct (negb (name_character b)) eqn:E2.
    { rewrite text_target_scan by exact (text_step_stray _ _ _ _ _ E E2).
      do 2 (eapply refines_bind; [reflexivity|done|]). by apply print_scan_refines. }
    change (Z.of_nat SEMP_UNICORE_HASH_SENTENCE_NAME_BYTES - 1) with 15.
    destruct (Z.of_nat (length name) =? 15) eqn:E3.
    { rewrite text_target_scan by exact (text_step_long _ _ _ _ _ E E3).
      do 2 (eapply refines_bind; [reflexivity|done|]). by apply print_scan_refines. }
    assert (length name < 15)%nat by lia.
    assert (text_step B K sigil (TName name) b = Some (TName (name ++ [b])))
      by exact (text_step_name _ _ _ _ _ E E2 E3).
    eapply refines_bind; [reflexivity|done|].
    eapply refines_bind;
      [apply pad_array_set_ok; unfold SEMP_UNICORE_HASH_SENTENCE_NAME_BYTES; lia|done|].
    pose proof (name_room _ _ Harr (length name) ltac:(lia)).
    eapply refines_text; [done|done|eassumption|reflexivity|wf_tac|done..|].
    cbn [text_rel state with_scratchPad q with_crc]. rewrite Hst. constructor.
    + exact (name_pad_push _ _ Harr _ name _ Hpad Hb ltac:(lia) Hname).
    + cbn. by rewrite xor_all_app, Hcrc.
Qed.

Lemma sempUnicoreHashFindAsterisk_refines name body :
  arrived (TBody name body) -> terminated unicoreHash_sentenceName (scratchPad p) ->
  get unicoreHash_checksumBytes (scratchPad p) = Z.of_nat (hash_digits name) ->
  crc p = xor_all (name ++ 0x2C :: body) -> state p = fn_sempUnicoreHashFindAsterisk ->
  refines (sempUnicoreHashFindAsterisk b) p (target (TBody name body)).
Proof.
  intros [Hm Hok] Hterm Hn Hcrc Hst. pose proof (wf_pad p Hwf) as Hpad.
  assert (is_u32 (Z.lxor (crc p) b)) as Hx by (apply lxor_u32; [apply Hwf|auto with width]).
  unfold sempUnicoreHashFindAsterisk. destruct (b =? 0x2A) eqn:E.
  - eapply refines_text; [done|done|cbn -[flatten]; by rewrite E|reflexivity|wf_tac|done..|].
    assert (0 < hash_digits name <= 8)%nat
      by (unfold hash_digits, check_digits; destruct (contains_MODEb name); lia).
    constructor; cbn; pad_simpl; try done.
    + unfold terminated. by rewrite drop_put_below by (done || (unfold unicoreHash_sentenceName; cbn; lia)).
    + rewrite Hn, Nat.sub_0_r. apply Z.mod_small. change (256 ^ _) with 256. lia.
    + cbn. lia.
  - do 4 (eapply refines_bind; [reflexivity|done|]).
    pose proof (length_message p Hwf) as Hlen. pose proof (wf_msg_length p Hwf). pose proof B_range.
    assert (flatten sigil (TBody name body) ++ [b] = flatten sigil (TBody name (body ++ [b]))) as Hf
      by (cbn; by rewrite <-app_assoc).
    rewrite Hm, Hf in Hlen. cbn [buffer_length msg_length with_crc].
    rewrite (wf_buffer_length p Hwf), u32_id by (unfold is_u32, UNICORE_HASH_BUFFER_OVERHEAD; lia).
    rewrite <-Hlen. change UNICORE_HASH_BUFFER_OVERHEAD with (sentence_overhead K).
    destruct (B <? _) eqn:E2.
    + rewrite text_target_scan by (cbn [text_step]; by rewrite E, E2).
      do 2 (eapply refines_bind; [reflexivity|done|]). apply print_scan_refines; [wf_tac|done|done].
    + eapply refines_text; [done|done|cbn [text_step]; by rewrite E, E2|reflexivity|wf_tac|done..|].
      cbn [text_rel state with_crc]. rewrite Hst. constructor; [done|done|].
      cbn. by rewrite app_comm_cons, app_assoc, xor_all_app, Hcrc.
Qed.

Lemma sempUnicoreHashChecksumByte_refines name body digits :
  arrived (TSum name body digits) -> terminated unicoreHash_sentenceName (scratchPad p) ->
  get unicoreHash_checksumBytes (scratchPad p) = Z.of_nat (hash_digits name) ->
  get unicoreHash_bytesRemaining (scratchPad p) = Z.of_nat (hash_digits name - length digits) ->
  (length digits < hash_digits name)%nat ->
  crc p = xor_all (name ++ 0x2C :: body) -> state p = fn_sempUnicoreHashChecksumByte ->
  refines (sempUnicoreHashChecksumByte b) p (target (TSum name body digits)).
Proof.
  intros [Hm Hok] Hterm Hn Hr Hlt Hcrc Hst. pose proof (wf_pad p Hwf) as Hpad.
  assert (hash_digits name <= 8)%nat as Hmax
    by (unfold hash_digits, check_digits; destruct (contains_MODEb name); lia).
  unfold sempUnicoreHashChecksumByte. do 3 (eapply refines_bind; [reflexivity|done|]).
  cbn [scratchPad]. rewrite Hr. set (n := u8 _).
  assert (n = Z.of_nat (hash_digits name - length (digits ++ [b]))) as Hn'.
  { unfold n. rewrite length_app. cbn. rewrite u8_id; unfold is_u8; lia. }
  set (q := with_scratchPad _ p). assert (wf q) as Hq by (unfold q; wf_tac).
  assert (terminated unicoreHash_sentenceName (scratchPad q)) as Htq.
  { unfold q, terminated. cbn [scratchPad with_scratchPad].
    by rewrite drop_put_below by (done || (unfold unicoreHash_sentenceName; cbn; lia)). }
  assert (get unicoreHash_bytesRemaining (scratchPad q) = n) as Hrq.
  { unfold q. cbn [scratchPad with_scratchPad]. pad_simpl. rewrite Hn'. apply Z.mod_small. cbn. lia. }
  assert (get unicoreHash_checksumBytes (scratchPad q) = Z.of_nat (hash_digits name)) as Hcq.
  { unfold q. cbn [scratchPad with_scratchPad]. by pad_simpl. }
  eapply refines_bind; [exact (buffer_at_end q (flatten sigil _) [b] 0 b Hq Hm eq_refl)|done|].
  pose proof (asciiToNibble_nonneg b Hb) as Hnn.
  destruct (digit_value b) as [v|] eqn:E; cbn in Hnn.
  - destruct (_ <? 0) eqn:E2; [lia|]. eapply refines_bind; [reflexivity|done|]. rewrite Hrq, Hn'.
    destruct (Z.of_nat _ =? 0) eqn:E3; cbn [when].
    + eapply refines_text; [done|done|cbn; by rewrite E|reflexivity|wf_tac|done..|].
      apply (hash_closed _ _ None); try done. rewrite length_app in *. cbn in *. lia.
    + eapply refines_text; [done|done|cbn; by rewrite E|reflexivity|wf_tac|done..|].
      cbn [text_rel q state with_scratchPad]. rewrite Hst.
      apply hash_sum; try done; [by rewrite Hrq, Hn'|]. lia.
  - destruct (_ <? 0) eqn:E2; [|lia]. rewrite text_target_scan by (cbn; by rewrite E).
    do 2 (eapply refines_bind; [reflexivity|done|]). by apply print_scan_refines.
Qed.

Section hash_finish.
  Context (name body digits : list Z).
  Abbreviation t := (TSum name body digits).
  Context (Harr : arrived t) (Hterm : terminated unicoreHash_sentenceName (scratchPad p))
    (Hn : get unicoreHash_checksumBytes (scratchPad p) = Z.of_nat (hash_digits name))
    (Hdigits : length digits = hash_digits name)
    (Hcrc : crc p = xor_all (name ++ 0x2C :: body)).
  Abbreviation q := (unpushed p).
  Abbreviation result := (finish B accepts i K sigil t).

Lemma hash_printable :
  forallb printable [AStr (parserName q);
    AChars (pad_array unicoreHash_sentenceName SEMP_UNICORE_HASH_SENTENCE_NAME_BYTES q)] = true.
Proof. cbn -[existsb]. rewrite andb_true_r. exact Hterm. Qed.

Lemma hash_content_ok : Forall (fun b => b <> 0x2A) (name ++ 0x2C :: body).
Proof.
  destruct Harr as [_ ((_ & Hname) & _ & Hbody & _)]. apply Forall_app. split.
  - eapply Forall_impl; [exact Hname|]. by intros c Hc ->.
  - by constructor.
Qed.

(** The bytes of the sentence from its second on. *)
Lemma hash_at j v :
  (name ++ 0x2C :: body ++ 0x2A :: digits) !! j = Some v ->
  buffer_at (1 + Z.of_nat j) q = Ok (v, q, []).
Proof.
  intros Hv. pose proof Harr as [Hm _]. destruct (unpushed_ok p _ _ Hwf Hm) as [Hq Hmq].
  unfold buffer_at. rewrite bind_gets. unfold lift, id.
  rewrite (buffer_at_message q (flatten sigil t) _ v); [done|done|done| |lia].
  replace (Z.to_nat (1 + Z.of_nat j)) with (S j) by lia. exact Hv.
Qed.

(** The two loops of the check read the content and the eight digits. *)
Lemma hash_crc_read :
  length digits = 8%nat ->
  let content := name ++ 0x2C :: body in
  unicore_hash_crc_loop (length (buffer q)) 1 0 q
    = Ok (crc32_run 0 content, 1 + Z.of_nat (length content), q, []) /\
  unicore_hash_read_crc 8 (1 + Z.of_nat (length content) + 1) 0 q = Ok (digits_value digits, q, []).
Proof.
  intros Hd8 content. pose proof Harr as [Hm Hok].
  destruct (unpushed_ok p _ _ Hwf Hm) as [Hq Hmq]. pose proof (length_message q Hq) as Hlen.
  pose proof (wf_msg_length q Hq). pose proof B_range. pose proof (wf_buffer q Hq) as Hbuf.
  destruct (closed_split _ _ _ _ _ q Hq Hmq Hok) as (l & Hl & Hbd & Hdd).
  assert (forall l, name ++ 0x2C :: body ++ l = content ++ l) as Hsplit
    by (intros l'; unfold content; by rewrite <-app_assoc).
  assert (Z.of_nat (length content) + 10 <= B) as Hroom.
  { rewrite Hmq in Hlen. unfold flatten in Hlen. rewrite Hsplit in Hlen.
    cbn [length] in Hlen. rewrite length_app in Hlen. cbn [length] in Hlen. lia. }
  split.
  - assert (exists c cs, content = c :: cs) as (c & cs & Hcs).
    { unfold content. destruct name; cbn; by eexists _, _. }
    pose proof hash_content_ok as Hcontent. fold content in Hcontent. rewrite Hcs in *.
    apply Forall_cons_1 in Hcontent as [_ Hcontent]. cbn [length] in *.
    apply (unicore_hash_crc_loop_ok q cs c digits); [|done|lia].
    intros j v Hj. apply hash_at. by rewrite Hsplit.
  - rewrite <-Hd8. apply unicore_hash_read_crc_ok; [|done|done|done|by rewrite Hd8].
    intros j v Hj. replace (1 + Z.of_nat (length content) + 1 + Z.of_nat j)
      with (1 + Z.of_nat (length (content ++ [0x2A]) + j)) by (rewrite length_app; cbn; lia).
    apply hash_at. rewrite Hsplit.
    replace (content ++ 0x2A :: digits) with ((content ++ [0x2A]) ++ digits) by by rewrite <-app_assoc.
    rewrite lookup_app_r by lia. rewrite <-Hj. f_equal. lia.
Qed.

Lemma hash_crc_result :
  length digits = 8%nat ->
  result = Some (if (crc32_run 0 (name ++ 0x2C :: body) =? digits_value digits) && (msg_length q + 3 <=? B)
     then [(parser_type q, message q ++ [0x0D; 0x0A])] else []).
Proof.
  intros Hd8. pose proof Harr as [Hm Hok].
  destruct (unpushed_ok p _ _ Hwf Hm) as [Hq Hmq]. pose proof (length_message q Hq) as Hlen.
  assert (bytes (name ++ 0x2C :: body)) as Hbs.
  { pose proof (message_bytes q Hq) as Hbs. rewrite Hmq in Hbs. apply Forall_cons_1 in Hbs as [_ Hbs].
    rewrite app_comm_cons, app_assoc in Hbs. by apply Forall_app in Hbs as []. }
  rewrite crc32_run_ref by done. change (parser_type q) with (parser_type p).
  rewrite Hmq, Htype, <-Hlen, Hmq. unfold finish, text_check. rewrite Hd8.
  cbn [Nat.ltb Nat.leb]. rewrite (Z.eqb_sym (digits_value digits)). done.
Qed.

Lemma sempUnicoreHashValidateCrc_validates :
  hash_digits name = 8%nat -> validates sempUnicoreHashValidateCrc q result.
Proof.
  intros H8. assert (length digits = 8%nat) as Hd8 by congruence. pose proof Harr as [Hm Hok].
  destruct (unpushed_ok p _ _ Hwf Hm) as [Hq Hmq]. pose proof (length_message q Hq) as Hlen.
  pose proof (wf_msg_length q Hq). pose proof B_range.
  destruct (hash_crc_read Hd8) as [Hloop Hread]. rewrite (hash_crc_result Hd8).
  unfold validates, sempUnicoreHashValidateCrc. rewrite bind_gets, (bind_silent _ _ _ _ _ Hloop).
  rewrite (bind_silent _ _ _ _ _ Hread). destruct (_ =? _); cbn [negb andb].
  - rewrite !bind_gets, (wf_buffer_length q Hq), u32_id by (unfold is_u32, UNICORE_HASH_BUFFER_OVERHEAD; lia).
    unfold UNICORE_HASH_BUFFER_OVERHEAD. destruct (B <? _) eqn:E.
    + destruct (msg_length q + 3 <=? B) eqn:E2; [lia|]. run_monad.
      destruct (sempPrintf_ok (printDebug q) "SEMP %s: Unicore hash (#) sentence too long"
        [AStr (parserName q)] q eq_refl) as (ev & Hp & Hev).
      rewrite (bind_ok _ _ _ _ _ _ Hp). eexists _, _. split_and!; [done|by apply wf_with_state|].
      by rewrite delivered_app, Hev.
    + destruct (msg_length q + 3 <=? B) eqn:E2; [|lia].
      destruct (send_sentence_ok q Hq) as (q' & Hs & Hq' & Hmq'); [lia|]. rewrite Hs.
      eexists _, _. split_and!; [done|done|]. cbn. by rewrite Hmq'.
  - run_monad. destruct (sempPrintf_ok (printDebug q) "SEMP: %s Unicore hash (#) %s, bad CRC" _ q
      hash_printable) as (ev' & Hp & Hev').
    rewrite Hp. by eexists _, _.
Qed.

(** Two digits: the carriage return, line feed and terminator are stored without
    a look at the room left. *)
Lemma hash_two_digits_validates d1 d2 :
  digits = [d1; d2] -> validates sempUnicoreHashValidateChecksum q result.
Proof.
  intros Hd. pose proof Harr as [Hm Hok].
  destruct (unpushed_ok p _ _ Hwf Hm) as [Hq Hmq]. pose proof (length_message q Hq) as Hlen.
  destruct (closed_split _ _ _ _ _ q Hq Hmq Hok) as (l & Hl & Hb12 & Hd12).
  rewrite Hd in Hl, Hb12, Hd12.
  apply Forall_cons_1 in Hb12 as [Hb1 [Hb2 _]%Forall_cons_1].
  apply Forall_cons_1 in Hd12 as [Hd1 [Hd2 _]%Forall_cons_1].
  pose proof (buffer_at_end q l _ 0 d1 Hq Hl eq_refl) as Hat1.
  pose proof (buffer_at_end q l _ 1 d2 Hq Hl eq_refl) as Hat2.
  change (Z.of_nat _) with 2 in Hat1. change (Z.of_nat _) with 1 in Hat2.
  destruct (two_digits d1 d2 Hb1 Hb2 Hd1 Hd2) as [Hneg Hval].
  assert (result =
    if (digits_value [d1; d2] =? crc q) || accepts (parser_type q) (message q) then
      if msg_length q + 3 <=? B then Some [(parser_type q, message q ++ [0x0D; 0x0A])] else None
    else Some []) as ->.
  { rewrite <-Hlen. change (crc q) with (crc p). change (parser_type q) with (parser_type p).
    rewrite Hcrc, Hmq, Htype, Hd. done. }
  destruct (check_ok (digits_value [d1; d2] =? crc q) q Hq) as (ev & Hchk & Hev).
  assert (get unicoreHash_checksumBytes (scratchPad q) = 2) as H2.
  { cbn. by rewrite Hn, <-Hdigits, Hd. }
  unfold validates, sempUnicoreHashValidateChecksum, pad_get.
  rewrite bind_gets, H2. change (2 <? 2) with false. cbv iota.
  rewrite bind_gets, (bind_silent _ _ _ _ _ Hat1).
  unfold shift_left_int. rewrite Hneg. rewrite bind_ret, (bind_silent _ _ _ _ _ Hat2), bind_gets, Hval.
  rewrite (bind_ok _ _ _ _ _ _ Hchk). destruct (_ || _).
  - destruct (msg_length q + 3 <=? B) eqn:E.
    + destruct (send_sentence_ok q Hq) as (q' & Hs & Hq' & Hmq'); [lia|]. rewrite Hs.
      eexists _, _. split_and!; [done|done|]. rewrite delivered_app, Hev. cbn. by rewrite Hmq'.
    + by rewrite send_sentence_oob by (done || lia).
  - run_monad. destruct (sempPrintf_ok (printDebug q) "SEMP: %s Unicore hash (#) %s, bad checksum" _ q
      hash_printable) as (ev' & Hp & Hev').
    rewrite Hp. eexists _, _. split_and!; [done|done|]. by rewrite delivered_app, Hev, Hev'.
Qed.

Lemma sempUnicoreHashValidateChecksum_validates :
  validates sempUnicoreHashValidateChecksum q result.
Proof.
  assert (hash_digits name = 2 \/ hash_digits name = 8)%nat as [H|H]
    by (unfold hash_digits, check_digits; destruct (contains_MODEb name); auto).
  - assert (exists d1 d2, digits = [d1; d2]) as (d1 & d2 & Hd)
      by (rewrite H in Hdigits; destruct digits as [|d1 [|d2 [|]]]; try done; by eexists _, _).
    by apply (hash_two_digits_validates d1 d2).
  - pose proof (sempUnicoreHashValidateCrc_validates H) as Hv.
    unfold validates, sempUnicoreHashValidateChecksum, pad_get in *. rewrite bind_gets.
    change (scratchPad q) with (scratchPad p). by rewrite Hn, H.
Qed.

Lemma sempUnicoreHashLineTermination_refines :
  refines (sempUnicoreHashLineTermination b) p (closed_target i K sigil t b).
Proof.
  pose proof Harr as [Hm Hok]. destruct (unpushed_ok p _ _ Hwf Hm) as [Hq Hmq].
  assert (closed K t = true) by (cbn; by apply Nat.eqb_eq).
  unfold sempUnicoreHashLineTermination, closed_target.
  do 2 (eapply refines_bind; [reflexivity|done|]). fold q.
  destruct (b =? 0x0D); [|destruct (b =? 0x0A)].
  - eapply refines_ok; [reflexivity| |done]. split; [by apply wf_with_state|].
    split_and!; try done; [|by left]. by apply (hash_closed _ _ (Some 0x0A)).
  - eapply refines_ok; [reflexivity| |done]. split; [by apply wf_with_state|].
    split_and!; try done; [|by right]. by apply (hash_closed _ _ (Some 0x0D)).
  - apply validates_scan; [apply sempUnicoreHashValidateChecksum_validates|done].
Qed.

Lemma sempUnicoreHashLineFeed_refines :
  refines (sempUnicoreHashLineFeed b) p (ending_target i K sigil t 0x0A b).
Proof.
  eapply ending_refines; [done|done|apply Harr|apply sempUnicoreHashValidateChecksum_validates].
Qed.

Lemma sempUnicoreHashCarriageReturn_refines :
  refines (sempUnicoreHashCarriageReturn b) p (ending_target i K sigil t 0x0D b).
Proof.
  eapply ending_refines; [done|done|apply Harr|apply sempUnicoreHashValidateChecksum_validates].
Qed.

End hash_finish.
End hash_refine.

Lemma sempUnicoreHashPreamble_spec `{SU : Setup} i p b :
  wf p -> message p = [b] -> computeCrc p = None -> crc p = 0 ->
  if b =? 0x23
  then exists p', sempUnicoreHashPreamble b p = Ok (true, p', []) /\
                  R (with_parser_type (Z.of_nat i) p') (Sentence i fn_sempUnicoreHashPreamble b (TName []))
  else sempUnicoreHashPreamble b p = Ok (false, p, []).
Proof.
  intros Hwf Hm Hn Hc. unfold sempUnicoreHashPreamble.
  destruct (b =? 0x23); cbn [negb]; [|done]. pose proof (wf_pad p Hwf).
  eexists. split; [reflexivity|]. split; [wf_tac|]. split_and!; try done.
  - split; [cbn; lia|done].
  - constructor; [|done]. split; [cbn; by pad_simpl|done].
Qed.
