(* ===== verification/Refine.v ===== *)
(** * Refinement of the byte interface

    The preamble routines keep the promise [PreambleSpec]; [sempParseNextByte]
    refines a step of the machine of [FrameSpec], and a sequence of calls a run
    of it. *)
From S2P Require Import Prelude Crc ParseState MessageParser ParseNmea ParseRtcm ParseUblox.
From S2P Require Import ParseUnicoreBinary ParseUnicoreHash ParseCustom NextByte FrameSpec.
From S2P Require Import Sentences Representation FrameRefine SentenceRefine HashRefine.

Section refine.
  Context `{SU : Setup}.

Lemma sempUnicoreBinaryPreamble_ub b p :
  if b =? 0xAA then sempUnicoreBinaryPreamble b p = Ub MissingReturn
  else sempUnicoreBinaryPreamble b p = Ok (false, p, []).
Proof. unfold sempUnicoreBinaryPreamble. by destruct (b =? 0xAA). Qed.

#[export] Instance preambles_spec : PreambleSpec preambles.
Proof.
  intros k i p b Hwf Hb Hm Hn Hc. destruct k; cbn [starts begin call_preamble preambles].
  - by apply sempNmeaPreamble_spec.
  - by apply sempRtcmPreamble_spec.
  - by apply sempUbloxPreamble_spec.
  - pose proof (sempUnicoreBinaryPreamble_ub b p) as H. by destruct (b =? 0xAA).
  - by apply sempUnicoreHashPreamble_spec.
  - by apply sempCustomPreamble_spec.
Qed.

(** ** One byte *)

(** The structure when the state routine is called: the byte is stored and the
    running check is updated. *)
Definition received (b : Z) (p : SEMP_PARSE_STATE) : SEMP_PARSE_STATE :=
  match computeCrc p with
  | None => pushed b p
  | Some fn_sempRtcmComputeCrc24q => with_crc (crc24q_update (crc p) b) (pushed b p)
  | Some _ => with_crc (crc32_update (crc p) b) (pushed b p)
  end.

Lemma received_spec b p :
  wf p -> is_u8 b -> msg_length p < B ->
  wf (received b p) /\ message (received b p) = message p ++ [b] /\
  parser_type (received b p) = parser_type p /\ computeCrc (received b p) = computeCrc p /\
  state (received b p) = state p /\ scratchPad (received b p) = scratchPad p.
Proof.
  intros Hwf Hb Hl. pose proof (wf_pushed b p Hwf Hb Hl). pose proof (message_pushed b p Hwf Hl).
  unfold received. destruct (computeCrc p) as [[]|] eqn:E; split_and!; try done;
    (apply wf_with_crc; [done|auto with width]).
Qed.

Lemma sempParseNextByte_received b p o :
  wf p -> is_u8 b -> msg_length p < B ->
  refines (call_state (state p) b) (received b p) o -> refines (sempParseNextByte b) p o.
Proof.
  intros Hwf Hb Hl Ho. unfold sempParseNextByte.
  do 2 (eapply refines_bind; [reflexivity|done|]). rewrite (wf_buffer_length p Hwf).
  destruct (B <=? msg_length p) eqn:E; [lia|].
  eapply refines_bind; [by apply buffer_push_ok|done|].
  eapply refines_bind; [reflexivity|done|].
  eapply (refines_bind _ _ _ tt (received b p) []); [|done|].
  - unfold received. change (computeCrc (pushed b p)) with (computeCrc p).
    pose proof (wf_computeCrc p Hwf). by destruct (computeCrc p) as [[]|].
  - eapply refines_bind; [reflexivity|done|].
    destruct (received_spec b p Hwf Hb Hl) as (_ & _ & _ & _ & -> & _). by apply refines_ignore.
Qed.

(** A message that fills the buffer is given up. *)
Lemma sempParseNextByte_full b p :
  wf p -> is_u8 b -> B <= msg_length p -> refines (sempParseNextByte b) p (scan table [] b).
Proof.
  intros Hwf Hb Hl. unfold sempParseNextByte.
  do 2 (eapply refines_bind; [reflexivity|done|]). rewrite (wf_buffer_length p Hwf).
  destruct (B <=? msg_length p) eqn:E; [|lia].
  do 2 (eapply refines_bind; [reflexivity|done|]).
  eapply refines_bind_print; [reflexivity|done|]. by apply refines_ignore, sempFirstByte_refines.
Qed.

(** The steps of the protocols, from the structure of [received]. *)
Section frames.
  Context (i : nat) (m : list Z) (b : Z) (p : SEMP_PARSE_STATE).
  Context (Hwf : wf p) (Hb : is_u8 b) (Hl : msg_length p < B)
    (Hm : message p = m) (Htype : parser_type p = Z.of_nat i).
  Abbreviation step k := (frame_step table accepts i k (m ++ [b]) b).

Lemma ublox_step :
  computeCrc p = None -> ublox_rel (scratchPad p) (state p) m ->
  refines (sempParseNextByte b) p (step fn_sempUbloxPreamble).
Proof.
  intros Hn Hr. apply sempParseNextByte_received; [done..|].
  destruct (received_spec b p Hwf Hb Hl) as (Hwf' & Hm' & Ht' & Hc' & Hs' & Hsp').
  rewrite Hm in Hm'. rewrite Htype in Ht'. rewrite Hn in Hc'. rewrite <-Hsp' in Hr.
  remember (state p) as f eqn:Hf. clear Hf. destruct Hr; cbn [call_state].
  - by apply sempUbloxSync2_refines.
  - by apply sempUbloxClass_refines.
  - by apply sempUbloxId_refines.
  - by apply sempUbloxLength1_refines.
  - by apply sempUbloxLength2_refines.
  - by apply sempUbloxPayload_refines.
  - by apply sempUbloxCkB_refines.
Qed.

Lemma rtcm_step :
  computeCrc p = Some fn_sempRtcmComputeCrc24q -> crc p = crc24q_run 0 m ->
  rtcm_rel (scratchPad p) (state p) m ->
  refines (sempParseNextByte b) p (step fn_sempRtcmPreamble).
Proof.
  intros Hn Hc Hr. apply sempParseNextByte_received; [done..|].
  destruct (received_spec b p Hwf Hb Hl) as (Hwf' & Hm' & Ht' & Hc' & Hs' & Hsp').
  assert (crc (received b p) = crc24q_run 0 (m ++ [b])) as Hcrc.
  { unfold received. rewrite Hn. cbn. by rewrite crc24q_run_app, Hc. }
  rewrite Hm in Hm'. rewrite Htype in Ht'. rewrite Hn in Hc'. rewrite <-Hsp' in Hr.
  remember (state p) as f eqn:Hf. clear Hf. destruct Hr; cbn [call_state].
  - by eapply sempRtcmReadLength1_refines.
  - by eapply sempRtcmReadLength2_refines.
  - by eapply sempRtcmReadMessage1_refines.
  - by eapply sempRtcmReadMessage2_refines.
  - by eapply sempRtcmReadData_refines.
  - by eapply sempRtcmReadCrc_refines.
Qed.

Lemma custom_step :
  computeCrc p = Some fn_sempCustomComputeCrc -> custom_rel (scratchPad p) (crc p) (state p) m ->
  refines (sempParseNextByte b) p (step fn_sempCustomPreamble).
Proof.
  intros Hn Hr. apply sempParseNextByte_received; [done..|].
  destruct (received_spec b p Hwf Hb Hl) as (Hwf' & Hm' & Ht' & Hc' & Hs' & Hsp').
  assert (crc (received b p) = crc32_update (crc p) b) as Hcrc by (unfold received; by rewrite Hn).
  rewrite Hm in Hm'. rewrite Htype in Ht'. rewrite Hn in Hc'. rewrite <-Hsp' in Hr.
  remember (state p) as f eqn:Hf. clear Hf.
  remember (crc p) as c eqn:Hc. clear Hc. destruct Hr; subst c; cbn [call_state].
  - eapply sempCustomSync2_refines; done || by rewrite crc32_run_app, Hcrc.
  - eapply sempCustomSync3_refines; done || by rewrite crc32_run_app, Hcrc.
  - eapply sempCustomReadHeader_refines; done || by rewrite crc32_run_app, Hcrc.
  - eapply sempCustomReadData_refines; done || by rewrite crc32_run_app, Hcrc.
  - by eapply sempCustomReadCrc_refines.
Qed.

End frames.

Section sentences.
  Context (i : nat) (sigil : Z) (t : text) (b : Z) (p : SEMP_PARSE_STATE).
  Context (Hwf : wf p) (Hb : is_u8 b) (Hl : msg_length p < B)
    (Hm : message p = flatten sigil t) (Htype : parser_type p = Z.of_nat i)
    (Hn : computeCrc p = None).

(** Where a sentence stands: under way, closed, or after the first terminator. *)
Definition sentence_target (k : PREAMBLE_ROUTINE) (expect : option Z) :=
  if closed k t then
    match expect with
    | None => closed_target i k sigil t b
    | Some e => ending_target i k sigil t e b
    end
  else text_target i k sigil t b.

Lemma nmea_step expect :
  text_fits B fn_sempNmeaPreamble sigil t ->
  nmea_rel (scratchPad p) (crc p) expect (state p) t ->
  expect = None \/ expect = Some 0x0A \/ expect = Some 0x0D ->
  refines (sempParseNextByte b) p (sentence_target fn_sempNmeaPreamble expect).
Proof.
  intros Hok Hr He. apply sempParseNextByte_received; [done..|].
  destruct (received_spec b p Hwf Hb Hl) as (Hwf' & Hm' & Ht' & Hc' & Hs' & Hsp').
  assert (crc (received b p) = crc p) as Hcrc by (unfold received; by rewrite Hn).
  rewrite Hm in Hm'. rewrite Htype in Ht'. rewrite Hn in Hc'. rewrite <-Hsp', <-Hcrc in Hr.
  remember (state p) as f eqn:Hf. clear Hf. unfold sentence_target. destruct Hr; cbn [call_state].
  - by apply sempNmeaFindFirstComma_refines.
  - by apply sempNmeaFindAsterisk_refines.
  - by apply sempNmeaChecksumByte1_refines.
  - by apply sempNmeaChecksumByte2_refines.
  - destruct He as [->|[->| ->]]; cbn [nmea_end call_state].
    + by apply sempNmeaLineTermination_refines.
    + by apply sempNmeaLineFeed_refines.
    + by apply sempNmeaCarriageReturn_refines.
Qed.

Lemma hash_step expect :
  text_fits B fn_sempUnicoreHashPreamble sigil t ->
  hash_rel (scratchPad p) (crc p) expect (state p) t ->
  expect = None \/ expect = Some 0x0A \/ expect = Some 0x0D ->
  refines (sempParseNextByte b) p (sentence_target fn_sempUnicoreHashPreamble expect).
Proof.
  intros Hok Hr He. apply sempParseNextByte_received; [done..|].
  destruct (received_spec b p Hwf Hb Hl) as (Hwf' & Hm' & Ht' & Hc' & Hs' & Hsp').
  assert (crc (received b p) = crc p) as Hcrc by (unfold received; by rewrite Hn).
  rewrite Hm in Hm'. rewrite Htype in Ht'. rewrite Hn in Hc'. rewrite <-Hsp', <-Hcrc in Hr.
  remember (state p) as f eqn:Hf. clear Hf. unfold sentence_target.
  destruct Hr as [name|name body|name body digits H1 H2 H3 Hlt|name body digits H1 H2 Heq].
  - by apply sempUnicoreHashFindFirstComma_refines.
  - by apply sempUnicoreHashFindAsterisk_refines.
  - cbn [closed call_state]. fold (hash_digits name). rewrite (proj2 (Nat.eqb_neq _ _)) by lia.
    by apply sempUnicoreHashChecksumByte_refines.
  - cbn [closed]. fold (hash_digits name). rewrite (proj2 (Nat.eqb_eq _ _)) by done.
    destruct He as [->|[->| ->]]; cbn [hash_end call_state].
    + by apply sempUnicoreHashLineTermination_refines.
    + by apply sempUnicoreHashLineFeed_refines.
    + by apply sempUnicoreHashCarriageReturn_refines.
Qed.

End sentences.

Lemma sempParseNextByte_step st p b :
  R p st -> is_u8 b ->
  refines (sempParseNextByte b) p (spec_step B table accepts st b).
Proof.
  intros [Hwf HR] Hb. pose proof (length_message p Hwf) as Hlen.
  destruct (decide (B <= msg_length p)) as [Hfull|Hl].
  { assert (spec_step B table accepts st b = scan table [] b) as ->.
    { destruct st; cbn [spec_step]; [done|..]; destruct HR as [Hm _]; rewrite Hm in Hlen;
        (destruct (B <=? _) eqn:E; [done|lia]). }
    by apply sempParseNextByte_full. }
  destruct st as [|i k m|i k sigil t|i k sigil t e]; cbn [spec_step].
  - apply sempParseNextByte_received; [done|done|lia|]. rewrite HR.
    apply sempFirstByte_refines; [|done]. apply received_spec; [done|done|lia].
  - destruct HR as (Hm & Ht & Hf). rewrite Hm in Hlen.
    destruct (B <=? _) eqn:E; [lia|]. destruct k; try done.
    + destruct Hf as (Hc & Hcrc & Hr). apply rtcm_step; [done|done|lia|done..].
    + destruct Hf as [Hc Hr]. apply ublox_step; [done|done|lia|done..].
    + destruct Hf as [Hc Hr]. apply custom_step; [done|done|lia|done..].
  - destruct HR as (Hm & Ht & Hn & Hok & Hr). rewrite Hm in Hlen.
    destruct (B <=? _) eqn:E; [lia|]. destruct k; try done.
    + apply (nmea_step i sigil t b p) with (expect := None); auto; lia.
    + apply (hash_step i sigil t b p) with (expect := None); auto; lia.
  - destruct HR as (Hm & Ht & Hn & Hok & Hr & Hclosed & He). rewrite Hm in Hlen.
    destruct (B <=? _) eqn:E; [lia|].
    replace (match finish B accepts i k sigil t with _ => _ end)
      with (sentence_target i sigil t b k (Some e))
      by (unfold sentence_target; by rewrite Hclosed).
    destruct k; try done.
    + apply nmea_step; auto; [lia|]. destruct He as [->| ->]; auto.
    + apply hash_step; auto; [lia|]. destruct He as [->| ->]; auto.
Qed.

(** ** Many bytes *)

Lemma parse_bytes_run st p l :
  R p st -> bytes l -> refines (parse_bytes l) p (spec_run B table accepts st l).
Proof.
  intros HR Hl. revert st p HR. induction Hl as [|b l Hb Hl IH]; intros st p HR; cbn.
  - by eapply refines_ok.
  - pose proof (sempParseNextByte_step st p b HR Hb) as Hs.
    destruct (spec_step B table accepts st b) as [[st1 out1]|].
    + destruct Hs as ([] & p1 & ev1 & H1 & HR1 & <-). specialize (IH st1 p1 HR1).
      destruct (spec_run B table accepts st1 l) as [[st2 out2]|].
      * destruct IH as ([] & p2 & ev2 & H2 & HR2 & <-).
        eapply refines_ok; [rewrite (bind_ok _ _ _ _ _ _ H1); unfold parse_bytes in H2; rewrite H2; reflexivity|done|].
        by rewrite delivered_app.
      * unfold refines, parse_bytes in *. by rewrite (bind_ok _ _ _ _ _ _ H1), IH.
    + by apply bind_ub.
Qed.

End refine.
