(* ===== verification/Lifecycle.v ===== *)
(** * Start of a parser: what it establishes

    [sempBeginParser] rejects what it must reject and otherwise returns a
    structure that represents the scanning machine, whatever the allocator put
    into the message buffer. *)
From S2P Require Import Prelude ParseState MessageParser BeginParser FrameSpec Sentences.
From S2P Require Import Representation.

(** ** Sizes *)

Lemma SEMP_ALIGN_eq x : 0 <= x -> SEMP_ALIGN x = (x + 7) / 8 * 8.
Proof.
  intros Hx. unfold SEMP_ALIGN, SEMP_ALIGNMENT_MASK. rewrite <-Z.ldiff_land.
  change 7 with (Z.ones 3) at 2. rewrite Z.ldiff_ones_r by lia.
  by rewrite Z.shiftr_div_pow2, Z.shiftl_mul_pow2 by lia.
Qed.

(** The scratch area a request of [n] bytes leads to. *)
Definition scratch_bytes (n : Z) : Z := Z.max 24 (u16 ((n + 7) / 8 * 8)).

(** ** Output *)

Lemma returns_printf cb format args Q :
  forallb printable args = true -> Q tt -> returns (sempPrintf (S := unit) cb format args) Q.
Proof.
  intros Ha HQ. destruct (sempPrintf_ok cb format args tt Ha) as (ev & Hp & _). by exists tt, ev.
Qed.

Lemma returns_println cb s Q : Q tt -> returns (sempPrintln (S := unit) cb s) Q.
Proof. intros HQ. unfold sempPrintln. destruct cb; by eexists tt, _. Qed.

#[export] Hint Resolve returns_printf returns_println : prints.

Section allocate.
  Context `{Alloc : Allocator} (ptr : Z).

(** The block a parser with [n] scratch bytes and [len] buffer bytes needs. *)
Definition block_bytes (n len : Z) : Z :=
  SEMP_ALIGN (sizeof_SEMP_PARSE_STATE ptr) + scratch_bytes n + Z.max 256 len.

Lemma sempAllocateParseStructure_returns dbg n len :
  is_u16 n -> is_u16 len ->
  returns (sempAllocateParseStructure ptr dbg n len) (fun r =>
    match malloc (block_bytes n len) with
    | None => r = None
    | Some block =>
        r = Some (Allocated dbg (replicate (Z.to_nat (scratch_bytes n)) 0)
                    (drop (Z.to_nat (SEMP_ALIGN (sizeof_SEMP_PARSE_STATE ptr) + scratch_bytes n)) block)
                    (Z.max 256 len))
    end).
Proof.
  intros Hn Hlen. unfold is_u16 in *. unfold sempAllocateParseStructure. skip_prints.
  apply (returns_bind _ _ (fun m => m = u16 ((n + 7) / 8 * 8))).
  { apply returns_if; rewrite SEMP_ALIGN_eq by lia; intros E; cbn zeta; skip_prints.
    - by apply returns_ret.
    - apply returns_ret. rewrite u16_id; [|unfold is_u16]; mlia. }
  intros m ->. apply (returns_bind _ _ (fun m => m = scratch_bytes n)).
  { unfold scratch_bytes. apply returns_if; intros E; change (SEMP_ALIGN _) with 24 in *; cbn zeta;
      skip_prints; apply returns_ret; lia || (rewrite u16_id; [lia|done]). }
  intros m ->. cbn zeta. skip_prints. apply (returns_bind _ _ (fun m => m = Z.max 256 len)).
  { apply returns_if; intros E; unfold SEMP_MINIMUM_BUFFER_LENGTH in *; skip_prints;
      apply returns_ret; lia. }
  intros m ->. cbn zeta. skip_prints. unfold semp_util_malloc, block_bytes.
  destruct (malloc _) as [block|]; skip_prints; by apply returns_ret.
Qed.

End allocate.

(* ------------------------------------------------------------------ *)
(** ** [sempBeginParser] *)

Lemma sempPrintParserConfiguration_returns p print :
  is_Some (parserNames_table p !! Z.to_nat (parser_type p)) ->
  returns (sempPrintParserConfiguration (Some p) print) (fun _ => True).
Proof.
  intros [name Hname]. unfold sempPrintParserConfiguration. destruct print as [f|]; [|by apply returns_ret].
  skip_prints. apply (returns_bind _ _ (fun _ => True)); [|intros ? _; by apply returns_printf].
  unfold sempGetTypeName. destruct (_ =? _); [by eexists _, _|].
  destruct (_ <? _); [|by eexists _, _]. rewrite Hname. by eexists _, _.
Qed.

(** The conditions on the arguments. *)
Definition arguments_ok (name : option string) (tbl : option (list PREAMBLE_ROUTINE)) (count : Z)
    (names : option (list string)) (namesCount : Z) (eomCallback : callback) : Prop :=
  count = namesCount /\ is_Some tbl /\ is_Some names /\ is_Some eomCallback /\
  is_Some name /\ name <> Some "" /\ count <> 0.

Section begin.
  Context `{Alloc : Allocator} `{AS : !AllocatorSpec Alloc} (ptr : Z).

(** The structure of a new parser. *)
Definition started name tbl count names eomCallback err dbg badCrc n len block : SEMP_PARSE_STATE :=
  mkParse name tbl names count 0 fn_sempFirstByte eomCallback badCrc None err dbg
    (replicate (Z.to_nat (scratch_bytes n)) 0) 0
    (drop (Z.to_nat (SEMP_ALIGN (sizeof_SEMP_PARSE_STATE ptr) + scratch_bytes n)) block) 0
    (Z.max 256 len).

Lemma sempBeginParser_returns name tbl count names namesCount n len eomCallback err dbg badCrc :
  is_u16 n -> is_u16 len ->
  (forall l, names = Some l -> Z.of_nat (length l) = namesCount) ->
  returns (sempBeginParser ptr name tbl count names namesCount n len eomCallback err dbg badCrc)
    (fun r =>
       match r with
       | None => ~ arguments_ok name tbl count names namesCount eomCallback
                 \/ malloc (block_bytes ptr n len) = None
       | Some p =>
           arguments_ok name tbl count names namesCount eomCallback /\
           exists block, malloc (block_bytes ptr n len) = Some block /\
             p = started (default "" name) (default [] tbl) count (default [] names)
                   eomCallback err dbg badCrc n len block
       end).
Proof.
  intros Hn Hlen Hnames. unfold sempBeginParser, arguments_ok.
  destruct (Z.eqb_spec count namesCount) as [<-|]; cbn [negb];
    [|skip_prints; apply returns_ret; tauto].
  destruct tbl as [tbl|]; [|skip_prints; apply returns_ret; left; by intros (_ & [? [=]] & _)].
  destruct names as [names|]; [|skip_prints; apply returns_ret; left; by intros (_ & _ & [? [=]] & _)].
  destruct eomCallback as [f|]; [|skip_prints; apply returns_ret; left; by intros (_ & _ & _ & [? [=]] & _)].
  destruct name as [[|c name]|];
    [skip_prints; apply returns_ret; tauto| |
     skip_prints; apply returns_ret; left; by intros (_ & _ & _ & _ & [? [=]] & _)].
  destruct (Z.eqb_spec count 0); [skip_prints; apply returns_ret; tauto|].
  eapply returns_bind; [by apply sempAllocateParseStructure_returns|]. cbn beta. intros r Hr.
  destruct (malloc (block_bytes ptr n len)) as [block|] eqn:Hm; subst r.
  - apply returns_then.
    + apply sempPrintParserConfiguration_returns. cbn [parserNames_table parser_type].
      apply lookup_lt_is_Some_2.
      specialize (Hnames _ eq_refl). lia.
    + apply returns_ret. split; [by split_and!|]. by exists block.
  - skip_prints. apply returns_ret. by right.
Qed.

End begin.

(** The structure has 56 bytes with 32-bit pointers and 112 with 64-bit ones. *)
Lemma sizeof_SEMP_PARSE_STATE_eq ptr :
  ptr = 4 \/ ptr = 8 -> SEMP_ALIGN (sizeof_SEMP_PARSE_STATE ptr) = 14 * ptr.
Proof. intros [->| ->]; vm_compute; reflexivity. Qed.

Section started.
  Context `{SU : Setup} `{Alloc : Allocator} `{AS : !AllocatorSpec Alloc} (ptr : Z).
  Context (Hptr : ptr = 4 \/ ptr = 8).

Lemma scratch_bytes_range n : is_u16 n -> 24 <= scratch_bytes n < 65536.
Proof. intros Hn. unfold scratch_bytes. pose proof (u16_range ((n + 7) / 8 * 8)). unfold is_u16 in *. lia. Qed.

Lemma started_scans name names err dbg n len block :
  is_u16 n -> is_u16 len -> B = Z.max 256 len ->
  malloc (block_bytes ptr n len) = Some block ->
  R (started ptr name table (Z.of_nat (length table)) names (Some eom) err dbg bad n len block) Scan.
Proof.
  intros Hn Hlen HB Hm. destruct (malloc_spec _ _ Hm) as [Hsize Hbytes].
  pose proof (scratch_bytes_range n Hn). pose proof B_range. unfold block_bytes in Hsize.
  unfold started. rewrite sizeof_SEMP_PARSE_STATE_eq in * by done.
  generalize dependent (scratch_bytes n). intros s Hsize Hs.
  split; [|done]. split; cbn -[Z.add Z.mul]; try done.
  - rewrite length_drop. lia.
  - by apply Forall_drop.
  - lia.
  - split; [rewrite length_replicate; unfold pad_size, port_pad; lia|]. by apply Forall_replicate.
Qed.

(** Output can be switched at any time. *)
Lemma switched_output p st cb cb' : R p st -> R (with_printError cb (with_printDebug cb' p)) st.
Proof.
  intros [Hwf HR]. split; [by destruct Hwf|].
  destruct st as [|i k m|i k sigil t|i k sigil t e]; [done|by destruct k..].
Qed.

End started.
