(* ===== verification/Messages.v ===== *)
(** * The messages of the protocols

    Encoders of the frames and sentences a sender produces, and what it means for
    a byte string to be a message of a protocol. *)
From S2P Require Import Prelude Crc ParseState FrameSpec.

(* ------------------------------------------------------------------ *)
(** ** Encoders *)

Definition ublox_frame (class id : Z) (payload : list Z) : list Z :=
  let body := class :: id :: le_split 2 (Z.of_nat (length payload)) ++ payload in
  0xb5 :: 0x62 :: body ++ [(fletcher body).1; (fletcher body).2].

Definition rtcm_frame (payload : list Z) : list Z :=
  let m := 0xd3 :: rev (le_split 2 (Z.of_nat (length payload))) ++ payload in
  m ++ rev (le_split 3 (crc24q_ref 0 m)).

(** [a] holds the nine header bytes before the length field, [c] the six after it. *)
Definition custom_frame (a c payload : list Z) : list Z :=
  let m := 0xAA :: 0x44 :: 0x18 :: a ++ le_split 2 (Z.of_nat (length payload)) ++ c ++ payload in
  m ++ custom_check m.

(** A hexadecimal digit in upper case, and [n] of them. *)
Definition hex_digit (v : Z) : Z := if v <? 10 then 0x30 + v else 0x37 + v.
Fixpoint hex_digits (n : nat) (v : Z) : list Z :=
  match n with O => [] | S n => hex_digits n (v / 16) ++ [hex_digit (v mod 16)] end.

Definition nmea_sentence (sigil : Z) (name body : list Z) : list Z :=
  let content := name ++ 0x2C :: body in
  sigil :: content ++ 0x2A :: hex_digits 2 (xor_all content) ++ [0x0D; 0x0A].

Definition hash_sentence (name body : list Z) : list Z :=
  let content := name ++ 0x2C :: body in
  0x23 :: content ++ 0x2A ::
    (if contains_MODEb name then hex_digits 2 (xor_all content) else hex_digits 8 (crc32_ref 0 content))
    ++ [0x0D; 0x0A].

(* ------------------------------------------------------------------ *)
(** ** Messages *)

(** The digits of a sentence, in any of the accepted characters, spell its check. *)
Definition spelled (n : nat) (digits : list Z) (v : Z) : Prop :=
  length digits = n /\ Forall (fun b => is_Some (digit_value b)) digits /\ digits_value digits = v.

(** A sentence name: up to fifteen letters and digits, at least one. *)
Definition sentence_name (name : list Z) : Prop :=
  name <> [] /\ (length name <= 15)%nat /\ Forall (fun b => name_character b = true) name.

Inductive valid_message : PREAMBLE_ROUTINE -> list Z -> Prop :=
| valid_ublox class id payload :
    Z.of_nat (length payload) < 65536 ->
    valid_message fn_sempUbloxPreamble (ublox_frame class id payload)
| valid_rtcm payload :
    3 <= Z.of_nat (length payload) < 1024 ->
    valid_message fn_sempRtcmPreamble (rtcm_frame payload)
| valid_custom a c payload :
    length a = 9%nat -> length c = 6%nat -> 1 <= Z.of_nat (length payload) < 65536 ->
    valid_message fn_sempCustomPreamble (custom_frame a c payload)
| valid_nmea sigil name body digits :
    sigil = 0x24 \/ sigil = 0x21 -> sentence_name name -> Forall (fun b => b <> 0x2A) body ->
    spelled 2 digits (xor_all (name ++ 0x2C :: body)) ->
    valid_message fn_sempNmeaPreamble
      (sigil :: name ++ 0x2C :: body ++ 0x2A :: digits ++ [0x0D; 0x0A])
| valid_hash name body digits :
    sentence_name name -> Forall (fun b => b <> 0x2A) body ->
    (if contains_MODEb name then spelled 2 digits (xor_all (name ++ 0x2C :: body))
     else spelled 8 digits (crc32_ref 0 (name ++ 0x2C :: body))) ->
    valid_message fn_sempUnicoreHashPreamble
      (0x23 :: name ++ 0x2C :: body ++ 0x2A :: digits ++ [0x0D; 0x0A]).

(* ------------------------------------------------------------------ *)
(** ** Verdicts and messages *)

Lemma le_split_bytes_2 l1 l2 : is_u8 l1 -> is_u8 l2 -> le_split 2 (l1 + 256 * l2) = [l1; l2].
Proof. intros H1 H2. unfold is_u8 in *. cbn. f_equal; [mlia|]. f_equal. mlia. Qed.

(** What remains after dropping [n] elements fixes the length. *)
Lemma drop_exact {A} n (l s : list A) :
  drop n l = s -> s <> [] -> l = take n l ++ s /\ length (take n l) = n.
Proof.
  intros Hd Hs. split; [by rewrite <-Hd, take_drop|]. rewrite length_take.
  destruct (decide (n <= length l)%nat); [lia|]. rewrite drop_ge in Hd by lia. congruence.
Qed.

Lemma ublox_done m :
  bytes m -> starts fn_sempUbloxPreamble (default 0 (head m)) = true ->
  ublox_verdict m = Done true -> valid_message fn_sempUbloxPreamble m.
Proof.
  intros Hb Hs Hv. destruct m as [|s1 [|s2 m]]; try done. cbn in Hs. apply Z.eqb_eq in Hs as ->.
  unfold ublox_verdict in Hv. destruct (Z.eqb_spec s2 0x62) as [->|]; [|done]. cbn [negb] in Hv.
  destruct m as [|c [|i [|l1 [|l2 body]]]]; try done.
  destruct (_ <? _)%nat; [done|]. injection Hv as Hv. apply bool_decide_eq_true in Hv.
  set (n := Z.to_nat (l1 + 256 * l2)) in *. apply drop_exact in Hv as [Hbody Hlen]; [|done].
  do 4 apply Forall_cons_1 in Hb as [_ Hb].
  apply Forall_cons_1 in Hb as [H1 [H2 _]%Forall_cons_1].
  assert (Z.of_nat n = l1 + 256 * l2) as Hn by (unfold n, is_u8 in *; lia).
  assert (ublox_frame c i (take n body) = 0xb5 :: 0x62 :: c :: i :: l1 :: l2 :: body) as <-.
  { unfold ublox_frame. rewrite Hlen, Hn.
    rewrite le_split_bytes_2 by done. cbn -[fletcher]. do 6 f_equal. by rewrite <-Hbody. }
  constructor. rewrite Hlen, Hn. unfold is_u8 in *. lia.
Qed.

Lemma rtcm_done_message m :
  bytes m -> starts fn_sempRtcmPreamble (default 0 (head m)) = true ->
  rtcm_verdict m = Done true -> valid_message fn_sempRtcmPreamble m.
Proof.
  intros Hb Hs Hv. destruct m as [|s1 [|h m]]; try done. cbn in Hs. apply Z.eqb_eq in Hs as ->.
  unfold rtcm_verdict in Hv. destruct (3 <? h) eqn:Hh; [done|]. destruct m as [|l body]; [done|].
  destruct (_ || _)%nat eqn:E; [done|]. injection Hv as Hv. apply bool_decide_eq_true in Hv.
  set (n := Z.to_nat (256 * h + l)) in *. apply drop_exact in Hv as [Hbody Hlen]; [|done].
  apply Forall_cons_1 in Hb as [_ [H1 [H2 _]%Forall_cons_1]%Forall_cons_1].
  assert (Z.of_nat n = l + 256 * h) as Hn by (unfold n, is_u8 in *; lia).
  assert (rtcm_frame (take n body) = 0xd3 :: h :: l :: body) as <-.
  { unfold rtcm_frame. rewrite Hlen, Hn, le_split_bytes_2 by done.
    cbn [rev app]. by rewrite Hbody at 3. }
  constructor. rewrite Hlen, Hn. unfold is_u8 in *. lia.
Qed.

Lemma custom_done_message m :
  bytes m -> starts fn_sempCustomPreamble (default 0 (head m)) = true ->
  custom_verdict m = Done true -> valid_message fn_sempCustomPreamble m.
Proof.
  intros Hb Hs Hv. destruct m as [|s1 [|s2 m]]; try done. cbn in Hs. apply Z.eqb_eq in Hs as ->.
  unfold custom_verdict in Hv. destruct (Z.eqb_spec s2 0x44) as [->|]; [|done]. cbn [negb] in Hv.
  destruct m as [|s3 rest]; [done|]. destruct (Z.eqb_spec s3 0x18) as [->|]; [|done]. cbn [negb] in Hv.
  cbn zeta in Hv. destruct (_ || _)%nat eqn:E; [done|]. injection Hv as Hv.
  apply bool_decide_eq_true in Hv.
  destruct rest as [|a0 [|a1 [|a2 [|a3 [|a4 [|a5 [|a6 [|a7 [|a8 [|l1 [|l2 [|c0 [|c1 [|c2 [|c3 [|c4
    [|c5 body]]]]]]]]]]]]]]]]]; try (cbn [length] in E; lia).
  do 12 apply Forall_cons_1 in Hb as [_ Hb]. apply Forall_cons_1 in Hb as [H1 [H2 _]%Forall_cons_1].
  set (n := custom_length _) in *.
  assert (Z.of_nat n = l1 + 256 * l2) as Hn.
  { unfold n, custom_length, get, is_u8 in *. cbn. lia. }
  clearbody n. cbn [Nat.add drop take] in Hv. apply drop_exact in Hv as [Hbody Hlen]; [|done].
  assert (custom_frame [a0; a1; a2; a3; a4; a5; a6; a7; a8] [c0; c1; c2; c3; c4; c5] (take n body)
    = 0xAA :: 0x44 :: 0x18 :: a0 :: a1 :: a2 :: a3 :: a4 :: a5 :: a6 :: a7 :: a8 :: l1 :: l2
      :: c0 :: c1 :: c2 :: c3 :: c4 :: c5 :: body) as <-.
  { unfold custom_frame. rewrite Hlen, Hn, le_split_bytes_2 by done. cbn [app].
    by rewrite Hbody at 3. }
  constructor; [done|done|]. rewrite Hlen, Hn. unfold is_u8 in *. lia.
Qed.
