(* ===== verification/MessageRuns.v ===== *)
(** * Reading whole messages

    The verdicts on the prefixes of an encoded frame, apart from the machine that
    reads it (more bytes are needed until the last one, and then the frame is
    complete with a correct check), and how the machine reads a sentence. *)
From S2P Require Import Prelude Crc ParseState FrameSpec Sentences Messages.

(** The machine asks for the verdict from the second byte on. *)
Definition framed (v : list Z -> verdict) (m : list Z) : Prop :=
  (forall j, (2 <= j < length m)%nat -> v (take j m) = More) /\ v m = Done true.

Lemma framed_cons (v : list Z -> verdict) b l :
  (forall j, (0 < j < length l)%nat -> v (b :: take j l) = More) -> v (b :: l) = Done true ->
  framed v (b :: l).
Proof.
  intros Hm Hd. split; [|done]. intros [|j] Hj; [lia|]. cbn [length take] in *. apply Hm. lia.
Qed.

Lemma ublox_framed class id payload :
  Z.of_nat (length payload) < 65536 -> framed ublox_verdict (ublox_frame class id payload).
Proof.
  intros Hn. unfold ublox_frame. cbn zeta.
  assert (exists l1 l2, le_split 2 (Z.of_nat (length payload)) = [l1; l2] /\
    Z.to_nat (l1 + 256 * l2) = length payload) as (l1 & l2 & Hl & Hlen).
  { eexists _, _. split; [reflexivity|]. mlia. }
  rewrite Hl. cbn [app]. set (ck := fletcher _).
  apply framed_cons.
  - intros j Hj. cbn [length] in Hj. rewrite length_app in Hj. cbn [length] in Hj.
    destruct j as [|[|[|[|[|j]]]]]; try done. cbn [take ublox_verdict].
    change (negb (0x62 =? 0x62)) with false. cbv iota zeta. rewrite Hlen.
    destruct (_ <? _)%nat eqn:E; [done|]. rewrite length_take, length_app in E. cbn [length] in E. lia.
  - unfold ublox_verdict. change (negb (0x62 =? 0x62)) with false. cbv iota zeta.
    rewrite Hlen. destruct (_ <? _)%nat eqn:E; [rewrite length_app in E; cbn [length] in E; lia|].
    f_equal. apply bool_decide_eq_true. by rewrite take_app_length, drop_app_length.
Qed.

Lemma rtcm_framed payload :
  3 <= Z.of_nat (length payload) < 1024 -> framed rtcm_verdict (rtcm_frame payload).
Proof.
  intros Hn. unfold rtcm_frame. cbn zeta.
  assert (exists h l, rev (le_split 2 (Z.of_nat (length payload))) = [h; l] /\
    (3 <? h) = false /\ Z.to_nat (256 * h + l) = length payload) as (h & l & Hl & Hh & Hlen).
  { eexists _, _. split; [reflexivity|]. split; mlia. }
  rewrite Hl. cbn [app]. set (ck := rev (le_split 3 _)).
  assert (length ck = 3%nat) as Hck by (unfold ck; by rewrite length_rev, length_le_split).
  apply framed_cons.
  - intros j Hj. cbn [length] in Hj. rewrite length_app in Hj.
    destruct j as [|[|j]]; [lia|cbn; by rewrite Hh|]. cbn [take rtcm_verdict].
    rewrite Hh. cbv zeta. rewrite Hlen.
    destruct (_ || _)%nat eqn:E; [done|]. rewrite length_take, length_app in E. lia.
  - unfold rtcm_verdict. rewrite Hh. cbv zeta. rewrite Hlen, length_app.
    destruct (_ || _)%nat eqn:E; [lia|]. f_equal. apply bool_decide_eq_true.
    cbn [Nat.add take]. by rewrite take_app_length, drop_app_length.
Qed.

Lemma length_custom_check l : length (custom_check l) = 4%nat.
Proof. apply length_le_split. Qed.

Lemma custom_framed a c payload :
  length a = 9%nat -> length c = 6%nat -> 1 <= Z.of_nat (length payload) < 65536 ->
  framed custom_verdict (custom_frame a c payload).
Proof.
  intros Ha Hc Hn. unfold custom_frame. cbn zeta.
  destruct a as [|a0 [|a1 [|a2 [|a3 [|a4 [|a5 [|a6 [|a7 [|a8 [|]]]]]]]]]]; try done.
  destruct c as [|c0 [|c1 [|c2 [|c3 [|c4 [|c5 [|]]]]]]]; try done.
  assert (exists l1 l2, le_split 2 (Z.of_nat (length payload)) = [l1; l2] /\
    Z.to_nat (l1 + 256 * (l2 + 256 * 0)) = length payload) as (l1 & l2 & Hl & Hlen).
  { eexists _, _. split; [reflexivity|]. mlia. }
  rewrite Hl. cbn [app]. set (ck := custom_check _).
  pose proof (length_custom_check _ : length ck = 4%nat) as Hck.
  apply framed_cons.
  - intros j Hj. cbn [length] in Hj. rewrite length_app in Hj.
    destruct j as [|[|j]]; [lia|done|].
    erewrite custom_verdict_synced by reflexivity. cbv zeta.
    destruct (_ || _)%nat eqn:E; [done|].
    do 17 (destruct j as [|j]; [cbn in E; lia|]).
    unfold custom_length, get in E. cbn [take drop offset size le_combine length] in E.
    rewrite Hlen, length_take, length_app in E. lia.
  - erewrite custom_verdict_synced by reflexivity. cbv zeta.
    unfold custom_length, get. cbn [take drop offset size le_combine length]. rewrite Hlen, length_app.
    destruct (_ || _)%nat eqn:E; [lia|]. f_equal. apply bool_decide_eq_true.
    cbn [Nat.add take drop]. by rewrite take_app_length, drop_app_length.
Qed.

(** ** Lengths *)

Lemma length_ublox_frame class id payload : length (ublox_frame class id payload) = (8 + length payload)%nat.
Proof. unfold ublox_frame. cbn -[fletcher]. rewrite length_app. cbn. lia. Qed.

Lemma length_rtcm_frame payload : length (rtcm_frame payload) = (6 + length payload)%nat.
Proof.
  unfold rtcm_frame. cbn zeta. rewrite length_app, length_rev, length_le_split. cbn [length].
  rewrite length_app, length_rev, length_le_split. lia.
Qed.

Lemma length_custom_frame a c payload :
  length a = 9%nat -> length c = 6%nat -> length (custom_frame a c payload) = (24 + length payload)%nat.
Proof.
  intros Ha Hc. unfold custom_frame. cbn zeta. rewrite length_app, length_custom_check. cbn [length].
  rewrite !length_app, length_le_split. lia.
Qed.

(* ------------------------------------------------------------------ *)
(** ** Reading a whole sentence

    The text of a sentence followed byte by byte, apart from the machine that
    reads it: the encoders of [Messages] produce sentences that are read to their
    end with a correct check. *)

Lemma flatten_sum sigil name body digits l :
  flatten sigil (TSum name body digits) ++ l = sigil :: (name ++ 0x2C :: body) ++ 0x2A :: digits ++ l.
Proof.
  unfold flatten. rewrite <-app_comm_cons. f_equal. rewrite <-!app_assoc, <-!app_comm_cons. f_equal.
  f_equal. by rewrite <-app_assoc.
Qed.

Lemma length_flatten_sum sigil name body digits :
  length (flatten sigil (TSum name body digits)) = (length (name ++ 0x2C%Z :: body) + 2 + length digits)%nat.
Proof.
  rewrite <-(app_nil_r (flatten sigil _)), flatten_sum, app_nil_r. cbn. rewrite length_app. cbn. lia.
Qed.

Section runs.
  Context (B : Z) (k : PREAMBLE_ROUTINE) (sigil : Z).

(** The text after the bytes of a list; [None] when it is complete before, does
    not fit or is no sentence. *)
Fixpoint text_run (t : text) (l : list Z) : option text :=
  match l with
  | [] => Some t
  | b :: l =>
      if closed k t || (B <=? Z.of_nat (length (flatten sigil t))) then None
      else match text_step B k sigil t b with Some t => text_run t l | None => None end
  end.

Lemma text_run_app t l t' l' :
  text_run t l = Some t' -> text_run t (l ++ l') = text_run t' l'.
Proof.
  revert t. induction l as [|b l IH]; intros t; cbn; [by intros [= ->]|].
  destruct (_ || _); [done|]. destruct (text_step _ _ _ _ _); [apply IH|done].
Qed.

Lemma text_run_cons t b t' l :
  closed k t = false -> Z.of_nat (length (flatten sigil t)) < B ->
  text_step B k sigil t b = Some t' -> text_run t (b :: l) = text_run t' l.
Proof. intros Hc HB Ht. cbn [text_run]. rewrite Hc, Ht. destruct (B <=? _) eqn:E; [lia|done]. Qed.

Lemma comma_ends_name b : name_character b = true -> (b =? 0x2C) = false.
Proof. intros H. apply Z.eqb_neq. by intros ->. Qed.

Lemma name_text_run name done :
  17 <= B -> (length (done ++ name) <= 15)%nat -> Forall (fun b => name_character b = true) name ->
  text_run (TName done) name = Some (TName (done ++ name)).
Proof.
  intros HB Hl Hn. revert done Hl.
  induction Hn as [|b name Hb Hn IH]; intros done Hl; [by rewrite app_nil_r|].
  rewrite length_app in Hl. cbn [length] in Hl. erewrite text_run_cons.
  - replace (done ++ b :: name) with ((done ++ [b]) ++ name) by (by rewrite <-app_assoc).
    apply IH. rewrite !length_app. cbn. lia.
  - done.
  - cbn. lia.
  - cbn -[Nat.eqb]. rewrite comma_ends_name, Hb by done. cbn -[Nat.eqb].
    destruct (length done =? 15)%nat eqn:E; [lia|done].
Qed.

Lemma body_text_run name body done :
  Forall (fun b => b <> 0x2A) body ->
  Z.of_nat (length (flatten sigil (TBody name (done ++ body)))) + sentence_overhead k <= B ->
  text_run (TBody name done) body = Some (TBody name (done ++ body)).
Proof.
  intros Hb. revert done. induction Hb as [|b body Hb Hbs IH]; intros done HB; [by rewrite app_nil_r|].
  replace (done ++ b :: body) with ((done ++ [b]) ++ body) in * by (by rewrite <-app_assoc).
  assert (Z.of_nat (length (flatten sigil (TBody name (done ++ [b])))) + sentence_overhead k <= B) as HB'.
  { cbn in *. rewrite !length_app in *. cbn in *. rewrite !length_app in *. cbn in *. lia. }
  rewrite (text_run_cons _ _ (TBody name (done ++ [b]))); [by apply IH|done| |].
  - cbn in HB' |- *. rewrite !length_app in *. cbn in *. rewrite !length_app in *. cbn in *.
    destruct k; cbn in *; lia.
  - cbn [text_step]. destruct (Z.eqb_spec b 0x2A); [done|]. by destruct (B <? _) eqn:E; [lia|].
Qed.

Lemma digits_text_run name body digits done :
  Forall (fun b => is_Some (digit_value b)) digits ->
  length (done ++ digits) = check_digits k name ->
  Z.of_nat (length (flatten sigil (TSum name body (done ++ digits)))) <= B ->
  text_run (TSum name body done) digits = Some (TSum name body (done ++ digits)).
Proof.
  intros Hd. revert done. induction Hd as [|b digits [v Hb] Hd IH]; intros done Hl HB; [by rewrite app_nil_r|].
  assert (length done < check_digits k name)%nat as Hlt.
  { rewrite <-Hl, length_app. cbn. lia. }
  assert (Z.of_nat (length (flatten sigil (TSum name body done))) < B) as HB'.
  { rewrite length_flatten_sum, (length_app done) in HB. rewrite length_flatten_sum. cbn [length] in HB. lia. }
  replace (done ++ b :: digits) with ((done ++ [b]) ++ digits) in * by (by rewrite <-app_assoc).
  rewrite (text_run_cons _ _ (TSum name body (done ++ [b]))); [by apply IH| |done|].
  - cbn. apply Nat.eqb_neq. lia.
  - cbn. by rewrite Hb.
Qed.

(** A text that is complete, after its sigil. *)
Record complete_text (t : text) : Prop := {
  ct_read : exists l, flatten sigil t = sigil :: l /\ text_run (TName []) l = Some t;
  ct_closed : closed k t = true;
  ct_check : text_check t = true
}.

Lemma sentence_complete name body digits :
  32 <= B -> sentence_name name -> Forall (fun b => b <> 0x2A) body ->
  Z.of_nat (length (flatten sigil (TBody name body))) + sentence_overhead k <= B ->
  Forall (fun b => is_Some (digit_value b)) digits -> length digits = check_digits k name ->
  Z.of_nat (length (flatten sigil (TSum name body digits))) <= B ->
  text_check (TSum name body digits) = true -> complete_text (TSum name body digits).
Proof.
  intros HB (Hne & Hl & Hn) Hbody Hroom Hd Hcount HB' Hchk.
  split; [|cbn; by apply Nat.eqb_eq|done]. eexists. split; [reflexivity|].
  rewrite (text_run_app _ _ _ _ (name_text_run name [] ltac:(lia) Hl Hn)). cbn [app].
  rewrite (text_run_cons _ _ (TBody name [])); [|done|cbn; lia|].
  2: { cbn. by rewrite bool_decide_eq_false_2 by done. }
  rewrite (text_run_app _ _ _ _ (body_text_run name body [] Hbody Hroom)). cbn [app].
  rewrite (text_run_cons _ _ (TSum name body [])); [by apply digits_text_run|done| |done].
  destruct k; cbn in *; lia.
Qed.

End runs.

(** ** Digits *)

Lemma digit_value_hex v : 0 <= v < 16 -> digit_value (hex_digit v) = Some v.
Proof.
  intros Hv. assert (v = 0 \/ v = 1 \/ v = 2 \/ v = 3 \/ v = 4 \/ v = 5 \/ v = 6 \/ v = 7 \/ v = 8 \/ v = 9 \/
    v = 10 \/ v = 11 \/ v = 12 \/ v = 13 \/ v = 14 \/ v = 15) as H by lia.
  by repeat destruct H as [->|H]; subst.
Qed.

Lemma hex_digits_spelled n v :
  0 <= v < 16 ^ Z.of_nat n -> spelled n (hex_digits n v) v.
Proof.
  revert v. induction n as [|n IH]; intros v Hv; [by split_and!; cbn in *; try lia|].
  rewrite Nat2Z.inj_succ, Z.pow_succ_r in Hv by lia.
  destruct (IH (v / 16)) as (Hl & Hd & Hval); [mlia|]. cbn [hex_digits].
  assert (0 <= v mod 16 < 16) by mlia. split_and!.
  - rewrite length_app, Hl. cbn. lia.
  - apply Forall_app. split; [done|]. apply Forall_singleton. rewrite digit_value_hex by done. by eexists.
  - unfold digits_value in *. rewrite foldl_app, Hval. cbn -[Z.mul]. rewrite digit_value_hex by done.
    cbn -[Z.mul]. mlia.
Qed.

(** ** The encoders *)

Section encoders.
  Context (B : Z) (name body : list Z).
  Context (HB : 32 <= B) (Hname : sentence_name name) (Hbody : Forall (fun b => b <> 0x2A) body)
    (Hbytes : bytes (name ++ 0x2C :: body)).
  Abbreviation c := (name ++ 0x2C :: body).

Definition nmea_text : text := TSum name body (hex_digits 2 (xor_all c)).

Lemma nmea_sentence_text sigil :
  Z.of_nat (length c) + 7 <= B ->
  nmea_sentence sigil name body = flatten sigil nmea_text ++ [0x0D; 0x0A] /\
  complete_text B fn_sempNmeaPreamble sigil nmea_text /\
  Z.of_nat (length (flatten sigil nmea_text)) + 3 <= B.
Proof.
  intros Hroom. destruct (hex_digits_spelled 2 (xor_all c)) as (Hl & Hd & Hv); [by apply xor_all_range|].
  assert (Z.of_nat (length (flatten sigil nmea_text)) + 3 <= B) as Hfit
    by (unfold nmea_text; rewrite length_flatten_sum; lia).
  split_and!; [unfold nmea_text; by rewrite flatten_sum| |done]. apply sentence_complete; try done.
  - cbn. lia.
  - fold nmea_text. lia.
  - unfold text_check. rewrite Hl. cbv [Nat.ltb Nat.leb]. by apply Z.eqb_eq.
Qed.

Definition hash_text : text :=
  TSum name body (if contains_MODEb name then hex_digits 2 (xor_all c) else hex_digits 8 (crc32_ref 0 c)).

(** The digits of a hash sentence: a check sum for MODE, else a CRC. *)
Lemma hash_text_digits :
  let digits := if contains_MODEb name then hex_digits 2 (xor_all c) else hex_digits 8 (crc32_ref 0 c) in
  length digits = check_digits fn_sempUnicoreHashPreamble name /\
  Forall (fun b => is_Some (digit_value b)) digits /\ text_check hash_text = true.
Proof.
  unfold hash_text, check_digits, text_check. destruct (contains_MODEb name); cbn zeta.
  - destruct (hex_digits_spelled 2 (xor_all c)) as (Hl & Hd & Hv); [by apply xor_all_range|].
    rewrite Hl. split_and!; [done|done|]. by apply Z.eqb_eq.
  - rewrite <-crc32_run_ref by done. pose proof (crc32_run_range 0 c ltac:(done)) as Hr.
    destruct (hex_digits_spelled 8 (crc32_run 0 c)) as (Hl & Hd & Hv); [exact Hr|].
    rewrite Hl. split_and!; [done|done|]. by apply Z.eqb_eq.
Qed.

Lemma hash_sentence_text :
  hash_sentence name body = flatten 0x23 hash_text ++ [0x0D; 0x0A] /\
  (Z.of_nat (length c) + (if contains_MODEb name then 4 else 10) <= B ->
   Z.of_nat (length c) + 4 < B ->
   complete_text B fn_sempUnicoreHashPreamble 0x23 hash_text) /\
  length (flatten 0x23 hash_text) = (length c + if contains_MODEb name then 4 else 10)%nat.
Proof.
  destruct hash_text_digits as (Hl & Hd & Hchk).
  assert (length (flatten 0x23 hash_text) = (length c + if contains_MODEb name then 4 else 10)%nat) as Hlen.
  { unfold hash_text. rewrite length_flatten_sum, Hl. unfold check_digits. destruct (contains_MODEb name); lia. }
  split_and!; [unfold hash_text; by rewrite flatten_sum| |done]. intros Hroom H4. apply sentence_complete; try done.
  - cbn. lia.
  - fold hash_text. rewrite Hlen. destruct (contains_MODEb name); lia.
Qed.

End encoders.

(** A complete text ends in the message it is, if there is room. *)
Lemma complete_finish B accepts k' i k sigil t :
  complete_text B k' sigil t -> Z.of_nat (length (flatten sigil t)) + 3 <= B ->
  finish B accepts i k sigil t = Some [(Z.of_nat i, flatten sigil t ++ [0x0D; 0x0A])].
Proof.
  intros [_ Hc Hchk] HB. unfold finish. rewrite Hchk. destruct t as [| |name body digits]; try done.
  cbn [andb orb]. destruct (_ <=? B) eqn:E; [|lia]. by destruct (2 <? length digits)%nat.
Qed.

(** ** Complete sentences are messages *)

Definition textual (k : PREAMBLE_ROUTINE) : bool :=
  match k with fn_sempNmeaPreamble | fn_sempUnicoreHashPreamble => true | _ => false end.

Lemma closed_valid B k sigil name body digits :
  textual k = true -> starts k sigil = true -> text_fits B k sigil (TSum name body digits) ->
  closed k (TSum name body digits) = true -> text_check (TSum name body digits) = true ->
  valid_message k (flatten sigil (TSum name body digits) ++ [0x0D; 0x0A]).
Proof.
  intros Ht Hs ([Hl Hn] & Hne & Hbody & _ & Hd) Hc Hchk. cbn in Hc. apply Nat.eqb_eq in Hc.
  assert (sentence_name name) as Hname by done.
  replace (flatten sigil (TSum name body digits) ++ [0x0D; 0x0A])
    with (sigil :: name ++ 0x2C :: body ++ 0x2A :: digits ++ [0x0D; 0x0A]).
  2: { cbn. by rewrite <-app_assoc, <-app_comm_cons, <-app_assoc. }
  destruct k; try done; cbn in Hs, Hc.
  - constructor; [lia|done|done|]. split_and!; [done|done|].
    unfold text_check in Hchk. rewrite Hc in Hchk. cbn -[xor_all] in Hchk. lia.
  - apply Z.eqb_eq in Hs as ->. constructor; [done|done|]. unfold text_check in Hchk.
    destruct (contains_MODEb name); rewrite Hc in Hchk; cbn -[xor_all crc32_ref] in Hchk;
      (split_and!; [done|done|lia]).
Qed.
