(* ===== verification/Machine.v ===== *)
(** * Properties of the machine

    The invariant of the machine's states, which messages it outputs, and for
    which parser tables every step is defined. *)
From S2P Require Import Prelude Crc ParseState FrameSpec Sentences Representation SentenceRefine.
From S2P Require Import Messages MessageRuns.

Definition binary (k : PREAMBLE_ROUTINE) : bool :=
  match k with
  | fn_sempRtcmPreamble | fn_sempUbloxPreamble | fn_sempCustomPreamble => true
  | _ => false
  end.

(** The protocols whose routines are always defined. *)
Definition safe (k : PREAMBLE_ROUTINE) : bool :=
  match k with
  | fn_sempUnicoreBinaryPreamble | fn_sempUnicoreHashPreamble => false
  | _ => true
  end.

Section machine_theory.
  Context `{SU : Setup}.
  Abbreviation step := (spec_step B table accepts).
  Abbreviation run := (spec_run B table accepts).

Definition spec_inv (st : spec_state) : Prop :=
  match st with
  | Scan => True
  | Frame i k m =>
      table !! i = Some k /\ binary k = true /\ bytes m /\ starts k (default 0 (head m)) = true
  | Sentence i k sigil t =>
      table !! i = Some k /\ textual k = true /\ starts k sigil = true /\ text_fits B k sigil t
  | Ending i k sigil t _ =>
      table !! i = Some k /\ textual k = true /\ starts k sigil = true /\ text_fits B k sigil t /\
      closed k t = true
  end.

Lemma begin_inv i k b st :
  table !! i = Some k -> starts k b = true -> is_u8 b -> begin i k b = Some st -> spec_inv st.
Proof.
  intros Hk Hs Hb H. destruct k; cbn in H; simplify_eq; split_and!; try done; try by constructor.
  all: split; [cbn; lia|done].
Qed.

Lemma scan_from_inv l i b st :
  (forall j k, l !! j = Some k -> table !! (i + j)%nat = Some k) -> is_u8 b ->
  scan_from l i b = Some st -> spec_inv st.
Proof.
  intros Hl Hb. revert i Hl. induction l as [|k l IH]; intros i Hl; cbn; [by intros [= <-]|].
  destruct (starts k b) eqn:E.
  - apply begin_inv; [|done|done]. rewrite <-(Nat.add_0_r i). by apply Hl.
  - apply IH. intros j k' Hj. rewrite Nat.add_succ_comm. by apply Hl.
Qed.

Lemma scan_inv out b st out' :
  is_u8 b -> scan table out b = Ok (st, out') -> spec_inv st /\ out' = out.
Proof.
  unfold scan. intros Hb H. destruct (scan_from table 0 b) as [st'|] eqn:E; simplify_eq.
  split; [|done]. by eapply (scan_from_inv table 0).
Qed.

(** ** Outputs *)

(** A message that the application accepted though its check failed; sentences
    are asked about before their terminators are added. *)
Definition accepted (i : Z) (m : list Z) : Prop :=
  exists raw, accepts i raw = true /\ (m = raw \/ m = raw ++ [0x0D; 0x0A]).

(** An output belongs to its protocol. *)
Definition sound_output (im : Z * list Z) : Prop :=
  exists i k, im.1 = Z.of_nat i /\ table !! i = Some k /\
              (valid_message k im.2 \/ accepted im.1 im.2).

Lemma frame_done k m :
  binary k = true -> bytes m -> starts k (default 0 (head m)) = true ->
  frame_verdict k m = Done true -> valid_message k m.
Proof.
  destruct k; try done; intros _.
  - apply rtcm_done_message.
  - apply ublox_done.
  - apply custom_done_message.
Qed.

Lemma frame_step_inv i k m b st out :
  spec_inv (Frame i k m) -> is_u8 b -> frame_step table accepts i k m b = Ok (st, out) ->
  spec_inv st /\ Forall sound_output out.
Proof.
  intros (Hk & Hbin & Hm & Hs) Hb. unfold frame_step. destruct (frame_verdict k m) as [| |ok] eqn:E.
  - intros [= <- <-]. done.
  - intros [H ->]%scan_inv; done.
  - intros [= <- <-]. split; [done|]. destruct (ok || _) eqn:Ea; [|done].
    apply Forall_singleton. exists i, k. split_and!; [done..|].
    destruct ok; [left; by apply frame_done|right; exists m; auto].
Qed.

Lemma finish_sound i k sigil t out :
  spec_inv (Ending i k sigil t 0) -> finish B accepts i k sigil t = Some out ->
  Forall sound_output out.
Proof.
  intros (Hk & Ht & Hs & Hok & Hc) H. destruct t as [| |name body digits]; try done.
  assert (text_check (TSum name body digits) = true \/ accepts (Z.of_nat i) (flatten sigil (TSum name body digits)) = true ->
    sound_output (Z.of_nat i, flatten sigil (TSum name body digits) ++ [0x0D; 0x0A])) as Hsound.
  { intros [Hchk|Ha]; exists i, k; (split_and!; [done|done|]).
    - left. by eapply closed_valid.
    - right. by eexists; eauto. }
  unfold finish in H. destruct (2 <? _)%nat.
  - destruct (text_check _); cbn [andb] in H; [|by simplify_eq].
    destruct (_ <=? B); simplify_eq; [|done]. apply Forall_singleton. auto.
  - destruct (text_check _); [|destruct (accepts _ _)]; cbn [orb] in H; simplify_eq; try done;
      (destruct (_ <=? B); simplify_eq); apply Forall_singleton; auto.
Qed.

Lemma spec_step_inv st b st' out :
  spec_inv st -> is_u8 b -> step st b = Ok (st', out) -> spec_inv st' /\ Forall sound_output out.
Proof.
  intros Hi Hb H. assert (forall out0, Forall sound_output out0 ->
    scan table out0 b = Ok (st', out) -> spec_inv st' /\ Forall sound_output out) as Hscan.
  { intros out0 Hout [Hst ->]%scan_inv; done. }
  destruct st as [|i k m|i k sigil t|i k sigil t e]; cbn [spec_step] in H.
  - by eapply Hscan.
  - case_match; [by eapply Hscan|]. eapply frame_step_inv; [|done|exact H].
    destruct Hi as (? & ? & Hm & Hs). split_and!; [done|done|by apply Forall_app; split; [|apply Forall_singleton]|].
    by destruct m; destruct k.
  - case_match; [by eapply Hscan|]. pose proof Hi as (Hk & Ht & Hs & Hok).
    destruct (closed k t) eqn:Hc.
    + destruct (b =? 0x0D); [by simplify_eq|]. destruct (b =? 0x0A); [by simplify_eq|].
      destruct (finish _ _ _ _ _ _) as [out0|] eqn:Hf; [|done]. eapply Hscan; [|exact H].
      by eapply finish_sound.
    + destruct (text_step _ _ _ _ _) as [t'|] eqn:Hts; [|by eapply Hscan]. simplify_eq.
      split; [|done]. split_and!; try done. pose proof B_range. eapply text_fits_step; [|done|done]. lia.
  - case_match; [by eapply Hscan|].
    destruct (finish _ _ _ _ _ _) as [out0|] eqn:Hf; [|done].
    assert (Forall sound_output out0) by by eapply finish_sound.
    destruct (b =? e); [by simplify_eq|]. by eapply Hscan.
Qed.

Lemma spec_run_inv st l st' out :
  spec_inv st -> bytes l -> run st l = Ok (st', out) -> spec_inv st' /\ Forall sound_output out.
Proof.
  intros Hi Hl. revert st out Hi. induction Hl as [|b l Hb Hl IH]; intros st out Hi; cbn.
  - by intros [= <- <-].
  - destruct (step st b) as [[st1 out1]|] eqn:E1; [|done].
    destruct (run st1 l) as [[st2 out2]|] eqn:E2; [|done]. intros [= <- <-].
    destruct (spec_step_inv st b st1 out1 Hi Hb E1) as [Hi1 Ho1].
    destruct (IH st1 out2 Hi1 E2) as [Hi2 Ho2]. split; [done|]. by apply Forall_app.
Qed.

(** ** Tables without the two unsafe protocols *)

Section safe_table.
  Context (Hsafe : forallb safe table = true).

Lemma safe_entry i k : table !! i = Some k -> safe k = true.
Proof.
  intros Hk. rewrite forallb_forall in Hsafe. apply Hsafe.
  by eapply list_elem_of_In, list_elem_of_lookup_2.
Qed.

Lemma scan_defined out b : exists st, scan table out b = Ok (st, out).
Proof.
  unfold scan. assert (forall l i, forallb safe l = true -> is_Some (scan_from l i b)) as H.
  { induction l as [|k l IH]; intros i Hl; cbn in *; [by eexists|].
    apply andb_true_iff in Hl as [Hk Hl]. destruct (starts k b); [|by apply IH].
    destruct k; try done; by eexists. }
  destruct (H table 0%nat Hsafe) as [st ->]. by exists st.
Qed.

(** A closed NMEA sentence leaves room for its end. *)
Lemma nmea_room sigil name body digits :
  text_fits B fn_sempNmeaPreamble sigil (TSum name body digits) -> (length digits <= 2)%nat ->
  Z.of_nat (length (flatten sigil (TSum name body digits))) + 3 <= B.
Proof.
  intros (_ & _ & _ & Hlen & _) Hd. cbn in *. rewrite length_app in *. cbn in *.
  rewrite length_app. cbn. lia.
Qed.

Lemma finish_defined i sigil t :
  text_fits B fn_sempNmeaPreamble sigil t -> closed fn_sempNmeaPreamble t = true ->
  is_Some (finish B accepts i fn_sempNmeaPreamble sigil t).
Proof.
  intros Hok Hc. destruct t as [| |name body digits]; try done. cbn in Hc. apply Nat.eqb_eq in Hc.
  pose proof (nmea_room _ _ _ _ Hok ltac:(lia)). unfold finish. rewrite Hc. cbn -[flatten].
  destruct (_ || _); [|by eexists]. destruct (_ <=? B) eqn:E; [by eexists|lia].
Qed.

Lemma spec_step_defined st b : spec_inv st -> exists r, step st b = Ok r.
Proof.
  intros Hi. assert (forall out, exists r, scan table out b = Ok r) as Hscan.
  { intros out. destruct (scan_defined out b) as [st' ->]. by eexists. }
  destruct st as [|i k m|i k sigil t|i k sigil t e]; cbn [spec_step].
  - done.
  - case_match; [done|]. unfold frame_step. case_match; [by eexists|done|by eexists].
  - case_match; [done|]. destruct Hi as (Hk & Ht & Hs & Hok). apply safe_entry in Hk.
    destruct k; try done. destruct (closed _ t) eqn:Hc.
    + destruct (b =? 0x0D); [by eexists|]. destruct (b =? 0x0A); [by eexists|].
      by destruct (finish_defined i _ _ Hok Hc) as [out ->].
    + destruct (text_step _ _ _ _ _); [by eexists|done].
  - case_match; [done|]. destruct Hi as (Hk & Ht & Hs & Hok & Hc). apply safe_entry in Hk.
    destruct k; try done. destruct (finish_defined i _ _ Hok Hc) as [out ->].
    destruct (b =? e); [by eexists|done].
Qed.

Lemma spec_run_defined st l : spec_inv st -> bytes l -> exists r, run st l = Ok r.
Proof.
  intros Hi Hl. revert st Hi. induction Hl as [|b l Hb Hl IH]; intros st Hi; cbn; [by eexists|].
  destruct (spec_step_defined st b Hi) as [[st1 out1] E]. rewrite E.
  destruct (spec_step_inv _ _ _ _ Hi Hb E) as [Hi1 _].
  destruct (IH st1 Hi1) as [[st2 out2] ->]. by eexists.
Qed.

End safe_table.
End machine_theory.
