(* ===== verification/RoundTrip.v ===== *)
(** * Every message is delivered

    The machine, scanning, outputs exactly the message it is fed, for every
    encoder of [Messages], and passes over bytes that start no message. *)
From S2P Require Import Prelude Crc ParseState FrameSpec Sentences Representation SentenceRefine.
From S2P Require Import Messages MessageRuns Machine.

Section round_trip.
  Context `{SU : Setup}.
  Abbreviation step := (spec_step B table accepts).
  Abbreviation run := (spec_run B table accepts).

(** The first parser of the table that knows the byte [b]. *)
Definition first_parser (i : nat) (k : PREAMBLE_ROUTINE) (b : Z) : Prop :=
  table !! i = Some k /\ starts k b = true /\
  forall j k', (j < i)%nat -> table !! j = Some k' -> starts k' b = false.

Lemma first_parser_intro i k b :
  table !! i = Some k -> starts k b = true ->
  forallb (fun k' => negb (starts k' b)) (take i table) = true -> first_parser i k b.
Proof.
  intros Hk Hs Hf. split_and!; [done|done|]. intros j k' Hj Hk'. rewrite forallb_forall in Hf.
  apply negb_true_iff, Hf, list_elem_of_In, list_elem_of_lookup. exists j. by rewrite lookup_take_lt.
Qed.

Lemma first_parser_scan i k b out :
  first_parser i k b ->
  scan table out b = match begin i k b with Some st => Ok (st, out) | None => Ub MissingReturn end.
Proof.
  intros (Hk & Hs & Hmin). unfold scan.
  assert (forall l n, (forall j, l !! j = table !! (n + j)%nat) -> (n <= i)%nat ->
    scan_from l n b = begin i k b) as H; [|by rewrite (H table 0%nat) by (done || lia)].
  induction l as [|k' l IH]; intros n Hl Hn.
  - specialize (Hl (i - n)%nat). replace (n + (i - n))%nat with i in Hl by lia. by rewrite Hk in Hl.
  - cbn. pose proof (Hl 0%nat) as H0. rewrite Nat.add_0_r in H0. cbn in H0.
    destruct (decide (n = i)) as [->|Hne].
    + rewrite Hk in H0. injection H0 as ->. by rewrite Hs.
    + rewrite (Hmin n k') by (done || lia). apply IH; [|lia].
      intros j. specialize (Hl (S j)). rewrite Nat.add_succ_comm. exact Hl.
Qed.

(** ** Binary frames *)

(** The frame [m ++ l], of which [m] has been received. *)
Lemma frame_run i k l m :
  l <> [] -> Z.of_nat (length (m ++ l)) <= B ->
  (forall j, (0 < j < length l)%nat -> frame_verdict k (m ++ take j l) = More) ->
  frame_verdict k (m ++ l) = Done true ->
  run (Frame i k m) l = Ok (Scan, [(Z.of_nat i, m ++ l)]).
Proof.
  revert m. induction l as [|b l IH]; intros m Hne HB Hmore Hdone; [done|].
  cbn [spec_run spec_step]. rewrite length_app in HB. cbn [length] in HB.
  destruct (B <=? _) eqn:E; [lia|]. unfold frame_step.
  replace (m ++ b :: l) with ((m ++ [b]) ++ l) in * by (by rewrite <-app_assoc).
  destruct l as [|b' l].
  - rewrite app_nil_r in *. rewrite Hdone. cbn. done.
  - pose proof (Hmore 1%nat ltac:(cbn; lia)) as H1. cbn [take] in H1. rewrite H1, IH; [done|done| |  |done].
    + rewrite !length_app. cbn [length]. cbn [length] in HB. lia.
    + intros j Hj. specialize (Hmore (S j)). cbn [take length] in Hmore.
      rewrite <-app_assoc. apply Hmore. cbn [length] in Hj. lia.
Qed.

(** A whole frame, from its preamble byte on. *)
Lemma frame_delivered i k b m :
  first_parser i k b -> binary k = true -> framed (frame_verdict k) m -> head m = Some b ->
  Z.of_nat (length m) <= B ->
  run Scan m = Ok (Scan, [(Z.of_nat i, m)]).
Proof.
  intros Hi Hbin [Hmore Hdone] Hb HB. destruct m as [|? l]; [done|]. injection Hb as ->. cbn [spec_run spec_step].
  rewrite (first_parser_scan i k b []) by done.
  assert (begin i k b = Some (Frame i k [b])) as -> by (by destruct k).
  rewrite (frame_run i k l [b]); [done| |done| |done].
  - intros ->. by destruct k.
  - intros j Hj. apply (Hmore (S j)). cbn. lia.
Qed.

Lemma ublox_frame_delivered i class id payload :
  first_parser i fn_sempUbloxPreamble 0xb5 ->
  Z.of_nat (length payload) < 65536 -> Z.of_nat (length payload) + 8 <= B ->
  run Scan (ublox_frame class id payload) = Ok (Scan, [(Z.of_nat i, ublox_frame class id payload)]).
Proof.
  intros Hi Hn HB. eapply frame_delivered; [exact Hi|done|by apply ublox_framed|done|].
  rewrite length_ublox_frame. lia.
Qed.

Lemma rtcm_frame_delivered i payload :
  first_parser i fn_sempRtcmPreamble 0xd3 ->
  3 <= Z.of_nat (length payload) < 1024 -> Z.of_nat (length payload) + 6 <= B ->
  run Scan (rtcm_frame payload) = Ok (Scan, [(Z.of_nat i, rtcm_frame payload)]).
Proof.
  intros Hi Hn HB. eapply frame_delivered; [exact Hi|done|by apply rtcm_framed|done|].
  rewrite length_rtcm_frame. lia.
Qed.

Lemma custom_frame_delivered i a c payload :
  first_parser i fn_sempCustomPreamble 0xAA -> length a = 9%nat -> length c = 6%nat ->
  1 <= Z.of_nat (length payload) < 65536 -> Z.of_nat (length payload) + 24 <= B ->
  run Scan (custom_frame a c payload) = Ok (Scan, [(Z.of_nat i, custom_frame a c payload)]).
Proof.
  intros Hi Ha Hc Hn HB. eapply frame_delivered; [exact Hi|done|by apply custom_framed|done|].
  rewrite length_custom_frame by done. lia.
Qed.

(** ** Sentences *)

(** Steps that output nothing. *)
Lemma run_quiet st l st' l' :
  run st l = Ok (st', []) -> run st (l ++ l') = run st' l'.
Proof.
  intros H. rewrite spec_run_app, H. by destruct (run st' l') as [[??]|].
Qed.

Lemma run_cons st b st' l : step st b = Ok (st', []) -> run st (b :: l) = run st' l.
Proof. intros H. cbn. rewrite H. by destruct (run st' l) as [[??]|]. Qed.

Lemma sentence_text_run i k sigil t l t' :
  text_run B k sigil t l = Some t' -> run (Sentence i k sigil t) l = Ok (Sentence i k sigil t', []).
Proof.
  revert t. induction l as [|b l IH]; intros t; cbn [text_run]; [by intros [= ->]|].
  destruct (closed k t) eqn:Hc, (B <=? _) eqn:HB; try done. cbn [orb].
  destruct (text_step _ _ _ _ _) as [t1|] eqn:Ht; [|done]. intros H.
  rewrite (run_cons _ _ (Sentence i k sigil t1)); [by apply IH|]. cbn [spec_step]. by rewrite HB, Hc, Ht.
Qed.

Section sentence.
  Context (i : nat) (k : PREAMBLE_ROUTINE) (sigil : Z) (t : text).
  Context (Hi : first_parser i k sigil) (Hk : textual k = true) (Ht : complete_text B k sigil t).

Lemma sentence_closed_run : run Scan (flatten sigil t) = Ok (Sentence i k sigil t, []).
Proof.
  destruct Ht as [(l & -> & Hl) _ _]. rewrite (run_cons _ _ (Sentence i k sigil (TName []))).
  - by apply sentence_text_run.
  - cbn [spec_step]. rewrite (first_parser_scan i k) by done. by destruct k.
Qed.

(** CR and LF end the sentence. *)
Lemma sentence_end_run :
  Z.of_nat (length (flatten sigil t)) < B ->
  run Scan (flatten sigil t ++ [0x0D; 0x0A])
    = match finish B accepts i k sigil t with Some out => Ok (Scan, out) | None => Ub OutOfBounds end.
Proof.
  intros HB. rewrite (run_quiet _ _ _ _ sentence_closed_run).
  assert ((B <=? Z.of_nat (length (flatten sigil t))) = false) as E by lia.
  rewrite (run_cons _ _ (Ending i k sigil t 0x0A)) by (cbn [spec_step]; by rewrite E, (ct_closed _ _ _ _ Ht)).
  cbn [spec_run spec_step]. rewrite E. destruct (finish _ _ _ _ _ _); [|done]. cbn. by rewrite app_nil_r.
Qed.

Lemma sentence_delivered :
  Z.of_nat (length (flatten sigil t)) + 3 <= B ->
  run Scan (flatten sigil t ++ [0x0D; 0x0A])
    = Ok (Scan, [(Z.of_nat i, flatten sigil t ++ [0x0D; 0x0A])]).
Proof.
  intros HB. rewrite sentence_end_run by lia. by rewrite (complete_finish B accepts k).
Qed.

End sentence.

Lemma nmea_sentence_delivered i sigil name body :
  first_parser i fn_sempNmeaPreamble sigil -> sentence_name name ->
  Forall (fun b => b <> 0x2A) body -> bytes (name ++ 0x2C :: body) ->
  Z.of_nat (length (name ++ 0x2C :: body)) + 7 <= B ->
  run Scan (nmea_sentence sigil name body) = Ok (Scan, [(Z.of_nat i, nmea_sentence sigil name body)]).
Proof.
  intros Hi Hn Hb Hbs HB. pose proof B_range. assert (32 <= B) as H32 by lia.
  destruct (nmea_sentence_text B name body H32 Hn Hb Hbs sigil HB) as (-> & Ht & Hfit).
  by apply sentence_delivered with (k := fn_sempNmeaPreamble).
Qed.

Lemma hash_sentence_delivered i name body :
  first_parser i fn_sempUnicoreHashPreamble 0x23 -> sentence_name name ->
  Forall (fun b => b <> 0x2A) body -> bytes (name ++ 0x2C :: body) ->
  Z.of_nat (length (name ++ 0x2C :: body)) + 13 <= B ->
  run Scan (hash_sentence name body) = Ok (Scan, [(Z.of_nat i, hash_sentence name body)]).
Proof.
  intros Hi Hn Hb Hbs HB. pose proof B_range. assert (32 <= B) as H32 by lia.
  destruct (hash_sentence_text B name body H32 Hn Hb Hbs) as (-> & Ht & Hlen).
  apply sentence_delivered with (k := fn_sempUnicoreHashPreamble); [done|done| |].
  - apply Ht; [destruct (contains_MODEb name)|]; lia.
  - rewrite Hlen. destruct (contains_MODEb name); lia.
Qed.

(** ** Streams *)

(** Bytes between messages: no parser of the table knows them. *)
Definition noise (l : list Z) : Prop :=
  Forall (fun b => forallb (fun k => negb (starts k b)) table = true) l.

Lemma noise_scan b out :
  forallb (fun k => negb (starts k b)) table = true -> scan table out b = Ok (Scan, out).
Proof.
  intros H. unfold scan.
  assert (forall l i, forallb (fun k => negb (starts k b)) l = true -> scan_from l i b = Some Scan) as Hs;
    [|by rewrite Hs].
  induction l as [|k l IH]; intros i Hl; cbn in *; [done|].
  apply andb_true_iff in Hl as [Hk%negb_true_iff Hl]. rewrite Hk. auto.
Qed.

Lemma noise_run l : noise l -> run Scan l = Ok (Scan, []).
Proof.
  induction 1 as [|b l Hb Hl IH]; [done|]. rewrite (run_cons _ _ Scan); [done|]. by apply noise_scan.
Qed.

(** A message of the protocol at index [i], as a sender encodes it, that fits the
    buffer.  The code does not read all messages of the protocols: a Unicore binary
    frame makes it undefined, and an RTCM frame with fewer than three bytes of data
    or a custom frame without payload is lost, so these are not among them. *)
Inductive sent : nat -> list Z -> Prop :=
| sent_ublox i class id payload :
    first_parser i fn_sempUbloxPreamble 0xb5 ->
    Z.of_nat (length payload) < 65536 -> Z.of_nat (length payload) + 8 <= B ->
    sent i (ublox_frame class id payload)
| sent_rtcm i payload :
    first_parser i fn_sempRtcmPreamble 0xd3 ->
    3 <= Z.of_nat (length payload) < 1024 -> Z.of_nat (length payload) + 6 <= B ->
    sent i (rtcm_frame payload)
| sent_custom i a c payload :
    first_parser i fn_sempCustomPreamble 0xAA -> length a = 9%nat -> length c = 6%nat ->
    1 <= Z.of_nat (length payload) < 65536 -> Z.of_nat (length payload) + 24 <= B ->
    sent i (custom_frame a c payload)
| sent_nmea i sigil name body :
    first_parser i fn_sempNmeaPreamble sigil -> sentence_name name ->
    Forall (fun b => b <> 0x2A) body -> bytes (name ++ 0x2C :: body) ->
    Z.of_nat (length (name ++ 0x2C :: body)) + 7 <= B ->
    sent i (nmea_sentence sigil name body)
| sent_hash i name body :
    first_parser i fn_sempUnicoreHashPreamble 0x23 -> sentence_name name ->
    Forall (fun b => b <> 0x2A) body -> bytes (name ++ 0x2C :: body) ->
    Z.of_nat (length (name ++ 0x2C :: body)) + 13 <= B ->
    sent i (hash_sentence name body).

Lemma sent_delivered i m : sent i m -> run Scan m = Ok (Scan, [(Z.of_nat i, m)]).
Proof.
  destruct 1.
  - by apply ublox_frame_delivered.
  - by apply rtcm_frame_delivered.
  - by apply custom_frame_delivered.
  - by apply nmea_sentence_delivered.
  - by apply hash_sentence_delivered.
Qed.

(** A stream of messages with noise around them, and what it carries. *)
Inductive stream : list Z -> output -> Prop :=
| stream_end l : noise l -> stream l []
| stream_message l i m rest out :
    noise l -> sent i m -> stream rest out -> stream (l ++ m ++ rest) ((Z.of_nat i, m) :: out).

Lemma stream_run l out : stream l out -> run Scan l = Ok (Scan, out).
Proof.
  induction 1 as [l Hl|l i m rest out Hl Hm Hs IH]; [by apply noise_run|].
  rewrite (run_quiet _ _ _ _ (noise_run l Hl)), spec_run_app, (sent_delivered i m Hm). by rewrite IH.
Qed.

End round_trip.

(* ------------------------------------------------------------------ *)
(** ** Recovery, and messages that get lost

    The machine returns to its scan within a buffer's length of noise.  Frames
    whose length field is below what the code counts down hold it until the
    buffer is full, and a hash sentence can end outside the buffer. *)

Section recovery.
  Context `{SU : Setup}.
  Abbreviation step := (spec_step B table accepts).
  Abbreviation run := (spec_run B table accepts).

(** How many more bytes a message under way can take, at least one. *)
Definition patience (st : spec_state) : Z :=
  match st with
  | Scan => 0
  | Frame _ _ m => Z.max 0 (B - Z.of_nat (length m)) + 2
  | Sentence _ _ sigil t => Z.max 0 (B - Z.of_nat (length (flatten sigil t))) + 2
  | Ending _ _ sigil t _ => Z.max 0 (B - Z.of_nat (length (flatten sigil t))) + 1
  end.

Lemma patience_step st b st' out :
  forallb (fun k => negb (starts k b)) table = true -> step st b = Ok (st', out) ->
  patience st' <= Z.max 0 (patience st - 1).
Proof.
  intros Hb H. pose proof (fun out0 => noise_scan b out0 Hb) as Hscan.
  destruct st as [|i k m|i k sigil t|i k sigil t e]; cbn [spec_step] in H.
  - rewrite Hscan in H. by simplify_eq.
  - destruct (B <=? _) eqn:E; [rewrite Hscan in H; simplify_eq; cbn; lia|]. unfold frame_step in H.
    destruct (frame_verdict _ _); [|rewrite Hscan in H|]; simplify_eq; cbn; try lia.
    rewrite length_app. cbn. lia.
  - destruct (B <=? _) eqn:E; [rewrite Hscan in H; simplify_eq; cbn; lia|]. destruct (closed k t).
    + destruct (b =? 0x0D); [simplify_eq; cbn [patience]; lia|].
      destruct (b =? 0x0A); [simplify_eq; cbn [patience]; lia|].
      destruct (finish _ _ _ _ _ _); [|done]. rewrite Hscan in H. simplify_eq. cbn [patience]. lia.
    + destruct (text_step _ _ _ _ _) as [t'|] eqn:Et; [|rewrite Hscan in H; simplify_eq; cbn [patience]; lia].
      simplify_eq. apply flatten_step in Et. cbn [patience]. rewrite Et, length_app. cbn [length]. lia.
  - destruct (B <=? _) eqn:E; [rewrite Hscan in H; simplify_eq; cbn [patience]; lia|].
    destruct (finish _ _ _ _ _ _); [|done]. destruct (b =? e); [|rewrite Hscan in H];
      simplify_eq; cbn [patience]; lia.
Qed.

Lemma patience_run st l st' out :
  noise l -> run st l = Ok (st', out) -> patience st' <= Z.max 0 (patience st - Z.of_nat (length l)).
Proof.
  intros Hl. revert st out. induction Hl as [|b l Hb Hl IH]; intros st out; cbn [spec_run length].
  - intros [= <- <-]. lia.
  - destruct (step st b) as [[st1 out1]|] eqn:E1; [|done].
    destruct (run st1 l) as [[st2 out2]|] eqn:E2; [|done]. intros [= <- <-].
    pose proof (patience_step _ _ _ _ Hb E1). specialize (IH _ _ E2). lia.
Qed.

Lemma patience_scan st : patience st <= 0 -> st = Scan.
Proof. destruct st; cbn [patience]; try lia. done. Qed.

Lemma patience_max st : spec_inv st -> patience st <= B + 1.
Proof.
  pose proof B_range. destruct st as [|i k [|b m]|i k sigil t|i k sigil t e]; cbn; try lia.
  intros (_ & Hbin & _ & Hs). by destruct k.
Qed.

Lemma recovers st l st' out :
  spec_inv st -> noise l -> B < Z.of_nat (length l) -> run st l = Ok (st', out) -> st' = Scan.
Proof.
  intros Hi Hl HB H. apply patience_scan. pose proof (patience_run _ _ _ _ Hl H).
  pose proof (patience_max st Hi). lia.
Qed.

(** ** Frames that are never complete *)

Lemma stuck_run i k l m :
  Z.of_nat (length (m ++ l)) <= B ->
  (forall j, (0 < j <= length l)%nat -> frame_verdict k (m ++ take j l) = More) ->
  run (Frame i k m) l = Ok (Frame i k (m ++ l), []).
Proof.
  revert m. induction l as [|b l IH]; intros m HB Hm; [by rewrite app_nil_r|].
  rewrite length_app in HB. cbn [length] in HB. erewrite run_cons.
  - replace (m ++ b :: l) with ((m ++ [b]) ++ l) by (by rewrite <-app_assoc). apply IH.
    + rewrite !length_app. cbn. lia.
    + intros j Hj. rewrite <-app_assoc. apply (Hm (S j)). cbn. lia.
  - cbn [spec_step]. destruct (B <=? _) eqn:E; [lia|]. unfold frame_step.
    pose proof (Hm 1%nat ltac:(cbn; lia)) as H1. change (frame_verdict k (m ++ [b]) = More) in H1. by rewrite H1.
Qed.

Lemma stuck_from_scan i k b l :
  first_parser i k b -> binary k = true -> Z.of_nat (length (b :: l)) <= B ->
  (forall j, (0 < j <= length l)%nat -> frame_verdict k (b :: take j l) = More) ->
  run Scan (b :: l) = Ok (Frame i k (b :: l), []).
Proof.
  intros Hi Hk HB Hm. rewrite (run_cons _ _ (Frame i k [b])).
  - by apply (stuck_run i k l [b]).
  - cbn [spec_step]. rewrite (first_parser_scan i k) by done. by destruct k.
Qed.

(** An RTCM frame with less than three bytes of data. *)
Lemma rtcm_short_stuck i payload l :
  first_parser i fn_sempRtcmPreamble 0xd3 -> Z.of_nat (length payload) < 3 ->
  Z.of_nat (length (rtcm_frame payload ++ l)) <= B ->
  run Scan (rtcm_frame payload ++ l) = Ok (Frame i fn_sempRtcmPreamble (rtcm_frame payload ++ l), []).
Proof.
  intros Hi Hn HB. unfold rtcm_frame in *. cbn zeta in *.
  assert (rev (le_split 2 (Z.of_nat (length payload))) = [0; Z.of_nat (length payload)]) as Hl.
  { cbn. f_equal; [|f_equal]; mlia. }
  rewrite Hl in *. rewrite <-!app_comm_cons in *. apply stuck_from_scan; [done|done|done|].
  intros j Hj. destruct j as [|[|j]]; [lia|done|]. unfold frame_verdict. cbn [take app].
  apply rtcm_verdict_more; lia.
Qed.

(** A custom frame without payload. *)
Lemma custom_empty_stuck i a c l :
  first_parser i fn_sempCustomPreamble 0xAA -> length a = 9%nat -> length c = 6%nat ->
  Z.of_nat (length (custom_frame a c [] ++ l)) <= B ->
  run Scan (custom_frame a c [] ++ l)
    = Ok (Frame i fn_sempCustomPreamble (custom_frame a c [] ++ l), []).
Proof.
  intros Hi Ha Hc HB. unfold custom_frame in *. cbn zeta in *.
  destruct a as [|a0 [|a1 [|a2 [|a3 [|a4 [|a5 [|a6 [|a7 [|a8 [|]]]]]]]]]]; try done.
  rewrite <-!app_comm_cons in *. apply stuck_from_scan; [done|done|done|].
  intros j _. destruct j as [|[|j]]; [done|done|].
  unfold frame_verdict. erewrite custom_verdict_synced by reflexivity. cbv zeta.
  destruct (_ || _)%nat eqn:E; [done|]. exfalso.
  do 11 (destruct j as [|j]; [cbn in E; lia|]). unfold custom_length, get in E.
  cbn [take drop offset size app le_split length] in E.
  by rewrite orb_true_r in E.
Qed.

(** ** A sentence that ends outside the buffer *)

Lemma hash_overflow_run i name body :
  first_parser i fn_sempUnicoreHashPreamble 0x23 -> sentence_name name -> contains_MODEb name = true ->
  Forall (fun b => b <> 0x2A) body -> bytes (name ++ 0x2C :: body) ->
  B - 6 <= Z.of_nat (length (name ++ 0x2C :: body)) <= B - 5 ->
  run Scan (hash_sentence name body) = Ub OutOfBounds.
Proof.
  intros Hi Hn HM Hb Hbs HB. pose proof B_range. assert (32 <= B) as H32 by lia.
  destruct (hash_sentence_text B name body H32 Hn Hb Hbs) as (-> & Ht & Hlen).
  rewrite HM in Ht, Hlen. specialize (Ht ltac:(lia) ltac:(lia)).
  rewrite (sentence_end_run i fn_sempUnicoreHashPreamble) by (done || lia).
  unfold finish. rewrite (ct_check _ _ _ _ Ht). unfold hash_text at 1. rewrite HM.
  destruct (hex_digits_spelled 2 (xor_all (name ++ 0x2C :: body))) as (-> & _ & _); [by apply xor_all_range|].
  cbn [Nat.ltb Nat.leb orb]. by destruct (_ <=? B) eqn:E; [lia|].
Qed.

End recovery.
