(* ===== verification/ParserTheorems.v ===== *)
(** * What the parser framework guarantees

    The theorems about [sempBeginParser] and [sempParseNextByte], from the
    refinement and the theory of the machine, each with an instance on a parser
    that is started and fed concrete bytes. *)
From S2P Require Import Prelude Crc ParseState MessageParser ParseNmea ParseRtcm ParseUblox.
From S2P Require Import ParseUnicoreBinary ParseUnicoreHash ParseCustom NextByte BeginParser.
From S2P Require Import FrameSpec Sentences Representation Refine Lifecycle Messages Machine.
From S2P Require Import RoundTrip.

(* ------------------------------------------------------------------ *)
(** ** A sample application *)

Module Sample.

(** An application that never overrides a failed check. *)
#[export] Instance application : Application := fun _ _ => true.

#[export] Instance allocator : Allocator := fun n =>
  if 0 <=? n then Some (replicate (Z.to_nat n) 0xCC) else None.

(** The parsers of [t] with the smallest buffer, without a [badCrc] callback. *)
#[program] Definition setup (t : list PREAMBLE_ROUTINE) (Ht : (length t < 256)%nat) : Setup := {|
  B := 256; table := t; eom := 1; bad := None; accepts := fun _ _ => false |}.
Solve All Obligations with done.

Definition safe_table : list PREAMBLE_ROUTINE :=
  [fn_sempNmeaPreamble; fn_sempRtcmPreamble; fn_sempUbloxPreamble; fn_sempCustomPreamble].
Definition hash_table : list PREAMBLE_ROUTINE := [fn_sempNmeaPreamble; fn_sempUnicoreHashPreamble].
Definition unicore_table : list PREAMBLE_ROUTINE := [fn_sempUnicoreBinaryPreamble].

Definition safe_setup : Setup := setup safe_table (proj1 (Nat.ltb_lt 4 256) eq_refl).
Definition hash_setup : Setup := setup hash_table (proj1 (Nat.ltb_lt 2 256) eq_refl).
Definition unicore_setup : Setup := setup unicore_table (proj1 (Nat.ltb_lt 1 256) eq_refl).

(** The parser [sempBeginParser] returns for a table, 64-bit pointers, 20 scratch
    bytes and a buffer of 100 bytes. *)
Definition parser (t : list PREAMBLE_ROUTINE) : SEMP_PARSE_STATE :=
  match sempBeginParser 8 (Some "sample") (Some t) (Z.of_nat (length t))
          (Some (map (fun _ => "name") t)) (Z.of_nat (length t)) 20 100 (Some 1%nat) None None None tt with
  | Ok (Some p, _, _) => p
  | _ => started 8 "" [] 0 [] None None None None 0 0 []
  end.

#[export] Instance allocator_spec : AllocatorSpec allocator.
Proof.
  intros n block. unfold malloc, allocator. destruct (0 <=? n) eqn:E; [|done]. intros [= <-].
  rewrite length_replicate. split; [lia|]. by apply Forall_replicate.
Qed.

Lemma parser_scans t Ht : t <> [] -> R (SU := setup t Ht) (parser t) Scan.
Proof.
  intros Hne. assert (is_u16 20) as H20 by done. assert (is_u16 100) as H100 by done.
  destruct (sempBeginParser_returns 8 (Some "sample") (Some t) (Z.of_nat (length t))
    (Some (map (fun _ => "name") t)) (Z.of_nat (length t)) 20 100 (Some 1%nat) None None None)
    as (r & ev & Hr & Hp); [done|done|intros l [= <-]; by rewrite length_map|].
  unfold parser. rewrite Hr. destruct r as [p|].
  - destruct Hp as (_ & block & Hm & ->). cbn [default].
    exact (started_scans (SU := setup t Ht) 8 (or_intror eq_refl) "sample" _ None None 20 100 block
             H20 H100 eq_refl Hm).
  - exfalso. destruct Hp as [Hp|Hp].
    + apply Hp. split_and!; try done; try by eexists. destruct t; [done|]. cbn. lia.
    + vm_compute in Hp. done.
Qed.

(** A sentence, a u-blox frame, an RTCM frame and a custom frame. *)
Definition sentence : list Z :=
  nmea_sentence 0x24 [0x47; 0x50; 0x47; 0x47; 0x41] [0x31; 0x32; 0x2E; 0x35; 0x2C; 0x4E].
Definition ublox : list Z := ublox_frame 1 7 [1; 2; 3; 4].
Definition rtcm : list Z := rtcm_frame [0x3E; 0xD0; 0; 3; 0xFF].
Definition custom : list Z := custom_frame [20; 2; 0; 0; 0; 0; 0; 0; 0] [0; 0; 1; 0; 0; 0] [9; 8; 7].

(** Noise, the sentence, noise, and the three frames. *)
Definition traffic : list Z := [0; 1] ++ sentence ++ [0x55] ++ ublox ++ rtcm ++ custom.

Lemma traffic_bytes : bytes traffic.
Proof. apply bytesb_spec. vm_compute. reflexivity. Qed.

Lemma sentence_sent : sent (SU := safe_setup) 0 sentence.
Proof.
  apply sent_nmea; [by apply first_parser_intro|by split_and!; [|cbn; lia|repeat constructor]| | |done].
  - by repeat constructor.
  - by apply bytesb_spec.
Qed.

Lemma ublox_sent : sent (SU := safe_setup) 2 ublox.
Proof. by apply sent_ublox; [apply first_parser_intro|..]. Qed.

Lemma rtcm_sent : sent (SU := safe_setup) 1 rtcm.
Proof. by apply sent_rtcm; [apply first_parser_intro|..]. Qed.

Lemma custom_sent : sent (SU := safe_setup) 3 custom.
Proof. by apply sent_custom; [apply first_parser_intro|..]. Qed.

Lemma traffic_stream : stream (SU := safe_setup) traffic [(0, sentence); (2, ublox); (1, rtcm); (3, custom)].
Proof.
  unfold traffic.
  apply (stream_message (SU := safe_setup) [0; 1] 0 sentence); [by repeat constructor|apply sentence_sent|].
  apply (stream_message (SU := safe_setup) [0x55] 2 ublox); [by repeat constructor|apply ublox_sent|].
  apply (stream_message (SU := safe_setup) [] 1 rtcm); [constructor|apply rtcm_sent|].
  rewrite <-(app_nil_r custom).
  apply (stream_message (SU := safe_setup) [] 3 custom); [constructor|apply custom_sent|].
  apply stream_end. constructor.
Qed.

End Sample.

(* ------------------------------------------------------------------ *)
(** ** Refinement *)

Section guarantees.
  Context `{SU : Setup}.

(** C1: feeding a parser any bytes, one call of [sempParseNextByte] each, refines
    a run of the abstract machine from any state it represents: the calls are
    undefined exactly when the machine is and with the same kind of undefined
    behaviour, and otherwise the structure represents the machine's state and the end-of-message callback received exactly the
    machine's output. *)
Theorem parse_bytes_refines p st l :
  R p st -> bytes l -> refines (parse_bytes l) p (spec_run B table accepts st l).
Proof. apply parse_bytes_run. Qed.

(** ** Safety *)

(** C2: a parser table of NMEA, RTCM, u-blox and custom parsers is memory safe on
    every input: no call reads or writes outside the buffer, the scratch area or
    the parser table, calls a null callback or shifts a negative value, and the
    structure stays well formed. *)
Theorem parse_bytes_safe p l :
  forallb safe table = true -> R p Scan -> bytes l ->
  exists p' ev, parse_bytes l p = Ok (tt, p', ev) /\ wf p'.
Proof.
  intros Hsafe HR Hl. pose proof (parse_bytes_run Scan p l HR Hl) as Hrun.
  destruct (spec_run_defined Hsafe Scan l I Hl) as [[st out] E]. rewrite E in Hrun.
  destruct Hrun as ([] & p' & ev & Hp & [Hwf _] & _). by exists p', ev.
Qed.

(** ** Soundness *)

(** C3: without a [badCrc] callback, every message the end-of-message callback
    receives, on any input, is a message of the protocol at the index it is
    reported with, its length field and check included. *)
Theorem delivered_valid p l p' ev :
  bad = None -> R p Scan -> bytes l -> parse_bytes l p = Ok (tt, p', ev) ->
  Forall (fun im => exists i k, im.1 = Z.of_nat i /\ table !! i = Some k /\ valid_message k im.2)
    (delivered ev).
Proof.
  intros Hbad HR Hl Hp. pose proof (parse_bytes_run Scan p l HR Hl) as Hrun.
  destruct (spec_run B table accepts Scan l) as [[st out]|] eqn:E.
  - destruct Hrun as (a & q & ev' & Hq & _ & Hev). rewrite Hp in Hq. simplify_eq.
    destruct (spec_run_inv Scan l st _ I Hl E) as [_ Hs]. eapply Forall_impl; [exact Hs|].
    intros [i m] (j & k & Hi & Hk & [Hv|(raw & Ha & _)]); [by exists j, k|].
    pose proof accepts_spec as Hacc. rewrite Hbad in Hacc. by rewrite Hacc in Ha.
  - unfold refines in Hrun. congruence.
Qed.

(** ** Completeness *)

(** C4: a stream of NMEA sentences, RTCM frames with at least three bytes of data,
    u-blox frames, Unicore hash sentences and custom frames with a payload, each
    short enough for the buffer, back to back or with noise around them, is
    delivered completely and in order, each message with the index of its parser
    and all its bytes, and the parser is back in its scan.  Unicore binary frames
    are left out ([unicore_binary_undefined]), shorter RTCM frames and empty custom
    frames are lost ([rtcm_short_frame_lost], [custom_empty_frame_lost]). *)
Theorem stream_delivered p l out :
  R p Scan -> bytes l -> stream l out ->
  exists p' ev, parse_bytes l p = Ok (tt, p', ev) /\ delivered ev = out /\ R p' Scan.
Proof.
  intros HR Hl Hs. pose proof (parse_bytes_run Scan p l HR Hl) as Hrun.
  rewrite (stream_run l out Hs) in Hrun. destruct Hrun as ([] & p' & ev & Hp & HR' & Hev).
  by exists p', ev.
Qed.

(** ** Recovery *)

(** C5: for a table of NMEA, RTCM, u-blox and custom parsers: whatever the parser
    has been fed, more bytes than its buffer holds that start no message bring it
    back to its scan, and the next message of [sent] is delivered. *)
Theorem recovers_after_noise p l0 l i m :
  forallb safe table = true -> R p Scan -> bytes (l0 ++ l ++ m) ->
  noise l -> B < Z.of_nat (length l) -> sent i m ->
  exists p' ev out, parse_bytes (l0 ++ l ++ m) p = Ok (tt, p', ev) /\ R p' Scan /\
    delivered ev = out ++ [(Z.of_nat i, m)].
Proof.
  intros Hsafe HR Hb Hn HB Hm. pose proof (parse_bytes_run Scan p _ HR Hb) as Hrun.
  apply Forall_app in Hb as [Hb0 Hb]. apply Forall_app in Hb as [Hb _].
  destruct (spec_run_defined Hsafe Scan l0 I Hb0) as [[st0 out0] E0].
  destruct (spec_run_inv Scan l0 _ _ I Hb0 E0) as [Hi0 _].
  destruct (spec_run_defined Hsafe st0 l Hi0 Hb) as [[st1 out1] E1].
  rewrite (recovers _ _ _ _ Hi0 Hn HB E1) in E1.
  rewrite spec_run_app, E0, spec_run_app, E1, (sent_delivered i m Hm) in Hrun.
  destruct Hrun as ([] & p' & ev & Hp & HR' & Hev).
  exists p', ev, (out0 ++ out1). split_and!; [done|done|]. by rewrite Hev, app_assoc.
Qed.

End guarantees.

(* ------------------------------------------------------------------ *)
(** ** Start *)

Section start.
  Context `{SU : Setup} `{Alloc : Allocator} `{AS : !AllocatorSpec Alloc}.

(** C18: [sempBeginParser] with tables of the same length and an end-of-message
    callback returns a structure exactly when the name and the tables are not
    empty and the memory is available; the structure represents the scanning
    machine for the table and callbacks given and a buffer of at least 256 bytes,
    whatever the memory held. *)
Theorem sempBeginParser_starts ptr name names n len err dbg :
  ptr = 4 \/ ptr = 8 -> is_u16 n -> is_u16 len -> B = Z.max 256 len ->
  length names = length table ->
  exists r ev,
    sempBeginParser ptr (Some name) (Some table) (Z.of_nat (length table))
      (Some names) (Z.of_nat (length names)) n len (Some eom) err dbg bad tt = Ok (r, tt, ev) /\
    (is_Some r <-> name <> "" /\ table <> [] /\ is_Some (malloc (block_bytes ptr n len))) /\
    forall p, r = Some p -> R p Scan.
Proof.
  intros Hptr Hn Hlen HB Hnames.
  destruct (sempBeginParser_returns ptr (Some name) (Some table) (Z.of_nat (length table))
    (Some names) (Z.of_nat (length names)) n len (Some eom) err dbg bad) as (r & ev & Hr & Hp);
    [done|done|by intros l [= <-]|].
  exists r, ev. split; [done|]. destruct r as [p|].
  - destruct Hp as ((_ & _ & _ & _ & _ & Hne & Hcount) & block & Hm & ->). split.
    + split; [|by eexists]. intros _. split_and!; [congruence|by intros Ht; rewrite Ht in Hcount|].
      rewrite Hm. by eexists.
    + intros p [= <-]. exact (started_scans ptr Hptr name names err dbg n len block Hn Hlen HB Hm).
  - split; [|done]. split; [by intros [? ?]|]. intros (Hne & Ht & [block Hm]). exfalso.
    destruct Hp as [Hp|Hp]; [|congruence]. apply Hp. rewrite Hnames.
    split_and!; try done; (try by eexists).
    + congruence.
    + destruct table; [done|]. cbn. lia.
Qed.

End start.

(** C33: [sempBeginParser] rejects bad arguments whatever else it is given: with
    different counts, a null table, a null name table, no end-of-message
    callback, a null or empty name, or a count of zero it returns null. *)
Theorem sempBeginParser_rejects `{Alloc : Allocator} ptr name tbl count names namesCount n len
    eomCallback err dbg badCrc :
  is_u16 n -> is_u16 len -> (forall l, names = Some l -> Z.of_nat (length l) = namesCount) ->
  ~ arguments_ok name tbl count names namesCount eomCallback ->
  exists ev, sempBeginParser ptr name tbl count names namesCount n len eomCallback err dbg badCrc tt
             = Ok (None, tt, ev).
Proof.
  intros Hn Hlen Hnames Hargs.
  destruct (sempBeginParser_returns ptr name tbl count names namesCount n len eomCallback err dbg badCrc
    Hn Hlen Hnames) as ([p|] & ev & Hr & Hp); [|by exists ev]. by destruct Hp as [Hp _].
Qed.

(** The scratch area of a parser has at least 24 bytes, a multiple of eight,
    and at least the size asked for, except that requests of more than 65,528
    bytes wrap around to the minimum of 24. *)
Theorem scratch_area_size `{Alloc : Allocator} `{AS : !AllocatorSpec Alloc} ptr dbg n len :
  is_u16 n -> is_u16 len ->
  exists r ev, sempAllocateParseStructure ptr dbg n len tt = Ok (r, tt, ev) /\
    forall a, r = Some a ->
      let size := Z.of_nat (length (alloc_scratchPad a)) in
      size mod 8 = 0 /\ 24 <= size /\ (n <= 65528 -> n <= size) /\ (65528 < n -> size = 24).
Proof.
  intros Hn Hlen. destruct (sempAllocateParseStructure_returns ptr dbg n len Hn Hlen)
    as (r & ev & Hr & Hp). exists r, ev. split; [done|]. intros a ->.
  destruct (malloc _); [|done]. injection Hp as ->. cbn [alloc_scratchPad]. cbn zeta.
  rewrite length_replicate. unfold scratch_bytes, u16, is_u16 in *. split_and!; mlia.
Qed.

(* ------------------------------------------------------------------ *)
(** ** Defects *)

Section defects.
  Context `{SU : Setup}.


(** A parser whose table leads the byte 0xAA to the Unicore binary parser is
    undefined as soon as it meets that byte: the routine that computes the check
    has no return statement. *)
Theorem unicore_binary_undefined p i l :
  R p Scan -> first_parser i fn_sempUnicoreBinaryPreamble 0xAA -> bytes l ->
  parse_bytes (0xAA :: l) p = Ub MissingReturn.
Proof.
  intros HR Hi Hl. pose proof (parse_bytes_run Scan p (0xAA :: l) HR ltac:(by constructor)) as Hrun.
  cbn [spec_run spec_step] in Hrun. by rewrite (first_parser_scan i _ _ _ Hi) in Hrun.
Qed.

(** A correct RTCM frame with less than three bytes of data is not
    delivered, and neither is anything that follows it until the buffer is full,
    complete messages included. *)
Theorem rtcm_short_frame_lost p i payload l :
  R p Scan -> first_parser i fn_sempRtcmPreamble 0xd3 -> Z.of_nat (length payload) < 3 ->
  bytes (rtcm_frame payload ++ l) -> Z.of_nat (length (rtcm_frame payload ++ l)) <= B ->
  exists p' ev, parse_bytes (rtcm_frame payload ++ l) p = Ok (tt, p', ev) /\ delivered ev = [].
Proof.
  intros HR Hi Hn Hb HB. pose proof (parse_bytes_run Scan p _ HR Hb) as Hrun.
  rewrite (rtcm_short_stuck i payload l) in Hrun by done.
  destruct Hrun as ([] & p' & ev & Hp & _ & Hev). by exists p', ev.
Qed.

(** A correct custom frame without payload is not delivered, and neither is
    anything that follows it until the buffer is full. *)
Theorem custom_empty_frame_lost p i a c l :
  R p Scan -> first_parser i fn_sempCustomPreamble 0xAA -> length a = 9%nat -> length c = 6%nat ->
  bytes (custom_frame a c [] ++ l) -> Z.of_nat (length (custom_frame a c [] ++ l)) <= B ->
  exists p' ev, parse_bytes (custom_frame a c [] ++ l) p = Ok (tt, p', ev) /\ delivered ev = [].
Proof.
  intros HR Hi Ha Hc Hb HB. pose proof (parse_bytes_run Scan p _ HR Hb) as Hrun.
  rewrite (custom_empty_stuck i a c l) in Hrun by done.
  destruct Hrun as ([] & p' & ev & Hp & _ & Hev). by exists p', ev.
Qed.

End defects.

(** The conversion of a hexadecimal digit accepts the digits of both cases
    and, because it sets bit 5 first, also the control characters 0x10 to 0x19;
    it rejects every other byte. *)
Theorem semp_util_asciiToNibble_accepts b :
  is_u8 b ->
  semp_util_asciiToNibble b =
    (if (0x30 <=? b) && (b <=? 0x39) then b - 0x30
     else if (0x41 <=? b) && (b <=? 0x46) then b - 0x41 + 10
     else if (0x61 <=? b) && (b <=? 0x66) then b - 0x61 + 10
     else if (0x10 <=? b) && (b <=? 0x19) then b - 0x10
     else -1).
Proof.
  intros Hb. apply Z.eqb_eq. revert b Hb. by apply (Sentences.byte_cases (fun b =>
    semp_util_asciiToNibble b =? (if (0x30 <=? b) && (b <=? 0x39) then b - 0x30
     else if (0x41 <=? b) && (b <=? 0x46) then b - 0x41 + 10
     else if (0x61 <=? b) && (b <=? 0x66) then b - 0x61 + 10
     else if (0x10 <=? b) && (b <=? 0x19) then b - 0x10
     else -1))).
Qed.

(* ------------------------------------------------------------------ *)
(** ** The theorems on the sample *)

Section witnesses.
Import Sample.

Lemma parse_bytes_refines_witness :
  refines (SU := safe_setup) (parse_bytes traffic) (parser safe_table)
    (Ok (Scan, [(0, sentence); (2, ublox); (1, rtcm); (3, custom)])).
Proof.
  replace (Ok (Scan, [(0, sentence); (2, ublox); (1, rtcm); (3, custom)]))
    with (spec_run 256 safe_table (fun _ _ => false) Scan traffic) by (vm_compute; reflexivity).
  apply (parse_bytes_refines (SU := safe_setup) (parser safe_table) Scan traffic).
  - by apply parser_scans.
  - apply traffic_bytes.
Defined.

Lemma parse_bytes_safe_witness :
  exists p' ev, parse_bytes (traffic ++ [0x24; 0xb5; 0xd3; 0xAA]) (parser safe_table) = Ok (tt, p', ev) /\
                wf (SU := safe_setup) p'.
Proof.
  apply (parse_bytes_safe (SU := safe_setup)).
  - reflexivity.
  - by apply parser_scans.
  - apply bytesb_spec. vm_compute. reflexivity.
Defined.

(** What the callback received: the messages of the traffic. *)
Definition sample_events : list Event :=
  match parse_bytes traffic (parser safe_table) with Ok (_, _, ev) => ev | Ub _ => [] end.
Definition sample_after : SEMP_PARSE_STATE :=
  match parse_bytes traffic (parser safe_table) with Ok (_, p, _) => p | Ub _ => parser [] end.

Lemma delivered_valid_witness :
  length (delivered sample_events) = 4%nat /\
  Forall (fun im => exists i k, im.1 = Z.of_nat i /\ safe_table !! i = Some k /\ valid_message k im.2)
    (delivered sample_events).
Proof.
  split; [vm_compute; reflexivity|].
  apply (delivered_valid (SU := safe_setup) (parser safe_table) traffic sample_after).
  - reflexivity.
  - by apply parser_scans.
  - apply traffic_bytes.
  - vm_compute. reflexivity.
Defined.

Lemma stream_delivered_witness :
  exists p' ev, parse_bytes traffic (parser safe_table) = Ok (tt, p', ev) /\
    delivered ev = [(0, sentence); (2, ublox); (1, rtcm); (3, custom)] /\ R (SU := safe_setup) p' Scan.
Proof.
  apply (stream_delivered (SU := safe_setup)).
  - by apply parser_scans.
  - apply traffic_bytes.
  - apply traffic_stream.
Defined.

Lemma recovers_after_noise_witness :
  exists p' ev out,
    parse_bytes ([0xAA; 0x44; 0x18] ++ replicate 257 0 ++ ublox) (parser safe_table) = Ok (tt, p', ev) /\
    R (SU := safe_setup) p' Scan /\ delivered ev = out ++ [(2, ublox)].
Proof.
  apply (recovers_after_noise (SU := safe_setup) (parser safe_table) [0xAA; 0x44; 0x18]
    (replicate 257 0) 2 ublox).
  - reflexivity.
  - by apply parser_scans.
  - apply bytesb_spec. vm_compute. reflexivity.
  - by apply Forall_replicate.
  - reflexivity.
  - apply ublox_sent.
Defined.

Lemma sempBeginParser_starts_witness :
  exists r ev,
    sempBeginParser 8 (Some "sample") (Some safe_table) 4 (Some ["a"; "b"; "c"; "d"]) 4 20 100
      (Some 1%nat) None None None tt = Ok (r, tt, ev) /\
    (is_Some r <-> "sample" <> "" /\ safe_table <> [] /\ is_Some (malloc (block_bytes 8 20 100))) /\
    forall p, r = Some p -> R (SU := safe_setup) p Scan.
Proof.
  apply (sempBeginParser_starts (SU := safe_setup) 8 "sample" ["a"; "b"; "c"; "d"] 20 100 None None).
  - by right.
  - done.
  - done.
  - reflexivity.
  - reflexivity.
Defined.

Lemma sempBeginParser_rejects_witness :
  exists ev, sempBeginParser 8 (Some "") (Some safe_table) 4 None 4 20 100 (Some 1%nat) None None None tt
             = Ok (None, tt, ev).
Proof.
  apply sempBeginParser_rejects.
  - done.
  - done.
  - done.
  - intros (_ & _ & [? [=]] & _).
Defined.

Lemma scratch_area_size_witness :
  exists r ev, sempAllocateParseStructure 8 None 65530 0 tt = Ok (r, tt, ev) /\
    forall a, r = Some a ->
      let size := Z.of_nat (length (alloc_scratchPad a)) in
      size mod 8 = 0 /\ 24 <= size /\ (65530 <= 65528 -> 65530 <= size) /\ (65528 < 65530 -> size = 24).
Proof. by apply scratch_area_size. Defined.


Lemma unicore_binary_undefined_witness :
  parse_bytes [0xAA; 0x44; 0xB5] (parser unicore_table) = Ub MissingReturn.
Proof.
  apply (unicore_binary_undefined (SU := unicore_setup) (parser unicore_table) 0).
  - by apply parser_scans.
  - by apply first_parser_intro.
  - by apply bytesb_spec.
Defined.

Lemma rtcm_short_frame_lost_witness :
  exists p' ev, parse_bytes (rtcm_frame [1; 2] ++ ublox ++ sentence) (parser safe_table) = Ok (tt, p', ev) /\
                delivered ev = [].
Proof.
  apply (rtcm_short_frame_lost (SU := safe_setup) (parser safe_table) 1).
  - by apply parser_scans.
  - by apply first_parser_intro.
  - reflexivity.
  - apply bytesb_spec. vm_compute. reflexivity.
  - apply Z.leb_le. vm_compute. reflexivity.
Defined.

Lemma custom_empty_frame_lost_witness :
  exists p' ev,
    parse_bytes (custom_frame [20; 2; 0; 0; 0; 0; 0; 0; 0] [0; 0; 1; 0; 0; 0] [] ++ custom)
      (parser safe_table) = Ok (tt, p', ev) /\ delivered ev = [].
Proof.
  apply (custom_empty_frame_lost (SU := safe_setup) (parser safe_table) 3).
  - by apply parser_scans.
  - by apply first_parser_intro.
  - reflexivity.
  - reflexivity.
  - apply bytesb_spec. vm_compute. reflexivity.
  - apply Z.leb_le. vm_compute. reflexivity.
Defined.

Lemma semp_util_asciiToNibble_accepts_witness : semp_util_asciiToNibble 0x15 = 5.
Proof. apply (semp_util_asciiToNibble_accepts 0x15). done. Defined.

End witnesses.
