(* ===== verification/CheckTheorems.v ===== *)
(** * The cyclic redundancy checks

    The table-driven checks of the parsers are the bit-level checks of [Crc], and
    detect every short burst of errors. *)
From S2P Require Import Prelude Crc ParseState FrameSpec.

(** ** Injectivity *)

Lemma crc32_iter_inj n x y :
  is_u32 x -> is_u32 y -> Nat.iter n crc32_bit x = Nat.iter n crc32_bit y -> x = y.
Proof.
  intros Hx Hy H. apply Z.lxor_eq. apply (crc32_iter_zero n); [by apply lxor_u32|].
  by rewrite crc32_iter_lxor, H, Z.lxor_nilpotent.
Qed.

Lemma crc32_run_inj l c c' :
  is_u32 c -> is_u32 c' -> bytes l -> crc32_run c l = crc32_run c' l -> c = c'.
Proof.
  intros Hc Hc' Hl. revert c c' Hc Hc'. induction Hl as [|b l Hb Hl IH]; intros c c' Hc Hc' H; [done|].
  change (crc32_run (crc32_update c b) l = crc32_run (crc32_update c' b) l) in H.
  apply IH in H; [|auto with width|auto with width]. rewrite !crc32_update_ref in H by done.
  apply crc32_iter_inj in H; [|auto with width|auto with width].
  apply (f_equal (fun v => Z.lxor v b)) in H. by rewrite !Z.lxor_assoc, Z.lxor_nilpotent, !Z.lxor_0_r in H.
Qed.

Lemma crc32_run_short_inj c x y :
  is_u32 c -> bytes x -> bytes y -> length x = length y -> (length x <= 4)%nat ->
  crc32_run c x = crc32_run c y -> x = y.
Proof.
  intros Hc Hx Hy Hl H4 H. rewrite !crc32_run_combine, <-Hl in H by done.
  assert (forall l, bytes l -> (length l <= 4)%nat -> is_u32 (le_combine l)) as Hr.
  { intros l Hb Hle. pose proof (le_combine_range l Hb). unfold is_u32.
    assert (256 ^ Z.of_nat (length l) <= 256 ^ 4) by (apply Z.pow_le_mono_r; lia). change (256 ^ 4) with 0x100000000 in *. lia. }
  apply crc32_iter_inj in H; [|apply lxor_u32; [done|auto]|apply lxor_u32; [done|apply Hr; [done|lia]]].
  apply (f_equal (Z.lxor c)) in H. rewrite <-!Z.lxor_assoc, Z.lxor_nilpotent, !Z.lxor_0_l in H.
  rewrite <-(le_split_combine x), <-(le_split_combine y) by done. by rewrite H, Hl.
Qed.

Lemma crc24q_byte_inj x y : is_u24 x -> is_u24 y -> crc24q_byte x = crc24q_byte y -> x = y.
Proof.
  intros Hx Hy H. apply Z.lxor_eq. apply (crc24q_iter_zero 8); [by apply (lxor_range x y 24)|].
  change (crc24q_byte (Z.lxor x y) = 0). by rewrite crc24q_byte_lxor, H, Z.lxor_nilpotent.
Qed.

Lemma shifted_u24 b : is_u8 b -> is_u24 (Z.shiftl b 16).
Proof. unfold is_u8, is_u24. rewrite Z.shiftl_mul_pow2 by lia. lia. Qed.

Lemma crc24q_update_inj c c' b b' :
  is_u24 c -> is_u24 c' -> is_u8 b -> is_u8 b' -> crc24q_update c b = crc24q_update c' b' ->
  Z.lxor c (Z.shiftl b 16) = Z.lxor c' (Z.shiftl b' 16).
Proof.
  intros Hc Hc' Hb Hb' H. rewrite !crc24q_update_ref in H by done. apply crc24q_byte_inj in H; [done|..];
    by apply (lxor_range _ _ 24); [..|apply shifted_u24].
Qed.

Lemma crc24q_run_inj l c c' :
  is_u24 c -> is_u24 c' -> bytes l -> crc24q_run c l = crc24q_run c' l -> c = c'.
Proof.
  intros Hc Hc' Hl. revert c c' Hc Hc'. induction Hl as [|b l Hb Hl IH]; intros c c' Hc Hc' H; [done|].
  change (crc24q_run (crc24q_update c b) l = crc24q_run (crc24q_update c' b) l) in H.
  apply IH in H; [|apply crc24q_update_range|apply crc24q_update_range]. apply crc24q_update_inj in H; [|done..].
  apply (f_equal (fun v => Z.lxor v (Z.shiftl b 16))) in H.
  by rewrite !Z.lxor_assoc, Z.lxor_nilpotent, !Z.lxor_0_r in H.
Qed.

(** ** Properties *)

(** C30: The table-driven CRC-32 and CRC-24Q registers of the parsers are, after
    any bytes, the registers of the bit-by-bit definitions of the two codes. *)
Theorem checks_match_references c d l :
  is_u32 c -> is_u24 d -> bytes l -> crc32_run c l = crc32_ref c l /\ crc24q_run d l = crc24q_ref d l.
Proof. intros Hc Hd Hl. split; [by apply crc32_run_ref|by apply crc24q_run_ref]. Qed.

(** The CRC-32 of the parsers detects every burst of errors of up to four
    bytes: messages that differ only within four neighbouring bytes have
    different checks. *)
Theorem crc32_detects_bursts c before x y after :
  is_u32 c -> bytes before -> bytes x -> bytes y -> bytes after ->
  length x = length y -> (length x <= 4)%nat -> x <> y ->
  crc32_run c (before ++ x ++ after) <> crc32_run c (before ++ y ++ after).
Proof.
  intros Hc Hb Hx Hy Ha Hl H4 Hne H. rewrite !crc32_run_app in H.
  apply crc32_run_inj in H; [|by repeat apply crc32_run_range..|done].
  apply Hne. by eapply crc32_run_short_inj; [..|exact H]; [apply crc32_run_range|..].
Qed.

(** The CRC-24Q of the RTCM parser detects every change of a single byte. *)
Theorem crc24q_detects_changes c before x y after :
  is_u24 c -> bytes before -> is_u8 x -> is_u8 y -> bytes after -> x <> y ->
  crc24q_run c (before ++ x :: after) <> crc24q_run c (before ++ y :: after).
Proof.
  intros Hc Hb Hx Hy Ha Hne H. rewrite !crc24q_run_app in H.
  change (crc24q_run (crc24q_update (crc24q_run c before) x) after =
          crc24q_run (crc24q_update (crc24q_run c before) y) after) in H.
  apply crc24q_run_inj in H; [|apply crc24q_update_range|apply crc24q_update_range|done].
  pose proof (crc24q_run_range c before Hc) as Hr. apply crc24q_update_inj in H; [|done..].
  apply (f_equal (Z.lxor (crc24q_run c before))) in H.
  rewrite <-!Z.lxor_assoc, Z.lxor_nilpotent, !Z.lxor_0_l, !Z.shiftl_mul_pow2 in H by lia. lia.
Qed.

(** ** Examples *)

Lemma checks_match_references_witness :
  crc32_run 0xFFFFFFFF [0x31; 0x32] = crc32_ref 0xFFFFFFFF [0x31; 0x32] /\
  crc24q_run 0 [0x31; 0x32] = crc24q_ref 0 [0x31; 0x32].
Proof. apply checks_match_references; [done|done|by apply bytesb_spec]. Defined.

Lemma crc32_detects_bursts_witness :
  crc32_run 0 ([1] ++ [2; 3] ++ [4]) <> crc32_run 0 ([1] ++ [5; 3] ++ [4]).
Proof.
  apply crc32_detects_bursts; try (by apply bytesb_spec); [done|done|cbn; lia|discriminate].
Defined.

Lemma crc24q_detects_changes_witness :
  crc24q_run 0 ([0xD3] ++ 2 :: [4]) <> crc24q_run 0 ([0xD3] ++ 5 :: [4]).
Proof.
  apply crc24q_detects_changes; try (by apply bytesb_spec); [done|done|done|discriminate].
Defined.
