(* ===== verification/Utilities.v ===== *)
(** * The utilities of the framework

    [semp_util_hexToString], [semp_util_calculateChecksum] and
    [semp_util_parse_delimited_fields] of [src/my_parser/Message_Parser.c].
    Character arrays are lists of byte values; a null pointer is [None]. *)
From S2P Require Import Prelude ParseState FrameSpec Messages.

(* ------------------------------------------------------------------ *)
(** ** Hexadecimal text *)

(** The characters of [snprintf] for the format of two hexadecimal digits and a space. *)
Definition hex_text (d : Z) : list Z := hex_digits 2 d ++ [0x20].

(** Writes the bytes [v] from index [i] on. *)
Fixpoint store_all (l : list Z) (i : Z) (v : list Z) : res (list Z) :=
  match v with
  | [] => Ok l
  | b :: v => res_bind (store l i b) (fun l => store_all l (i + 1) v)
  end.

(** [snprintf(output + pos, n, ...)] of [hex_text d]: at most [n - 1] characters
    and a terminator; returns the length of the whole text. *)
Definition snprintf_hex (output : list Z) (pos n d : Z) : res (list Z * Z) :=
  let text := hex_text d in
  let written := if n =? 0 then [] else take (Z.to_nat (n - 1)) text ++ [0] in
  res_bind (store_all output pos written) (fun output => Ok (output, Z.of_nat (length text))).

(** The loop from index [i] on, with [fuel] = [length - i] turns left. *)
Fixpoint hexToString_loop (fuel : nat) (data output : list Z) (i pos outputSize : Z)
    : res (list Z * Z) :=
  match fuel with
  | O => Ok (output, pos)
  | S fuel =>
      if pos <? outputSize - 3 then
        res_bind (load data i) (fun d =>
        res_bind (snprintf_hex output pos (outputSize - pos) d) (fun r =>
        hexToString_loop fuel data r.1 (i + 1) (pos + r.2) outputSize))
      else Ok (output, pos)
  end.

(** [semp_util_hexToString(data, length, output, outputSize)]: the value
    returned and the output array after the call. *)
Definition semp_util_hexToString (data : option (list Z)) (length : Z) (output : option (list Z))
    (outputSize : Z) : res (Z * option (list Z)) :=
  match data, output with
  | Some data, Some out =>
      if outputSize <? 3 then Ok (0, output)
      else
        res_bind (hexToString_loop (Z.to_nat length) data out 0 0 outputSize) (fun r =>
        let '(out, pos) := r in
        if 0 <? pos then
          res_bind (load out (pos - 1)) (fun c =>
          if c =? 0x20 then
            res_bind (store out (pos - 1) 0) (fun out => Ok (pos - 1, Some out))
          else Ok (pos, Some out))
        else Ok (pos, Some out))
  | _, _ => Ok (0, output)
  end.

(* ------------------------------------------------------------------ *)
(** ** Checksum *)

Fixpoint checksum_loop (fuel : nat) (data : list Z) (i checksum : Z) : res Z :=
  match fuel with
  | O => Ok checksum
  | S fuel => res_bind (load data i) (fun d => checksum_loop fuel data (i + 1) (Z.lxor checksum d))
  end.

(** [semp_util_calculateChecksum(data, length)] *)
Definition semp_util_calculateChecksum (data : list Z) (length : Z) : res Z :=
  checksum_loop (Z.to_nat length) data 0 0.

(* ------------------------------------------------------------------ *)
(** ** Delimited fields *)

(** [fields[i][j] = v] for rows of [fieldSize] characters. *)
Definition field_set (fieldSize : Z) (fields : list Z) (i j v : Z) : res (list Z) :=
  store fields (i * fieldSize + j) v.

(** The [while] loop at the character [p] points to, the head of [p]. *)
Fixpoint delimited_loop (p fields : list Z) (fieldCount fieldPos maxFields fieldSize delimiter terminator : Z)
    : res (list Z * Z * Z) :=
  match p with
  | [] => Ub OutOfBounds
  | c :: p =>
      if negb (c =? 0) && negb (c =? terminator) && (fieldCount <? maxFields) then
        if c =? delimiter then
          res_bind (field_set fieldSize fields fieldCount fieldPos 0) (fun fields =>
          let fieldCount := fieldCount + 1 in
          if fieldCount <? maxFields then
            res_bind (field_set fieldSize fields fieldCount 0 0) (fun fields =>
            delimited_loop p fields fieldCount 0 maxFields fieldSize delimiter terminator)
          else delimited_loop p fields fieldCount fieldPos maxFields fieldSize delimiter terminator)
        else if fieldPos <? fieldSize - 1 then
          res_bind (field_set fieldSize fields fieldCount fieldPos c) (fun fields =>
          delimited_loop p fields fieldCount (fieldPos + 1) maxFields fieldSize delimiter terminator)
        else delimited_loop p fields fieldCount fieldPos maxFields fieldSize delimiter terminator
      else Ok (fields, fieldCount, fieldPos)
  end.

(** [*p < 32] for a signed or unsigned [char] *)
Definition below_32 (char_signed : bool) (c : Z) : bool :=
  (c <? 32) || (char_signed && (128 <=? c)).

(** [semp_util_parse_delimited_fields(...)]: the value returned and the fields
    after the call.  [sentence] includes its terminating zero. *)
Definition semp_util_parse_delimited_fields (char_signed : bool) (sentence : option (list Z))
    (fields : option (list Z)) (maxFields fieldSize delimiter terminator : Z)
    : res (Z * option (list Z)) :=
  match sentence, fields with
  | Some p, Some fields =>
      if maxFields <=? 0 then Ok (0, Some fields)
      else
        res_bind (load p 0) (fun c =>
        let p := if below_32 char_signed c then tail p else p in
        res_bind (field_set fieldSize fields 0 0 0) (fun fields =>
        res_bind (delimited_loop p fields 0 0 maxFields fieldSize delimiter terminator) (fun r =>
        let '(fields, fieldCount, fieldPos) := r in
        if 0 <? fieldPos then
          res_bind (field_set fieldSize fields fieldCount fieldPos 0) (fun fields =>
          Ok (fieldCount + 1, Some fields))
        else Ok (fieldCount, Some fields))))
  | _, _ => Ok (0, fields)
  end.
