(* ===== verification/UtilityTheorems.v ===== *)
(** * What the utilities compute *)
From S2P Require Import Prelude ParseState FrameSpec Messages Utilities.

(* ------------------------------------------------------------------ *)
(** ** Hexadecimal text *)

Lemma length_hex_text d : length (hex_text d) = 3%nat.
Proof. done. Qed.

Lemma store_all_ok v l i :
  0 <= i -> i + Z.of_nat (length v) <= Z.of_nat (length l) ->
  store_all l i v = Ok (take (Z.to_nat i) l ++ v ++ drop (Z.to_nat i + length v) l).
Proof.
  revert l i. induction v as [|b v IH]; intros l i Hi Hl; cbn [store_all length] in *.
  - cbn [app]. by rewrite Nat.add_0_r, take_drop.
  - rewrite store_ok by lia. cbn [res_bind]. rewrite IH by (rewrite ?length_insert; lia).
    replace (Z.to_nat (i + 1)) with (S (Z.to_nat i)) by lia.
    rewrite take_store, <-app_assoc by lia. rewrite drop_insert_lt by lia.
    cbn [app]. do 5 f_equal. lia.
Qed.

(** The text of the bytes [l], a space after each. *)
Definition spaced_hex (l : list Z) : list Z := concat (map hex_text l).

Lemma spaced_hex_app l d : spaced_hex (l ++ [d]) = spaced_hex l ++ hex_text d.
Proof. unfold spaced_hex. rewrite map_app, concat_app. cbn [map concat]. by rewrite app_nil_r. Qed.

Lemma length_spaced_hex l : length (spaced_hex l) = (3 * length l)%nat.
Proof.
  induction l as [|d l IH] using rev_ind; [done|].
  rewrite spaced_hex_app, !length_app, IH, length_hex_text. cbn. lia.
Qed.

(** The state of the loop after the bytes [l]: the text and a terminator. *)
Lemma hexToString_loop_ok fuel data output i outputSize :
  Z.of_nat (length output) = outputSize -> 3 <= outputSize ->
  (i + fuel <= length data)%nat -> take (3 * i) output = spaced_hex (take i data) ->
  (3 * Z.of_nat i <= outputSize - 1) -> ((0 < i)%nat -> output !! (3 * i)%nat = Some 0) ->
  let n := Nat.min (i + fuel) (Nat.max i (Z.to_nat ((outputSize - 1) / 3))) in
  exists out, hexToString_loop fuel data output (Z.of_nat i) (3 * Z.of_nat i) outputSize
              = Ok (out, 3 * Z.of_nat n) /\
    Z.of_nat (length out) = outputSize /\ take (3 * n) out = spaced_hex (take n data) /\
    (3 * Z.of_nat n <= outputSize - 1) /\ ((0 < n)%nat -> out !! (3 * n)%nat = Some 0).
Proof.
  revert output i. induction fuel as [|fuel IH]; intros output i Hlen Hs Hi Htake Hfit Hz n.
  - exists output. assert (n = i) as -> by (unfold n; lia). done.
  - cbn [hexToString_loop]. destruct (3 * Z.of_nat i <? outputSize - 3) eqn:E.
    + destruct (lookup_lt_is_Some_2 data i) as [d Hd]; [lia|].
      rewrite (load_ok data i d Hd). cbn [res_bind]. unfold snprintf_hex.
      destruct (outputSize - 3 * Z.of_nat i =? 0) eqn:E0; [lia|].
      rewrite (take_ge (hex_text d)) by (rewrite length_hex_text; lia).
      rewrite store_all_ok by (rewrite ?length_app, ?length_hex_text; cbn; lia). cbn [res_bind fst snd].
      rewrite length_hex_text. replace (Z.to_nat (3 * Z.of_nat i)) with (3 * i)%nat by lia.
      rewrite Htake. replace (Z.of_nat i + 1) with (Z.of_nat (S i)) by lia.
      replace (3 * Z.of_nat i + Z.of_nat 3) with (3 * Z.of_nat (S i)) by lia.
      assert (take (S i) data = take i data ++ [d]) as Hti by by apply take_S_r.
      assert (length (spaced_hex (take i data)) = 3 * i)%nat as Hsi
        by (rewrite length_spaced_hex, length_take; lia).
      set (out' := spaced_hex (take i data) ++ (hex_text d ++ [0]) ++ drop (3 * i + length (hex_text d ++ [0])) output).
      assert (out' = spaced_hex (take (S i) data) ++ 0 :: drop (3 * i + length (hex_text d ++ [0])) output) as Hout'.
      { unfold out'. by rewrite Hti, spaced_hex_app, <-!app_assoc. }
      assert (length (spaced_hex (take (S i) data)) = 3 * S i)%nat as Hsi'
        by (rewrite length_spaced_hex, length_take; lia).
      destruct (IH out' (S i)) as (out & Hloop & Hrest).
      * rewrite Hout', length_app, Hsi'. cbn [length]. rewrite length_drop, length_app, length_hex_text. cbn [length]. lia.
      * lia.
      * lia.
      * rewrite Hout'. by rewrite take_app_length' by lia.
      * lia.
      * intros _. rewrite Hout', lookup_app_r by lia. by rewrite Hsi', Nat.sub_diag.
      * exists out. rewrite Hloop. replace n with (Nat.min (S i + fuel) (Nat.max (S i) (Z.to_nat ((outputSize - 1) / 3)))); [done|].
        unfold n. mlia.
    + exists output. assert (n = i) as -> by (unfold n; mlia). done.
Qed.

(** The text of bytes, separated by spaces. *)
Fixpoint joined_hex (l : list Z) : list Z :=
  match l with
  | [] => []
  | [d] => hex_digits 2 d
  | d :: l => hex_digits 2 d ++ 0x20 :: joined_hex l
  end.

Lemma spaced_joined l : l <> [] -> spaced_hex l = joined_hex l ++ [0x20].
Proof.
  induction l as [|d [|d' l] IH]; intros Hl; [done|done|].
  change (spaced_hex (d :: d' :: l)) with (hex_text d ++ spaced_hex (d' :: l)).
  rewrite IH by done. change (joined_hex (d :: d' :: l)) with (hex_digits 2 d ++ 0x20 :: joined_hex (d' :: l)).
  unfold hex_text. by rewrite <-!app_assoc.
Qed.

Lemma hex_digits_nonzero d : is_u8 d -> Forall (fun c => c <> 0) (hex_digits 2 d).
Proof.
  intros Hd. unfold is_u8 in Hd. cbn. unfold hex_digit.
  repeat constructor; case_match; mlia.
Qed.

Lemma joined_hex_nonzero l : bytes l -> Forall (fun c => c <> 0) (joined_hex l).
Proof.
  induction 1 as [|d l Hd Hl IH]; [constructor|]. destruct l as [|d' l]; [by apply hex_digits_nonzero|].
  change (joined_hex (d :: d' :: l)) with (hex_digits 2 d ++ 0x20 :: joined_hex (d' :: l)).
  apply Forall_app. split; [by apply hex_digits_nonzero|]. by constructor.
Qed.

Lemma c_string_app s l : Forall (fun c => c <> 0) s -> c_string (s ++ 0 :: l) = Ok s.
Proof.
  induction 1 as [|c s Hc Hs IH]; [done|]. cbn. destruct (Z.eqb_spec c 0); [done|]. by rewrite IH.
Qed.

(** [semp_util_hexToString] writes the bytes as pairs of upper-case digits
    separated by single spaces, as many as fit, always terminated and inside the
    output array, and returns the length of the text. *)
Theorem semp_util_hexToString_text data n output :
  bytes data -> 0 < n <= Z.of_nat (length data) -> 4 <= Z.of_nat (length output) < 65536 ->
  let k := Z.min n ((Z.of_nat (length output) - 1) / 3) in
  let text := joined_hex (take (Z.to_nat k) data) in
  exists out,
    semp_util_hexToString (Some data) n (Some output) (Z.of_nat (length output))
      = Ok (Z.of_nat (length text), Some out) /\
    c_string out = Ok text /\ length out = length output.
Proof.
  intros Hb Hn Hout k text.
  destruct (hexToString_loop_ok (Z.to_nat n) data output 0 (Z.of_nat (length output)))
    as (out & Hloop & Hlen & Htake & Hfit & Hz); [done|lia|lia|by rewrite take_0|lia|lia|].
  set (j := Nat.min _ _) in *. assert (j = Z.to_nat k) as Hj by (unfold j, k; mlia).
  assert (0 < j)%nat as Hj0 by (unfold k in Hj; mlia). clearbody j.
  specialize (Hz Hj0). set (l := take j data) in *.
  assert (text = joined_hex l) as Ht by (unfold text, l; by rewrite Hj).
  assert (length l = j) as Hl by (unfold l; rewrite length_take; mlia).
  rewrite spaced_joined in Htake by (intros H; rewrite H in Hl; cbn in Hl; lia).
  assert (Z.of_nat (length text) = 3 * Z.of_nat j - 1) as Hlt.
  { apply (f_equal length) in Htake. rewrite length_take, length_app, <-Ht in Htake. cbn in Htake. lia. }
  assert (out = joined_hex l ++ 0x20 :: 0 :: drop (3 * j + 1) out) as Hsplit.
  { rewrite <-(take_drop (3 * j) out) at 1. rewrite Htake, <-app_assoc. cbn [app]. do 2 f_equal.
    rewrite (drop_S out 0 (3 * j)) by done. f_equal. f_equal. lia. }
  exists (joined_hex l ++ 0 :: 0 :: drop (3 * j + 1) out). split_and!.
  - unfold semp_util_hexToString. destruct (_ <? 3) eqn:E; [lia|]. change (Z.of_nat 0) with 0 in Hloop.
    change (3 * 0) with 0 in Hloop. rewrite Hloop, Ht. rewrite Ht in Hlt. cbn [res_bind].
    destruct (0 <? 3 * Z.of_nat j) eqn:E1; [|lia]. rewrite <-Hlt.
    rewrite (load_ok out (length (joined_hex l)) 0x20) by (rewrite Hsplit; by apply list_lookup_middle).
    cbn [res_bind Z.eqb Pos.eqb]. rewrite store_ok by lia. cbn [res_bind]. rewrite Nat2Z.id. do 3 f_equal.
    rewrite Hsplit at 1. rewrite insert_app_r_alt by lia. by rewrite Nat.sub_diag.
  - rewrite Ht. apply c_string_app. apply joined_hex_nonzero, Forall_take, Hb.
  - rewrite Hsplit in Hlen. rewrite length_app in *. cbn [length] in *. lia.
Qed.

(* ------------------------------------------------------------------ *)
(** ** Checksum *)

Lemma checksum_loop_ok fuel data i c :
  (i + fuel <= length data)%nat ->
  checksum_loop fuel data (Z.of_nat i) c = Ok (foldl Z.lxor c (take fuel (drop i data))).
Proof.
  revert i c. induction fuel as [|fuel IH]; intros i c Hi; cbn [checksum_loop]; [done|].
  destruct (lookup_lt_is_Some_2 data i) as [d Hd]; [lia|]. rewrite (load_ok _ _ _ Hd). cbn [res_bind].
  replace (Z.of_nat i + 1) with (Z.of_nat (S i)) by lia. rewrite IH by lia.
  by rewrite (drop_S data d i Hd).
Qed.

(** [semp_util_calculateChecksum] is the exclusive or of the bytes, the
    checksum of an NMEA sentence over its content. *)
Theorem semp_util_calculateChecksum_xor data n :
  0 <= n <= Z.of_nat (length data) ->
  semp_util_calculateChecksum data n = Ok (xor_all (take (Z.to_nat n) data)).
Proof.
  intros Hn. unfold semp_util_calculateChecksum. by rewrite (checksum_loop_ok _ data 0) by lia.
Qed.

(* ------------------------------------------------------------------ *)
(** ** Delimited fields *)

Lemma store_mid (pre cur : list Z) c junk v :
  store (pre ++ cur ++ c :: junk) (Z.of_nat (length pre) + Z.of_nat (length cur)) v
    = Ok (pre ++ cur ++ v :: junk).
Proof.
  rewrite store_ok by (rewrite !length_app; cbn; lia). f_equal.
  replace (Z.to_nat _) with (length pre + length cur)%nat by lia.
  by rewrite insert_app_r, insert_app_r_alt, Nat.sub_diag by lia.
Qed.

Section fields.
  Context (fs : nat) (d t m : Z).
  Context (Hfs : (2 <= fs)%nat) (Hd : d <> 0 /\ d <> t).
  Abbreviation loop p mem fc fp := (delimited_loop p mem fc fp m (Z.of_nat fs) d t).

(** A character that belongs to a field. *)
Definition plain (c : Z) : Prop := c <> 0 /\ c <> t /\ c <> d.

(** What a field of [fs] characters keeps of a text. *)
Definition kept (f : list Z) : list Z := take (fs - 1) f.

(** The fields of a sentence with delimiters between them. *)
Fixpoint joined (l : list (list Z)) : list Z :=
  match l with
  | [] => []
  | [f] => f
  | f :: l => f ++ d :: joined l
  end.

(** The characters of a field: those that fit are stored after [cur]. *)
Lemma loop_plain w p pre cur junk fc :
  Forall plain w -> (length cur <= fs - 1)%nat -> (fs <= length cur + length junk)%nat ->
  0 <= fc < m -> Z.of_nat (length pre) = fc * Z.of_nat fs ->
  exists junk', loop (w ++ p) (pre ++ cur ++ junk) fc (Z.of_nat (length cur)) =
      loop p (pre ++ kept (cur ++ w) ++ junk') fc (Z.of_nat (length (kept (cur ++ w)))) /\
    (length (kept (cur ++ w)) + length junk' = length cur + length junk)%nat /\
    drop (fs - length (kept (cur ++ w))) junk' = drop (fs - length cur) junk.
Proof.
  intros Hw. revert cur junk. induction Hw as [|c w (H0 & Ht & Hdc) Hw IH]; intros cur junk Hc Hj Hfc Hpre.
  { exists junk. unfold kept. rewrite app_nil_r, (take_ge cur) by lia. done. }
  cbn [app delimited_loop]. destruct (Z.eqb_spec c 0); [done|]. destruct (Z.eqb_spec c t); [done|].
  destruct (fc <? m) eqn:E; [|lia]. cbn [negb andb]. destruct (Z.eqb_spec c d); [done|].
  destruct (Z.of_nat (length cur) <? Z.of_nat fs - 1) eqn:E2.
  - destruct junk as [|j junk]; [cbn in Hj; lia|]. unfold field_set. rewrite <-Hpre, store_mid.
    cbn [res_bind]. destruct (IH (cur ++ [c]) junk) as (junk' & Hl & Hlen & Hdrop).
    + rewrite length_app. cbn. lia.
    + rewrite length_app. cbn in *. lia.
    + done.
    + done.
    + exists junk'. rewrite <-!app_assoc in Hl. cbn [app] in Hl. rewrite length_app in Hl, Hlen, Hdrop.
      replace (Z.of_nat (length cur) + 1) with (Z.of_nat (length cur + length [c])) by (cbn; lia).
      rewrite Hl. rewrite <-!app_assoc in Hlen, Hdrop. cbn [app length] in *. split_and!; [done|lia|].
      rewrite Hdrop. by replace (fs - length cur)%nat with (S (fs - (length cur + 1))) by lia.
  - destruct (IH cur junk Hc Hj Hfc Hpre) as (junk' & Hl & Hlen & Hdrop). exists junk'. rewrite Hl.
    assert (kept (cur ++ c :: w) = kept (cur ++ w)) as ->; [|done].
    unfold kept. by rewrite !take_app_le by lia.
Qed.

Lemma kept_length f : (length (kept f) <= fs - 1)%nat.
Proof. unfold kept. rewrite length_take. lia. Qed.

(** A delimiter closes a row and opens the next one. *)
Lemma loop_delimiter p pre f junk fc :
  0 <= fc -> fc + 1 < m -> Z.of_nat (length pre) = fc * Z.of_nat fs ->
  (2 * fs <= length (kept f) + length junk)%nat ->
  exists tl next, loop (d :: p) (pre ++ kept f ++ junk) fc (Z.of_nat (length (kept f))) =
      loop p ((pre ++ kept f ++ 0 :: tl) ++ next) (fc + 1) 0 /\
    length (kept f ++ 0 :: tl) = fs /\ (fs + length next = length (kept f) + length junk)%nat.
Proof.
  intros Hfc Hm Hpre Hlen. pose proof (kept_length f). destruct Hd as [Hd0 Hdt].
  cbn [delimited_loop]. destruct (Z.eqb_spec d 0); [done|]. destruct (Z.eqb_spec d t); [done|].
  destruct (fc <? m) eqn:E; [|lia]. rewrite Z.eqb_refl. cbn [negb andb].
  destruct junk as [|j junk]; [cbn in Hlen; lia|]. unfold field_set at 1. rewrite <-Hpre, store_mid.
  cbn [res_bind length] in *. destruct (fc + 1 <? m) eqn:E2; [|lia].
  set (tl := take (fs - 1 - length (kept f)) junk).
  assert (length (kept f ++ 0 :: tl) = fs) as Hrow.
  { unfold tl. rewrite length_app. cbn. rewrite length_take. lia. }
  assert (exists c nx, drop (fs - 1 - length (kept f)) junk = c :: nx) as (c & nx & Hnx).
  { destruct (drop _ junk) as [|c nx] eqn:Ed; [|by exists c, nx].
    apply (f_equal length) in Ed. rewrite length_drop in Ed. cbn in Ed. lia. }
  exists tl, (0 :: nx). split_and!; [|done|].
  - assert (pre ++ kept f ++ 0 :: junk = (pre ++ kept f ++ 0 :: tl) ++ [] ++ c :: nx) as ->.
    { rewrite <-(take_drop (fs - 1 - length (kept f)) junk), Hnx. fold tl. cbn.
      by rewrite <-!app_assoc, <-app_comm_cons. }
    unfold field_set.
    replace ((fc + 1) * Z.of_nat fs + 0)
      with (Z.of_nat (length (pre ++ kept f ++ 0 :: tl)) + Z.of_nat (@length Z []))
      by (rewrite length_app, Hrow; cbn; lia).
    rewrite store_mid. done.
  - apply (f_equal length) in Hnx. rewrite length_drop in Hnx. cbn in Hnx |- *. lia.
Qed.

(** All fields: every row but the last is closed, the last holds its text. *)
Lemma loop_fields rest f fc pre mem q :
  Forall (Forall plain) (f :: rest) ->
  0 <= fc -> fc + Z.of_nat (length rest) < m -> Z.of_nat (length pre) = fc * Z.of_nat fs ->
  (S (length rest) * fs <= length mem)%nat ->
  exists mem' junk, loop (joined (f :: rest) ++ q) (pre ++ mem) fc 0 =
      loop q (pre ++ mem') (fc + Z.of_nat (length rest)) (Z.of_nat (length (kept (List.last (f :: rest) [])))) /\
    length mem' = length mem /\
    (forall i g, (i < length rest)%nat -> (f :: rest) !! i = Some g ->
                 c_string (drop (i * fs) mem') = Ok (kept g)) /\
    drop (length rest * fs) mem' = kept (List.last (f :: rest) []) ++ junk.
Proof.
  revert f fc pre mem. induction rest as [|f' rest IH]; intros f fc pre mem Hf Hfc Hm Hpre Hmem.
  - apply Forall_cons_1 in Hf as [Hf _]. cbn [joined List.last length] in *.
    destruct (loop_plain f q pre [] mem fc Hf) as (junk & Hl & Hlen & _); [cbn; lia..|done|].
    cbn [app length] in Hl, Hlen. change (Z.of_nat 0) with 0 in Hl. exists (kept f ++ junk), junk.
    rewrite Hl. split_and!; [by rewrite Z.add_0_r|by rewrite length_app; cbn in *; lia|intros; lia|done].
  - apply Forall_cons_1 in Hf as [Hf Hr]. cbn [length] in Hm, Hmem.
    change (joined (f :: f' :: rest)) with (f ++ d :: joined (f' :: rest)).
    rewrite <-app_assoc, <-app_comm_cons.
    change (List.last (f :: f' :: rest) []) with (List.last (f' :: rest) []).
    destruct (loop_plain f (d :: joined (f' :: rest) ++ q) pre [] mem fc Hf)
      as (junk & Hl & Hlen & _); [cbn; lia..|done|].
    cbn [app length] in Hl, Hlen. change (Z.of_nat 0) with 0 in Hl. rewrite Hl.
    destruct (loop_delimiter (joined (f' :: rest) ++ q) pre f junk fc) as (tl & next & Hdel & Hrow & Hnext);
      [lia|lia|done|lia|]. rewrite Hdel.
    destruct (IH f' (fc + 1) (pre ++ kept f ++ 0 :: tl) next) as (mem' & junk' & Hloop & Hlen' & Hrows & Hlast);
      [done|lia|lia|rewrite length_app, Hrow; lia|lia|].
    exists ((kept f ++ 0 :: tl) ++ mem'), junk'. rewrite Hloop. split_and!.
    + rewrite <-!app_assoc. f_equal. cbn [length]. lia.
    + rewrite length_app, Hrow. lia.
    + intros [|i] g Hi Hg.
      * cbn in Hg. injection Hg as <-. rewrite <-app_assoc. apply c_string_app, Forall_take.
        eapply Forall_impl; [exact Hf|]. by intros c [? _].
      * cbn [Nat.mul]. rewrite drop_app_ge by lia. rewrite Hrow.
        replace (fs + i * fs - fs)%nat with (i * fs)%nat by lia. apply Hrows; [cbn in Hi; lia|done].
    + cbn [length Nat.mul]. rewrite drop_app_ge by lia. rewrite Hrow.
      by replace (fs + length rest * fs - fs)%nat with (length rest * fs)%nat by lia.
Qed.

End fields.

Lemma kept_nil fs f : (2 <= fs)%nat -> (0 <? Z.of_nat (length (kept fs f))) = negb (bool_decide (f = [])).
Proof.
  intros Hfs. unfold kept. rewrite length_take. destruct f; cbn [length]; case_bool_decide; try done; lia.
Qed.

(** A string is read up to its terminator only. *)
Lemma c_string_prefix l l1 l2 s :
  c_string (l ++ l1) = Ok s -> (length s < length l)%nat -> c_string (l ++ l2) = Ok s.
Proof.
  revert s. induction l as [|c l IH]; intros s Hs Hl; cbn in *; [lia|].
  destruct (c =? 0); [done|]. destruct (c_string (l ++ l1)) as [s'|u] eqn:E; [|done].
  cbn in Hs. injection Hs as <-. cbn in Hl. by rewrite (IH s') by (done || lia).
Qed.

Lemma lookup_last {A} (x y : A) l : (x :: l) !! length l = Some (List.last (x :: l) y).
Proof. revert x. induction l as [|z l IH]; intros x; [done|]. exact (IH z). Qed.

Section field_parser.
  Context (char_signed : bool) (fs : nat) (d t : Z) (first : list Z) (rest : list (list Z)) (mem : list Z).
  Context (Hfs : (2 <= fs)%nat) (Hd : d <> 0 /\ d <> t) (Hplain : Forall (Forall (plain d t)) (first :: rest)).
  Abbreviation lastfield := (List.last (first :: rest) []).

(** The routine up to the end of its loop over the fields. *)
Lemma parse_fields_loop m s q :
  below_32 char_signed (default s (head (joined d (first :: rest)))) = false ->
  Z.of_nat (length rest) < m -> Z.of_nat (length mem) = m * Z.of_nat fs ->
  exists mem' junk,
    semp_util_parse_delimited_fields char_signed (Some (joined d (first :: rest) ++ s :: q)) (Some mem)
        m (Z.of_nat fs) d t =
      res_bind (delimited_loop (s :: q) mem' (Z.of_nat (length rest))
                  (Z.of_nat (length (kept fs lastfield))) m (Z.of_nat fs) d t) (fun r =>
        let '(fields, fieldCount, fieldPos) := r in
        if 0 <? fieldPos then
          res_bind (field_set (Z.of_nat fs) fields fieldCount fieldPos 0) (fun fields =>
          Ok (fieldCount + 1, Some fields))
        else Ok (fieldCount, Some fields)) /\
    length mem' = length mem /\
    (forall i f, (i < length rest)%nat -> (first :: rest) !! i = Some f ->
                 c_string (drop (i * fs) mem') = Ok (kept fs f)) /\
    drop (length rest * fs) mem' = kept fs lastfield ++ junk.
Proof.
  intros Hhead Hm Hmem. unfold semp_util_parse_delimited_fields. destruct (m <=? 0) eqn:E; [lia|].
  assert (load (joined d (first :: rest) ++ s :: q) 0 = Ok (default s (head (joined d (first :: rest))))) as ->
    by by destruct (joined d (first :: rest)).
  cbn [res_bind]. rewrite Hhead. unfold field_set at 1. rewrite store_ok by nia. cbn [res_bind].
  destruct (loop_fields fs d t m Hfs Hd rest first 0 [] (<[Z.to_nat (0 * Z.of_nat fs + 0):=0]> mem) (s :: q))
    as (mem' & junk & Hl & Hlen & Hrows & Hlast); [done|lia|lia|done|rewrite length_insert; nia|].
  cbn [app] in Hl. rewrite Hl. exists mem', junk. rewrite length_insert in Hlen. done.
Qed.

(** C32: [semp_util_parse_delimited_fields] with an array of [maxFields] rows of at
    least two characters, a delimiter that is neither zero nor the terminator, and
    a sentence whose first character is not below 32 and which has at most
    [maxFields] fields, splits it at its delimiters: it stores every field as a
    string, cut to the size of a row, stays inside the array, and returns the
    number of fields, an empty last one not counted.  With one field more it
    writes outside the array ([semp_util_parse_delimited_fields_overflows]). *)
Theorem semp_util_parse_delimited_fields_splits m s q :
  s = 0 \/ s = t -> below_32 char_signed (default s (head (joined d (first :: rest)))) = false ->
  Z.of_nat (length rest) < m -> Z.of_nat (length mem) = m * Z.of_nat fs ->
  let count := (length rest + if bool_decide (lastfield = []) then 0 else 1)%nat in
  exists mem',
    semp_util_parse_delimited_fields char_signed (Some (joined d (first :: rest) ++ s :: q)) (Some mem)
      m (Z.of_nat fs) d t = Ok (Z.of_nat count, Some mem') /\
    length mem' = length mem /\
    forall i f, (i < count)%nat -> (first :: rest) !! i = Some f ->
                c_string (drop (i * fs) mem') = Ok (kept fs f).
Proof.
  intros Hs Hhead Hm Hmem count.
  destruct (parse_fields_loop m s q Hhead Hm Hmem) as (mem' & junk & -> & Hlen & Hrows & Hlast).
  assert (delimited_loop (s :: q) mem' (Z.of_nat (length rest)) (Z.of_nat (length (kept fs lastfield)))
    m (Z.of_nat fs) d t = Ok (mem', Z.of_nat (length rest), Z.of_nat (length (kept fs lastfield)))) as ->.
  { cbn [delimited_loop]. destruct Hs as [->| ->]; [done|]. rewrite Z.eqb_refl. cbn [negb].
    by rewrite andb_false_r. }
  cbn [res_bind]. rewrite kept_nil by done. unfold count. case_bool_decide as Hempty; cbn [negb].
  { rewrite Nat.add_0_r. by exists mem'. }
  pose proof (kept_length fs Hfs lastfield) as Hk.
  assert (S (length rest) * fs <= length mem')%nat as Hroom.
  { assert ((Z.of_nat (length rest) + 1) * Z.of_nat fs <= m * Z.of_nat fs) by (apply Z.mul_le_mono_nonneg_r; lia).
    lia. }
  assert (length rest * fs + length (kept fs lastfield) + length junk = length mem')%nat as Hsize.
  { apply (f_equal length) in Hlast. rewrite length_drop, length_app in Hlast. lia. }
  destruct junk as [|j junk]; [cbn [length] in Hsize; lia|].
  set (pre := take (length rest * fs) mem').
  assert (length pre = length rest * fs)%nat as Hpre by (unfold pre; rewrite length_take; lia).
  assert (mem' = pre ++ kept fs lastfield ++ j :: junk) as Hsplit
    by (by rewrite <-Hlast; unfold pre; rewrite take_drop).
  exists (pre ++ kept fs lastfield ++ 0 :: junk). split_and!.
  - unfold field_set. replace (Z.of_nat (length rest) * Z.of_nat fs) with (Z.of_nat (length pre)) by lia.
    rewrite Hsplit, store_mid. cbn [res_bind]. do 2 f_equal. lia.
  - rewrite <-Hlen, Hsplit, !length_app. done.
  - intros i f Hi Hf. destruct (decide (i < length rest)%nat) as [Hir|Hir].
    + specialize (Hrows i f Hir Hf). assert (i * fs <= length pre)%nat by nia.
      rewrite Hsplit, drop_app_le in Hrows by lia. rewrite drop_app_le by lia.
      eapply c_string_prefix; [exact Hrows|]. pose proof (kept_length fs Hfs f).
      rewrite length_drop, Hpre. nia.
    + assert (i = length rest) as -> by lia. rewrite (lookup_last first []) in Hf. injection Hf as <-.
      rewrite <-Hpre, drop_app_length. apply c_string_app, Forall_take.
      eapply Forall_lookup_1 in Hplain; [|apply (lookup_last first [])].
      eapply Forall_impl; [exact Hplain|]. by intros c [? _].
Qed.

(** With as many fields as [maxFields] and one more delimiter, the last
    field not empty, [semp_util_parse_delimited_fields] writes a terminator
    outside the array of fields: the position in the last row is not reset. *)
Theorem semp_util_parse_delimited_fields_overflows q :
  below_32 char_signed (default d (head (joined d (first :: rest)))) = false ->
  lastfield <> [] -> Z.of_nat (length mem) = Z.of_nat (S (length rest)) * Z.of_nat fs ->
  semp_util_parse_delimited_fields char_signed (Some (joined d (first :: rest) ++ d :: q)) (Some mem)
    (Z.of_nat (S (length rest))) (Z.of_nat fs) d t = Ub OutOfBounds.
Proof.
  intros Hhead Hlast Hmem.
  destruct (parse_fields_loop (Z.of_nat (S (length rest))) d q Hhead ltac:(lia) Hmem)
    as (mem' & junk & -> & Hlen & _ & Hrow).
  destruct Hd as [Hd0 Hdt]. cbn [delimited_loop].
  destruct (Z.eqb_spec d 0); [done|]. destruct (Z.eqb_spec d t); [done|].
  destruct (Z.of_nat (length rest) <? Z.of_nat (S (length rest))) eqn:E; [|lia].
  rewrite Z.eqb_refl. cbn [negb andb].
  destruct (Z.of_nat (length rest) + 1 <? Z.of_nat (S (length rest))) eqn:E2; [lia|].
  pose proof (kept_nil fs lastfield Hfs) as Hk. rewrite bool_decide_eq_false_2 in Hk by done.
  pose proof (kept_length fs Hfs lastfield). unfold field_set at 1. rewrite store_ok by lia. cbn [res_bind].
  destruct q as [|c q]; [done|]. cbn [delimited_loop].
  destruct (Z.of_nat (length rest) + 1 <? _) eqn:E3; [lia|]. rewrite andb_false_r. cbn [res_bind].
  rewrite Hk. cbn [negb]. unfold field_set. rewrite store_oob by (rewrite length_insert; lia). done.
Qed.

End field_parser.

(** On the empty string [semp_util_parse_delimited_fields] steps over the
    terminator, which is below 32, and reads behind the string. *)
Theorem semp_util_parse_delimited_fields_empty char_signed mem m fs d t :
  0 < m -> 0 < Z.of_nat (length mem) ->
  semp_util_parse_delimited_fields char_signed (Some [0]) (Some mem) m fs d t = Ub OutOfBounds.
Proof.
  intros Hm Hmem. unfold semp_util_parse_delimited_fields. destruct (m <=? 0) eqn:E; [lia|].
  change (load [0] 0) with (@Ok Z 0). cbn [res_bind below_32]. unfold field_set.
  rewrite store_ok by lia. done.
Qed.

(* ------------------------------------------------------------------ *)
(** ** Instances *)

(** 0xDE 0xAD in ten characters. *)
Lemma semp_util_hexToString_text_witness :
  exists out,
    semp_util_hexToString (Some [0xDE; 0xAD]) 2 (Some (replicate 10 0xFF)) 10 = Ok (5, Some out) /\
    c_string out = Ok [0x44; 0x45; 0x20; 0x41; 0x44] /\ length out = 10%nat.
Proof.
  apply (semp_util_hexToString_text [0xDE; 0xAD] 2 (replicate 10 0xFF)).
  - by apply bytesb_spec.
  - done.
  - done.
Defined.

Lemma semp_util_calculateChecksum_xor_witness :
  semp_util_calculateChecksum [0x47; 0x50; 0x47] 3 = Ok 0x50.
Proof. apply (semp_util_calculateChecksum_xor [0x47; 0x50; 0x47] 3). done. Defined.

(** The sentence A,,BCD*7 in rows of three characters: the last field is cut. *)
Lemma semp_util_parse_delimited_fields_splits_witness :
  exists mem',
    semp_util_parse_delimited_fields true (Some [0x41; 0x2C; 0x2C; 0x42; 0x43; 0x44; 0x2A; 0x37; 0])
      (Some (replicate 12 0x7F)) 4 3 0x2C 0x2A = Ok (3, Some mem') /\
    length mem' = 12%nat /\
    forall i f, (i < 3)%nat -> [[0x41]; []; [0x42; 0x43; 0x44]] !! i = Some f ->
                c_string (drop (i * 3) mem') = Ok (kept 3 f).
Proof.
  apply (semp_util_parse_delimited_fields_splits true 3 0x2C 0x2A [0x41] [[]; [0x42; 0x43; 0x44]]
           (replicate 12 0x7F)) with (s := 0x2A) (q := [0x37; 0]) (m := 4).
  - lia.
  - done.
  - by repeat constructor.
  - by right.
  - reflexivity.
  - done.
  - reflexivity.
Defined.

(** A,B with room for one field. *)
Lemma semp_util_parse_delimited_fields_overflows_witness :
  semp_util_parse_delimited_fields true (Some [0x41; 0x2C; 0x42; 0]) (Some (replicate 3 0x7F))
    1 3 0x2C 0x2A = Ub OutOfBounds.
Proof.
  apply (semp_util_parse_delimited_fields_overflows true 3 0x2C 0x2A [0x41] [] (replicate 3 0x7F)).
  - lia.
  - done.
  - by repeat constructor.
  - reflexivity.
  - done.
  - reflexivity.
Defined.

Lemma semp_util_parse_delimited_fields_empty_witness :
  semp_util_parse_delimited_fields true (Some [0]) (Some [7; 7; 7]) 1 3 0x2C 0x2A = Ub OutOfBounds.
Proof. by apply (semp_util_parse_delimited_fields_empty true [7; 7; 7] 1 3 0x2C 0x2A). Defined.
