(* ===== verification/SempParser.v ===== *)
(** * The single-protocol parser

    [src/single_parser/semp_parser.c], the stand-alone parser of the custom
    protocol: its structure, its CRC-32 table and every routine. *)
From S2P Require Import Prelude Crc.

(** The table of this file; it has the entries of the one in [Crc]. *)
Definition semp_crc32Table : list Z := [
   0x00000000; 0x77073096; 0xEE0E612C; 0x990951BA; 0x076DC419; 0x706AF48F;
   0xE963A535; 0x9E6495A3; 0x0EDB8832; 0x79DCB8A4; 0xE0D5E91E; 0x97D2D988;
   0x09B64C2B; 0x7EB17CBD; 0xE7B82D07; 0x90BF1D91; 0x1DB71064; 0x6AB020F2;
   0xF3B97148; 0x84BE41DE; 0x1ADAD47D; 0x6DDDE4EB; 0xF4D4B551; 0x83D385C7;
   0x136C9856; 0x646BA8C0; 0xFD62F97A; 0x8A65C9EC; 0x14015C4F; 0x63066CD9;
   0xFA0F3D63; 0x8D080DF5; 0x3B6E20C8; 0x4C69105E; 0xD56041E4; 0xA2677172;
   0x3C03E4D1; 0x4B04D447; 0xD20D85FD; 0xA50AB56B; 0x35B5A8FA; 0x42B2986C;
   0xDBBBC9D6; 0xACBCF940; 0x32D86CE3; 0x45DF5C75; 0xDCD60DCF; 0xABD13D59;
   0x26D930AC; 0x51DE003A; 0xC8D75180; 0xBFD06116; 0x21B4F4B5; 0x56B3C423;
   0xCFBA9599; 0xB8BDA50F; 0x2802B89E; 0x5F058808; 0xC60CD9B2; 0xB10BE924;
   0x2F6F7C87; 0x58684C11; 0xC1611DAB; 0xB6662D3D; 0x76DC4190; 0x01DB7106;
   0x98D220BC; 0xEFD5102A; 0x71B18589; 0x06B6B51F; 0x9FBFE4A5; 0xE8B8D433;
   0x7807C9A2; 0x0F00F934; 0x9609A88E; 0xE10E9818; 0x7F6A0DBB; 0x086D3D2D;
   0x91646C97; 0xE6635C01; 0x6B6B51F4; 0x1C6C6162; 0x856530D8; 0xF262004E;
   0x6C0695ED; 0x1B01A57B; 0x8208F4C1; 0xF50FC457; 0x65B0D9C6; 0x12B7E950;
   0x8BBEB8EA; 0xFCB9887C; 0x62DD1DDF; 0x15DA2D49; 0x8CD37CF3; 0xFBD44C65;
   0x4DB26158; 0x3AB551CE; 0xA3BC0074; 0xD4BB30E2; 0x4ADFA541; 0x3DD895D7;
   0xA4D1C46D; 0xD3D6F4FB; 0x4369E96A; 0x346ED9FC; 0xAD678846; 0xDA60B8D0;
   0x44042D73; 0x33031DE5; 0xAA0A4C5F; 0xDD0D7CC9; 0x5005713C; 0x270241AA;
   0xBE0B1010; 0xC90C2086; 0x5768B525; 0x206F85B3; 0xB966D409; 0xCE61E49F;
   0x5EDEF90E; 0x29D9C998; 0xB0D09822; 0xC7D7A8B4; 0x59B33D17; 0x2EB40D81;
   0xB7BD5C3B; 0xC0BA6CAD; 0xEDB88320; 0x9ABFB3B6; 0x03B6E20C; 0x74B1D29A;
   0xEAD54739; 0x9DD277AF; 0x04DB2615; 0x73DC1683; 0xE3630B12; 0x94643B84;
   0x0D6D6A3E; 0x7A6A5AA8; 0xE40ECF0B; 0x9309FF9D; 0x0A00AE27; 0x7D079EB1;
   0xF00F9344; 0x8708A3D2; 0x1E01F268; 0x6906C2FE; 0xF762575D; 0x806567CB;
   0x196C3671; 0x6E6B06E7; 0xFED41B76; 0x89D32BE0; 0x10DA7A5A; 0x67DD4ACC;
   0xF9B9DF6F; 0x8EBEEFF9; 0x17B7BE43; 0x60B08ED5; 0xD6D6A3E8; 0xA1D1937E;
   0x38D8C2C4; 0x4FDFF252; 0xD1BB67F1; 0xA6BC5767; 0x3FB506DD; 0x48B2364B;
   0xD80D2BDA; 0xAF0A1B4C; 0x36034AF6; 0x41047A60; 0xDF60EFC3; 0xA867DF55;
   0x316E8EEF; 0x4669BE79; 0xCB61B38C; 0xBC66831A; 0x256FD2A0; 0x5268E236;
   0xCC0C7795; 0xBB0B4703; 0x220216B9; 0x5505262F; 0xC5BA3BBE; 0xB2BD0B28;
   0x2BB45A92; 0x5CB36A04; 0xC2D7FFA7; 0xB5D0CF31; 0x2CD99E8B; 0x5BDEAE1D;
   0x9B64C2B0; 0xEC63F226; 0x756AA39C; 0x026D930A; 0x9C0906A9; 0xEB0E363F;
   0x72076785; 0x05005713; 0x95BF4A82; 0xE2B87A14; 0x7BB12BAE; 0x0CB61B38;
   0x92D28E9B; 0xE5D5BE0D; 0x7CDCEFB7; 0x0BDBDF21; 0x86D3D2D4; 0xF1D4E242;
   0x68DDB3F8; 0x1FDA836E; 0x81BE16CD; 0xF6B9265B; 0x6FB077E1; 0x18B74777;
   0x88085AE6; 0xFF0F6A70; 0x66063BCA; 0x11010B5C; 0x8F659EFF; 0xF862AE69;
   0x616BFFD3; 0x166CCF45; 0xA00AE278; 0xD70DD2EE; 0x4E048354; 0x3903B3C2;
   0xA7672661; 0xD06016F7; 0x4969474D; 0x3E6E77DB; 0xAED16A4A; 0xD9D65ADC;
   0x40DF0B66; 0x37D83BF0; 0xA9BCAE53; 0xDEBB9EC5; 0x47B2CF7F; 0x30B5FFE9;
   0xBDBDF21C; 0xCABAC28A; 0x53B39330; 0x24B4A3A6; 0xBAD03605; 0xCDD70693;
   0x54DE5729; 0x23D967BF; 0xB3667A2E; 0xC4614AB8; 0x5D681B02; 0x2A6F2B94;
   0xB40BBE37; 0xC30C8EA1; 0x5A05DF1B; 0x2D02EF8D ].

Lemma semp_crc32Table_eq : semp_crc32Table = Crc.semp_crc32Table.
Proof. reflexivity. Qed.

(** The values of the [state] member. *)
Inductive sempStateFunction :=
| fn_sempFirstByte | fn_sempBluetoothSync2 | fn_sempBluetoothSync3 | fn_sempBluetoothReadHeader
| fn_sempBluetoothReadData | fn_sempBluetoothReadCrc.

(** The values of the [computeCrc] member; null is [None]. *)
Inductive sempCrcFunction := fn_sempBluetoothComputeCrc.

(** [SEMP_MESSAGE_HEADER]: the members the code reads, and the size. *)
Definition sizeof_SEMP_MESSAGE_HEADER : Z := 20.
Definition header_headerLength : member := Member 3 1.
Definition header_messageLength : member := Member 12 2.
Definition header_messageType : member := Member 17 1.

Definition SEMP_SYNC_BYTE_1 : Z := 0xAA.
Definition SEMP_SYNC_BYTE_2 : Z := 0x44.
Definition SEMP_SYNC_BYTE_3 : Z := 0x18.
Definition SEMP_HEADER_LENGTH : Z := 0x14.
Definition SEMP_CRC_SIZE : Z := 4.

(** [SEMP_PARSE_STATE]; the members of the scratch area come last. *)
Record SEMP_PARSE_STATE := mkParse {
  state : sempStateFunction;
  computeCrc : option sempCrcFunction;
  eomCallback : option nat;
  badCrc : option nat;
  printDebug : bool;
  buffer : list Z;
  length : Z;
  maxLength : Z;
  crc : Z;
  type : Z;
  parserName : option string;
  scratch_crc : Z;
  scratch_bytesRemaining : Z
}.

(** Calls of the application, and lines printed with the name and the numbers
    they show. *)
Inductive Event :=
| EvEom (f : nat) (parse : SEMP_PARSE_STATE) (messageType : Z)
| EvBadCrc (f : nat) (parse : SEMP_PARSE_STATE)
| EvPrint (format : string) (name : option string) (args : list Z).

(** The answer of a [badCrc] callback. *)
Class Application := badCrc_fn : nat -> SEMP_PARSE_STATE -> bool.

Abbreviation P := (M SEMP_PARSE_STATE Event).

Definition with_state v p := mkParse v (computeCrc p) (eomCallback p) (badCrc p) (printDebug p)
  (buffer p) (length p) (maxLength p) (crc p) (type p) (parserName p) (scratch_crc p) (scratch_bytesRemaining p).
Definition with_computeCrc v p := mkParse (state p) v (eomCallback p) (badCrc p) (printDebug p)
  (buffer p) (length p) (maxLength p) (crc p) (type p) (parserName p) (scratch_crc p) (scratch_bytesRemaining p).
Definition with_buffer v p := mkParse (state p) (computeCrc p) (eomCallback p) (badCrc p) (printDebug p)
  v (length p) (maxLength p) (crc p) (type p) (parserName p) (scratch_crc p) (scratch_bytesRemaining p).
Definition with_length v p := mkParse (state p) (computeCrc p) (eomCallback p) (badCrc p) (printDebug p)
  (buffer p) v (maxLength p) (crc p) (type p) (parserName p) (scratch_crc p) (scratch_bytesRemaining p).
Definition with_crc v p := mkParse (state p) (computeCrc p) (eomCallback p) (badCrc p) (printDebug p)
  (buffer p) (length p) (maxLength p) v (type p) (parserName p) (scratch_crc p) (scratch_bytesRemaining p).
Definition with_type v p := mkParse (state p) (computeCrc p) (eomCallback p) (badCrc p) (printDebug p)
  (buffer p) (length p) (maxLength p) (crc p) v (parserName p) (scratch_crc p) (scratch_bytesRemaining p).
Definition with_scratch_crc v p := mkParse (state p) (computeCrc p) (eomCallback p) (badCrc p) (printDebug p)
  (buffer p) (length p) (maxLength p) (crc p) (type p) (parserName p) v (scratch_bytesRemaining p).
Definition with_bytesRemaining v p := mkParse (state p) (computeCrc p) (eomCallback p) (badCrc p) (printDebug p)
  (buffer p) (length p) (maxLength p) (crc p) (type p) (parserName p) (scratch_crc p) v.

(* ------------------------------------------------------------------ *)
(** ** Helpers *)

(** [parse->buffer[i]] *)
Definition buffer_at (i : Z) : P Z := p <- gets id;; lift (load (buffer p) i).

(** [if (parse->length < parse->maxLength) parse->buffer[parse->length++] = data;] *)
Definition store_byte (data : Z) : P unit :=
  p <- gets id;;
  when (length p <? maxLength p)
    (modify (with_length (u16 (length p + 1)));;
     b <- lift (store (buffer p) (length p) data);;
     modify (with_buffer b)).

(** [header->member] *)
Definition header_get (f : member) : P Z :=
  p <- gets id;;
  if (offset f + size f <=? List.length (buffer p))%nat then ret (get f (buffer p))
  else undefined OutOfBounds.

(** [sempPrintf(enabled, format, ...)] *)
Definition sempPrintf (enabled : bool) (format : string) (name : option string) (args : list Z) : P unit :=
  when enabled (emit (EvPrint format name args)).

(** [sempBluetoothComputeCrc(parse, data)] *)
Definition sempBluetoothComputeCrc (data : Z) : P Z :=
  c <- gets crc;; ret (crc32_lookup semp_crc32Table c data).

(** [parse->crc = parse->computeCrc(parse, data);] *)
Definition update_crc (data : Z) : P unit :=
  f <- gets computeCrc;;
  match f with
  | None => undefined NullCall
  | Some fn_sempBluetoothComputeCrc => c <- sempBluetoothComputeCrc data;; modify (with_crc c)
  end.

(* ------------------------------------------------------------------ *)
(** ** State functions *)

Section semp.
  Context `{App : Application}.

Definition sempBluetoothPreamble (data : Z) : P bool :=
  if negb (data =? SEMP_SYNC_BYTE_1) then ret false
  else
    modify (with_crc 0xFFFFFFFF);;
    modify (with_computeCrc (Some fn_sempBluetoothComputeCrc));;
    update_crc data;;
    store_byte data;;
    modify (with_state fn_sempBluetoothSync2);;
    ret true.

Definition sempFirstByte (data : Z) : P bool :=
  modify (with_length 0);;
  modify (with_crc 0);;
  sempBluetoothPreamble data.

Definition sempBluetoothSync2 (data : Z) : P bool :=
  if negb (data =? SEMP_SYNC_BYTE_2) then sempFirstByte data
  else
    update_crc data;; store_byte data;;
    modify (with_state fn_sempBluetoothSync3);; ret true.

Definition sempBluetoothSync3 (data : Z) : P bool :=
  if negb (data =? SEMP_SYNC_BYTE_3) then sempFirstByte data
  else
    update_crc data;; store_byte data;;
    modify (with_state fn_sempBluetoothReadHeader);; ret true.

(** The end of the header or of the data: the check is complete. *)
Definition begin_crc : P unit :=
  modify (with_bytesRemaining SEMP_CRC_SIZE);;
  c <- gets crc;; modify (with_crc (Z.lxor c 0xFFFFFFFF));;
  c <- gets crc;; modify (with_scratch_crc c);;
  modify (with_state fn_sempBluetoothReadCrc).

Definition sempBluetoothReadHeader (data : Z) : P bool :=
  update_crc data;; store_byte data;;
  n <- gets length;;
  if sizeof_SEMP_MESSAGE_HEADER <=? n then
    h <- header_get header_headerLength;;
    if negb (h =? SEMP_HEADER_LENGTH) then
      dbg <- gets printDebug;; sempPrintf dbg "SEMP: 无效的头部长度: 0x%02X" None [h];;
      modify (with_state fn_sempFirstByte);; ret false
    else
      len <- header_get header_messageLength;; modify (with_bytesRemaining len);;
      ty <- header_get header_messageType;; modify (with_type ty);;
      r <- gets scratch_bytesRemaining;;
      (if r =? 0 then begin_crc else modify (with_state fn_sempBluetoothReadData));;
      ret true
  else ret true.

Definition sempBluetoothReadData (data : Z) : P bool :=
  update_crc data;; store_byte data;;
  r <- gets scratch_bytesRemaining;; modify (with_bytesRemaining (u16 (r - 1)));;
  r <- gets scratch_bytesRemaining;;
  when (r =? 0) begin_crc;;
  ret true.

Definition sempBluetoothReadCrc (data : Z) : P bool :=
  store_byte data;;
  r <- gets scratch_bytesRemaining;; modify (with_bytesRemaining (u16 (r - 1)));;
  r <- gets scratch_bytesRemaining;;
  if negb (r =? 0) then ret true
  else
    n <- gets length;;
    crcRead <-
      (if SEMP_CRC_SIZE <=? n then
         b4 <- buffer_at (n - 4);; b3 <- buffer_at (n - 3);;
         b2 <- buffer_at (n - 2);; b1 <- buffer_at (n - 1);;
         ret (Z.lor (Z.lor (Z.lor b4 (Z.shiftl b3 8)) (Z.shiftl b2 16)) (Z.shiftl b1 24))
       else ret 0);;
    crcComputed <- gets scratch_crc;;
    p <- gets id;;
    (if crcRead =? crcComputed then
       match eomCallback p with
       | Some f => emit (EvEom f p (type p))
       | None => ret tt
       end
     else
       overridden <-
         match badCrc p with
         | None => ret false
         | Some f => emit (EvBadCrc f p);; ret (badCrc_fn f p)
         end;;
       if (overridden : bool) then ret tt
       else
         b4 <- buffer_at (n - 4);; b3 <- buffer_at (n - 3);;
         b2 <- buffer_at (n - 2);; b1 <- buffer_at (n - 1);;
         sempPrintf (printDebug p)
           "SEMP: %s CRC错误, 接收到: %02X %02X %02X %02X, 计算得到: %02X %02X %02X %02X"
           (Some (default "Unknown" (parserName p)))
           [b4; b3; b2; b1; Z.land crcComputed 0xff; Z.land (Z.shiftr crcComputed 8) 0xff;
            Z.land (Z.shiftr crcComputed 16) 0xff; Z.land (Z.shiftr crcComputed 24) 0xff]);;
    modify (with_state fn_sempFirstByte);;
    ret false.

(* ------------------------------------------------------------------ *)
(** ** Interface *)

(** [parse->state(parse, data)] *)
Definition call_state (f : sempStateFunction) (data : Z) : P bool :=
  match f with
  | fn_sempFirstByte => sempFirstByte data
  | fn_sempBluetoothSync2 => sempBluetoothSync2 data
  | fn_sempBluetoothSync3 => sempBluetoothSync3 data
  | fn_sempBluetoothReadHeader => sempBluetoothReadHeader data
  | fn_sempBluetoothReadData => sempBluetoothReadData data
  | fn_sempBluetoothReadCrc => sempBluetoothReadCrc data
  end.

(** [sempProcessByte(parse, data)] for a structure that is initialised *)
Definition sempProcessByte (data : Z) : P bool := f <- gets state;; call_state f data.

(** The loop of [sempProcessBuffer] over the bytes left. *)
Fixpoint process_loop (l : list Z) (processed : Z) : P Z :=
  match l with
  | [] => ret processed
  | b :: l =>
      more <- sempProcessByte b;;
      if (more : bool) then process_loop l (u16 (processed + 1)) else ret processed
  end.

(** [sempProcessBuffer(parse, data, length)] *)
Definition sempProcessBuffer (data : list Z) : P Z := process_loop data 0.

End semp.

(** [sempInitParser(parse, buffer, maxLength, eomCallback, badCrcCallback, parserName)] *)
Definition sempInitParser (buffer : list Z) (maxLength : Z) (eomCallback badCrcCallback : option nat)
    (parserName : option string) : SEMP_PARSE_STATE :=
  mkParse fn_sempFirstByte None eomCallback badCrcCallback true buffer 0 maxLength 0 0 parserName 0 0.
