(* ===== verification/SempTheorems.v ===== *)
(** * What the single-protocol parser guarantees

    Memory safety on every input, delivery of every frame that fits the buffer,
    and the two defects of the resynchronisation. *)
From S2P Require Import Prelude Crc FrameSpec Messages SempParser.

Local Abbreviation len := List.length.

Section semp_theory.
  Context `{App : Application}.

(** The bytes stored so far. *)
Definition stored_bytes (p : SEMP_PARSE_STATE) : list Z := take (Z.to_nat (length p)) (buffer p).

(** The buffer has the length the caller announced. *)
Record base (p : SEMP_PARSE_STATE) : Prop := {
  base_buffer : Z.of_nat (len (buffer p)) = maxLength p;
  base_bytes : bytes (buffer p);
  base_max : maxLength p < 65536;
  base_length : 0 <= length p <= maxLength p
}.

(** The invariant: the check routine is set after the first byte, and the header
    is complete when data or the check are read. *)
Definition wf (p : SEMP_PARSE_STATE) : Prop :=
  base p /\ (state p <> fn_sempFirstByte -> is_Some (computeCrc p)) /\
  (state p = fn_sempBluetoothReadData \/ state p = fn_sempBluetoothReadCrc -> 20 <= length p).

(** A step that returns and keeps the invariant. *)
Definition keeps {A} (m : P A) (p : SEMP_PARSE_STATE) : Prop :=
  exists a p' ev, m p = Ok (a, p', ev) /\ wf p'.

Lemma keeps_bind_state {A A'} (m : P A) (k : A -> P A') p p' :
  (exists a ev, m p = Ok (a, p', ev)) -> (forall a, keeps (k a) p') -> keeps (bind m k) p.
Proof.
  intros (a & ev & Hm) Hk. destruct (Hk a) as (a' & q & ev' & Hk' & Hq).
  exists a', q, (ev ++ ev'). by rewrite (bind_ok _ _ _ _ _ _ Hm), Hk'.
Qed.

(** The structure after a byte has been stored, if it fits. *)
Definition stored (b : Z) (p : SEMP_PARSE_STATE) : SEMP_PARSE_STATE :=
  if length p <? maxLength p then
    with_buffer (<[Z.to_nat (length p) := b]> (buffer p)) (with_length (length p + 1) p)
  else p.

Lemma store_byte_ok b p : base p -> store_byte b p = Ok (tt, stored b p, []).
Proof.
  intros Hwf. pose proof (base_buffer p Hwf). pose proof (base_length p Hwf). pose proof (base_max p Hwf).
  unfold store_byte, stored, bind, gets, id. cbn [app]. destruct (length p <? maxLength p) eqn:E; [|done].
  cbn. rewrite store_ok by lia. cbn. by rewrite u16_id by (unfold is_u16; lia).
Qed.

Lemma base_stored b p : base p -> is_u8 b -> base (stored b p).
Proof.
  intros [H1 H2 H3 H4] Hb. unfold stored. destruct (length p <? maxLength p) eqn:E; [|done]. split; cbn.
  - by rewrite length_insert.
  - by apply Forall_insert.
  - done.
  - lia.
Qed.

Lemma stored_members b p :
  state (stored b p) = state p /\ computeCrc (stored b p) = computeCrc p /\ crc (stored b p) = crc p /\
  scratch_bytesRemaining (stored b p) = scratch_bytesRemaining p /\ scratch_crc (stored b p) = scratch_crc p /\
  maxLength (stored b p) = maxLength p /\ length p <= length (stored b p) /\
  eomCallback (stored b p) = eomCallback p /\ type (stored b p) = type p /\ badCrc (stored b p) = badCrc p.
Proof. unfold stored. destruct (length p <? maxLength p); cbn; split_and!; done || lia. Qed.

(** The structure after the check has been updated. *)
Definition checked (b : Z) (p : SEMP_PARSE_STATE) : SEMP_PARSE_STATE :=
  with_crc (crc32_update (crc p) b) p.

Lemma update_crc_ok b p : is_Some (computeCrc p) -> update_crc b p = Ok (tt, checked b p, []).
Proof.
  intros [[] H]. unfold update_crc. rewrite bind_gets, H. unfold sempBluetoothComputeCrc.
  by rewrite semp_crc32Table_eq.
Qed.

Lemma base_checked b p : base p -> base (checked b p).
Proof. by intros []. Qed.

(** A header member can be read when the header has arrived. *)
Lemma semp_header_get_ok f p :
  base p -> 20 <= length p -> (offset f + size f <= 20)%nat ->
  header_get f p = Ok (get f (stored_bytes p), p, []).
Proof.
  intros Hwf Hl Hf. pose proof (base_buffer p Hwf). pose proof (base_length p Hwf).
  unfold header_get, bind, gets, id, stored_bytes. rewrite get_take by lia.
  destruct (_ <=? _)%nat eqn:E; [done|lia].
Qed.

Lemma semp_buffer_at_ok i p : base p -> 0 <= i < maxLength p -> exists v, buffer_at i p = Ok (v, p, []).
Proof.
  intros Hwf Hi. pose proof (base_buffer p Hwf).
  destruct (load_in_range (buffer p) i) as (v & Hv & _); [lia|]. exists v.
  unfold buffer_at. rewrite bind_gets. unfold lift, id. by rewrite Hv.
Qed.

(** ** Safety *)

Lemma sempFirstByte_silent b p :
  wf p -> state p <> fn_sempBluetoothReadData -> state p <> fn_sempBluetoothReadCrc -> is_u8 b ->
  exists a p', sempFirstByte b p = Ok (a, p', []) /\ wf p' /\ maxLength p' = maxLength p /\
    (state p' = state p \/ state p' = fn_sempBluetoothSync2).
Proof.
  intros (Hb & Hc & Hh) Hd Hr Hu. unfold sempFirstByte. rewrite !bind_modify.
  assert (base (with_crc 0 (with_length 0 p))) as Hb0 by (destruct Hb; split; cbn; done || lia).
  unfold sempBluetoothPreamble. destruct (b =? SEMP_SYNC_BYTE_1); cbn [negb].
  - rewrite !bind_modify. set (q0 := with_computeCrc _ _).
    assert (is_Some (computeCrc q0)) as Hq0 by (by eexists).
    rewrite (bind_silent _ _ _ _ _ (update_crc_ok b q0 Hq0)). set (q := checked b q0). assert (base q) as Hq by (by destruct Hb0).
    rewrite (bind_silent _ _ _ _ _ (store_byte_ok b q Hq)), bind_modify. eexists _, _. split; [reflexivity|].
    pose proof (stored_members b q) as (_ & Hcq & _ & _ & _ & Hmx & _). pose proof (base_stored b q Hq Hu) as Hbq.
    split_and!; [|done|by right]. split; [by destruct Hbq|]. cbn. rewrite Hcq. split; [by eexists|]. by intros [?|?].
  - eexists _, _. split; [reflexivity|]. split_and!; [|done|by left]. split; [done|]. split; [done|]. by intros [?|?].
Qed.

Lemma sempFirstByte_keeps b p :
  wf p -> state p <> fn_sempBluetoothReadData -> state p <> fn_sempBluetoothReadCrc -> is_u8 b ->
  keeps (sempFirstByte b) p.
Proof.
  intros Hp Hd Hr Hu. destruct (sempFirstByte_silent b p Hp Hd Hr Hu) as (a & p' & H & Hp' & _).
  by exists a, p', [].
Qed.

(** The common start of the states after the first: check and store. *)
Definition taken (b : Z) (p : SEMP_PARSE_STATE) : SEMP_PARSE_STATE := stored b (checked b p).

Lemma take_byte_ok {A} b (k : P A) p :
  wf p -> state p <> fn_sempFirstByte ->
  (update_crc b;; store_byte b;; k) p = k (taken b p).
Proof.
  intros (Hb & Hc & _) Hs. rewrite (bind_silent _ _ _ _ _ (update_crc_ok b p (Hc Hs))).
  by rewrite (bind_silent _ _ _ _ _ (store_byte_ok b _ (base_checked b p Hb))).
Qed.

Lemma semp_taken_members b p :
  wf p -> is_u8 b ->
  base (taken b p) /\ state (taken b p) = state p /\ computeCrc (taken b p) = computeCrc p /\
  length p <= length (taken b p).
Proof.
  intros (Hb & _) Hu. destruct (stored_members b (checked b p)) as (H1 & H2 & _ & _ & _ & _ & H7 & _).
  split_and!; [by apply base_stored, Hu; apply base_checked|done|done|done].
Qed.

Lemma sempBluetoothReadHeader_keeps b p :
  wf p -> state p = fn_sempBluetoothReadHeader -> is_u8 b -> keeps (sempBluetoothReadHeader b) p.
Proof.
  intros Hwf Hs Hu. unfold keeps, sempBluetoothReadHeader.
  rewrite take_byte_ok by (done || by rewrite Hs). destruct (semp_taken_members b p Hwf Hu) as (Hb & Hst & Hc & _).
  destruct Hwf as (_ & Hcrc & _). specialize (Hcrc ltac:(by rewrite Hs)).
  rewrite bind_gets. destruct (sizeof_SEMP_MESSAGE_HEADER <=? _) eqn:E.
  2: { eexists _, _, _. split; [reflexivity|]. split; [done|]. rewrite Hst, Hc, Hs. split; [done|]. by intros [?|?]. }
  unfold sizeof_SEMP_MESSAGE_HEADER in E.
  rewrite (bind_silent _ _ _ _ _ (semp_header_get_ok header_headerLength _ Hb ltac:(lia) ltac:(cbn; lia))).
  destruct (negb _).
  - rewrite bind_gets. unfold sempPrintf.
    destruct (printDebug _); (eexists _, _, _; split; [reflexivity|]);
      (split; [by destruct Hb|]; cbn; split; [done|]; by intros [?|?]).
  - rewrite (bind_silent _ _ _ _ _ (semp_header_get_ok header_messageLength _ Hb ltac:(lia) ltac:(cbn; lia))), bind_modify.
    set (q := with_bytesRemaining _ _). assert (base q) as Hq by (by destruct Hb).
    rewrite (bind_silent _ _ _ _ _ (semp_header_get_ok header_messageType q Hq ltac:(cbn; lia) ltac:(cbn; lia))).
    rewrite bind_modify, bind_gets. destruct (_ =? 0).
    + eexists _, _, _. split; [reflexivity|]. split; [by destruct Hb|]. cbn. rewrite Hc. split; [done|]. lia.
    + eexists _, _, _. split; [reflexivity|]. split; [by destruct Hb|]. cbn. rewrite Hc. split; [done|]. lia.
Qed.

Lemma sempBluetoothReadData_keeps b p :
  wf p -> state p = fn_sempBluetoothReadData -> is_u8 b -> keeps (sempBluetoothReadData b) p.
Proof.
  intros Hwf Hs Hu. unfold keeps, sempBluetoothReadData.
  rewrite take_byte_ok by (done || by rewrite Hs). destruct (semp_taken_members b p Hwf Hu) as (Hb & Hst & Hc & Hl).
  destruct Hwf as (_ & Hcrc & Hh). specialize (Hcrc ltac:(by rewrite Hs)). specialize (Hh ltac:(by left)).
  rewrite bind_gets, bind_modify, bind_gets. destruct (_ =? 0).
  - eexists _, _, _. split; [reflexivity|]. split; [by destruct Hb|]. cbn. rewrite Hc. split; [done|]. lia.
  - eexists _, _, _. split; [reflexivity|]. split; [by destruct Hb|]. cbn. rewrite Hc. split; [done|]. lia.
Qed.

Lemma read_last_ok p n :
  base p -> n = length p -> 4 <= n ->
  exists b4 b3 b2 b1, buffer_at (n - 4) p = Ok (b4, p, []) /\ buffer_at (n - 3) p = Ok (b3, p, []) /\
    buffer_at (n - 2) p = Ok (b2, p, []) /\ buffer_at (n - 1) p = Ok (b1, p, []).
Proof.
  intros Hb -> Hl. pose proof (base_length p Hb).
  destruct (semp_buffer_at_ok (length p - 4) p Hb) as [b4 H4]; [lia|].
  destruct (semp_buffer_at_ok (length p - 3) p Hb) as [b3 H3]; [lia|].
  destruct (semp_buffer_at_ok (length p - 2) p Hb) as [b2 H2]; [lia|].
  destruct (semp_buffer_at_ok (length p - 1) p Hb) as [b1 H1]; [lia|]. by exists b4, b3, b2, b1.
Qed.

Lemma sempBluetoothReadCrc_keeps b p :
  wf p -> state p = fn_sempBluetoothReadCrc -> is_u8 b -> keeps (sempBluetoothReadCrc b) p.
Proof.
  intros (Hb & Hcrc & Hh) Hs Hu. specialize (Hcrc ltac:(by rewrite Hs)). specialize (Hh ltac:(by right)).
  unfold keeps, sempBluetoothReadCrc. rewrite (bind_silent _ _ _ _ _ (store_byte_ok b p Hb)).
  destruct (stored_members b p) as (H1 & H2 & _ & _ & _ & _ & H7 & _).
  pose proof (base_stored b p Hb Hu) as Hb'. rewrite bind_gets, bind_modify, bind_gets.
  set (q := with_bytesRemaining _ _). assert (base q) as Hq by (by destruct Hb').
  destruct (negb _).
  { eexists _, _, _. split; [reflexivity|]. split; [done|]. cbn. rewrite H1, H2. split; [done|]. lia. }
  rewrite bind_gets. destruct (read_last_ok q (length q) Hq eq_refl) as (b4 & b3 & b2 & b1 & R4 & R3 & R2 & R1);
    [cbn; lia|].
  destruct (SEMP_CRC_SIZE <=? _) eqn:E; [|unfold SEMP_CRC_SIZE in E; cbn in E; lia].
  assert (wf (with_state fn_sempFirstByte q)) as Hwf'.
  { split; [by destruct Hq|]. split; [done|]. by intros [?|?]. }
  erewrite bind_silent.
  2: { rewrite (bind_silent _ _ _ _ _ R4), (bind_silent _ _ _ _ _ R3), (bind_silent _ _ _ _ _ R2),
         (bind_silent _ _ _ _ _ R1). reflexivity. }
  rewrite bind_gets. rewrite bind_gets. unfold id. destruct (_ =? _).
  - destruct (eomCallback q); (eexists _, _, _; split; [reflexivity|done]).
  - assert (exists o ev, (match badCrc q with
        | None => ret false
        | Some f => (emit (EvBadCrc f q);; ret (badCrc_fn f q))%c end : P bool) q = Ok (o, q, ev)) as (o & ev & Ho)
      by (destruct (badCrc q); by eexists _, _).
    apply (keeps_bind_state _ _ _ q); [|by eexists _, _, _].
    rewrite (bind_ok _ _ _ _ _ _ Ho). destruct o; [by eexists _, _|].
    rewrite (bind_silent _ _ _ _ _ R4), (bind_silent _ _ _ _ _ R3), (bind_silent _ _ _ _ _ R2),
      (bind_silent _ _ _ _ _ R1). unfold sempPrintf. destruct (printDebug q); by eexists _, _.
Qed.

(** Every byte is processed without undefined behaviour and keeps the invariant. *)
Lemma sempProcessByte_keeps b p : wf p -> is_u8 b -> keeps (sempProcessByte b) p.
Proof.
  intros Hwf Hb. unfold keeps, sempProcessByte. rewrite bind_gets.
  destruct (state p) eqn:Hs; cbn [call_state].
  - by apply sempFirstByte_keeps; rewrite ?Hs.
  - unfold sempBluetoothSync2. destruct (negb _); [by apply sempFirstByte_keeps; rewrite ?Hs|].
    rewrite take_byte_ok by (done || by rewrite Hs).
    destruct (semp_taken_members b p Hwf Hb) as (Hbase & Hst & Hc & _). destruct Hwf as (_ & Hcrc & _).
    eexists _, _, _. split; [reflexivity|]. split; [by destruct Hbase|]. cbn. rewrite Hc.
    split; [intros _; apply Hcrc; by rewrite Hs|]. by intros [?|?].
  - unfold sempBluetoothSync3. destruct (negb _); [by apply sempFirstByte_keeps; rewrite ?Hs|].
    rewrite take_byte_ok by (done || by rewrite Hs).
    destruct (semp_taken_members b p Hwf Hb) as (Hbase & Hst & Hc & _). destruct Hwf as (_ & Hcrc & _).
    eexists _, _, _. split; [reflexivity|]. split; [by destruct Hbase|]. cbn. rewrite Hc.
    split; [intros _; apply Hcrc; by rewrite Hs|]. by intros [?|?].
  - by apply sempBluetoothReadHeader_keeps.
  - by apply sempBluetoothReadData_keeps.
  - by apply sempBluetoothReadCrc_keeps.
Qed.

(** ** Delivery *)

(** A frame under way: the bytes [m] are stored and checked. *)
Record under_way (st : sempStateFunction) (m : list Z) (p : SEMP_PARSE_STATE) : Prop := {
  uw_base : base p;
  uw_state : state p = st;
  uw_compute : computeCrc p = Some fn_sempBluetoothComputeCrc;
  uw_stored : stored_bytes p = m;
  uw_crc : crc p = crc32_run 0xFFFFFFFF m
}.

Lemma uw_length st m p : under_way st m p -> length p = Z.of_nat (len m).
Proof.
  intros [Hb _ _ Hs _]. pose proof (base_buffer p Hb). pose proof (base_length p Hb).
  rewrite <-Hs. unfold stored_bytes. rewrite length_take. lia.
Qed.

Lemma stored_bytes_stored b p :
  base p -> length p < maxLength p -> stored_bytes (stored b p) = stored_bytes p ++ [b] /\
  length (stored b p) = length p + 1.
Proof.
  intros Hb Hl. pose proof (base_buffer p Hb). pose proof (base_length p Hb). unfold stored.
  destruct (length p <? maxLength p) eqn:E; [|lia]. split; [|done]. unfold stored_bytes. cbn.
  replace (Z.to_nat (length p + 1)) with (S (Z.to_nat (length p))) by lia. apply take_store. lia.
Qed.

Lemma under_way_taken st m p b :
  under_way st m p -> is_u8 b -> Z.of_nat (len m) < maxLength p ->
  under_way st (m ++ [b]) (taken b p) /\ maxLength (taken b p) = maxLength p /\
  scratch_bytesRemaining (taken b p) = scratch_bytesRemaining p /\
  eomCallback (taken b p) = eomCallback p /\ type (taken b p) = type p.
Proof.
  intros Hu Hb Hl. pose proof (uw_length _ _ _ Hu) as Hlen. destruct Hu as [Hbase Hst Hc Hs Hcrc].
  pose proof (stored_members b (checked b p)) as (H1 & H2 & H3 & H4 & H5 & H6 & H7 & H8 & H9 & H10).
  destruct (stored_bytes_stored b (checked b p)) as [Hsb _]; [by apply base_checked|cbn; lia|].
  split; [split|done].
  - apply base_stored; [by apply base_checked|done].
  - unfold taken. by rewrite H1.
  - unfold taken. by rewrite H2.
  - unfold taken. rewrite Hsb. by rewrite <-Hs.
  - unfold taken. rewrite H3. cbn. by rewrite Hcrc, crc32_run_app.
Qed.

Lemma semp_taken_run {A} b (k : P A) st m p :
  under_way st m p -> (update_crc b;; store_byte b;; k) p = k (taken b p).
Proof.
  intros [Hbase _ Hc _ _]. assert (is_Some (computeCrc p)) as Hsome by (by rewrite Hc; eexists).
  rewrite (bind_silent _ _ _ _ _ (update_crc_ok b p Hsome)).
  by rewrite (bind_silent _ _ _ _ _ (store_byte_ok b _ (base_checked b p Hbase))).
Qed.

(** The bytes [l] are all taken, silently, and more are wanted. *)
Inductive accepted : list Z -> SEMP_PARSE_STATE -> SEMP_PARSE_STATE -> Prop :=
| accepted_nil p : accepted [] p p
| accepted_cons b l p q r :
    sempProcessByte b p = Ok (true, q, []) -> accepted l q r -> accepted (b :: l) p r.

Lemma accepted_one b p q : sempProcessByte b p = Ok (true, q, []) -> accepted [b] p q.
Proof. intros H. econstructor; [done|constructor]. Qed.

Lemma accepted_app l1 l2 p q r : accepted l1 p q -> accepted l2 q r -> accepted (l1 ++ l2) p r.
Proof. induction 1; intros H'; [done|]. econstructor; [done|auto]. Qed.

(** The calls for the bytes of a list, with the answers ignored. *)
Definition feed (l : list Z) : P unit := for_each l (fun b => sempProcessByte b;; ret tt).

Lemma feed_app l1 l2 : forall p, feed (l1 ++ l2) p = (feed l1;; feed l2)%c p.
Proof. intros p. unfold feed. apply for_each_app. Qed.

Lemma accepted_feed l1 l2 p q : accepted l1 p q -> feed (l1 ++ l2) p = feed l2 q.
Proof.
  induction 1 as [|b l p q r H _ IH]; [done|]. rewrite <-IH. unfold feed. cbn [for_each app].
  rewrite (bind_silent _ _ _ tt q); [done|]. by rewrite (bind_silent _ _ _ _ _ H).
Qed.

Lemma accepted_loop l1 l2 n p q :
  accepted l1 p q -> 0 <= n -> n + Z.of_nat (len l1) < 65536 ->
  process_loop (l1 ++ l2) n p = process_loop l2 (n + Z.of_nat (len l1)) q.
Proof.
  intros H. revert n. induction H as [|b l p q r H _ IH]; intros n H0 Hn; cbn [app].
  - by rewrite Z.add_0_r.
  - cbn [process_loop List.length] in *. rewrite (bind_silent _ _ _ _ _ H).
    rewrite u16_id, IH by (unfold is_u16; lia). f_equal. lia.
Qed.

(** The header, all but its last byte. *)
Lemma header_run l m p :
  under_way fn_sempBluetoothReadHeader m p -> bytes l ->
  Z.of_nat (len m + len l) < 20 -> Z.of_nat (len m + len l) <= maxLength p ->
  exists p', accepted l p p' /\ under_way fn_sempBluetoothReadHeader (m ++ l) p' /\
             maxLength p' = maxLength p /\ eomCallback p' = eomCallback p.
Proof.
  intros Hu Hl. revert m p Hu. induction Hl as [|b l Hb Hl IH]; intros m p Hu H20 Hmax.
  { exists p. rewrite app_nil_r. split_and!; [constructor|done..]. }
  cbn [List.length] in *.
  destruct (under_way_taken _ _ _ b Hu Hb ltac:(lia)) as (Hu' & Hm' & _ & He' & _).
  destruct (IH (m ++ [b]) (taken b p) Hu') as (p' & Hf & Hp' & Hmx & Heo).
  - rewrite length_app. cbn. lia.
  - rewrite length_app, Hm'. cbn. lia.
  - exists p'. rewrite <-app_assoc in Hp'. split_and!; [|done|congruence|congruence].
    apply (accepted_cons _ _ _ (taken b p)); [|done]. unfold sempProcessByte. rewrite bind_gets, (uw_state _ _ _ Hu). cbn [call_state].
    unfold sempBluetoothReadHeader. rewrite (semp_taken_run _ _ _ _ _ Hu), bind_gets.
    pose proof (uw_length _ _ _ Hu') as Hlen. rewrite length_app in Hlen. cbn in Hlen.
    unfold sizeof_SEMP_MESSAGE_HEADER. by destruct (20 <=? _) eqn:E; [lia|].
Qed.

(** The check is read: [m] is the frame so far, [k] bytes of the check are missing. *)
Record at_crc (c k : Z) (m : list Z) (p : SEMP_PARSE_STATE) : Prop := {
  ac_base : base p;
  ac_state : state p = fn_sempBluetoothReadCrc;
  ac_stored : stored_bytes p = m;
  ac_crc : scratch_crc p = c;
  ac_remaining : scratch_bytesRemaining p = k
}.

Lemma ac_length c k m p : at_crc c k m p -> length p = Z.of_nat (len m).
Proof.
  intros [Hb _ Hs _ _]. pose proof (base_buffer p Hb). pose proof (base_length p Hb).
  rewrite <-Hs. unfold stored_bytes. rewrite length_take. lia.
Qed.

Lemma semp_begin_crc_ok st m p :
  under_way st m p ->
  exists p', begin_crc p = Ok (tt, p', []) /\ at_crc (Z.lxor (crc32_run 0xFFFFFFFF m) 0xFFFFFFFF) 4 m p' /\
    maxLength p' = maxLength p /\ eomCallback p' = eomCallback p /\ type p' = type p.
Proof.
  intros [Hb Hst Hc Hs Hcrc]. eexists. split; [reflexivity|]. split; [|done].
  split; [by destruct Hb|done|done|cbn; by rewrite Hcrc|done].
Qed.

(** The last byte of the header. *)
Lemma header_last b m p :
  under_way fn_sempBluetoothReadHeader m p -> is_u8 b -> len m = 19%nat -> 20 <= maxLength p ->
  get header_headerLength (m ++ [b]) = 0x14 ->
  exists p', sempProcessByte b p = Ok (true, p', []) /\ maxLength p' = maxLength p /\
    eomCallback p' = eomCallback p /\ type p' = get header_messageType (m ++ [b]) /\
    if get header_messageLength (m ++ [b]) =? 0
    then at_crc (Z.lxor (crc32_run 0xFFFFFFFF (m ++ [b])) 0xFFFFFFFF) 4 (m ++ [b]) p'
    else under_way fn_sempBluetoothReadData (m ++ [b]) p' /\
         scratch_bytesRemaining p' = get header_messageLength (m ++ [b]).
Proof.
  intros Hu Hb H19 Hmax Hh. destruct (under_way_taken _ _ _ b Hu Hb ltac:(lia)) as (Hu' & Hm' & _ & He' & _).
  pose proof (uw_length _ _ _ Hu') as Hlen. rewrite length_app, H19 in Hlen. cbn in Hlen.
  unfold sempProcessByte. rewrite bind_gets, (uw_state _ _ _ Hu). cbn [call_state].
  unfold sempBluetoothReadHeader. rewrite (semp_taken_run _ _ _ _ _ Hu), bind_gets.
  unfold sizeof_SEMP_MESSAGE_HEADER. destruct (20 <=? _) eqn:E; [|lia].
  pose proof (uw_base _ _ _ Hu') as Hbase. pose proof (uw_stored _ _ _ Hu') as Hsb.
  rewrite (bind_silent _ _ _ _ _ (semp_header_get_ok header_headerLength _ Hbase ltac:(lia) ltac:(cbn; lia))).
  rewrite Hsb, Hh. change (negb (0x14 =? SEMP_HEADER_LENGTH)) with false. cbv iota.
  rewrite (bind_silent _ _ _ _ _ (semp_header_get_ok header_messageLength _ Hbase ltac:(lia) ltac:(cbn; lia))), bind_modify.
  set (q := with_bytesRemaining _ _). assert (base q) as Hq by (by destruct Hbase).
  rewrite (bind_silent _ _ _ _ _ (semp_header_get_ok header_messageType q Hq ltac:(cbn; lia) ltac:(cbn; lia))).
  rewrite bind_modify, bind_gets. set (q' := with_type _ q).
  assert (under_way fn_sempBluetoothReadHeader (m ++ [b]) q') as Hq' by (by destruct Hu' as [[]]).
  assert (type q' = get header_messageType (m ++ [b])) as Hty by (cbn; by rewrite <-Hsb).
  change (scratch_bytesRemaining q') with (get header_messageLength (stored_bytes (taken b p))).
  rewrite Hsb. destruct (get header_messageLength (m ++ [b]) =? 0) eqn:E0.
  - destruct (semp_begin_crc_ok _ _ _ Hq') as (p' & Hp' & Hat & Hmx & Heo & Ht').
    exists p'. rewrite (bind_silent _ _ _ _ _ Hp').
    split_and!; [done|by rewrite Hmx|by rewrite Heo|by rewrite Ht'|done].
  - eexists. split; [reflexivity|]. split_and!; [done|done|done| |].
    + destruct Hq' as [Hb1 Hs1 Hc1 Hst1 Hcr1]. split; [by destruct Hb1|done..].
    + cbn. by rewrite Hsb.
Qed.

(** The data. *)
Lemma data_run l m p :
  under_way fn_sempBluetoothReadData m p -> bytes l -> l <> [] ->
  scratch_bytesRemaining p = Z.of_nat (len l) -> Z.of_nat (len l) < 65536 ->
  Z.of_nat (len m + len l) <= maxLength p ->
  exists p', accepted l p p' /\ maxLength p' = maxLength p /\
    eomCallback p' = eomCallback p /\ type p' = type p /\
    at_crc (Z.lxor (crc32_run 0xFFFFFFFF (m ++ l)) 0xFFFFFFFF) 4 (m ++ l) p'.
Proof.
  intros Hu Hl. revert m p Hu. induction Hl as [|b l Hb Hl IH]; intros m p Hu Hne Hr H16 Hmax; [done|].
  cbn [List.length] in *.
  destruct (under_way_taken _ _ _ b Hu Hb ltac:(lia)) as (Hu' & Hm' & Hr' & He' & Ht').
  set (q := with_bytesRemaining (Z.of_nat (len l)) (taken b p)).
  assert (under_way fn_sempBluetoothReadData (m ++ [b]) q) as Hq by (by destruct Hu' as [[]]).
  assert (sempProcessByte b p = (when (Z.of_nat (len l) =? 0) begin_crc;; ret true)%c q) as Hstep.
  { unfold sempProcessByte. rewrite bind_gets, (uw_state _ _ _ Hu). cbn [call_state].
    unfold sempBluetoothReadData. rewrite (semp_taken_run _ _ _ _ _ Hu), bind_gets, bind_modify, bind_gets.
    rewrite Hr', Hr. by replace (u16 (Z.of_nat (S (len l)) - 1)) with (Z.of_nat (len l))
      by (rewrite u16_id; unfold is_u16; lia). }
  destruct l as [|b' l].
  - destruct (semp_begin_crc_ok _ _ _ Hq) as (p' & Hp' & Hat & Hmx & Heo & Hty).
    exists p'. split_and!; [|by rewrite Hmx|by rewrite Heo|by rewrite Hty|done].
    apply accepted_one. rewrite Hstep. cbn [List.length Z.of_nat Z.eqb when]. by rewrite (bind_silent _ _ _ _ _ Hp').
  - destruct (IH (m ++ [b]) q Hq) as (p' & Hf & Hmx & Heo & Hty & Hat).
    + done.
    + done.
    + lia.
    + rewrite length_app. change (maxLength q) with (maxLength (taken b p)). cbn [List.length] in *. lia.
    + exists p'. rewrite <-app_assoc in Hat. split_and!; [|by rewrite Hmx|by rewrite Heo|by rewrite Hty|done].
      apply (accepted_cons _ _ _ q); [|done]. rewrite Hstep. done.
Qed.

(** The check. *)
Lemma crc_byte b c k m p :
  at_crc c (k + 1) m p -> is_u8 b -> 0 < k < 65535 -> Z.of_nat (len m) < maxLength p ->
  exists p', sempProcessByte b p = Ok (true, p', []) /\ at_crc c k (m ++ [b]) p' /\
    maxLength p' = maxLength p /\ eomCallback p' = eomCallback p /\ type p' = type p.
Proof.
  intros Hat Hb Hk Hm. pose proof (ac_length _ _ _ _ Hat) as Hlen. destruct Hat as [Hbase Hst Hs Hc Hr].
  destruct (stored_members b p) as (H1 & _ & _ & H4 & H5 & H6 & _ & H8 & H9 & _).
  destruct (stored_bytes_stored b p Hbase ltac:(lia)) as [Hsb _].
  exists (with_bytesRemaining k (stored b p)). split_and!; [|split| |..]; try done.
  - unfold sempProcessByte. rewrite bind_gets, Hst. cbn [call_state]. unfold sempBluetoothReadCrc.
    rewrite (bind_silent _ _ _ _ _ (store_byte_ok b p Hbase)), bind_gets, bind_modify, bind_gets.
    rewrite H4, Hr, u16_id by (unfold is_u16; lia). replace (k + 1 - 1) with k by lia. cbn.
    by destruct (Z.eqb_spec k 0); [lia|].
  - by destruct (base_stored b p Hbase Hb).
  - cbn. by rewrite H1.
  - change (stored_bytes (stored b p) = m ++ [b]). by rewrite Hsb, Hs.
  - cbn. by rewrite H5.
Qed.

Lemma buffer_at_stored i v p :
  stored_bytes p !! i = Some v -> buffer_at (Z.of_nat i) p = Ok (v, p, []).
Proof.
  intros [Hv _]%lookup_take_Some. unfold buffer_at. rewrite bind_gets. unfold lift, id.
  by rewrite (load_ok _ _ _ Hv).
Qed.

(** The last byte of the check: the message is delivered. *)
Lemma crc_last f m b1 b2 b3 b4 p :
  at_crc (le_combine [b1; b2; b3; b4]) 1 (m ++ [b1; b2; b3]) p -> bytes [b1; b2; b3; b4] ->
  Z.of_nat (len m) + 4 <= maxLength p -> eomCallback p = Some f ->
  exists p', sempProcessByte b4 p = Ok (false, with_state fn_sempFirstByte p', [EvEom f p' (type p)]) /\
    stored_bytes p' = m ++ [b1; b2; b3; b4] /\ base p' /\ type p' = type p /\
    maxLength p' = maxLength p /\ eomCallback p' = Some f.
Proof.
  intros Hat Hb Hm Hf. pose proof (ac_length _ _ _ _ Hat) as Hlen. rewrite length_app in Hlen. cbn in Hlen.
  destruct Hat as [Hbase Hst Hs Hc Hr].
  destruct (stored_members b4 p) as (_ & _ & _ & H4 & H5 & H6 & _ & H8 & H9 & _).
  destruct (stored_bytes_stored b4 p Hbase ltac:(lia)) as [Hsb Hl]. rewrite Hs, <-app_assoc in Hsb. cbn in Hsb.
  apply Forall_cons_1 in Hb as [B1 [B2 [B3 [B4 _]%Forall_cons_1]%Forall_cons_1]%Forall_cons_1].
  set (q := with_bytesRemaining 0 (stored b4 p)). exists q.
  assert (base q) as Hq by (by destruct (base_stored b4 p Hbase B4)).
  split_and!; try done; [|change (eomCallback (stored b4 p) = Some f); by rewrite H8].
  unfold sempProcessByte. rewrite bind_gets, Hst. cbn [call_state]. unfold sempBluetoothReadCrc.
  rewrite (bind_silent _ _ _ _ _ (store_byte_ok b4 p Hbase)), bind_gets, bind_modify, bind_gets, H4, Hr.
  change (u16 (1 - 1)) with 0. fold q. change (negb (scratch_bytesRemaining q =? 0)) with false. cbv iota.
  rewrite bind_gets. change (length q) with (length (stored b4 p)). rewrite Hl, Hlen.
  destruct (SEMP_CRC_SIZE <=? _) eqn:E; [|unfold SEMP_CRC_SIZE in E; lia].
  assert (forall i v, [b1; b2; b3; b4] !! i = Some v ->
    buffer_at (Z.of_nat (len m + 3) + 1 - (4 - Z.of_nat i)) q = Ok (v, q, [])) as Hat.
  { intros i v Hv. replace (_ - _) with (Z.of_nat (len m + i)) by lia. apply buffer_at_stored.
    change (stored_bytes q) with (stored_bytes (stored b4 p)). rewrite Hsb, lookup_app_r by lia.
    by replace (len m + i - len m)%nat with i by lia. }
  rewrite (bind_silent _ _ _ (le_combine [b1; b2; b3; b4]) q).
  2: { rewrite (bind_silent _ _ _ _ _ (Hat 0%nat b1 eq_refl)), (bind_silent _ _ _ _ _ (Hat 1%nat b2 eq_refl)).
       rewrite (bind_silent _ _ _ _ _ (Hat 2%nat b3 eq_refl)), (bind_silent _ _ _ _ _ (Hat 3%nat b4 eq_refl)).
       by rewrite lor_bytes_4. }
  rewrite !bind_gets. change (scratch_crc q) with (scratch_crc (stored b4 p)). rewrite H5, Hc, Z.eqb_refl.
  change (eomCallback (id q)) with (eomCallback (stored b4 p)). rewrite H8, Hf. unfold id.
  change (type q) with (type (stored b4 p)). rewrite H9. done.
Qed.

(** ** Frames *)

(** Between two messages. *)
Definition idle (p : SEMP_PARSE_STATE) : Prop := base p /\ state p = fn_sempFirstByte.

Lemma under_way_next st st' m p b :
  under_way st m p -> is_u8 b -> Z.of_nat (len m) < maxLength p ->
  under_way st' (m ++ [b]) (with_state st' (taken b p)) /\
  maxLength (with_state st' (taken b p)) = maxLength p /\
  eomCallback (with_state st' (taken b p)) = eomCallback p.
Proof.
  intros Hu Hb Hm. destruct (under_way_taken _ _ _ b Hu Hb Hm) as (H & Hmx & _ & He & _).
  split; [by destruct H as [[]]|done].
Qed.

Lemma start_run p :
  idle p -> 3 <= maxLength p ->
  exists p', accepted [0xAA; 0x44; 0x18] p p' /\ under_way fn_sempBluetoothReadHeader [0xAA; 0x44; 0x18] p' /\
    maxLength p' = maxLength p /\ eomCallback p' = eomCallback p.
Proof.
  intros [Hb Hs] Hmax.
  set (q0 := with_computeCrc (Some fn_sempBluetoothComputeCrc) (with_crc 0xFFFFFFFF (with_crc 0 (with_length 0 p)))).
  assert (under_way fn_sempFirstByte [] q0) as H0 by (destruct Hb; by repeat split; cbn; try lia).
  destruct (under_way_next _ fn_sempBluetoothSync2 _ _ 0xAA H0) as (H1 & M1 & E1); [done|cbn; lia|].
  set (q1 := with_state fn_sempBluetoothSync2 _) in *. change (maxLength q1 = maxLength p) in M1.
  destruct (under_way_next _ fn_sempBluetoothSync3 _ _ 0x44 H1) as (H2 & M2 & E2); [done|cbn [List.length app]; lia|].
  set (q2 := with_state fn_sempBluetoothSync3 _) in *.
  destruct (under_way_next _ fn_sempBluetoothReadHeader _ _ 0x18 H2) as (H3 & M3 & E3);
    [done|cbn [List.length app]; lia|].
  exists (with_state fn_sempBluetoothReadHeader (taken 0x18 q2)).
  split_and!; [|done|lia|by etrans; [exact E3|etrans; [exact E2|exact E1]]].
  apply (accepted_cons _ _ _ q1).
  { unfold sempProcessByte. rewrite bind_gets, Hs. cbn [call_state]. unfold sempFirstByte, sempBluetoothPreamble.
    rewrite !bind_modify. change (negb (0xAA =? SEMP_SYNC_BYTE_1)) with false. cbv iota.
    rewrite !bind_modify. fold q0. by rewrite (semp_taken_run _ _ _ _ _ H0). }
  apply (accepted_cons _ _ _ q2); [|apply accepted_one].
  - unfold sempProcessByte. rewrite bind_gets, (uw_state _ _ _ H1). cbn [call_state]. unfold sempBluetoothSync2.
    change (negb (0x44 =? SEMP_SYNC_BYTE_2)) with false. cbv iota. by rewrite (semp_taken_run _ _ _ _ _ H1).
  - unfold sempProcessByte. rewrite bind_gets, (uw_state _ _ _ H2). cbn [call_state]. unfold sempBluetoothSync3.
    change (negb (0x18 =? SEMP_SYNC_BYTE_3)) with false. cbv iota. by rewrite (semp_taken_run _ _ _ _ _ H2).
Qed.

(** The fields of a frame a sender of this parser's protocol can choose: the
    eight header bytes before the length field, the six after it, the payload. *)
Record content := Content { front : list Z; back : list Z; payload : list Z }.

Definition frame_of (x : content) : list Z := custom_frame (0x14 :: front x) (back x) (payload x).

(** The message type is the fourth byte after the length field. *)
Definition type_of (x : content) : Z := nth 3 (back x) 0.

Definition sendable (max : Z) (x : content) : Prop :=
  len (front x) = 8%nat /\ len (back x) = 6%nat /\ bytes (front x) /\ bytes (back x) /\ bytes (payload x) /\
  Z.of_nat (len (payload x)) + 24 <= max.

Definition header_of (x : content) : list Z :=
  [0xAA; 0x44; 0x18] ++ 0x14 :: front x ++ le_split 2 (Z.of_nat (len (payload x))) ++ back x.

Lemma header_of_fields max x :
  sendable max x -> max < 65536 ->
  len (header_of x) = 20%nat /\ get header_headerLength (header_of x) = 0x14 /\
  get header_messageLength (header_of x) = Z.of_nat (len (payload x)) /\
  get header_messageType (header_of x) = type_of x /\ bytes (header_of x).
Proof.
  intros (Hf & Hk & Bf & Bk & Bp & Hlen) Hmax. unfold header_of, type_of. destruct x as [f k l]. cbn [front back payload] in *.
  destruct f as [|f1 [|f2 [|f3 [|f4 [|f5 [|f6 [|f7 [|f8 [|]]]]]]]]]; try done.
  destruct k as [|k1 [|k2 [|k3 [|k4 [|k5 [|k6 [|]]]]]]]; try done.
  split_and!; [done|done| |unfold get; cbn; lia|].
  - unfold get. cbn [offset size header_messageLength app drop take le_split le_combine]. mlia.
  - repeat (apply Forall_cons; split; [done|]). apply Forall_app; split; [done|].
    apply Forall_app; split; [apply le_split_bytes|done].
Qed.

Lemma split_last (l : list Z) n : len l = S n -> exists k z, l = k ++ [z] /\ len k = n.
Proof.
  intros H. destruct l as [|z k _] using rev_ind; [done|].
  exists k, z. rewrite length_app in H. cbn in H. split; [done|lia].
Qed.

(** All of a frame but its check. *)
Lemma semp_body_run x p :
  idle p -> sendable (maxLength p) x ->
  exists p', accepted (header_of x ++ payload x) p p' /\ maxLength p' = maxLength p /\
    eomCallback p' = eomCallback p /\ type p' = type_of x /\
    at_crc (Z.lxor (crc32_run 0xFFFFFFFF (header_of x ++ payload x)) 0xFFFFFFFF) 4 (header_of x ++ payload x) p'.
Proof.
  intros Hi Hx. pose proof (base_max p (proj1 Hi)) as H16.
  destruct (header_of_fields _ _ Hx H16) as (Hlen & Hh & Hml & Hty & Hbh).
  pose proof Hx as (Hf & Hk & _ & _ & Hbp & Hmax).
  destruct (start_run p Hi ltac:(lia)) as (p1 & A1 & U1 & M1 & E1).
  unfold header_of in *. set (r := 0x14 :: front x ++ _) in *.
  destruct (split_last r 16) as (k & z & Hr & Hkl). { rewrite length_app in Hlen. cbn [List.length] in Hlen. lia. }
  rewrite Hr in *. apply Forall_app in Hbh as [_ [Hbk [Hbz _]%Forall_cons_1]%Forall_app].
  destruct (header_run k _ p1 U1 Hbk) as (p2 & A2 & U2 & M2 & E2); [cbn; lia|cbn; lia|].
  rewrite app_assoc in *.
  destruct (header_last z _ p2 U2 Hbz) as (p3 & A3 & M3 & E3 & T3 & Hp3); [cbn; lia|lia|done|].
  apply accepted_one in A3. pose proof (accepted_app _ _ _ _ _ (accepted_app _ _ _ _ _ A1 A2) A3) as A123.
  rewrite Hml in Hp3. rewrite Hty in T3. destruct (payload x) as [|b l] eqn:Hl.
  - exists p3. rewrite app_nil_r. cbn in Hp3. split_and!; [done|lia|congruence|done|done].
  - destruct Hp3 as [U3 R3]. rewrite <-Hl in *.
    destruct (data_run (payload x) _ p3 U3 Hbp) as (p4 & A4 & M4 & E4 & T4 & C4); [by rewrite Hl|done|lia|lia|].
    exists p4. split_and!; [by eapply accepted_app|lia|congruence|congruence|done].
Qed.

Lemma frame_of_split max x :
  sendable max x -> max < 65536 ->
  exists b1 b2 b3 b4, frame_of x = (header_of x ++ payload x) ++ [b1; b2; b3; b4] /\ bytes [b1; b2; b3; b4] /\
    le_combine [b1; b2; b3; b4] = Z.lxor (crc32_run 0xFFFFFFFF (header_of x ++ payload x)) 0xFFFFFFFF.
Proof.
  intros Hx Hmax. destruct (header_of_fields _ _ Hx Hmax) as (_ & _ & _ & _ & Hbh).
  pose proof Hx as (_ & _ & _ & _ & Hbp & _).
  assert (frame_of x = (header_of x ++ payload x) ++ custom_check (header_of x ++ payload x)) as ->.
  { unfold frame_of, custom_frame, header_of. cbn [app]. by rewrite <-!app_assoc. }
  unfold custom_check. rewrite <-crc32_run_ref by (done || by apply Forall_app).
  pose proof (crc32_run_range 0xFFFFFFFF (header_of x ++ payload x) ltac:(done)) as Hr.
  set (v := Z.lxor _ _). assert (is_u32 v) as Hv by (by apply lxor_u32). clearbody v.
  pose proof (le_combine_split 4 v ltac:(exact Hv)) as Hc. pose proof (le_split_bytes 4 v) as Hbv.
  pose proof (length_le_split 4 v) as Hlen. clear Hv Hr.
  destruct (le_split 4 v) as [|b1 [|b2 [|b3 [|b4 [|]]]]]; try done. by exists b1, b2, b3, b4.
Qed.

(** A delivery of the content [x] to the callback [f]. *)
Definition delivers (f : nat) (e : Event) (x : content) : Prop :=
  exists q, e = EvEom f q (type_of x) /\ stored_bytes q = frame_of x.

(** A whole frame: every byte but the last asks for more, the last delivers. *)
Lemma semp_frame_run f x p :
  idle p -> eomCallback p = Some f -> sendable (maxLength p) x ->
  exists l b q p' e, frame_of x = l ++ [b] /\ accepted l p q /\ sempProcessByte b q = Ok (false, p', [e]) /\
    delivers f e x /\ idle p' /\ maxLength p' = maxLength p /\ eomCallback p' = Some f.
Proof.
  intros Hi Hf Hx. pose proof (base_max p (proj1 Hi)) as H16.
  destruct (frame_of_split _ _ Hx H16) as (b1 & b2 & b3 & b4 & Hfr & Hb & Hc).
  destruct (header_of_fields _ _ Hx H16) as (Hlen & _). pose proof Hx as (_ & _ & _ & _ & _ & Hmax).
  destruct (semp_body_run x p Hi Hx) as (p0 & A0 & M0 & E0 & T0 & C0). rewrite <-Hc in C0.
  set (m := header_of x ++ payload x) in *.
  assert (Z.of_nat (len m) + 4 <= maxLength p) as Hm by (unfold m; rewrite length_app; lia).
  pose proof Hb as [B1 [B2 [B3 _]%Forall_cons_1]%Forall_cons_1]%Forall_cons_1.
  destruct (crc_byte b1 _ 3 _ _ C0 B1) as (p1 & A1 & C1 & M1 & E1 & T1); [lia|lia|].
  destruct (crc_byte b2 _ 2 _ _ C1 B2) as (p2 & A2 & C2 & M2 & E2 & T2); [lia|rewrite length_app; cbn [List.length]; lia|].
  destruct (crc_byte b3 _ 1 _ _ C2 B3) as (p3 & A3 & C3 & M3 & E3 & T3); [lia|rewrite !length_app; cbn [List.length]; lia|].
  rewrite <-!app_assoc in C3. cbn [app] in C3.
  destruct (crc_last f m b1 b2 b3 b4 p3 C3 Hb) as (p4 & A4 & S4 & Hb4 & T4 & M4 & E4); [lia|congruence|].
  exists (m ++ [b1; b2; b3]), b4, p3, (with_state fn_sempFirstByte p4), (EvEom f p4 (type p3)).
  rewrite Hfr, <-app_assoc. split_and!; try done.
  - eapply accepted_app; [done|]. do 2 (econstructor; [done|]). by apply accepted_one.
  - exists p4. rewrite Hfr. split; [|done]. f_equal. congruence.
  - split; [by destruct Hb4|done].
  - change (maxLength p4 = maxLength p). lia.
Qed.

(** Bytes other than the first synchronisation byte leave an idle parser idle. *)
Lemma semp_noise_run l p :
  idle p -> Forall (fun b => b <> 0xAA) l ->
  exists p', feed l p = Ok (tt, p', []) /\ idle p' /\ maxLength p' = maxLength p /\ eomCallback p' = eomCallback p.
Proof.
  intros Hi Hl. revert p Hi. induction Hl as [|b l Hb Hl IH]; intros p [Hbase Hs]; [by exists p|].
  destruct (IH (with_crc 0 (with_length 0 p))) as (p' & Hf & Hi' & Hm & He).
  { split; [|done]. destruct Hbase. split; cbn; done || lia. }
  exists p'. split_and!; [|done|done|done]. rewrite <-Hf. unfold feed. cbn [for_each].
  rewrite (bind_silent _ _ _ tt (with_crc 0 (with_length 0 p))); [done|].
  unfold sempProcessByte. rewrite (bind_silent _ _ _ false (with_crc 0 (with_length 0 p))); [done|].
  rewrite bind_gets, Hs. cbn [call_state]. unfold sempFirstByte, sempBluetoothPreamble. rewrite !bind_modify.
  unfold SEMP_SYNC_BYTE_1. by destruct (Z.eqb_spec b 0xAA).
Qed.

(** Frames with noise in front of each. *)
Definition transmission (xs : list (list Z * content)) : list Z :=
  xs ≫= fun '(noise, x) => noise ++ frame_of x.

Lemma transmission_run f xs p :
  idle p -> eomCallback p = Some f ->
  Forall (fun '(noise, x) => Forall (fun b => b <> 0xAA) noise /\ sendable (maxLength p) x) xs ->
  exists p' ev, feed (transmission xs) p = Ok (tt, p', ev) /\ Forall2 (delivers f) ev (xs.*2) /\ idle p'.
Proof.
  revert p. induction xs as [|[noise x] xs IH]; intros p Hi Hf Hxs; [by exists p, []|].
  apply Forall_cons_1 in Hxs as [[Hn Hx] Hxs].
  destruct (semp_noise_run noise p Hi Hn) as (p1 & F1 & I1 & M1 & E1). rewrite <-M1 in Hx, Hxs.
  destruct (semp_frame_run f x p1 I1 ltac:(congruence) Hx) as (l & b & q & p2 & e & Hfr & A & B & D & I2 & M2 & E2).
  rewrite <-M2 in Hxs. destruct (IH p2 I2 E2 Hxs) as (p' & ev & F & Hev & I').
  exists p', (e :: ev). split_and!; [|by constructor|done].
  change (transmission ((noise, x) :: xs)) with ((noise ++ frame_of x) ++ transmission xs).
  rewrite <-app_assoc, feed_app, (bind_silent _ _ _ _ _ F1), Hfr, <-app_assoc.
  rewrite (accepted_feed _ _ _ _ A). change ([b] ++ transmission xs) with (b :: transmission xs).
  unfold feed in *. cbn [for_each].
  rewrite (bind_ok _ _ _ tt p2 [e]); [by rewrite F|]. by rewrite (bind_ok _ _ _ _ _ _ B).
Qed.

(** [sempProcessBuffer] on a frame does not look at what follows it. *)
Lemma semp_frame_buffer f x p :
  idle p -> eomCallback p = Some f -> sendable (maxLength p) x ->
  exists p' e, delivers f e x /\ idle p' /\
    forall rest, sempProcessBuffer (frame_of x ++ rest) p = Ok (Z.of_nat (len (frame_of x)) - 1, p', [e]).
Proof.
  intros Hi Hf Hx. destruct (semp_frame_run f x p Hi Hf Hx) as (l & b & q & p' & e & Hfr & A & B & D & I & _).
  exists p', e. split_and!; [done|done|]. intros rest. unfold sempProcessBuffer. rewrite Hfr, <-app_assoc, length_app.
  pose proof (base_max _ (proj1 Hi)) as H16. destruct (frame_of_split _ _ Hx H16) as (b1 & b2 & b3 & b4 & Hsp & _).
  destruct (header_of_fields _ _ Hx H16) as (Hh & _). pose proof Hx as (_ & _ & _ & _ & _ & Hmax).
  assert (len (frame_of x) = len l + 1)%nat as Hlen by (by rewrite Hfr, length_app).
  rewrite Hsp, !length_app in Hlen. cbn [List.length] in Hlen.
  rewrite (accepted_loop _ _ _ _ _ A) by lia. cbn [process_loop app List.length].
  rewrite (bind_ok _ _ _ _ _ _ B). cbn. do 3 f_equal. lia.
Qed.

(** A run over any bytes. *)
Lemma feed_keeps l p : wf p -> bytes l -> keeps (feed l) p.
Proof.
  intros Hp Hl. revert p Hp. induction Hl as [|b l Hb Hl IH]; intros p Hp; [by exists tt, p, []|].
  destruct (sempProcessByte_keeps b p Hp Hb) as (a & p1 & ev1 & H1 & Hp1).
  destruct (IH p1 Hp1) as (a' & p2 & ev2 & H2 & Hp2). exists a', p2, (ev1 ++ ev2). split; [|done].
  unfold feed in *. cbn [for_each]. rewrite (bind_ok _ _ _ tt p1 ev1); [by rewrite H2|].
  by rewrite (bind_ok _ _ _ _ _ _ H1), <-(app_nil_r ev1) at 1.
Qed.

(** A buffer shorter than the header. *)
Definition early (p : SEMP_PARSE_STATE) : Prop :=
  wf p /\ maxLength p < 20 /\ state p <> fn_sempBluetoothReadData /\ state p <> fn_sempBluetoothReadCrc.

Lemma early_taken b p st :
  early p -> is_u8 b -> state p <> fn_sempFirstByte -> st <> fn_sempBluetoothReadData -> st <> fn_sempBluetoothReadCrc ->
  early (with_state st (taken b p)).
Proof.
  intros (Hp & Hm & _) Hb Hs Hd Hr. destruct (semp_taken_members b p Hp Hb) as (Hbase & _ & Hc & _).
  destruct (stored_members b (checked b p)) as (_ & _ & _ & _ & _ & Hmx & _). destruct Hp as (_ & Hcrc & _).
  split_and!; [|change (maxLength (taken b p) < 20); unfold taken; by rewrite Hmx|done|done].
  split; [by destruct Hbase|]. split; [intros _; cbn; rewrite Hc; auto|]. by intros [?|?].
Qed.

Lemma early_first b p :
  early p -> is_u8 b -> exists a p', sempFirstByte b p = Ok (a, p', []) /\ early p'.
Proof.
  intros (Hp & Hm & Hd & Hr) Hb. destruct (sempFirstByte_silent b p Hp Hd Hr Hb) as (a & p' & H & Hp' & Hm' & Hs).
  exists a, p'. split; [done|]. split_and!; [done|lia|destruct Hs; congruence|destruct Hs; congruence].
Qed.

Lemma early_step b p :
  early p -> is_u8 b -> exists a p', sempProcessByte b p = Ok (a, p', []) /\ early p'.
Proof.
  intros He Hb. pose proof He as (Hp & Hm & Hd & Hr). unfold sempProcessByte. rewrite bind_gets.
  destruct (state p) eqn:Hs; cbn [call_state]; [by apply early_first|..|done|done].
  - unfold sempBluetoothSync2. destruct (negb _); [by apply early_first|].
    rewrite take_byte_ok by (done || by rewrite Hs). eexists _, _. split; [reflexivity|].
    by apply early_taken; rewrite ?Hs.
  - unfold sempBluetoothSync3. destruct (negb _); [by apply early_first|].
    rewrite take_byte_ok by (done || by rewrite Hs). eexists _, _. split; [reflexivity|].
    by apply early_taken; rewrite ?Hs.
  - unfold sempBluetoothReadHeader. rewrite take_byte_ok by (done || by rewrite Hs).
    assert (early (with_state (state (taken b p)) (taken b p))) as He'.
    { destruct (semp_taken_members b p Hp Hb) as (_ & Hst & _). by apply early_taken; rewrite ?Hst, ?Hs. }
    assert (early (taken b p)) as Ht by (by destruct (taken b p)).
    pose proof Ht as ((Hbase & _) & Hm' & _). pose proof (base_length _ Hbase). rewrite bind_gets.
    unfold sizeof_SEMP_MESSAGE_HEADER. destruct (20 <=? _) eqn:E; [lia|]. by eexists _, _.
Qed.

Lemma early_feed l p :
  early p -> bytes l -> exists p', feed l p = Ok (tt, p', []) /\ early p'.
Proof.
  intros Hp Hl. revert p Hp. induction Hl as [|b l Hb Hl IH]; intros p Hp; [by exists p|].
  destruct (early_step b p Hp Hb) as (a & p1 & H1 & Hp1). destruct (IH p1 Hp1) as (p' & H & Hp').
  exists p'. split; [|done]. unfold feed in *. cbn [for_each].
  rewrite (bind_silent _ _ _ tt p1); [done|]. by rewrite (bind_silent _ _ _ _ _ H1).
Qed.

End semp_theory.

(** The structure [sempInitParser] leaves. *)
Lemma sempInitParser_idle buffer max eom bad name :
  bytes buffer -> Z.of_nat (len buffer) = max -> max < 65536 -> idle (sempInitParser buffer max eom bad name).
Proof. intros Hb Hl Hm. repeat split; cbn; done || lia. Qed.

(* ------------------------------------------------------------------ *)
(** ** Properties *)

(** C16: The single-protocol parser, initialised with a buffer of the announced
    length, delivers every frame of a transmission, in order: frames of any
    content (an empty payload included) that fit the buffer, each preceded by any
    bytes other than 0xAA, reach the callback with their type and with exactly
    their bytes in the buffer; nothing else is delivered, and the parser ends
    between messages. *)
Theorem semp_transmission_delivered `{Application} f buffer max bad name xs :
  bytes buffer -> Z.of_nat (len buffer) = max -> max < 65536 ->
  Forall (fun '(noise, x) => Forall (fun b => b <> 0xAA) noise /\ sendable max x) xs ->
  exists p' ev,
    feed (transmission xs) (sempInitParser buffer max (Some f) bad name) = Ok (tt, p', ev) /\
    Forall2 (delivers f) ev (xs.*2) /\ idle p'.
Proof.
  intros Hb Hl Hm Hxs. apply transmission_run; [|done|done].
  by apply sempInitParser_idle.
Qed.

(** C17: Whatever bytes arrive, the single-protocol parser returns: it never reads
    or writes outside the buffer and never calls a null routine, and the invariant
    of its structure holds afterwards. *)
Theorem semp_safe `{Application} buffer max eom bad name l :
  bytes buffer -> Z.of_nat (len buffer) = max -> max < 65536 -> bytes l ->
  exists p' ev, feed l (sempInitParser buffer max eom bad name) = Ok (tt, p', ev) /\ wf p'.
Proof.
  intros Hb Hl Hm Hbl. destruct (sempInitParser_idle buffer max eom bad name Hb Hl Hm) as [Hi Hs].
  destruct (feed_keeps l (sempInitParser buffer max eom bad name)) as ([] & p' & ev & Hf & Hp').
  - split; [done|]. split; [done|]. by intros [?|?].
  - done.
  - by exists p', ev.
Qed.

(** [sempProcessBuffer] stops at the end of the first message, does not count
    its last byte and leaves what follows unread: for a frame followed by any
    bytes it returns one less than the length of the frame. *)
Theorem sempProcessBuffer_frame `{Application} f buffer max bad name x rest :
  bytes buffer -> Z.of_nat (len buffer) = max -> max < 65536 -> sendable max x ->
  exists p' e,
    sempProcessBuffer (frame_of x ++ rest) (sempInitParser buffer max (Some f) bad name) =
      Ok (Z.of_nat (len (frame_of x)) - 1, p', [e]) /\
    delivers f e x /\ idle p'.
Proof.
  intros Hb Hl Hm Hx. pose proof (sempInitParser_idle buffer max (Some f) bad name Hb Hl Hm) as Hi.
  destruct (semp_frame_buffer f x _ Hi eq_refl Hx) as (p' & e & D & I & Hrun). by exists p', e.
Qed.

(** After an interrupted synchronisation the parser does not go back to the
    start: with a stray byte between the first two synchronisation bytes it goes
    on in the middle of the pattern, and a transmission exists for which the
    message it then delivers begins with 0x44 and not with the pattern. *)
Theorem semp_false_sync `{Application} f :
  exists l p' q t,
    feed l (sempInitParser (replicate 64 0) 64 (Some f) None None) = Ok (tt, p', [EvEom f q t]) /\
    take 3 l = [0xAA; 0x00; 0x44] /\ take 2 (stored_bytes q) = [0x44; 0x18].
Proof.
  exists ([0xAA; 0x00] ++ [0x44; 0x18; 0x00; 0x14] ++ replicate 16 0 ++
          le_split 4 (Z.lxor (crc32_run 0 ([0x44; 0x18; 0x00; 0x14] ++ replicate 16 0)) 0xFFFFFFFF)).
  eexists _, _, _. split; [vm_compute; reflexivity|done].
Qed.

(** A parser with a buffer shorter than the 20 bytes of a header never
    delivers or reports anything, whatever arrives. *)
Theorem semp_short_buffer_silent `{Application} buffer max eom bad name l :
  bytes buffer -> Z.of_nat (len buffer) = max -> max < 20 -> bytes l ->
  exists p', feed l (sempInitParser buffer max eom bad name) = Ok (tt, p', []).
Proof.
  intros Hb Hl Hm Hbl. destruct (early_feed l (sempInitParser buffer max eom bad name)) as (p' & H' & _).
  - destruct (sempInitParser_idle buffer max eom bad name Hb Hl ltac:(lia)) as [Hi Hs].
    split_and!; [split; [done|]; split; [done|]; by intros [?|?]|done|done|done].
  - done.
  - by exists p'.
Qed.

(* ------------------------------------------------------------------ *)
(** ** Examples *)

Module SempSample.

Definition app : Application := fun _ _ => false.
Definition hello : content := Content [1; 0; 0; 0; 0; 0; 0; 0] [0; 0; 1; 7; 0; 0] [0x68; 0x69].
Definition empty : content := Content [1; 0; 0; 0; 0; 0; 0; 0] [0; 0; 1; 8; 0; 0] [].

Lemma sample_buffer n : bytes (replicate n 0) /\ Z.of_nat (len (replicate n 0)) = Z.of_nat n.
Proof. split; [by apply Forall_replicate|by rewrite length_replicate]. Qed.

Lemma sample_sendable : sendable 64 hello /\ sendable 64 empty.
Proof. by repeat split; try (apply bytesb_spec). Qed.

End SempSample.

Lemma semp_transmission_delivered_witness :
  exists p' ev,
    @feed SempSample.app (transmission [([0; 1; 2], SempSample.hello); ([], SempSample.empty)])
      (sempInitParser (replicate 64 0) 64 (Some 5%nat) None None) = Ok (tt, p', ev) /\
    Forall2 (delivers 5) ev [SempSample.hello; SempSample.empty] /\ idle p'.
Proof.
  destruct (SempSample.sample_buffer 64) as [Hb Hl]. destruct SempSample.sample_sendable as [H1 H2].
  apply (@semp_transmission_delivered SempSample.app 5 (replicate 64 0) 64 None None
    [([0; 1; 2], SempSample.hello); ([], SempSample.empty)]); [done|done|lia|].
  repeat constructor; done.
Defined.

Lemma semp_safe_witness :
  exists p' ev, @feed SempSample.app [0xAA; 0xAA; 0x44; 0xFF]
    (sempInitParser (replicate 64 0) 64 None None None) = Ok (tt, p', ev) /\ wf p'.
Proof.
  destruct (SempSample.sample_buffer 64) as [Hb Hl].
  apply (@semp_safe SempSample.app (replicate 64 0) 64 None None None [0xAA; 0xAA; 0x44; 0xFF]);
    [done|done|lia|by apply bytesb_spec].
Defined.

Lemma sempProcessBuffer_frame_witness :
  exists p' e,
    @sempProcessBuffer SempSample.app (frame_of SempSample.hello ++ [1; 2])
      (sempInitParser (replicate 64 0) 64 (Some 5%nat) None None) = Ok (25, p', [e]) /\
    delivers 5 e SempSample.hello /\ idle p'.
Proof.
  destruct (SempSample.sample_buffer 64) as [Hb Hl]. destruct SempSample.sample_sendable as [H1 _].
  apply (@sempProcessBuffer_frame SempSample.app 5 (replicate 64 0) 64 None None SempSample.hello [1; 2]);
    [done|done|lia|done].
Defined.

Lemma semp_short_buffer_silent_witness :
  exists p', @feed SempSample.app [0xAA; 0x44; 0x18]
    (sempInitParser (replicate 16 0) 16 (Some 5%nat) None None) = Ok (tt, p', []).
Proof.
  destruct (SempSample.sample_buffer 16) as [Hb Hl].
  apply (@semp_short_buffer_silent SempSample.app (replicate 16 0) 16 (Some 5%nat) None None [0xAA; 0x44; 0x18]);
    [done|done|lia|by apply bytesb_spec].
Defined.
