(* ===== verification/MultiParser.v ===== *)
(** * The multi-protocol parser

    [src/single_parser/multi_protocol_parser.c] and its header: the parse
    structure, the two static objects every structure shares, the CRC-32 table,
    the state routines of the three protocols, the framework and the
    statistics. *)
From S2P Require Import Prelude Crc.

(* ------------------------------------------------------------------ *)
(** ** Data *)

Definition MMP_MINIMUM_BUFFER_LENGTH : Z := 256.
Definition MMP_MAX_SENTENCE_NAME : Z := 16.

(** [MMP_PROTOCOL_TYPE] *)
Definition MMP_PROTOCOL_SEMP : Z := 0.
Definition MMP_PROTOCOL_NMEA : Z := 1.
Definition MMP_PROTOCOL_UBLOX : Z := 2.
Definition MMP_PROTOCOL_RTCM : Z := 3.
Definition MMP_PROTOCOL_COUNT : Z := 8.

(** The table has the entries of the one in [Crc]. *)
Definition mmp_crc32Table : list Z := [
   0x00000000; 0x77073096; 0xEE0E612C; 0x990951BA; 0x076DC419; 0x706AF48F;
   0xE963A535; 0x9E6495A3; 0x0EDB8832; 0x79DCB8A4; 0xE0D5E91E; 0x97D2D988;
   0x09B64C2B; 0x7EB17CBD; 0xE7B82D07; 0x90BF1D91; 0x1DB71064; 0x6AB020F2;
   0xF3B97148; 0x84BE41DE; 0x1ADAD47D; 0x6DDDE4EB; 0xF4D4B551; 0x83D385C7;
   0x136C9856; 0x646BA8C0; 0xFD62F97A; 0x8A65C9EC; 0x14015C4F; 0x63066CD9;
   0xFA0F3D63; 0x8D080DF5; 0x3B6E20C8; 0x4C69105E; 0xD56041E4; 0xA2677172;
   0x3C03E4D1; 0x4B04D447; 0xD20D85FD; 0xA50AB56B; 0x35B5A8FA; 0x42B2986C;
   0xDBBBC9D6; 0xACBCF940; 0x32D86CE3; 0x45DF5C75; 0xDCD60DCF; 0xABD13D59;
   0x26D930AC; 0x51DE003A; 0xC8D75180; 0xBFD06116; 0x21B4F4B5; 0x56B3C423;
   0xCFBA9599; 0xB8BDA50F; 0x2802B89E; 0x5F058808; 0xC60CD9B2; 0xB10BE924;
   0x2F6F7C87; 0x58684C11; 0xC1611DAB; 0xB6662D3D; 0x76DC4190; 0x01DB7106;
   0x98D220BC; 0xEFD5102A; 0x71B18589; 0x06B6B51F; 0x9FBFE4A5; 0xE8B8D433;
   0x7807C9A2; 0x0F00F934; 0x9609A88E; 0xE10E9818; 0x7F6A0DBB; 0x086D3D2D;
   0x91646C97; 0xE6635C01; 0x6B6B51F4; 0x1C6C6162; 0x856530D8; 0xF262004E;
   0x6C0695ED; 0x1B01A57B; 0x8208F4C1; 0xF50FC457; 0x65B0D9C6; 0x12B7E950;
   0x8BBEB8EA; 0xFCB9887C; 0x62DD1DDF; 0x15DA2D49; 0x8CD37CF3; 0xFBD44C65;
   0x4DB26158; 0x3AB551CE; 0xA3BC0074; 0xD4BB30E2; 0x4ADFA541; 0x3DD895D7;
   0xA4D1C46D; 0xD3D6F4FB; 0x4369E96A; 0x346ED9FC; 0xAD678846; 0xDA60B8D0;
   0x44042D73; 0x33031DE5; 0xAA0A4C5F; 0xDD0D7CC9; 0x5005713C; 0x270241AA;
   0xBE0B1010; 0xC90C2086; 0x5768B525; 0x206F85B3; 0xB966D409; 0xCE61E49F;
   0x5EDEF90E; 0x29D9C998; 0xB0D09822; 0xC7D7A8B4; 0x59B33D17; 0x2EB40D81;
   0xB7BD5C3B; 0xC0BA6CAD; 0xEDB88320; 0x9ABFB3B6; 0x03B6E20C; 0x74B1D29A;
   0xEAD54739; 0x9DD277AF; 0x04DB2615; 0x73DC1683; 0xE3630B12; 0x94643B84;
   0x0D6D6A3E; 0x7A6A5AA8; 0xE40ECF0B; 0x9309FF9D; 0x0A00AE27; 0x7D079EB1;
   0xF00F9344; 0x8708A3D2; 0x1E01F268; 0x6906C2FE; 0xF762575D; 0x806567CB;
   0x196C3671; 0x6E6B06E7; 0xFED41B76; 0x89D32BE0; 0x10DA7A5A; 0x67DD4ACC;
   0xF9B9DF6F; 0x8EBEEFF9; 0x17B7BE43; 0x60B08ED5; 0xD6D6A3E8; 0xA1D1937E;
   0x38D8C2C4; 0x4FDFF252; 0xD1BB67F1; 0xA6BC5767; 0x3FB506DD; 0x48B2364B;
   0xD80D2BDA; 0xAF0A1B4C; 0x36034AF6; 0x41047A60; 0xDF60EFC3; 0xA867DF55;
   0x316E8EEF; 0x4669BE79; 0xCB61B38C; 0xBC66831A; 0x256FD2A0; 0x5268E236;
   0xCC0C7795; 0xBB0B4703; 0x220216B9; 0x5505262F; 0xC5BA3BBE; 0xB2BD0B28;
   0x2BB45A92; 0x5CB36A04; 0xC2D7FFA7; 0xB5D0CF31; 0x2CD99E8B; 0x5BDEAE1D;
   0x9B64C2B0; 0xEC63F226; 0x756AA39C; 0x026D930A; 0x9C0906A9; 0xEB0E363F;
   0x72076785; 0x05005713; 0x95BF4A82; 0xE2B87A14; 0x7BB12BAE; 0x0CB61B38;
   0x92D28E9B; 0xE5D5BE0D; 0x7CDCEFB7; 0x0BDBDF21; 0x86D3D2D4; 0xF1D4E242;
   0x68DDB3F8; 0x1FDA836E; 0x81BE16CD; 0xF6B9265B; 0x6FB077E1; 0x18B74777;
   0x88085AE6; 0xFF0F6A70; 0x66063BCA; 0x11010B5C; 0x8F659EFF; 0xF862AE69;
   0x616BFFD3; 0x166CCF45; 0xA00AE278; 0xD70DD2EE; 0x4E048354; 0x3903B3C2;
   0xA7672661; 0xD06016F7; 0x4969474D; 0x3E6E77DB; 0xAED16A4A; 0xD9D65ADC;
   0x40DF0B66; 0x37D83BF0; 0xA9BCAE53; 0xDEBB9EC5; 0x47B2CF7F; 0x30B5FFE9;
   0xBDBDF21C; 0xCABAC28A; 0x53B39330; 0x24B4A3A6; 0xBAD03605; 0xCDD70693;
   0x54DE5729; 0x23D967BF; 0xB3667A2E; 0xC4614AB8; 0x5D681B02; 0x2A6F2B94;
   0xB40BBE37; 0xC30C8EA1; 0x5A05DF1B; 0x2D02EF8D ].

Lemma mmp_crc32Table_eq : mmp_crc32Table = semp_crc32Table.
Proof. reflexivity. Qed.

Definition mmp_protocolNames : list string :=
  ["SEMP"; "NMEA"; "u-blox"; "RTCM"; "SPARTN"; "SBF"; "Unicore-Hash"; "Unicore-Binary"].

(** The entries of the parser table. *)
Inductive MMP_PREAMBLE := fn_mmpSempPreamble | fn_mmpNmeaPreamble | fn_mmpUbloxPreamble | fn_mmpRtcmPreamble.

Definition mmp_parserTable : list MMP_PREAMBLE :=
  [fn_mmpSempPreamble; fn_mmpNmeaPreamble; fn_mmpUbloxPreamble; fn_mmpRtcmPreamble].
Definition mmp_parserNameTable : list string := ["SEMP"; "NMEA"; "u-blox"; "RTCM"].

(** The values of the [state] member. *)
Inductive MMP_PARSE_ROUTINE :=
| fn_mmpFirstByte
| fn_mmpSempSync2 | fn_mmpSempSync3 | fn_mmpSempReadHeader | fn_mmpSempReadData | fn_mmpSempReadCrc
| fn_mmpNmeaFindFirstComma | fn_mmpNmeaFindAsterisk | fn_mmpNmeaChecksumByte1 | fn_mmpNmeaChecksumByte2
| fn_mmpNmeaLineTermination
| fn_mmpUbloxSync2 | fn_mmpUbloxReadClass | fn_mmpUbloxReadMessageId | fn_mmpUbloxReadLength
| fn_mmpUbloxReadData | fn_mmpUbloxChecksumA | fn_mmpUbloxChecksumB.

(** The values of the [computeCrc] member; null is [None]. *)
Inductive MMP_COMPUTE_CRC := fn_mmpSempComputeCrc.

(** [MMP_SEMP_HEADER]: the members the code reads, and the size. *)
Definition sizeof_MMP_SEMP_HEADER : Z := 20.
Definition header_headerLength : member := Member 3 1.
Definition header_messageLength : member := Member 12 2.

(** [MMP_SCRATCH_PAD] is a union: the members of the protocols overlap. *)
Definition sizeof_MMP_SCRATCH_PAD : nat := 20.
Definition semp_crc : member := Member 0 4.
Definition semp_bytesRemaining : member := Member 4 2.
Definition nmea_sentenceName : nat := 0.
Definition nmea_sentenceNameLength : member := Member 16 1.
Definition ublox_checksumA : member := Member 0 1.
Definition ublox_checksumB : member := Member 1 1.
Definition ublox_bytesRemaining : member := Member 2 2.

(** [MMP_PARSE_STATE]; its [scratchPad] member points to the static object below. *)
Record MMP_PARSE_STATE := mkParse {
  parsers : list MMP_PREAMBLE;
  parserNames : list string;
  parserCount : Z;
  parserName : option string;
  eomCallback : callback;
  badCrc : callback;
  printError : callback;
  printDebug : callback;
  state : MMP_PARSE_ROUTINE;
  type : Z;
  computeCrc : option MMP_COMPUTE_CRC;
  crc : Z;
  buffer : list Z;
  length : Z;
  bufferLength : Z;
  messagesProcessed : list Z;
  crcErrors : list Z;
  totalBytes : Z
}.

(** A parse structure with the static objects: the scratch area of
    [mmpInitParser] and the counter of [mmpUbloxReadLength]. *)
Record world := World { parse : MMP_PARSE_STATE; scratchPad : list Z; lengthBytes : Z }.

(** Calls of the application; a print carries the format and its arguments. *)
Inductive Event :=
| EvEom (f : nat) (p : MMP_PARSE_STATE) (parserType : Z)
| EvBadCrc (f : nat) (p : MMP_PARSE_STATE)
| EvPrint (f : nat) (format : string) (args : list arg).

(** The answer of a [badCrc] callback. *)
Class Application := badCrc_fn : nat -> MMP_PARSE_STATE -> bool.

Abbreviation P := (M world Event).

(** ** Member updates *)

Definition with_state v p := mkParse
  (parsers p) (parserNames p) (parserCount p) (parserName p) (eomCallback p) (badCrc p)
  (printError p) (printDebug p) v (type p) (computeCrc p) (crc p) (buffer p) (length p)
  (bufferLength p) (messagesProcessed p) (crcErrors p) (totalBytes p).
Definition with_type v p := mkParse
  (parsers p) (parserNames p) (parserCount p) (parserName p) (eomCallback p) (badCrc p)
  (printError p) (printDebug p) (state p) v (computeCrc p) (crc p) (buffer p) (length p)
  (bufferLength p) (messagesProcessed p) (crcErrors p) (totalBytes p).
Definition with_computeCrc v p := mkParse
  (parsers p) (parserNames p) (parserCount p) (parserName p) (eomCallback p) (badCrc p)
  (printError p) (printDebug p) (state p) (type p) v (crc p) (buffer p) (length p)
  (bufferLength p) (messagesProcessed p) (crcErrors p) (totalBytes p).
Definition with_crc v p := mkParse
  (parsers p) (parserNames p) (parserCount p) (parserName p) (eomCallback p) (badCrc p)
  (printError p) (printDebug p) (state p) (type p) (computeCrc p) v (buffer p)
  (length p) (bufferLength p) (messagesProcessed p) (crcErrors p) (totalBytes p).
Definition with_buffer v p := mkParse
  (parsers p) (parserNames p) (parserCount p) (parserName p) (eomCallback p) (badCrc p)
  (printError p) (printDebug p) (state p) (type p) (computeCrc p) (crc p) v (length p)
  (bufferLength p) (messagesProcessed p) (crcErrors p) (totalBytes p).
Definition with_length v p := mkParse
  (parsers p) (parserNames p) (parserCount p) (parserName p) (eomCallback p) (badCrc p)
  (printError p) (printDebug p) (state p) (type p) (computeCrc p) (crc p) (buffer p) v
  (bufferLength p) (messagesProcessed p) (crcErrors p) (totalBytes p).
Definition with_messagesProcessed v p := mkParse
  (parsers p) (parserNames p) (parserCount p) (parserName p) (eomCallback p) (badCrc p)
  (printError p) (printDebug p) (state p) (type p) (computeCrc p) (crc p) (buffer p)
  (length p) (bufferLength p) v (crcErrors p) (totalBytes p).
Definition with_crcErrors v p := mkParse
  (parsers p) (parserNames p) (parserCount p) (parserName p) (eomCallback p) (badCrc p)
  (printError p) (printDebug p) (state p) (type p) (computeCrc p) (crc p) (buffer p)
  (length p) (bufferLength p) (messagesProcessed p) v (totalBytes p).
Definition with_totalBytes v p := mkParse
  (parsers p) (parserNames p) (parserCount p) (parserName p) (eomCallback p) (badCrc p)
  (printError p) (printDebug p) (state p) (type p) (computeCrc p) (crc p) (buffer p)
  (length p) (bufferLength p) (messagesProcessed p) (crcErrors p) v.

Definition on_parse (f : MMP_PARSE_STATE -> MMP_PARSE_STATE) (w : world) : world :=
  World (f (parse w)) (scratchPad w) (lengthBytes w).

(** [parse->member] and [parse->member = v] *)
Definition the {A} (f : MMP_PARSE_STATE -> A) : P A := gets (fun w => f (parse w)).
Definition assign (f : MMP_PARSE_STATE -> MMP_PARSE_STATE) : P unit := modify (on_parse f).

(** [parse->buffer[i]], [parse->buffer[i] = v], [parse->buffer[parse->length++] = v] *)
Definition buffer_at (i : Z) : P Z := b <- the buffer;; lift (load b i).
Definition buffer_set (i v : Z) : P unit :=
  b <- the buffer;; b <- lift (store b i v);; assign (with_buffer b).
Definition buffer_push (v : Z) : P unit :=
  n <- the length;; assign (with_length (u16 (n + 1)));; buffer_set n v.

(** [header->member] *)
Definition header_get (f : member) : P Z :=
  b <- the buffer;;
  if (offset f + size f <=? List.length b)%nat then ret (get f b) else undefined OutOfBounds.

(** [scratchPad->member], [scratchPad->member = v], and a write to the name array *)
Definition pad_get (f : member) : P Z := gets (fun w => get f (scratchPad w)).
Definition pad_set (f : member) (v : Z) : P unit :=
  modify (fun w => World (parse w) (put f v (scratchPad w)) (lengthBytes w)).
Definition sentenceName_set (i v : Z) : P unit :=
  if (0 <=? i) && (i <? MMP_MAX_SENTENCE_NAME)
  then pad_set (Member (nmea_sentenceName + Z.to_nat i) 1) v
  else undefined OutOfBounds.

(** [parse->messagesProcessed[i]++] and [parse->crcErrors[i]++] *)
Definition bump (l : list Z) (i : Z) : res (list Z) :=
  res_bind (load l i) (fun v => store l i (u32 (v + 1))).
Definition count_message (i : Z) : P unit :=
  l <- the messagesProcessed;; l <- lift (bump l i);; assign (with_messagesProcessed l).
Definition count_error (i : Z) : P unit :=
  l <- the crcErrors;; l <- lift (bump l i);; assign (with_crcErrors l).

(** [if (parse->eomCallback) parse->eomCallback(parse, type);] *)
Definition call_eomCallback (type : Z) : P unit :=
  p <- the id;;
  match eomCallback p with None => ret tt | Some f => emit (EvEom f p type) end.

(** [parse->parserName ? parse->parserName : "Unknown"] *)
Definition shown_name (p : MMP_PARSE_STATE) : arg := AStr (default "Unknown" (parserName p)).

(* ------------------------------------------------------------------ *)
(** ** Utilities *)

Definition mmpAsciiToNibble (data : Z) : Z :=
  let data := Z.lor data 0x20 in
  if (0x61 <=? data) && (data <=? 0x66) then data - 0x61 + 10
  else if (0x30 <=? data) && (data <=? 0x39) then data - 0x30
  else -1.

(** The callback receives the formatted text, cut at 511 characters. *)
Definition mmpSafePrintf (cb : callback) (format : string) (args : list arg) : P unit :=
  match cb with
  | None => ret tt
  | Some f => if forallb printable args then emit (EvPrint f format args) else undefined OutOfBounds
  end.

(* ------------------------------------------------------------------ *)
(** ** Preambles and the search for the first byte *)

Definition mmpSempComputeCrc (data : Z) : P Z := c <- the crc;; ret (crc32_lookup mmp_crc32Table c data).

Lemma mmpSempComputeCrc_eq data : mmpSempComputeCrc data = (c <- the crc;; ret (crc32_update c data)).
Proof. unfold mmpSempComputeCrc. by rewrite mmp_crc32Table_eq. Qed.

(** [parse->computeCrc(parse, data)] through a pointer that is not null *)
Definition call_computeCrc (f : MMP_COMPUTE_CRC) (data : Z) : P Z :=
  match f with fn_mmpSempComputeCrc => mmpSempComputeCrc data end.

Definition mmpSempPreamble (data : Z) : P bool :=
  if negb (data =? 0xAA) then ret false
  else
    assign (with_crc 0xFFFFFFFF);;
    assign (with_computeCrc (Some fn_mmpSempComputeCrc));;
    c <- mmpSempComputeCrc data;; assign (with_crc c);;
    assign (with_state fn_mmpSempSync2);;
    ret true.

Definition mmpNmeaPreamble (data : Z) : P bool :=
  if negb (data =? 0x24) then ret false
  else
    pad_set nmea_sentenceNameLength 0;;
    assign (with_crc 0);;
    assign (with_computeCrc None);;
    assign (with_state fn_mmpNmeaFindFirstComma);;
    ret true.

Definition mmpUbloxPreamble (data : Z) : P bool :=
  if negb (data =? 0xB5) then ret false
  else
    assign (with_computeCrc None);;
    assign (with_state fn_mmpUbloxSync2);;
    ret true.

Definition mmpRtcmPreamble (data : Z) : P bool :=
  if negb (data =? 0xD3) then ret false
  else
    dbg <- the printDebug;; mmpSafePrintf dbg "MMP: RTCM协议检测到但未完全实现" [];;
    assign (with_state fn_mmpFirstByte);;
    ret false.

Definition call_preamble (f : MMP_PREAMBLE) (data : Z) : P bool :=
  match f with
  | fn_mmpSempPreamble => mmpSempPreamble data
  | fn_mmpNmeaPreamble => mmpNmeaPreamble data
  | fn_mmpUbloxPreamble => mmpUbloxPreamble data
  | fn_mmpRtcmPreamble => mmpRtcmPreamble data
  end.

(** The loop of [mmpFirstByte] over the entries left of the parser table. *)
Fixpoint try_parsers (l : list MMP_PREAMBLE) (index data : Z) : P bool :=
  match l with
  | [] => assign (with_state fn_mmpFirstByte);; ret false
  | f :: l =>
      found <- call_preamble f data;;
      if (found : bool) then assign (with_type index);; ret true
      else try_parsers l (index + 1) data
  end.

(** [mmpFirstByte(parse, data)] for a structure that is not null *)
Definition mmpFirstByte (data : Z) : P bool :=
  assign (with_crc 0);;
  assign (with_computeCrc None);;
  assign (with_length 0);;
  assign (with_type MMP_PROTOCOL_COUNT);;
  buffer_push data;;
  t <- the totalBytes;; assign (with_totalBytes (u32 (t + 1)));;
  try_parsers mmp_parserTable 0 data.

(* ------------------------------------------------------------------ *)
(** ** The SEMP protocol *)

Section routines.
  Context `{App : Application}.

(** [(!parse->badCrc) || (!parse->badCrc(parse))] *)
Definition badCrc_unhandled : P bool :=
  p <- the id;;
  match badCrc p with
  | None => ret true
  | Some f => emit (EvBadCrc f p);; ret (negb (badCrc_fn f p))
  end.

Definition mmpSempReadCrc (data : Z) : P bool :=
  r <- pad_get semp_bytesRemaining;; pad_set semp_bytesRemaining (u16 (r - 1));;
  r <- pad_get semp_bytesRemaining;;
  if negb (r =? 0) then ret true
  else
    n <- the length;;
    crcRead <-
      (if 4 <=? n then
         b4 <- buffer_at (n - 4);; b3 <- buffer_at (n - 3);;
         b2 <- buffer_at (n - 2);; b1 <- buffer_at (n - 1);;
         ret (Z.lor (Z.lor (Z.lor b4 (Z.shiftl b3 8)) (Z.shiftl b2 16)) (Z.shiftl b1 24))
       else ret 0);;
    crcComputed <- pad_get semp_crc;;
    (if crcRead =? crcComputed then
       count_message MMP_PROTOCOL_SEMP;;
       call_eomCallback MMP_PROTOCOL_SEMP
     else
       count_error MMP_PROTOCOL_SEMP;;
       unhandled <- badCrc_unhandled;;
       if (unhandled : bool) then
         b4 <- buffer_at (n - 4);; b3 <- buffer_at (n - 3);;
         b2 <- buffer_at (n - 2);; b1 <- buffer_at (n - 1);;
         p <- the id;;
         mmpSafePrintf (printDebug p)
           "MMP: %s SEMP CRC错误, 接收: %02X %02X %02X %02X, 计算: %02X %02X %02X %02X"
           [shown_name p; AInt b4; AInt b3; AInt b2; AInt b1; AInt (Z.land crcComputed 0xff);
            AInt (Z.land (Z.shiftr crcComputed 8) 0xff); AInt (Z.land (Z.shiftr crcComputed 16) 0xff);
            AInt (Z.land (Z.shiftr crcComputed 24) 0xff)]
       else ret tt);;
    assign (with_state fn_mmpFirstByte);;
    ret false.

(** The end of the header without data, or of the data: the check is complete. *)
Definition begin_crc : P unit :=
  pad_set semp_bytesRemaining 4;;
  c <- the crc;; assign (with_crc (Z.lxor c 0xFFFFFFFF));;
  c <- the crc;; pad_set semp_crc c;;
  assign (with_state fn_mmpSempReadCrc).

Definition mmpSempReadData (data : Z) : P bool :=
  r <- pad_get semp_bytesRemaining;; pad_set semp_bytesRemaining (u16 (r - 1));;
  r <- pad_get semp_bytesRemaining;;
  when (r =? 0) begin_crc;;
  ret true.

Definition mmpSempReadHeader (data : Z) : P bool :=
  n <- the length;;
  if sizeof_MMP_SEMP_HEADER <=? n then
    h <- header_get header_headerLength;;
    if negb (h =? 0x14) then
      dbg <- the printDebug;; mmpSafePrintf dbg "MMP: SEMP无效头部长度: 0x%02X" [AInt h];;
      assign (with_state fn_mmpFirstByte);; ret false
    else
      l <- header_get header_messageLength;; pad_set semp_bytesRemaining l;;
      r <- pad_get semp_bytesRemaining;;
      (if r =? 0 then begin_crc else assign (with_state fn_mmpSempReadData));;
      ret true
  else ret true.

Definition mmpSempSync3 (data : Z) : P bool :=
  if negb (data =? 0x18) then mmpFirstByte data
  else assign (with_state fn_mmpSempReadHeader);; ret true.

Definition mmpSempSync2 (data : Z) : P bool :=
  if negb (data =? 0x44) then mmpFirstByte data
  else assign (with_state fn_mmpSempSync3);; ret true.

(* ------------------------------------------------------------------ *)
(** ** The NMEA protocol *)

(** [parse->badCrc && (!parse->badCrc(parse))] *)
Definition badCrc_overrides : P bool :=
  p <- the id;;
  match badCrc p with
  | None => ret false
  | Some f => emit (EvBadCrc f p);; ret (negb (badCrc_fn f p))
  end.

Definition mmpNmeaValidateChecksum : P unit :=
  n <- the length;;
  c2 <- buffer_at (n - 2);; high <- shift_left_int (mmpAsciiToNibble c2) 4;;
  c1 <- buffer_at (n - 1);;
  let checksum := Z.lor high (mmpAsciiToNibble c1) in
  crc <- the crc;;
  good <- (if checksum =? Z.land crc 0xFF then ret true else badCrc_overrides);;
  if (good : bool) then
    buffer_push 0x0D;;
    buffer_push 0x0A;;
    n <- the length;; buffer_set n 0;;
    count_message MMP_PROTOCOL_NMEA;;
    call_eomCallback MMP_PROTOCOL_NMEA
  else
    count_error MMP_PROTOCOL_NMEA;;
    p <- the id;;
    sentence <- gets (fun w => take (Z.to_nat MMP_MAX_SENTENCE_NAME) (drop nmea_sentenceName (scratchPad w)));;
    mmpSafePrintf (printDebug p) "MMP: %s NMEA %s, 校验和错误, 接收: %c%c, 计算: %02X"
      [shown_name p; AChars sentence; AInt c2; AInt c1; AInt (Z.land crc 0xFF)].

Definition mmpNmeaLineTermination (data : Z) : P bool :=
  n <- the length;; assign (with_length (u16 (n - 1)));;
  if (data =? 0x0D) || (data =? 0x0A) then
    mmpNmeaValidateChecksum;;
    assign (with_state fn_mmpFirstByte);; ret true
  else
    mmpNmeaValidateChecksum;;
    mmpFirstByte data.

Definition mmpNmeaChecksumByte2 (data : Z) : P bool :=
  n <- the length;; c <- buffer_at (n - 1);;
  if 0 <=? mmpAsciiToNibble c then
    assign (with_state fn_mmpNmeaLineTermination);; ret true
  else
    p <- the id;; mmpSafePrintf (printDebug p) "MMP: %s NMEA无效的第二个校验和字符" [shown_name p];;
    mmpFirstByte data.

Definition mmpNmeaChecksumByte1 (data : Z) : P bool :=
  n <- the length;; c <- buffer_at (n - 1);;
  if 0 <=? mmpAsciiToNibble c then
    assign (with_state fn_mmpNmeaChecksumByte2);; ret true
  else
    p <- the id;; mmpSafePrintf (printDebug p) "MMP: %s NMEA无效的第一个校验和字符" [shown_name p];;
    mmpFirstByte data.

Definition mmpNmeaFindAsterisk (data : Z) : P bool :=
  if data =? 0x2A then assign (with_state fn_mmpNmeaChecksumByte1);; ret true
  else
    c <- the crc;; assign (with_crc (Z.lxor c data));;
    p <- the id;;
    if bufferLength p <? u32 (length p + 5) then
      mmpSafePrintf (printDebug p) "MMP: %s NMEA语句过长, 增加缓冲区大小 > %d"
        [shown_name p; AInt (bufferLength p)];;
      mmpFirstByte data
    else ret true.

Definition mmpNmeaFindFirstComma (data : Z) : P bool :=
  c <- the crc;; assign (with_crc (Z.lxor c data));;
  k <- pad_get nmea_sentenceNameLength;;
  p <- the id;;
  if negb (data =? 0x2C) || (k =? 0) then
    let upper := u8 (Z.land data (Z.lnot 0x20)) in
    if ((upper <? 0x41) || (0x5A <? upper)) && ((data <? 0x30) || (0x39 <? data)) then
      mmpSafePrintf (printDebug p) "MMP: %s NMEA无效语句名字符 0x%02X" [shown_name p; AInt data];;
      mmpFirstByte data
    else if MMP_MAX_SENTENCE_NAME - 1 <=? k then
      mmpSafePrintf (printDebug p) "MMP: %s NMEA语句名 > %d 字符"
        [shown_name p; AInt (MMP_MAX_SENTENCE_NAME - 1)];;
      mmpFirstByte data
    else
      pad_set nmea_sentenceNameLength (u8 (k + 1));;
      sentenceName_set k data;;
      ret true
  else
    sentenceName_set k 0;;
    assign (with_state fn_mmpNmeaFindAsterisk);;
    ret true.

(* ------------------------------------------------------------------ *)
(** ** The u-blox protocol *)

Definition mmpUbloxComputeChecksum (data : Z) : P unit :=
  a <- pad_get ublox_checksumA;; pad_set ublox_checksumA (u8 (a + data));;
  b <- pad_get ublox_checksumB;; a <- pad_get ublox_checksumA;;
  pad_set ublox_checksumB (u8 (b + a)).

Definition mmpUbloxChecksumB (data : Z) : P bool :=
  b <- pad_get ublox_checksumB;;
  (if data =? b then
     count_message MMP_PROTOCOL_UBLOX;;
     call_eomCallback MMP_PROTOCOL_UBLOX
   else
     count_error MMP_PROTOCOL_UBLOX;;
     p <- the id;;
     mmpSafePrintf (printDebug p) "MMP: %s u-blox校验和B错误, 接收: %02X, 计算: %02X"
       [shown_name p; AInt data; AInt b]);;
  assign (with_state fn_mmpFirstByte);;
  ret false.

Definition mmpUbloxChecksumA (data : Z) : P bool :=
  a <- pad_get ublox_checksumA;;
  if data =? a then assign (with_state fn_mmpUbloxChecksumB);; ret true
  else
    count_error MMP_PROTOCOL_UBLOX;;
    p <- the id;;
    mmpSafePrintf (printDebug p) "MMP: %s u-blox校验和A错误, 接收: %02X, 计算: %02X"
      [shown_name p; AInt data; AInt a];;
    assign (with_state fn_mmpFirstByte);;
    ret false.

Definition mmpUbloxReadData (data : Z) : P bool :=
  mmpUbloxComputeChecksum data;;
  r <- pad_get ublox_bytesRemaining;; pad_set ublox_bytesRemaining (u16 (r - 1));;
  r <- pad_get ublox_bytesRemaining;;
  when (r =? 0) (assign (with_state fn_mmpUbloxChecksumA));;
  ret true.

Definition mmpUbloxReadLength (data : Z) : P bool :=
  mmpUbloxComputeChecksum data;;
  k <- gets lengthBytes;;
  if k =? 0 then
    pad_set ublox_bytesRemaining data;;
    modify (fun w => World (parse w) (scratchPad w) 1);;
    ret true
  else
    r <- pad_get ublox_bytesRemaining;;
    pad_set ublox_bytesRemaining (u16 (Z.lor r (Z.shiftl data 8)));;
    modify (fun w => World (parse w) (scratchPad w) 0);;
    r <- pad_get ublox_bytesRemaining;;
    assign (with_state (if r =? 0 then fn_mmpUbloxChecksumA else fn_mmpUbloxReadData));;
    ret true.

Definition mmpUbloxReadMessageId (data : Z) : P bool :=
  pad_set ublox_checksumA 0;;
  pad_set ublox_checksumB 0;;
  n <- the length;; class <- buffer_at (n - 2);;
  mmpUbloxComputeChecksum class;;
  mmpUbloxComputeChecksum data;;
  assign (with_state fn_mmpUbloxReadLength);;
  ret true.

Definition mmpUbloxReadClass (data : Z) : P bool :=
  assign (with_state fn_mmpUbloxReadMessageId);; ret true.

Definition mmpUbloxSync2 (data : Z) : P bool :=
  if negb (data =? 0x62) then mmpFirstByte data
  else assign (with_state fn_mmpUbloxReadClass);; ret true.

(* ------------------------------------------------------------------ *)
(** ** Interface *)

(** [parse->state(parse, data)] *)
Definition call_state (f : MMP_PARSE_ROUTINE) (data : Z) : P bool :=
  match f with
  | fn_mmpFirstByte => mmpFirstByte data
  | fn_mmpSempSync2 => mmpSempSync2 data
  | fn_mmpSempSync3 => mmpSempSync3 data
  | fn_mmpSempReadHeader => mmpSempReadHeader data
  | fn_mmpSempReadData => mmpSempReadData data
  | fn_mmpSempReadCrc => mmpSempReadCrc data
  | fn_mmpNmeaFindFirstComma => mmpNmeaFindFirstComma data
  | fn_mmpNmeaFindAsterisk => mmpNmeaFindAsterisk data
  | fn_mmpNmeaChecksumByte1 => mmpNmeaChecksumByte1 data
  | fn_mmpNmeaChecksumByte2 => mmpNmeaChecksumByte2 data
  | fn_mmpNmeaLineTermination => mmpNmeaLineTermination data
  | fn_mmpUbloxSync2 => mmpUbloxSync2 data
  | fn_mmpUbloxReadClass => mmpUbloxReadClass data
  | fn_mmpUbloxReadMessageId => mmpUbloxReadMessageId data
  | fn_mmpUbloxReadLength => mmpUbloxReadLength data
  | fn_mmpUbloxReadData => mmpUbloxReadData data
  | fn_mmpUbloxChecksumA => mmpUbloxChecksumA data
  | fn_mmpUbloxChecksumB => mmpUbloxChecksumB data
  end.

(** [mmpProcessByte(parse, data)] for a structure that is not null *)
Definition mmpProcessByte (data : Z) : P bool :=
  p <- the id;;
  if bufferLength p <=? length p then
    mmpSafePrintf (printError p) "MMP %s: 消息过长, 增加缓冲区大小 > %d"
      [shown_name p; AInt (bufferLength p)];;
    mmpFirstByte data
  else
    buffer_push data;;
    t <- the totalBytes;; assign (with_totalBytes (u32 (t + 1)));;
    f <- the computeCrc;;
    match f with
    | None => ret tt
    | Some f => c <- call_computeCrc f data;; assign (with_crc c)
    end;;
    s <- the state;;
    call_state s data.

(** The loop of [mmpProcessBuffer] over the bytes left. *)
Fixpoint process_loop (l : list Z) (processed : Z) : P Z :=
  match l with
  | [] => ret processed
  | b :: l =>
      more <- mmpProcessByte b;;
      if (more : bool) then process_loop l (u16 (processed + 1)) else ret (u16 (processed + 1))
  end.

(** [mmpProcessBuffer(parse, data, length)] with pointers that are not null *)
Definition mmpProcessBuffer (data : list Z) : P Z := process_loop data 0.

End routines.

(** [mmpInitParser(...)]: the structure it leaves and its answer.  [buffer] is the
    caller's array, [None] for a null pointer; [parse] is null when [present] is
    [false].  The static objects keep their contents. *)
Definition mmpInitParser (present : bool) (buffer : option (list Z)) (bufferLength : Z)
    (eomCallback badCrcCallback : callback) (parserName : option string)
    (printError printDebug : callback) : option MMP_PARSE_STATE :=
  match present, buffer, eomCallback with
  | true, Some buffer, Some _ =>
      if bufferLength <? MMP_MINIMUM_BUFFER_LENGTH then None
      else Some (mkParse mmp_parserTable mmp_parserNameTable
                   (Z.of_nat (List.length mmp_parserTable)) parserName eomCallback badCrcCallback
                   printError printDebug fn_mmpFirstByte MMP_PROTOCOL_COUNT None 0 buffer 0 bufferLength
                   (replicate 8 0) (replicate 8 0) 0)
  | _, _, _ => None
  end.

(** [mmpGetActiveProtocol(parse)]; [None] is the null pointer *)
Definition mmpGetActiveProtocol (parse : option MMP_PARSE_STATE) : Z :=
  match parse with
  | None => MMP_PROTOCOL_COUNT
  | Some p => if MMP_PROTOCOL_COUNT <=? type p then MMP_PROTOCOL_COUNT else type p
  end.

(** [mmpGetProtocolName(protocolType)]; an enumeration of non-negative values is
    unsigned *)
Definition mmpGetProtocolName (protocolType : Z) : res string :=
  if MMP_PROTOCOL_COUNT <=? protocolType then Ok "Unknown"
  else match mmp_protocolNames !! Z.to_nat protocolType with
       | Some name => Ok name
       | None => Ub OutOfBounds
       end.

(* ------------------------------------------------------------------ *)
(** ** Statistics *)

Record MMP_PROTOCOL_STATS := Stats {
  stats_protocolName : string;
  stats_messagesProcessed : Z;
  stats_crcErrors : Z;
  stats_successRate : SpecFloat.spec_float
}.

(** A 32-bit integer as a binary32 number, rounded to the nearest. *)
Definition float_of (v : Z) : SpecFloat.spec_float := SpecFloat.binary_normalize 24 128 v 0 false.

(** [total > 0 ? (float)messagesProcessed / total * 100.0f : 0.0f] *)
Definition successRate (messages errors : Z) : SpecFloat.spec_float :=
  let total := u32 (messages + errors) in
  if 0 <? total then
    SpecFloat.SFmul 24 128 (SpecFloat.SFdiv 24 128 (float_of messages) (float_of total)) (float_of 100)
  else float_of 0.

(** The name and the two counters of every protocol. *)
Definition protocol_counters (p : MMP_PARSE_STATE) : list (string * Z * Z) :=
  zip (zip mmp_protocolNames (messagesProcessed p)) (crcErrors p).

Fixpoint stats_loop (l : list (string * Z * Z)) (count maxCount : Z) : list MMP_PROTOCOL_STATS :=
  match l with
  | [] => []
  | (name, m, e) :: l =>
      if count <? maxCount then
        if (0 <? m) || (0 <? e) then Stats name m e (successRate m e) :: stats_loop l (count + 1) maxCount
        else stats_loop l count maxCount
      else []
  end.

(** [mmpGetProtocolStats(parse, stats, maxCount)]: the entries written, whose
    number is the answer *)
Definition mmpGetProtocolStats (p : MMP_PARSE_STATE) (maxCount : Z) : list MMP_PROTOCOL_STATS :=
  stats_loop (protocol_counters p) 0 maxCount.

Definition mmpResetStats : P unit :=
  assign (with_messagesProcessed (replicate 8 0));;
  assign (with_crcErrors (replicate 8 0));;
  assign (with_totalBytes 0).

(** The loop of [mmpPrintStats]; it answers whether a protocol was shown. *)
Fixpoint print_loop (l : list (string * Z * Z)) (hasData : bool) : P bool :=
  match l with
  | [] => ret hasData
  | (name, m, e) :: l =>
      if (0 <? m) || (0 <? e) then
        dbg <- the printDebug;;
        mmpSafePrintf dbg "%s: 成功=%u, 错误=%u, 成功率=%.1f%%"
          [AStr name; AInt m; AInt e; AFloat (successRate m e)];;
        print_loop l true
      else print_loop l hasData
  end.

Definition mmpPrintStats : P unit :=
  p <- the id;;
  match printDebug p with
  | None => ret tt
  | Some _ =>
      mmpSafePrintf (printDebug p) "=== 多协议解析器统计 ===" [];;
      mmpSafePrintf (printDebug p) "总处理字节数: %u" [AInt (totalBytes p)];;
      hasData <- print_loop (protocol_counters p) false;;
      when (negb hasData) (mmpSafePrintf (printDebug p) "暂无协议数据处理记录" []);;
      mmpSafePrintf (printDebug p) "=====================" []
  end.
