(* ===== verification/MultiSpec.v ===== *)
(** * What the multi-protocol parser promises

    An abstract machine for [src/single_parser/multi_protocol_parser.c], written
    without the parse structure and the static objects: it keeps the bytes of the
    message under way and outputs the messages delivered.  The sentence parts are
    those of [FrameSpec]. *)
From S2P Require Import Prelude Crc ParseState FrameSpec.

(** ** Frames *)

(** A frame of the SEMP protocol: a header whose length field is not 0x14 ends it,
    and a frame without data is complete after its check. *)
Definition semp_verdict (m : list Z) : verdict :=
  match m with
  | _ :: s2 :: rest =>
      if negb (s2 =? 0x44) then Reject
      else match rest with
           | s3 :: _ =>
               if negb (s3 =? 0x18) then Reject
               else if (length m <? 20)%nat then More
               else if negb (get (Member 3 1) m =? 0x14) then Done false
               else
                 let n := custom_length m in
                 if (length m <? 24 + n)%nat then More
                 else Done (bool_decide (drop (20 + n) m = custom_check (take (20 + n) m)))
           | _ => More
           end
  | _ => More
  end.

Lemma semp_verdict_synced m s1 rest :
  m = s1 :: 0x44 :: 0x18 :: rest ->
  semp_verdict m =
    if (length m <? 20)%nat then More
    else if negb (get (Member 3 1) m =? 0x14) then Done false
    else let n := custom_length m in
         if (length m <? 24 + n)%nat then More
         else Done (bool_decide (drop (20 + n) m = custom_check (take (20 + n) m))).
Proof. by intros ->. Qed.

(** A u-blox frame: the first checksum byte is looked at before the second. *)
Definition mublox_verdict (m : list Z) : verdict :=
  match m with
  | _ :: s2 :: rest =>
      if negb (s2 =? 0x62) then Reject
      else match rest with
           | c :: i :: l1 :: l2 :: body =>
               let n := Z.to_nat (l1 + 256 * l2) in
               let ck := fletcher (c :: i :: l1 :: l2 :: take n body) in
               match drop n body with
               | [] => More
               | [a] => if a =? ck.1 then More else Done false
               | _ :: b :: _ => Done (b =? ck.2)
               end
           | _ => More
           end
  | _ => More
  end.

(* ------------------------------------------------------------------ *)
(** ** The machine *)

Inductive mstate :=
| Idle
| Semp (m : list Z)
| Nmea (t : text)
| Ublox (m : list Z).

Section mmachine.
  (** The announced length of the buffer, the bytes it really has, and the
      sentences the application accepts in spite of a wrong check. *)
  Context (B C : Z) (accepts : list Z -> bool).

Definition mscan (b : Z) : mstate :=
  if b =? 0xAA then Semp [b]
  else if b =? 0x24 then Nmea (TName [])
  else if b =? 0xB5 then Ublox [b]
  else Idle.

(** A scan asks for more bytes when it found a protocol. *)
Definition begun (st : mstate) : bool := match st with Idle => false | _ => true end.

Definition rescan (out : output) (b : Z) : option (bool * mstate * output) :=
  Some (begun (mscan b), mscan b, out).

(** Five bytes must remain after a byte of the body, one less than in the
    framework of [FrameSpec]. *)
Definition mtext_step (t : text) (b : Z) : option text := text_step (B + 1) fn_sempNmeaPreamble 0x24 t b.

Definition mclosed (t : text) : bool := closed fn_sempNmeaPreamble t.

(** The end of a closed sentence.  [None]: the terminator is written outside the
    buffer. *)
Definition mfinish (t : text) : option output :=
  let m := flatten 0x24 t in
  if text_check t || accepts m then
    if Z.of_nat (length m) + 3 <=? C then Some [(1, m ++ [0x0D; 0x0A])] else None
  else Some [].

Definition frame_end (v : verdict) (next : mstate) (type : Z) (m : list Z) (b : Z)
    : option (bool * mstate * output) :=
  match v with
  | More => Some (true, next, [])
  | Reject => rescan [] b
  | Done ok => Some (false, Idle, if ok then [(type, m)] else [])
  end.

Definition mstep (st : mstate) (b : Z) : option (bool * mstate * output) :=
  match st with
  | Idle => rescan [] b
  | Semp m =>
      if B <=? Z.of_nat (length m) then rescan [] b
      else frame_end (semp_verdict (m ++ [b])) (Semp (m ++ [b])) 0 (m ++ [b]) b
  | Ublox m =>
      if B <=? Z.of_nat (length m) then rescan [] b
      else frame_end (mublox_verdict (m ++ [b])) (Ublox (m ++ [b])) 2 (m ++ [b]) b
  | Nmea t =>
      if mclosed t then
        match mfinish t with
        | Some out => if (b =? 0x0D) || (b =? 0x0A) then Some (true, Idle, out) else rescan out b
        | None => None
        end
      else match mtext_step t b with
           | Some t => Some (true, Nmea t, [])
           | None => rescan [] b
           end
  end.

(** All the bytes, with the answers ignored. *)
Fixpoint mrun (st : mstate) (l : list Z) : option (mstate * output) :=
  match l with
  | [] => Some (st, [])
  | b :: l =>
      match mstep st b with
      | Some (_, st, out) =>
          match mrun st l with
          | Some (st, out') => Some (st, out ++ out')
          | None => None
          end
      | None => None
      end
  end.

Lemma mrun_app st l1 l2 st1 out1 :
  mrun st l1 = Some (st1, out1) ->
  mrun st (l1 ++ l2) = match mrun st1 l2 with
                       | Some (st2, out2) => Some (st2, out1 ++ out2)
                       | None => None
                       end.
Proof.
  revert st out1. induction l1 as [|b l1 IH]; intros st out1; cbn.
  - intros [= <- <-]. by destruct (mrun st l2) as [[??]|].
  - destruct (mstep st b) as [[[more st'] out]|]; [|done].
    destruct (mrun st' l1) as [[st'' out'']|] eqn:E; [|done]. intros [= <- <-].
    rewrite (IH st' out'' E). destruct (mrun st'' l2) as [[??]|]; [|done]. by rewrite app_assoc.
Qed.

End mmachine.

(** The messages of each protocol among the outputs. *)
Definition outputs_of (i : Z) (out : output) : list (Z * list Z) := filter (fun im => im.1 = i) out.
