(* ===== verification/MultiRep.v ===== *)
(** * Representation of the multi-protocol machine

    The invariant of the parse structure and the static objects of
    [MultiParser], and the relation that says which state of the machine of
    [MultiSpec] they represent. *)
From S2P Require Import Prelude Crc ParseState MessageParser ParseNmea FrameSpec Sentences.
From S2P Require Import Representation SentenceRefine MultiParser MultiSpec.
Local Abbreviation len := List.length.

(** A configuration: the announced length of the buffer, the size of the caller's
    array, the callbacks, and what the [badCrc] callback accepts, which may
    depend on the stored bytes only. *)
Class MSetup `{App : Application} := {
  mB : Z;
  mC : Z;
  meom : nat;
  mbad : callback;
  maccepts : list Z -> bool;
  mB_range : 256 <= mB < 65536;
  mC_range : mB <= mC;
  maccepts_spec :
    match mbad with
    | None => forall m, maccepts m = false
    | Some f => forall p, badCrc_fn f p = negb (maccepts (take (Z.to_nat (length p)) (buffer p)))
    end
}.

(** The bytes stored so far. *)
Definition stored (w : world) : list Z := take (Z.to_nat (length (parse w))) (buffer (parse w)).

(** The deliveries among the events. *)
Definition mdelivered (ev : list Event) : output :=
  omap (fun e => match e with
                 | EvEom _ p t => Some (t, take (Z.to_nat (length p)) (buffer p))
                 | _ => None
                 end) ev.

Lemma mdelivered_app l1 l2 : mdelivered (l1 ++ l2) = mdelivered l1 ++ mdelivered l2.
Proof. apply omap_app. Qed.

(** The counters after the deliveries [out]. *)
Definition counted (out : output) (l : list Z) : list Z :=
  foldl (fun l im => <[Z.to_nat im.1 := u32 (nth (Z.to_nat im.1) l 0 + 1)]> l) l out.

Lemma counted_app out1 out2 l : counted (out1 ++ out2) l = counted out2 (counted out1 l).
Proof. unfold counted. by rewrite foldl_app. Qed.

Section invariant.
  Context `{SU : MSetup}.

Record mwf (w : world) : Prop := {
  mwf_bufferLength : bufferLength (parse w) = mB;
  mwf_buffer : Z.of_nat (len (buffer (parse w))) = mC;
  mwf_bytes : bytes (buffer (parse w));
  mwf_length : 0 <= length (parse w) <= mB;
  mwf_pad : pad_ok (scratchPad w);
  mwf_eom : eomCallback (parse w) = Some meom;
  mwf_bad : badCrc (parse w) = mbad;
  mwf_messages : len (messagesProcessed (parse w)) = 8%nat;
  mwf_errors : len (crcErrors (parse w)) = 8%nat
}.

(** ** Protocols *)

(** The message [m] is a synchronised SEMP frame whose header has [n] as its length. *)
Definition semp_header (m : list Z) (n : nat) : Prop :=
  (exists rest, m = 0xAA :: 0x44 :: 0x18 :: rest) /\ (20 <= len m)%nat /\
  get (Member 3 1) m = 0x14 /\ custom_length m = n.

Inductive semp_rel (sp : list Z) (c : Z) : MMP_PARSE_ROUTINE -> list Z -> Prop :=
| semp_sync2 : c = crc32_run 0xFFFFFFFF [0xAA] -> semp_rel sp c fn_mmpSempSync2 [0xAA]
| semp_sync3 : c = crc32_run 0xFFFFFFFF [0xAA; 0x44] -> semp_rel sp c fn_mmpSempSync3 [0xAA; 0x44]
| semp_head m rest :
    m = 0xAA :: 0x44 :: 0x18 :: rest -> (len m < 20)%nat -> c = crc32_run 0xFFFFFFFF m ->
    semp_rel sp c fn_mmpSempReadHeader m
| semp_data m n :
    semp_header m n -> (len m < 20 + n)%nat -> c = crc32_run 0xFFFFFFFF m ->
    get semp_bytesRemaining sp = Z.of_nat (20 + n - len m) ->
    semp_rel sp c fn_mmpSempReadData m
| semp_check m n :
    semp_header m n -> (20 + n <= len m < 24 + n)%nat ->
    get semp_crc sp = Z.lxor (crc32_run 0xFFFFFFFF (take (20 + n) m)) 0xFFFFFFFF ->
    get semp_bytesRemaining sp = Z.of_nat (24 + n - len m) ->
    semp_rel sp c fn_mmpSempReadCrc m.

Definition mublox_pad (sp : list Z) (l : list Z) : Prop :=
  get ublox_checksumA sp = (fletcher l).1 /\ get ublox_checksumB sp = (fletcher l).2.

Inductive mublox_rel (sp : list Z) (k : Z) : MMP_PARSE_ROUTINE -> list Z -> Prop :=
| mublox_sync2 : k = 0 -> mublox_rel sp k fn_mmpUbloxSync2 [0xB5]
| mublox_class : k = 0 -> mublox_rel sp k fn_mmpUbloxReadClass [0xB5; 0x62]
| mublox_id c : k = 0 -> mublox_rel sp k fn_mmpUbloxReadMessageId [0xB5; 0x62; c]
| mublox_length1 c i :
    k = 0 -> mublox_pad sp [c; i] -> mublox_rel sp k fn_mmpUbloxReadLength [0xB5; 0x62; c; i]
| mublox_length2 c i l1 :
    k = 1 -> mublox_pad sp [c; i; l1] -> get ublox_bytesRemaining sp = l1 ->
    mublox_rel sp k fn_mmpUbloxReadLength [0xB5; 0x62; c; i; l1]
| mublox_data c i l1 l2 body :
    k = 0 -> mublox_pad sp (c :: i :: l1 :: l2 :: body) ->
    get ublox_bytesRemaining sp = l1 + 256 * l2 - Z.of_nat (len body) ->
    Z.of_nat (len body) < l1 + 256 * l2 ->
    mublox_rel sp k fn_mmpUbloxReadData (0xB5 :: 0x62 :: c :: i :: l1 :: l2 :: body)
| mublox_ck_a c i l1 l2 body :
    k = 0 -> mublox_pad sp (c :: i :: l1 :: l2 :: body) -> Z.of_nat (len body) = l1 + 256 * l2 ->
    mublox_rel sp k fn_mmpUbloxChecksumA (0xB5 :: 0x62 :: c :: i :: l1 :: l2 :: body)
| mublox_ck_b c i l1 l2 body a :
    k = 0 -> mublox_pad sp (c :: i :: l1 :: l2 :: body) -> Z.of_nat (len body) = l1 + 256 * l2 ->
    a = (fletcher (c :: i :: l1 :: l2 :: body)).1 ->
    mublox_rel sp k fn_mmpUbloxChecksumB (0xB5 :: 0x62 :: c :: i :: l1 :: l2 :: body ++ [a]).

Inductive mnmea_rel (sp : list Z) (c : Z) : MMP_PARSE_ROUTINE -> text -> Prop :=
| mnmea_name name :
    name_pad nmea_sentenceName nmea_sentenceNameLength sp name -> c = xor_all name ->
    mnmea_rel sp c fn_mmpNmeaFindFirstComma (TName name)
| mnmea_body name body :
    terminated nmea_sentenceName sp -> c = xor_all (name ++ 0x2C :: body) ->
    mnmea_rel sp c fn_mmpNmeaFindAsterisk (TBody name body)
| mnmea_digit1 name body :
    terminated nmea_sentenceName sp -> c = xor_all (name ++ 0x2C :: body) ->
    mnmea_rel sp c fn_mmpNmeaChecksumByte1 (TSum name body [])
| mnmea_digit2 name body d1 :
    terminated nmea_sentenceName sp -> c = xor_all (name ++ 0x2C :: body) ->
    mnmea_rel sp c fn_mmpNmeaChecksumByte2 (TSum name body [d1])
| mnmea_closed name body d1 d2 :
    terminated nmea_sentenceName sp -> c = xor_all (name ++ 0x2C :: body) ->
    mnmea_rel sp c fn_mmpNmeaLineTermination (TSum name body [d1; d2]).

(** The limits of a sentence. *)
Definition mtext_ok (t : text) : Prop :=
  match t with
  | TName name => name_ok name
  | TBody name body | TSum name body _ =>
      name_ok name /\ name <> [] /\ Forall (fun b => b <> 0x2A) body /\
      Z.of_nat (len (flatten 0x24 (TBody name body))) + 5 <= mB /\
      match t with
      | TSum _ _ digits => Forall (fun b => is_Some (digit_value b)) digits /\ (len digits <= 2)%nat
      | _ => True
      end
  end.

(** ** The representation relation *)
Definition MR (w : world) (st : mstate) : Prop :=
  mwf w /\
  match st with
  | Idle => state (parse w) = fn_mmpFirstByte /\ lengthBytes w = 0
  | Semp m =>
      stored w = m /\ lengthBytes w = 0 /\ computeCrc (parse w) = Some fn_mmpSempComputeCrc /\
      semp_rel (scratchPad w) (crc (parse w)) (state (parse w)) m
  | Ublox m =>
      stored w = m /\ computeCrc (parse w) = None /\
      mublox_rel (scratchPad w) (lengthBytes w) (state (parse w)) m
  | Nmea t =>
      stored w = flatten 0x24 t /\ lengthBytes w = 0 /\ computeCrc (parse w) = None /\ mtext_ok t /\
      mnmea_rel (scratchPad w) (crc (parse w)) (state (parse w)) t
  end.

(** A routine takes a step of the machine: its answer, the state it reaches, what
    it delivers and how it counts are the machine's; it is undefined where the
    machine is. *)
Definition mrefines (m : P bool) (w : world) (o : option (bool * mstate * output)) : Prop :=
  match o with
  | Some (a, st, out) =>
      exists w' ev, m w = Ok (a, w', ev) /\ MR w' st /\ mdelivered ev = out /\
        messagesProcessed (parse w') = counted out (messagesProcessed (parse w))
  | None => m w = Ub OutOfBounds
  end.

End invariant.
Arguments mrefines : simpl never.
Arguments MR : simpl never.

(* ------------------------------------------------------------------ *)
(** ** Executing routines *)

Lemma bind_the {A A'} (f : MMP_PARSE_STATE -> A) (k : A -> P A') w : bind (the f) k w = k (f (parse w)) w.
Proof. exact (bind_gets (fun w => f (parse w)) k w). Qed.

Lemma bind_assign {A'} f (k : unit -> P A') w : bind (assign f) k w = k tt (on_parse f w).
Proof. exact (bind_modify (on_parse f) k w). Qed.

Lemma bind_pad_get {A'} f (k : Z -> P A') w : bind (pad_get f) k w = k (get f (scratchPad w)) w.
Proof. exact (bind_gets (fun w => get f (scratchPad w)) k w). Qed.

Lemma bind_pad_set {A'} f v (k : unit -> P A') w :
  bind (pad_set f v) k w = k tt (World (parse w) (put f v (scratchPad w)) (lengthBytes w)).
Proof. exact (bind_modify (fun w => World (parse w) (put f v (scratchPad w)) (lengthBytes w)) k w). Qed.

(** Execute the leading reads and updates of a routine. *)
Ltac run := repeat (first [rewrite bind_the | rewrite bind_assign | rewrite bind_pad_get | rewrite bind_pad_set
                          | rewrite bind_gets | rewrite bind_modify | rewrite bind_ret]; cbn beta).

Lemma mmpSafePrintf_ok cb format args w :
  forallb printable args = true ->
  exists ev, mmpSafePrintf cb format args w = Ok (tt, w, ev) /\ mdelivered ev = [].
Proof. intros H. unfold mmpSafePrintf. rewrite H. destruct cb; by eexists. Qed.

(** The invariant after updates of members and of the scratch area. *)
Ltac mwf_from H :=
  destruct H; split;
  lazymatch goal with
  | |- pad_ok _ => cbn [scratchPad on_parse]; solve [auto with pad]
  | _ => cbn; done || lia
  end.

Section execution.
  Context `{SU : MSetup}.

Lemma length_stored w : mwf w -> Z.of_nat (len (stored w)) = length (parse w).
Proof.
  intros H. pose proof (mwf_buffer w H). pose proof (mwf_length w H). pose proof mC_range.
  unfold stored. rewrite length_take. lia.
Qed.

Lemma stored_are_bytes w : mwf w -> bytes (stored w).
Proof. intros H. by apply Forall_take, mwf_bytes. Qed.

Lemma lookup_stored w i v : stored w !! i = Some v -> buffer (parse w) !! i = Some v.
Proof. by intros [? _]%lookup_take_Some. Qed.

(** The bytes at the end of the stored message. *)
Lemma buffer_at_last w l s j v :
  mwf w -> stored w = l ++ s -> s !! j = Some v ->
  buffer_at (length (parse w) - Z.of_nat (len s - j)) w = Ok (v, w, []).
Proof.
  intros Hw Hs Hj. unfold buffer_at. rewrite bind_the. unfold lift.
  pose proof (length_stored w Hw) as Hl. rewrite Hs, length_app in Hl.
  apply lookup_lt_Some in Hj as Hlt.
  replace (length (parse w) - _) with (Z.of_nat (len l + j)) by lia.
  rewrite (load_ok _ _ v); [done|]. apply lookup_stored. rewrite Hs, lookup_app_r by lia.
  by replace (len l + j - len l)%nat with j by lia.
Qed.

Lemma mmp_header_get_ok f w :
  mwf w -> (offset f + size f <= 20)%nat -> 20 <= length (parse w) ->
  header_get f w = Ok (get f (stored w), w, []).
Proof.
  intros Hw Hf Hl. pose proof (mwf_buffer w Hw). pose proof (mwf_length w Hw). pose proof mC_range.
  unfold header_get, stored. rewrite bind_the, get_take by lia. by destruct (_ <=? _)%nat eqn:E; [|lia].
Qed.

(** The structure after [buffer[length++] = v]. *)
Definition pushed (v : Z) (p : MMP_PARSE_STATE) : MMP_PARSE_STATE :=
  with_buffer (<[Z.to_nat (length p) := v]> (buffer p)) (with_length (length p + 1) p).

Lemma mmp_buffer_push_ok v w :
  mwf w -> length (parse w) < mB -> buffer_push v w = Ok (tt, on_parse (pushed v) w, []).
Proof.
  intros Hw Hl. pose proof (mwf_buffer w Hw). pose proof (mwf_length w Hw).
  pose proof mB_range. pose proof mC_range. unfold buffer_push. run.
  rewrite u16_id by (unfold is_u16; lia).
  unfold buffer_set. run. cbn. unfold bind, lift. rewrite store_ok by lia. done.
Qed.

Lemma mwf_pushed v w : mwf w -> is_u8 v -> length (parse w) < mB -> mwf (on_parse (pushed v) w).
Proof.
  intros [] Hv Hl. split; cbn; try done; [by rewrite length_insert|by apply Forall_insert|lia].
Qed.

Lemma stored_pushed v w : mwf w -> length (parse w) < mB -> stored (on_parse (pushed v) w) = stored w ++ [v].
Proof.
  intros Hw Hl. pose proof (mwf_buffer w Hw). pose proof (mwf_length w Hw). pose proof mC_range.
  unfold stored. cbn.
  replace (Z.to_nat (length (parse w) + 1)) with (S (Z.to_nat (length (parse w)))) by lia.
  apply take_store. lia.
Qed.

(** Composition with what the machine does next. *)
Definition prefix_output (out : output) (o : option (bool * mstate * output)) :=
  match o with Some (a, st, out') => Some (a, st, out ++ out') | None => None end.

Lemma mrefines_bind {A} (m : P A) (k : A -> P bool) w a w' ev o :
  m w = Ok (a, w', ev) ->
  messagesProcessed (parse w') = counted (mdelivered ev) (messagesProcessed (parse w)) ->
  mrefines (k a) w' o -> mrefines (bind m k) w (prefix_output (mdelivered ev) o).
Proof.
  intros Hm Hc Hk. destruct o as [[[a' st] out]|]; cbn.
  - destruct Hk as (w'' & ev' & Hk & HR & Hd & Hc'). exists w'', (ev ++ ev').
    rewrite (bind_ok _ _ _ _ _ _ Hm), Hk, mdelivered_app, counted_app, Hd, <-Hc. done.
  - unfold mrefines in *. by rewrite (bind_ok _ _ _ _ _ _ Hm), Hk.
Qed.

Lemma mrefines_bind_quiet {A} (m : P A) (k : A -> P bool) w a w' ev o :
  m w = Ok (a, w', ev) -> mdelivered ev = [] ->
  messagesProcessed (parse w') = messagesProcessed (parse w) ->
  mrefines (k a) w' o -> mrefines (bind m k) w o.
Proof.
  intros Hm Hev Hc Hk. pose proof (mrefines_bind m k w a w' ev o Hm) as H. rewrite Hev in H.
  specialize (H Hc Hk). by destruct o as [[[??]?]|].
Qed.

Lemma mrefines_print cb format args (k : unit -> P bool) w o :
  forallb printable args = true -> mrefines (k tt) w o ->
  mrefines (bind (mmpSafePrintf cb format args) k) w o.
Proof.
  intros Ha Hk. destruct (mmpSafePrintf_ok cb format args w Ha) as (ev & H & Hev).
  by eapply mrefines_bind_quiet.
Qed.

Lemma mrefines_run (m m' : P bool) w w' o :
  m w = m' w' -> messagesProcessed (parse w') = messagesProcessed (parse w) ->
  mrefines m' w' o -> mrefines m w o.
Proof.
  intros Hm Hc H. unfold mrefines in *. rewrite Hm. destruct o as [[[??]?]|]; [|done].
  destruct H as (w'' & ev & ? & ? & ? & Hc'). exists w'', ev. by rewrite Hc', Hc.
Qed.

(** ** Counting and delivering *)

Lemma bump_ok l i : (i < len l)%nat -> bump l (Z.of_nat i) = Ok (<[i := u32 (nth i l 0 + 1)]> l).
Proof.
  intros H. destruct (lookup_lt_is_Some_2 l i H) as [v Hv]. unfold bump. rewrite (load_ok _ _ _ Hv). cbn.
  rewrite store_ok by lia. by rewrite Nat2Z.id, (nth_lookup_Some _ _ _ _ Hv).
Qed.

Lemma count_error_ok i w :
  mwf w -> (i < 8)%nat ->
  exists w', count_error (Z.of_nat i) w = Ok (tt, w', []) /\ mwf w' /\ stored w' = stored w /\
    lengthBytes w' = lengthBytes w /\ scratchPad w' = scratchPad w /\
    (exists l, parse w' = with_crcErrors l (parse w)).
Proof.
  intros Hw Hi. pose proof (mwf_errors w Hw) as He. unfold count_error. run. unfold lift.
  rewrite bump_ok by lia. eexists. split; [reflexivity|]. split_and!; try done; [|by eexists].
  destruct Hw. split; cbn; try done. by rewrite length_insert.
Qed.

Lemma deliver_ok i w :
  mwf w -> (i < 8)%nat ->
  exists w', (count_message (Z.of_nat i);; call_eomCallback (Z.of_nat i)) w =
      Ok (tt, w', [EvEom meom (parse w') (Z.of_nat i)]) /\ mwf w' /\ stored w' = stored w /\
    lengthBytes w' = lengthBytes w /\ scratchPad w' = scratchPad w /\
    messagesProcessed (parse w') = counted [(Z.of_nat i, stored w)] (messagesProcessed (parse w)).
Proof.
  intros Hw Hi. pose proof (mwf_messages w Hw) as Hm. pose proof (mwf_eom w Hw) as He.
  set (l := <[i := u32 (nth i (messagesProcessed (parse w)) 0 + 1)]> (messagesProcessed (parse w))).
  exists (on_parse (with_messagesProcessed l) w). split_and!; try done.
  - unfold count_message. erewrite bind_silent; [|run; unfold lift; rewrite bump_ok by lia; reflexivity].
    unfold call_eomCallback. rewrite bind_the. cbn. by rewrite He.
  - destruct Hw. split; cbn; try done. unfold l. by rewrite length_insert.
  - cbn. by rewrite Nat2Z.id.
Qed.

Lemma mdelivered_eom f p t : mdelivered [EvEom f p t] = [(t, take (Z.to_nat (length p)) (buffer p))].
Proof. done. Qed.

End execution.

(* ------------------------------------------------------------------ *)
(** ** The search for the first byte

    [mmpFirstByte] and the preamble routines of [MultiParser] take the step of the
    machine of [MultiSpec]. *)

Section scan.
  Context `{SU : MSetup}.

(** The structure with which the parsers are tried. *)
Definition rescanned (b : Z) (p : MMP_PARSE_STATE) : MMP_PARSE_STATE :=
  let q := pushed b (with_type MMP_PROTOCOL_COUNT (with_length 0 (with_computeCrc None (with_crc 0 p)))) in
  with_totalBytes (u32 (totalBytes q + 1)) q.

Lemma mwf_rescanned b w : mwf w -> is_u8 b -> mwf (on_parse (rescanned b) w).
Proof.
  intros [] Hb. pose proof mB_range. split; cbn; try done; [by rewrite length_insert|by apply Forall_insert|lia].
Qed.

Lemma stored_rescanned b w : mwf w -> stored (on_parse (rescanned b) w) = [b].
Proof.
  intros Hw. pose proof (mwf_buffer w Hw). pose proof mB_range. pose proof mC_range. unfold stored. cbn.
  destruct (buffer (parse w)) as [|x l]; cbn in *; [lia|]. done.
Qed.

Lemma mmpFirstByte_run b w :
  mwf w -> is_u8 b ->
  mmpFirstByte b w = try_parsers mmp_parserTable 0 b (on_parse (rescanned b) w).
Proof.
  intros Hw Hb. unfold mmpFirstByte. run. pose proof mB_range.
  set (v := on_parse (with_type _) _). assert (mwf v) as Hv by (destruct Hw; split; cbn; done || lia).
  rewrite (bind_silent _ _ _ _ _ (mmp_buffer_push_ok b v Hv ltac:(cbn; lia))). by run.
Qed.

(** A world in which the scan tries the parsers. *)
Record fresh (b : Z) (w : world) : Prop := {
  fresh_wf : mwf w;
  fresh_stored : stored w = [b];
  fresh_lengthBytes : lengthBytes w = 0;
  fresh_computeCrc : computeCrc (parse w) = None
}.

Lemma fresh_rescanned b w : mwf w -> is_u8 b -> lengthBytes w = 0 -> fresh b (on_parse (rescanned b) w).
Proof. intros Hw Hb Hk. split; [by apply mwf_rescanned|by apply stored_rescanned|done|done]. Qed.

Lemma try_semp l i w :
  fresh 0xAA w -> mrefines (try_parsers (fn_mmpSempPreamble :: l) i 0xAA) w (Some (true, Semp [0xAA], [])).
Proof.
  intros [Hw Hs Hk _]. eexists _, []. split; [reflexivity|]. split_and!; [|done|done].
  split; [by destruct Hw|]. split_and!; [done|done|done|]. by apply semp_sync2.
Qed.

Lemma try_nmea l i w :
  fresh 0x24 w -> mrefines (try_parsers (fn_mmpNmeaPreamble :: l) i 0x24) w (Some (true, Nmea (TName []), [])).
Proof.
  intros [Hw Hs Hk _]. eexists _, []. split; [reflexivity|]. split_and!; [|done|done].
  pose proof (mwf_pad w Hw) as Hpad.
  split; [mwf_from Hw|]. split_and!; [done|done|done|split; [cbn; lia|done]|]. apply mnmea_name; [|done].
  split; [|done]. cbn [scratchPad on_parse]. by rewrite pad_get_eq.
Qed.

Lemma try_ublox l i w :
  fresh 0xB5 w -> mrefines (try_parsers (fn_mmpUbloxPreamble :: l) i 0xB5) w (Some (true, Ublox [0xB5], [])).
Proof.
  intros [Hw Hs Hk _]. eexists _, []. split; [reflexivity|]. split_and!; [|done|done].
  split; [by destruct Hw|]. split_and!; [done|done|]. by apply mublox_sync2.
Qed.

Lemma try_rtcm b i w :
  fresh b w -> mrefines (try_parsers [fn_mmpRtcmPreamble] i b) w (Some (false, Idle, [])).
Proof.
  intros [Hw Hs Hk _]. cbn [try_parsers call_preamble]. unfold mmpRtcmPreamble.
  destruct (negb (b =? 0xD3)).
  - eexists _, []. split; [reflexivity|]. split_and!; [|done|done]. split; [by destruct Hw|done].
  - destruct (mmpSafePrintf_ok (printDebug (parse w)) "MMP: RTCM协议检测到但未完全实现" [] w eq_refl)
      as (ev & Hev & Hd).
    eapply (mrefines_bind_quiet _ _ _ false (on_parse (with_state fn_mmpFirstByte) w) ev); [|done|done|].
    + run. rewrite (bind_ok _ _ _ _ _ _ Hev). cbn. by rewrite app_nil_r.
    + eexists _, []. split; [reflexivity|]. split_and!; [|done|done]. split; [by destruct Hw|done].
Qed.

(** A preamble that does not know the byte changes nothing. *)
Lemma try_next f l i b w o :
  call_preamble f b w = Ok (false, w, []) -> mrefines (try_parsers l (i + 1) b) w o ->
  mrefines (try_parsers (f :: l) i b) w o.
Proof. intros Hf H. cbn [try_parsers]. by eapply mrefines_bind_quiet. Qed.

Lemma mmpFirstByte_refines b w :
  mwf w -> is_u8 b -> lengthBytes w = 0 -> mrefines (mmpFirstByte b) w (rescan [] b).
Proof.
  intros Hw Hb Hk. apply (mrefines_run _ (try_parsers mmp_parserTable 0 b) _ (on_parse (rescanned b) w));
    [by apply mmpFirstByte_run|done|].
  pose proof (fresh_rescanned b w Hw Hb Hk) as Hq. unfold rescan, mscan, mmp_parserTable.
  destruct (Z.eqb_spec b 0xAA) as [->|H1]; [by apply try_semp|]. apply try_next.
  { cbn [call_preamble]. unfold mmpSempPreamble. apply Z.eqb_neq in H1. rewrite H1. reflexivity. }
  destruct (Z.eqb_spec b 0x24) as [->|H2]; [by apply try_nmea|]. apply try_next.
  { cbn [call_preamble]. unfold mmpNmeaPreamble. apply Z.eqb_neq in H2. rewrite H2. reflexivity. }
  destruct (Z.eqb_spec b 0xB5) as [->|H3]; [by apply try_ublox|]. apply try_next.
  { cbn [call_preamble]. unfold mmpUbloxPreamble. apply Z.eqb_neq in H3. rewrite H3. reflexivity. }
  by apply try_rtcm.
Qed.

(** After output by an earlier routine. *)
Lemma mmpFirstByte_after {A} (m : P A) b w a w' ev :
  m w = Ok (a, w', ev) -> mwf w' -> is_u8 b -> lengthBytes w' = 0 ->
  messagesProcessed (parse w') = counted (mdelivered ev) (messagesProcessed (parse w)) ->
  mrefines (m;; mmpFirstByte b) w (rescan (mdelivered ev) b).
Proof.
  intros Hm Hw' Hb Hk Hc.
  pose proof (mrefines_bind m (fun _ => mmpFirstByte b) w a w' ev (rescan [] b) Hm Hc) as H.
  cbn in H. rewrite app_nil_r in H. by apply H, mmpFirstByte_refines.
Qed.

Lemma print_first_refines cb format args b w :
  forallb printable args = true -> mwf w -> is_u8 b -> lengthBytes w = 0 ->
  mrefines (mmpSafePrintf cb format args;; mmpFirstByte b) w (rescan [] b).
Proof. intros Ha Hw Hb Hk. by apply mrefines_print, mmpFirstByte_refines. Qed.

End scan.
