(* ===== verification/MultiSemp.v ===== *)
(** * The SEMP frames of the multi-protocol parser

    Every state routine of the SEMP protocol in [MultiParser] takes the step of
    the machine of [MultiSpec]. *)
From S2P Require Import Prelude Crc ParseState FrameSpec Sentences Representation SentenceRefine.
From S2P Require Import MultiParser MultiSpec MultiRep.

Local Abbreviation len := List.length.

Section semp.
  Context `{SU : MSetup}.

(** The byte [b] has been stored after [m] and checked; the state is still the
    one of [m]. *)
Record semp_taken (w : world) (m : list Z) (b : Z) : Prop := {
  st_wf : mwf w;
  st_byte : is_u8 b;
  st_stored : stored w = m ++ [b];
  st_lengthBytes : lengthBytes w = 0;
  st_compute : computeCrc (parse w) = Some fn_mmpSempComputeCrc
}.

Definition target (m : list Z) (b : Z) : option (bool * mstate * output) :=
  frame_end (semp_verdict (m ++ [b])) (Semp (m ++ [b])) 0 (m ++ [b]) b.

(** A routine that keeps reading. *)
Lemma semp_more (r : P bool) w m b w' :
  semp_taken w m b -> r w = Ok (true, w', []) -> mwf w' -> stored w' = m ++ [b] -> lengthBytes w' = 0 ->
  computeCrc (parse w') = Some fn_mmpSempComputeCrc ->
  messagesProcessed (parse w') = messagesProcessed (parse w) ->
  semp_rel (scratchPad w') (crc (parse w')) (state (parse w')) (m ++ [b]) ->
  semp_verdict (m ++ [b]) = More -> mrefines r w (target m b).
Proof. unfold target. intros _ Hr Hw Hs Hk Hc Hm Hrel ->. exists w', []. split_and!; done. Qed.

Lemma semp_reject w m b :
  semp_taken w m b -> semp_verdict (m ++ [b]) = Reject -> mrefines (mmpFirstByte b) w (target m b).
Proof. unfold target. intros [] ->. by apply mmpFirstByte_refines. Qed.

Lemma mmpSempSync2_refines w b :
  semp_taken w [0xAA] b -> crc (parse w) = crc32_run 0xFFFFFFFF [0xAA; b] ->
  mrefines (mmpSempSync2 b) w (target [0xAA] b).
Proof.
  intros Ht Hc. unfold mmpSempSync2. destruct (b =? 0x44) eqn:E; cbn [negb].
  - apply Z.eqb_eq in E as ->. pose proof Ht as []. eapply semp_more; [done|reflexivity|mwf_from st_wf0|done..| |done].
    by apply semp_sync3.
  - apply semp_reject; [done|]. cbn. by rewrite E.
Qed.

Lemma mmpSempSync3_refines w b :
  semp_taken w [0xAA; 0x44] b -> crc (parse w) = crc32_run 0xFFFFFFFF [0xAA; 0x44; b] ->
  mrefines (mmpSempSync3 b) w (target [0xAA; 0x44] b).
Proof.
  intros Ht Hc. unfold mmpSempSync3. destruct (b =? 0x18) eqn:E; cbn [negb].
  - apply Z.eqb_eq in E as ->. pose proof Ht as []. eapply semp_more; [done|reflexivity|mwf_from st_wf0|done..| |done].
    by eapply semp_head; [reflexivity|cbn; lia|].
  - apply semp_reject; [done|]. cbn. by rewrite E.
Qed.

(** The check begins: [m] is the frame without it. *)
Definition checking (w : world) : world :=
  let c := Z.lxor (crc (parse w)) 0xFFFFFFFF in
  World (with_state fn_mmpSempReadCrc (with_crc c (parse w)))
        (put semp_crc c (put semp_bytesRemaining 4 (scratchPad w))) (lengthBytes w).

Lemma checking_rel w m n :
  mwf w -> semp_header m n -> len m = (20 + n)%nat -> crc (parse w) = crc32_run 0xFFFFFFFF m ->
  mwf (checking w) /\
  semp_rel (scratchPad (checking w)) (crc (parse (checking w))) (state (parse (checking w))) m.
Proof.
  intros Hw Hh Hl Hc. pose proof (mwf_pad w Hw) as Hp.
  assert (is_u32 (Z.lxor (crc (parse w)) 0xFFFFFFFF)) as H32.
  { rewrite Hc. apply lxor_u32; [by apply crc32_run_range|done]. }
  split; [unfold checking; mwf_from Hw|]. apply (semp_check _ _ m n); [done|lia| |].
  - cbn [scratchPad checking]. rewrite pad_get_eq by auto with pad. rewrite firstn_all2 by lia. rewrite <-Hc.
    apply Z.mod_small. exact H32.
  - cbn [scratchPad checking]. pad_simpl. replace (24 + n - len m)%nat with 4%nat by lia. done.
Qed.

Lemma header_extends m b n : semp_header m n -> semp_header (m ++ [b]) n.
Proof.
  intros ((rest & ->) & Hl & Hh & Hn). split_and!.
  - by exists (rest ++ [b]).
  - rewrite length_app. lia.
  - by rewrite get_app by (unfold fits; cbn in *; lia).
  - unfold custom_length in *. by rewrite get_app by (unfold fits; cbn in *; lia).
Qed.

(** The verdict on a frame with a complete header. *)
Lemma semp_verdict_header m n :
  semp_header m n ->
  semp_verdict m =
    if (len m <? 24 + n)%nat then More
    else Done (bool_decide (drop (20 + n) m = custom_check (take (20 + n) m))).
Proof.
  intros ((rest & Hm) & Hl & Hh & Hn). rewrite (semp_verdict_synced m _ _ Hm).
  destruct (len m <? 20)%nat eqn:E; [lia|]. rewrite Hh. cbn [negb Z.eqb Pos.eqb]. cbn zeta. by rewrite Hn.
Qed.

(** The end of a frame. *)
Lemma semp_done (r : P bool) w m b w' ev ok :
  semp_taken w m b -> r w = Ok (false, w', ev) -> mwf w' -> state (parse w') = fn_mmpFirstByte ->
  lengthBytes w' = 0 -> semp_verdict (m ++ [b]) = Done ok ->
  mdelivered ev = (if ok then [(0, m ++ [b])] else []) ->
  messagesProcessed (parse w') = counted (mdelivered ev) (messagesProcessed (parse w)) ->
  mrefines r w (target m b).
Proof. unfold target. intros _ Hr Hw Hst Hk -> Hd Hc. exists w', ev. rewrite Hd in Hc. split_and!; done. Qed.

(** The rest of [mmpSempReadHeader] once the header is complete and accepted. *)
Definition header_rest (data : Z) : P bool :=
  l <- header_get header_messageLength;; pad_set semp_bytesRemaining l;;
  r <- pad_get semp_bytesRemaining;;
  (if r =? 0 then begin_crc else assign (with_state fn_mmpSempReadData));;
  ret true.

Lemma header_rest_refines w m b n :
  semp_taken w m b -> semp_header (m ++ [b]) n -> len (m ++ [b]) = 20%nat ->
  crc (parse w) = crc32_run 0xFFFFFFFF (m ++ [b]) -> mrefines (header_rest b) w (target m b).
Proof.
  intros Ht Hh Hl Hc. pose proof Ht as [Hw Hb Hs Hk Hcc]. pose proof (mwf_pad w Hw) as Hp.
  pose proof (length_stored w Hw) as Hlen. rewrite Hs, Hl in Hlen.
  assert (semp_verdict (m ++ [b]) = More) as Hv.
  { rewrite (semp_verdict_header _ _ Hh). destruct (_ <? _)%nat eqn:E; [done|lia]. }
  pose proof Hh as (_ & _ & _ & Hn). unfold custom_length in Hn.
  assert (bytes (m ++ [b])) as Hbs by (rewrite <-Hs; by apply stored_are_bytes).
  pose proof (get_range (Member 12 2) (m ++ [b]) Hbs ltac:(unfold fits; cbn; lia)) as Hr.
  set (l := get (Member 12 2) (m ++ [b])) in *.
  pose proof (mmp_header_get_ok header_messageLength w Hw ltac:(cbn; lia) ltac:(lia)) as Hg.
  rewrite Hs in Hg. change (get header_messageLength (m ++ [b])) with l in Hg.
  set (w1 := World (parse w) (put semp_bytesRemaining l (scratchPad w)) (lengthBytes w)).
  assert (mwf w1) as Hw1 by (unfold w1; mwf_from Hw).
  assert (get semp_bytesRemaining (scratchPad w1) = l) as Hrem.
  { cbn [scratchPad w1]. rewrite pad_get_eq by auto with pad. by apply Z.mod_small. }
  apply (mrefines_run _ ((if l =? 0 then begin_crc else assign (with_state fn_mmpSempReadData));; ret true) _ w1); [|done|].
  { unfold header_rest. rewrite (bind_silent _ _ _ _ _ Hg). run. fold w1. by rewrite Hrem. }
  destruct (l =? 0) eqn:E.
  - destruct (checking_rel w1 (m ++ [b]) n) as [H1 H2]; [done|done|lia|done|].
    eapply (semp_more _ w1 m b (checking w1)); [by split|reflexivity|done..].
  - eapply (semp_more _ w1 m b (on_parse (with_state fn_mmpSempReadData) w1)); [by split|reflexivity|mwf_from Hw1|done..| |done].
    apply (semp_data _ _ _ n); [done|lia|done|]. cbn [scratchPad on_parse]. rewrite Hrem. lia.
Qed.

Lemma mmpSempReadHeader_refines w m rest b :
  semp_taken w m b -> m = 0xAA :: 0x44 :: 0x18 :: rest -> (len m < 20)%nat ->
  crc (parse w) = crc32_run 0xFFFFFFFF (m ++ [b]) -> state (parse w) = fn_mmpSempReadHeader ->
  mrefines (mmpSempReadHeader b) w (target m b).
Proof.
  intros Ht Hm Hlen Hc Hst. pose proof Ht as [Hw Hb Hs Hk Hcc]. pose proof (length_stored w Hw) as Hl.
  rewrite Hs in Hl. assert (m ++ [b] = 0xAA :: 0x44 :: 0x18 :: (rest ++ [b])) as Hmb by (by rewrite Hm).
  assert (len (m ++ [b]) = S (len m)) as Hl1 by (rewrite length_app; cbn; lia).
  pose proof (semp_verdict_synced _ _ _ Hmb) as Hv.
  unfold mmpSempReadHeader, sizeof_MMP_SEMP_HEADER. destruct (20 <=? length (parse w)) eqn:E.
  2: { eapply semp_more; [done|run; rewrite E; reflexivity|done..| |].
       - rewrite Hst. eapply semp_head; [done|lia|done].
       - rewrite Hv. destruct (_ <? 20)%nat eqn:E2; [done|lia]. }
  destruct (len (m ++ [b]) <? 20)%nat eqn:E2 in Hv; [lia|].
  assert (forall f, (offset f + size f <= 20)%nat -> header_get f w = Ok (get f (m ++ [b]), w, [])) as Hg.
  { intros f Hf. rewrite (mmp_header_get_ok f w Hw Hf) by lia. by rewrite Hs. }
  destruct (get (Member 3 1) (m ++ [b]) =? 0x14) eqn:E3; cbn [negb] in Hv.
  - assert (semp_header (m ++ [b]) (custom_length (m ++ [b]))) as Hh.
    { split_and!; [by eexists|lia|lia|done]. }
    apply (mrefines_run _ (header_rest b) _ w).
    { run. rewrite E. rewrite (bind_silent _ _ _ _ _ (Hg header_headerLength ltac:(cbn; lia))).
      unfold header_headerLength. rewrite E3. done. }
    { done. }
    eapply header_rest_refines; [done|done|lia|done].
  - destruct (mmpSafePrintf_ok (printDebug (parse w)) "MMP: SEMP无效头部长度: 0x%02X"
      [AInt (get (Member 3 1) (m ++ [b]))] w eq_refl) as (ev & Hev & Hd).
    eapply (semp_done _ w m b (on_parse (with_state fn_mmpFirstByte) w) ev false);
      [done| |mwf_from Hw|done|done|exact Hv|done|by rewrite Hd].
    run. rewrite E. rewrite (bind_silent _ _ _ _ _ (Hg header_headerLength ltac:(cbn; lia))).
    unfold header_headerLength. rewrite E3. cbn [negb]. run. rewrite (bind_ok _ _ _ _ _ _ Hev). cbn.
    by rewrite app_nil_r.
Qed.

Lemma mmpSempReadData_refines w m b n :
  semp_taken w m b -> semp_header m n -> (len m < 20 + n)%nat -> crc (parse w) = crc32_run 0xFFFFFFFF (m ++ [b]) ->
  get semp_bytesRemaining (scratchPad w) = Z.of_nat (20 + n - len m) -> state (parse w) = fn_mmpSempReadData ->
  mrefines (mmpSempReadData b) w (target m b).
Proof.
  intros Ht Hh Hl Hc Hrem Hst. pose proof Ht as [Hw Hb Hs Hk Hcc]. pose proof (mwf_pad w Hw) as Hp.
  pose proof (header_extends m b n Hh) as Hh'. assert (len (m ++ [b]) = S (len m)) as Hl1 by (rewrite length_app; cbn; lia).
  assert (semp_verdict (m ++ [b]) = More) as Hv.
  { rewrite (semp_verdict_header _ _ Hh'). destruct (_ <? _)%nat eqn:E; [done|lia]. }
  pose proof (pad_get_range semp_bytesRemaining _ Hp eq_refl) as Hr. rewrite Hrem in Hr. cbn in Hr.
  set (k := Z.of_nat (20 + n - len (m ++ [b]))).
  assert (u16 (get semp_bytesRemaining (scratchPad w) - 1) = k) as Hu.
  { rewrite Hrem, u16_id by (unfold is_u16; lia). unfold k. lia. }
  set (w1 := World (parse w) (put semp_bytesRemaining k (scratchPad w)) (lengthBytes w)).
  assert (mwf w1) as Hw1 by (unfold w1; mwf_from Hw).
  assert (get semp_bytesRemaining (scratchPad w1) = k) as Hk1.
  { cbn [scratchPad w1]. rewrite pad_get_eq by auto with pad. apply Z.mod_small. cbn. lia. }
  apply (mrefines_run _ (when (k =? 0) begin_crc;; ret true) _ w1); [|done|].
  { unfold mmpSempReadData. run. rewrite Hu. fold w1. by rewrite Hk1. }
  destruct (k =? 0) eqn:E; cbn [when].
  - destruct (checking_rel w1 (m ++ [b]) n) as [H1 H2]; [done|done|lia|done|].
    eapply (semp_more _ w1 m b (checking w1)); [by split|reflexivity|done..].
  - eapply (semp_more _ w1 m b w1); [by split|reflexivity|done..| |done].
    cbn [parse w1]. rewrite Hst. apply (semp_data _ _ _ n); [done|lia|done|done].
Qed.

(** The four bytes of the check, read back from the buffer. *)
Lemma crc_read_ok w m b1 b2 b3 b4 :
  mwf w -> stored w = m ++ [b1; b2; b3; b4] ->
  (if 4 <=? length (parse w) then
     x4 <- buffer_at (length (parse w) - 4);; x3 <- buffer_at (length (parse w) - 3);;
     x2 <- buffer_at (length (parse w) - 2);; x1 <- buffer_at (length (parse w) - 1);;
     ret (Z.lor (Z.lor (Z.lor x4 (Z.shiftl x3 8)) (Z.shiftl x2 16)) (Z.shiftl x1 24))
   else ret 0) w = Ok (le_combine [b1; b2; b3; b4], w, []).
Proof.
  intros Hw Hs. pose proof (length_stored w Hw) as Hl. rewrite Hs, length_app in Hl. cbn [List.length] in Hl.
  destruct (4 <=? length (parse w)) eqn:E; [|lia].
  rewrite (bind_silent _ _ _ _ _ (buffer_at_last w m _ 0 b1 Hw Hs eq_refl)).
  rewrite (bind_silent _ _ _ _ _ (buffer_at_last w m _ 1 b2 Hw Hs eq_refl)).
  rewrite (bind_silent _ _ _ _ _ (buffer_at_last w m _ 2 b3 Hw Hs eq_refl)).
  rewrite (bind_silent _ _ _ _ _ (buffer_at_last w m _ 3 b4 Hw Hs eq_refl)).
  pose proof (stored_are_bytes w Hw) as Hb. rewrite Hs in Hb.
  apply Forall_app in Hb as [_ [B1 [B2 [B3 _]%Forall_cons_1]%Forall_cons_1]%Forall_cons_1].
  by rewrite lor_bytes_4.
Qed.

(** Four bytes equal the encoding of a value. *)
Lemma combine_eq_split b1 b2 b3 b4 v :
  bytes [b1; b2; b3; b4] -> is_u32 v ->
  (le_combine [b1; b2; b3; b4] =? v) = bool_decide ([b1; b2; b3; b4] = le_split 4 v).
Proof.
  intros Hb Hv. case_bool_decide as H.
  - rewrite H. apply Z.eqb_eq, le_combine_split. exact Hv.
  - apply Z.eqb_neq. intros <-. apply H. symmetry. by apply (le_split_combine [b1; b2; b3; b4]).
Qed.

Lemma last_four (m : list Z) n : len m = (4 + n)%nat ->
  exists b1 b2 b3 b4, m = take n m ++ [b1; b2; b3; b4] /\ drop n m = [b1; b2; b3; b4].
Proof.
  intros H. assert (len (drop n m) = 4%nat) as Hd by (rewrite length_drop; lia).
  destruct (drop n m) as [|b1 [|b2 [|b3 [|b4 [|]]]]] eqn:E; try done.
  exists b1, b2, b3, b4. split; [|done]. by rewrite <-E, take_drop.
Qed.

(** The report of a wrong check. *)
Definition crc_report (v n : Z) : P unit :=
  b4 <- buffer_at (n - 4);; b3 <- buffer_at (n - 3);;
  b2 <- buffer_at (n - 2);; b1 <- buffer_at (n - 1);;
  p <- the id;;
  mmpSafePrintf (printDebug p)
    "MMP: %s SEMP CRC错误, 接收: %02X %02X %02X %02X, 计算: %02X %02X %02X %02X"
    [shown_name p; AInt b4; AInt b3; AInt b2; AInt b1; AInt (Z.land v 0xff);
     AInt (Z.land (Z.shiftr v 8) 0xff); AInt (Z.land (Z.shiftr v 16) 0xff);
     AInt (Z.land (Z.shiftr v 24) 0xff)].

Lemma crc_report_ok v w body b1 b2 b3 b4 :
  mwf w -> stored w = body ++ [b1; b2; b3; b4] ->
  exists ev, crc_report v (length (parse w)) w = Ok (tt, w, ev) /\ mdelivered ev = [].
Proof.
  intros Hw Hs. unfold crc_report.
  rewrite (bind_silent _ _ _ _ _ (buffer_at_last w body _ 0 b1 Hw Hs eq_refl)).
  rewrite (bind_silent _ _ _ _ _ (buffer_at_last w body _ 1 b2 Hw Hs eq_refl)).
  rewrite (bind_silent _ _ _ _ _ (buffer_at_last w body _ 2 b3 Hw Hs eq_refl)).
  rewrite (bind_silent _ _ _ _ _ (buffer_at_last w body _ 3 b4 Hw Hs eq_refl)).
  rewrite bind_the. by apply mmpSafePrintf_ok.
Qed.

(** The end of [mmpSempReadCrc]: the comparison. *)
Definition crc_rest (crcRead n : Z) : P bool :=
  crcComputed <- pad_get semp_crc;;
  (if crcRead =? crcComputed then
     count_message MMP_PROTOCOL_SEMP;;
     call_eomCallback MMP_PROTOCOL_SEMP
   else
     count_error MMP_PROTOCOL_SEMP;;
     unhandled <- badCrc_unhandled;;
     if (unhandled : bool) then crc_report crcComputed n else ret tt);;
  assign (with_state fn_mmpFirstByte);;
  ret false.

Lemma badCrc_unhandled_ok w : exists a ev, badCrc_unhandled w = Ok (a, w, ev) /\ mdelivered ev = [].
Proof.
  unfold badCrc_unhandled. rewrite bind_the. unfold id. destruct (badCrc (parse w)); by eexists _, _.
Qed.

Lemma crc_rest_refines w m b body b1 b2 b3 b4 v :
  semp_taken w m b -> m ++ [b] = body ++ [b1; b2; b3; b4] -> get semp_crc (scratchPad w) = v ->
  semp_verdict (m ++ [b]) = Done (le_combine [b1; b2; b3; b4] =? v) ->
  mrefines (crc_rest (le_combine [b1; b2; b3; b4]) (length (parse w))) w (target m b).
Proof.
  intros Ht Hm Hv Hver. pose proof Ht as [Hw Hb Hs Hk Hcc].
  destruct (le_combine [b1; b2; b3; b4] =? v) eqn:E.
  - destruct (deliver_ok 0 w Hw ltac:(lia)) as (w' & Hdel & Hw' & Hs' & Hk' & _ & Hc').
    eapply (semp_done _ w m b (on_parse (with_state fn_mmpFirstByte) w') [EvEom meom (parse w') 0] true);
      [done| |mwf_from Hw'|done|by rewrite <-Hk|exact Hver| |].
    + unfold crc_rest. run. rewrite Hv, E. rewrite (bind_ok _ _ _ _ _ _ Hdel). reflexivity.
    + rewrite mdelivered_eom. unfold stored in Hs'. by rewrite Hs', <-Hs.
    + rewrite mdelivered_eom. unfold stored in Hs'. rewrite Hs'. exact Hc'.
  - destruct (count_error_ok 0 w Hw ltac:(lia)) as (w' & Hcnt & Hw' & Hs' & Hk' & Hp' & l & Hl).
    destruct (badCrc_unhandled_ok w') as (a & ev & Hbad & Hev).
    rewrite Hs, Hm in Hs'. assert (length (parse w) = length (parse w')) as Hlen by (by rewrite Hl).
    assert (exists ev', (if a then crc_report v (length (parse w)) else ret tt) w' = Ok (tt, w', ev') /\
      mdelivered ev' = []) as (ev' & Hprt & Hev').
    { destruct a; [|by exists []]. rewrite Hlen. by eapply crc_report_ok. }
    assert (mdelivered (ev ++ ev') = []) as Hd by (by rewrite mdelivered_app, Hev, Hev').
    eapply (semp_done _ w m b (on_parse (with_state fn_mmpFirstByte) w') (ev ++ ev') false);
      [done| |mwf_from Hw'|done|by rewrite <-Hk|exact Hver|exact Hd|].
    + unfold crc_rest. run. rewrite Hv, E.
      rewrite (bind_ok _ _ _ tt w' (ev ++ ev')).
      * cbn. by rewrite app_nil_r.
      * rewrite (bind_silent _ _ _ _ _ Hcnt), (bind_ok _ _ _ _ _ _ Hbad), Hprt. done.
    + rewrite Hd. cbn. by rewrite Hl.
Qed.

Lemma mmpSempReadCrc_refines w m b n :
  semp_taken w m b -> semp_header m n -> (20 + n <= len m < 24 + n)%nat ->
  get semp_crc (scratchPad w) = Z.lxor (crc32_run 0xFFFFFFFF (take (20 + n) m)) 0xFFFFFFFF ->
  get semp_bytesRemaining (scratchPad w) = Z.of_nat (24 + n - len m) -> state (parse w) = fn_mmpSempReadCrc ->
  mrefines (mmpSempReadCrc b) w (target m b).
Proof.
  intros Ht Hh Hl Hcrc Hrem Hst. pose proof Ht as [Hw Hb Hs Hk Hcc]. pose proof (mwf_pad w Hw) as Hp.
  pose proof (header_extends m b n Hh) as Hh'. assert (len (m ++ [b]) = S (len m)) as Hl1 by (rewrite length_app; cbn; lia).
  set (k := Z.of_nat (24 + n - len (m ++ [b]))).
  assert (u16 (get semp_bytesRemaining (scratchPad w) - 1) = k) as Hu.
  { rewrite Hrem, u16_id by (unfold is_u16; lia). unfold k. lia. }
  set (w1 := World (parse w) (put semp_bytesRemaining k (scratchPad w)) (lengthBytes w)).
  assert (mwf w1) as Hw1 by (unfold w1; mwf_from Hw). assert (semp_taken w1 m b) as Ht1 by (by split).
  assert (get semp_bytesRemaining (scratchPad w1) = k) as Hk1.
  { cbn [scratchPad w1]. rewrite pad_get_eq by auto with pad. apply Z.mod_small. cbn. lia. }
  assert (take (20 + n) (m ++ [b]) = take (20 + n) m) as Htk by (by rewrite take_app_le by lia).
  assert (get semp_crc (scratchPad w1) = Z.lxor (crc32_run 0xFFFFFFFF (take (20 + n) (m ++ [b]))) 0xFFFFFFFF) as Hcrc1.
  { cbn [scratchPad w1]. rewrite Htk. by pad_simpl. }
  pose proof (semp_verdict_header _ _ Hh') as Hv. destruct (k =? 0) eqn:E.
  - destruct (len (m ++ [b]) <? 24 + n)%nat eqn:E2 in Hv; [lia|].
    destruct (last_four (m ++ [b]) (20 + n)) as (b1 & b2 & b3 & b4 & Hm & Hd); [lia|].
    assert (bytes (m ++ [b])) as Hbs by (rewrite <-Hs; by apply stored_are_bytes).
    assert (bytes [b1; b2; b3; b4]) as Hb4 by (rewrite <-Hd; by apply Forall_drop).
    rewrite Hd in Hv. unfold custom_check in Hv. rewrite <-crc32_run_ref in Hv by (done || by apply Forall_take).
    rewrite <-Hcrc1, <-combine_eq_split in Hv.
    2: done.
    2: { rewrite Hcrc1. apply lxor_u32; [by apply crc32_run_range|done]. }
    apply (mrefines_run _ (crc_rest (le_combine [b1; b2; b3; b4]) (length (parse w1))) _ w1); [|done|].
    + unfold mmpSempReadCrc. run. rewrite Hu. fold w1. rewrite Hk1, E. cbn [negb].
      rewrite bind_the. rewrite (bind_silent _ _ _ _ _ (crc_read_ok w1 _ b1 b2 b3 b4 Hw1 (eq_trans Hs Hm))). done.
    + eapply crc_rest_refines; [done|exact Hm|reflexivity|exact Hv].
  - destruct (len (m ++ [b]) <? 24 + n)%nat eqn:E2 in Hv; [|lia].
    eapply (semp_more _ w m b w1); [done|unfold mmpSempReadCrc; run; rewrite Hu; fold w1; rewrite Hk1, E; reflexivity|done..| |done].
    cbn [parse w1]. rewrite Hst. apply (semp_check _ _ _ n); [done|lia|done|done].
Qed.

(** All the states of the protocol. *)
Lemma semp_step_refines w m b c :
  semp_taken w m b -> semp_rel (scratchPad w) c (state (parse w)) m -> crc (parse w) = crc32_update c b ->
  mrefines (call_state (state (parse w)) b) w (target m b).
Proof.
  intros Ht Hrel Hc. inversion Hrel as [Hcr Hst Hm|Hcr Hst Hm|m' rest Hm Hl Hcr Hst Hm'|m' n Hh Hl Hcr Hrem Hst Hm'|
    m' n Hh Hl Hcrc Hrem Hst Hm']; subst; cbn [call_state].
  - by apply mmpSempSync2_refines.
  - by apply mmpSempSync3_refines.
  - eapply mmpSempReadHeader_refines; [done|reflexivity|done| |done]. by rewrite crc32_run_app.
  - eapply mmpSempReadData_refines; [done|done|done| |done|done]. by rewrite crc32_run_app.
  - by eapply mmpSempReadCrc_refines.
Qed.

End semp.
