(* ===== verification/MultiUblox.v ===== *)
(** * The u-blox frames of the multi-protocol parser

    Every state routine of the u-blox protocol in [MultiParser] takes the step of
    the machine of [MultiSpec]. *)
From S2P Require Import Prelude Crc ParseState FrameSpec Sentences Representation SentenceRefine.
From S2P Require Import MultiParser MultiSpec MultiRep.

Local Abbreviation len := List.length.

Section ublox.
  Context `{SU : MSetup}.

Record ublox_taken (w : world) (m : list Z) (b : Z) : Prop := {
  ut_wf : mwf w;
  ut_byte : is_u8 b;
  ut_stored : stored w = m ++ [b];
  ut_compute : computeCrc (parse w) = None
}.

Definition utarget (m : list Z) (b : Z) : option (bool * mstate * output) :=
  frame_end (mublox_verdict (m ++ [b])) (Ublox (m ++ [b])) 2 (m ++ [b]) b.

Lemma ublox_more (r : P bool) w m b w' :
  ublox_taken w m b -> r w = Ok (true, w', []) -> mwf w' -> parse w' = with_state (state (parse w')) (parse w) ->
  mublox_rel (scratchPad w') (lengthBytes w') (state (parse w')) (m ++ [b]) ->
  mublox_verdict (m ++ [b]) = More -> mrefines r w (utarget m b).
Proof.
  unfold utarget. intros [] Hr Hw Hp Hrel ->. exists w', []. split_and!; [done| |done|by rewrite Hp].
  split; [done|]. split_and!; [|by rewrite Hp|done]. rewrite <-ut_stored0. unfold stored. by rewrite Hp.
Qed.

Lemma mmp_ublox_done (r : P bool) w m b w' ev ok :
  r w = Ok (false, w', ev) -> mwf w' -> state (parse w') = fn_mmpFirstByte ->
  lengthBytes w' = 0 -> mublox_verdict (m ++ [b]) = Done ok ->
  mdelivered ev = (if ok then [(2, m ++ [b])] else []) ->
  messagesProcessed (parse w') = counted (mdelivered ev) (messagesProcessed (parse w)) ->
  mrefines r w (utarget m b).
Proof. unfold utarget. intros Hr Hw Hst Hk -> Hd Hc. exists w', ev. rewrite Hd in Hc. split_and!; done. Qed.

(** ** The checksum *)

Definition summed (d : Z) (sp : list Z) : list Z :=
  put ublox_checksumB (u8 (get ublox_checksumB sp + u8 (get ublox_checksumA sp + d)))
    (put ublox_checksumA (u8 (get ublox_checksumA sp + d)) sp).

Lemma mmpUbloxComputeChecksum_ok d w :
  pad_ok (scratchPad w) ->
  mmpUbloxComputeChecksum d w = Ok (tt, World (parse w) (summed d (scratchPad w)) (lengthBytes w), []).
Proof.
  intros Hp. unfold mmpUbloxComputeChecksum. run. cbn [scratchPad parse lengthBytes]. unfold summed, pad_set, modify.
  do 4 f_equal. pad_simpl. by rewrite (Z.mod_small (u8 _)) by apply u8_range.
Qed.

Lemma summed_ok d sp : pad_ok sp -> pad_ok (summed d sp).
Proof. intros. unfold summed. auto with pad. Qed.

Lemma summed_pad d sp l : pad_ok sp -> mublox_pad sp l -> mublox_pad (summed d sp) (l ++ [d]).
Proof.
  intros Hp [Ha Hb]. unfold mublox_pad, summed. rewrite fletcher_app. pad_simpl. rewrite Ha, Hb. cbn.
  split; (rewrite Z.mod_small; [done|apply u8_range]).
Qed.

Lemma summed_remaining d sp : pad_ok sp -> get ublox_bytesRemaining (summed d sp) = get ublox_bytesRemaining sp.
Proof. intros Hp. unfold summed. by pad_simpl. Qed.

Lemma pad_of_parts f v sp l :
  pad_ok sp -> mublox_pad sp l -> f = ublox_bytesRemaining -> mublox_pad (put f v sp) l.
Proof. intros Hp [Ha Hb] ->. split; by pad_simpl. Qed.

(** ** States *)

Lemma mmpUbloxSync2_refines w b :
  ublox_taken w [0xB5] b -> lengthBytes w = 0 -> mrefines (mmpUbloxSync2 b) w (utarget [0xB5] b).
Proof.
  intros Ht Hk. pose proof Ht as []. unfold mmpUbloxSync2. destruct (b =? 0x62) eqn:E; cbn [negb].
  - apply Z.eqb_eq in E as ->. eapply ublox_more; [done|reflexivity|mwf_from ut_wf0|done| |done].
    by apply mublox_class.
  - unfold utarget. cbn. rewrite E. by apply mmpFirstByte_refines.
Qed.

Lemma mmpUbloxReadClass_refines w b :
  ublox_taken w [0xB5; 0x62] b -> lengthBytes w = 0 -> mrefines (mmpUbloxReadClass b) w (utarget [0xB5; 0x62] b).
Proof.
  intros Ht Hk. pose proof Ht as []. eapply ublox_more; [done|reflexivity|mwf_from ut_wf0|done| |done].
  by apply mublox_id.
Qed.

Lemma mmpUbloxReadMessageId_refines w c b :
  ublox_taken w [0xB5; 0x62; c] b -> lengthBytes w = 0 ->
  mrefines (mmpUbloxReadMessageId b) w (utarget [0xB5; 0x62; c] b).
Proof.
  intros Ht Hk. pose proof Ht as [Hw Hb Hs Hc]. pose proof (mwf_pad w Hw) as Hp.
  set (sp0 := put ublox_checksumB 0 (put ublox_checksumA 0 (scratchPad w))).
  assert (pad_ok sp0) as Hp0 by (unfold sp0; auto with pad).
  assert (mublox_pad sp0 []) as Hpad0 by (unfold mublox_pad, sp0; by pad_simpl).
  pose proof (summed_ok c sp0 Hp0) as Hp1. pose proof (summed_ok b _ Hp1) as Hp2.
  pose proof (summed_pad b _ _ Hp1 (summed_pad c _ _ Hp0 Hpad0)) as Hpad2. cbn [app] in Hpad2.
  set (w1 := World (parse w) sp0 (lengthBytes w)). assert (mwf w1) as Hw1 by (destruct Hw; by split).
  eapply (ublox_more _ w _ b (World (with_state fn_mmpUbloxReadLength (parse w)) (summed b (summed c sp0)) 0));
    [done| |destruct Hw; by split|done|by apply mublox_length1|done].
  unfold mmpUbloxReadMessageId. run. fold sp0. cbn [parse lengthBytes]. fold w1.
  assert (buffer_at (length (parse w) - 2) w1 = Ok (c, w1, [])) as Hat
    by exact (buffer_at_last w1 [0xB5; 0x62] [c; b] 0 c Hw1 Hs eq_refl).
  rewrite (bind_silent _ _ _ _ _ Hat).
  rewrite (bind_silent _ _ _ _ _ (mmpUbloxComputeChecksum_ok c w1 Hp0)).
  rewrite (bind_silent _ _ _ _ _ (mmpUbloxComputeChecksum_ok b (World _ _ _) Hp1)).
  cbn. unfold on_parse. cbn. by rewrite Hk.
Qed.

Lemma mmpUbloxReadLength_low w c i b :
  ublox_taken w [0xB5; 0x62; c; i] b -> lengthBytes w = 0 -> mublox_pad (scratchPad w) [c; i] ->
  state (parse w) = fn_mmpUbloxReadLength -> mrefines (mmpUbloxReadLength b) w (utarget [0xB5; 0x62; c; i] b).
Proof.
  intros Ht Hk Hpad Hst. pose proof Ht as [Hw Hb Hs Hc]. pose proof (mwf_pad w Hw) as Hp.
  pose proof (summed_ok b _ Hp) as Hp1. pose proof (summed_pad b _ _ Hp Hpad) as Hpad1.
  set (sp := put ublox_bytesRemaining b (summed b (scratchPad w))).
  assert (pad_ok sp) as Hsp by (unfold sp; auto with pad).
  eapply (ublox_more _ w _ b (World (parse w) sp 1)); [done| |destruct Hw; by split|by destruct (parse w)| |done].
  - unfold mmpUbloxReadLength. rewrite (bind_silent _ _ _ _ _ (mmpUbloxComputeChecksum_ok b w Hp)).
    rewrite bind_gets. cbn [lengthBytes]. rewrite Hk. done.
  - cbn [parse]. rewrite Hst. apply mublox_length2; [done|by apply pad_of_parts|].
    cbn [scratchPad]. unfold sp. rewrite pad_get_eq by auto with pad. apply Z.mod_small.
    unfold is_u8 in Hb. cbn. lia.
Qed.

(** The verdict on a frame whose length is known. *)
Lemma mublox_verdict_more c i l1 l2 body :
  Z.of_nat (len body) <= l1 + 256 * l2 -> mublox_verdict (0xB5 :: 0x62 :: c :: i :: l1 :: l2 :: body) = More.
Proof. intros H. cbn -[fletcher]. by rewrite drop_ge by lia. Qed.

Lemma mmpUbloxReadLength_high w c i l1 b :
  ublox_taken w [0xB5; 0x62; c; i; l1] b -> lengthBytes w = 1 -> mublox_pad (scratchPad w) [c; i; l1] ->
  get ublox_bytesRemaining (scratchPad w) = l1 ->
  mrefines (mmpUbloxReadLength b) w (utarget [0xB5; 0x62; c; i; l1] b).
Proof.
  intros Ht Hk Hpad Hrem. pose proof Ht as [Hw Hb Hs Hc]. pose proof (mwf_pad w Hw) as Hp.
  pose proof (summed_ok b _ Hp) as Hp1. pose proof (summed_pad b _ _ Hp Hpad) as Hpad1.
  pose proof (stored_are_bytes w Hw) as Hbs. rewrite Hs in Hbs.
  assert (is_u8 l1) as Hl1 by (by do 4 apply Forall_cons_1 in Hbs as [_ Hbs]; apply Forall_cons_1 in Hbs as [? _]).
  unfold is_u8 in Hb, Hl1.
  set (sp := put ublox_bytesRemaining (l1 + 256 * b) (summed b (scratchPad w))).
  assert (pad_ok sp) as Hsp by (unfold sp; auto with pad).
  assert (get ublox_bytesRemaining sp = l1 + 256 * b) as Hn.
  { unfold sp. rewrite pad_get_eq by auto with pad. apply Z.mod_small. cbn. lia. }
  assert (u16 (Z.lor (get ublox_bytesRemaining (summed b (scratchPad w))) (Z.shiftl b 8)) = l1 + 256 * b) as Hu.
  { rewrite summed_remaining, Hrem, lor_shiftl_add by (done || lia). rewrite u16_id by (unfold is_u16; lia). lia. }
  eapply (ublox_more _ w _ b (World (with_state (if l1 + 256 * b =? 0 then fn_mmpUbloxChecksumA else fn_mmpUbloxReadData) (parse w)) sp 0));
    [done| |destruct Hw; by split|done| |by apply mublox_verdict_more; cbn; lia].
  - unfold mmpUbloxReadLength. rewrite (bind_silent _ _ _ _ _ (mmpUbloxComputeChecksum_ok b w Hp)).
    rewrite bind_gets. cbn [lengthBytes]. rewrite Hk. cbn [Z.eqb]. run. cbn [scratchPad parse lengthBytes].
    rewrite Hu. fold sp. by rewrite Hn.
  - assert (mublox_pad sp [c; i; l1; b]) by (by apply pad_of_parts).
    cbn [state with_state parse scratchPad lengthBytes]. destruct (l1 + 256 * b =? 0) eqn:E.
    + apply (mublox_ck_a _ _ c i l1 b []); [done|done|cbn; lia].
    + apply (mublox_data _ _ c i l1 b []); [done|done|rewrite Hn; cbn; lia|cbn; lia].
Qed.

Lemma mmpUbloxReadData_refines w c i l1 l2 body b :
  ublox_taken w (0xB5 :: 0x62 :: c :: i :: l1 :: l2 :: body) b -> lengthBytes w = 0 ->
  mublox_pad (scratchPad w) (c :: i :: l1 :: l2 :: body) ->
  get ublox_bytesRemaining (scratchPad w) = l1 + 256 * l2 - Z.of_nat (len body) ->
  Z.of_nat (len body) < l1 + 256 * l2 -> state (parse w) = fn_mmpUbloxReadData ->
  mrefines (mmpUbloxReadData b) w (utarget (0xB5 :: 0x62 :: c :: i :: l1 :: l2 :: body) b).
Proof.
  intros Ht Hk Hpad Hrem Hlt Hst. pose proof Ht as [Hw Hb Hs Hc]. pose proof (mwf_pad w Hw) as Hp.
  pose proof (summed_ok b _ Hp) as Hp1. pose proof (summed_pad b _ _ Hp Hpad) as Hpad1.
  pose proof (pad_get_range ublox_bytesRemaining _ Hp eq_refl) as Hr. rewrite Hrem in Hr. cbn in Hr.
  assert (Z.of_nat (len (body ++ [b])) = Z.of_nat (len body) + 1) as Hlen by (rewrite length_app; cbn; lia).
  set (k := l1 + 256 * l2 - Z.of_nat (len (body ++ [b]))).
  set (sp := put ublox_bytesRemaining k (summed b (scratchPad w))).
  assert (pad_ok sp) as Hsp by (unfold sp; auto with pad).
  assert (get ublox_bytesRemaining sp = k) as Hn.
  { unfold sp. rewrite pad_get_eq by auto with pad. apply Z.mod_small. cbn. lia. }
  assert (u16 (get ublox_bytesRemaining (summed b (scratchPad w)) - 1) = k) as Hu.
  { rewrite summed_remaining, Hrem, u16_id by (done || unfold is_u16; lia). unfold k. lia. }
  eapply (ublox_more _ w _ b (World (with_state (if k =? 0 then fn_mmpUbloxChecksumA else fn_mmpUbloxReadData) (parse w)) sp 0));
    [done| |destruct Hw; by split|done| |].
  - unfold mmpUbloxReadData. rewrite (bind_silent _ _ _ _ _ (mmpUbloxComputeChecksum_ok b w Hp)). run.
    cbn [scratchPad parse lengthBytes]. rewrite Hu. fold sp. rewrite Hn, Hk.
    destruct (k =? 0); [done|]. cbn. by rewrite <-Hst; destruct (parse w).
  - assert (mublox_pad sp (c :: i :: l1 :: l2 :: body ++ [b])) by (by apply pad_of_parts).
    cbn [state with_state parse scratchPad lengthBytes app]. destruct (k =? 0) eqn:E.
    + apply mublox_ck_a; [done|done|lia].
    + apply mublox_data; [done|done|done|lia].
  - cbn [app]. apply mublox_verdict_more. lia.
Qed.

(** The verdicts on the checksum bytes. *)
Lemma drop_body (body : list Z) l1 l2 s :
  Z.of_nat (len body) = l1 + 256 * l2 ->
  drop (Z.to_nat (l1 + 256 * l2)) (body ++ s) = s /\ take (Z.to_nat (l1 + 256 * l2)) (body ++ s) = body.
Proof.
  intros H. replace (Z.to_nat (l1 + 256 * l2)) with (len body) by lia.
  by rewrite drop_app_length, take_app_length.
Qed.

Lemma mmpUbloxChecksumA_refines w c i l1 l2 body b :
  ublox_taken w (0xB5 :: 0x62 :: c :: i :: l1 :: l2 :: body) b -> lengthBytes w = 0 ->
  mublox_pad (scratchPad w) (c :: i :: l1 :: l2 :: body) -> Z.of_nat (len body) = l1 + 256 * l2 ->
  mrefines (mmpUbloxChecksumA b) w (utarget (0xB5 :: 0x62 :: c :: i :: l1 :: l2 :: body) b).
Proof.
  intros Ht Hk Hpad Hlen. pose proof Ht as [Hw Hb Hs Hc]. pose proof Hpad as [Ha _].
  destruct (drop_body body l1 l2 [b] Hlen) as [Hd Htk].
  assert (mublox_verdict ((0xB5 :: 0x62 :: c :: i :: l1 :: l2 :: body) ++ [b]) =
    if b =? (fletcher (c :: i :: l1 :: l2 :: body)).1 then More else Done false) as Hv.
  { cbn -[fletcher]. by rewrite Hd, Htk. }
  unfold mmpUbloxChecksumA. destruct (b =? (fletcher (c :: i :: l1 :: l2 :: body)).1) eqn:E.
  - eapply (ublox_more _ w _ b (on_parse (with_state fn_mmpUbloxChecksumB) w));
      [done|run; rewrite Ha, E; reflexivity|mwf_from Hw|done| |done].
    apply mublox_ck_b; [done|done|done|lia].
  - destruct (count_error_ok 2 w Hw ltac:(lia)) as (w' & Hcnt & Hw' & Hs' & Hk' & Hp' & l & Hl).
    destruct (mmpSafePrintf_ok (printDebug (parse w')) "MMP: %s u-blox校验和A错误, 接收: %02X, 计算: %02X"
      [shown_name (parse w'); AInt b; AInt (fletcher (c :: i :: l1 :: l2 :: body)).1] w' eq_refl) as (ev & Hev & Hd').
    eapply (mmp_ublox_done _ w _ b (on_parse (with_state fn_mmpFirstByte) w') ev false);
      [|mwf_from Hw'|done|by rewrite <-Hk|done|done|by rewrite Hd'; cbn; rewrite Hl].
    run. rewrite Ha, E. rewrite (bind_silent _ _ _ _ _ Hcnt), bind_the, (bind_ok _ _ _ _ _ _ Hev). cbn.
    by rewrite app_nil_r.
Qed.

Lemma mmpUbloxChecksumB_refines w c i l1 l2 body a b :
  ublox_taken w (0xB5 :: 0x62 :: c :: i :: l1 :: l2 :: body ++ [a]) b -> lengthBytes w = 0 ->
  mublox_pad (scratchPad w) (c :: i :: l1 :: l2 :: body) -> Z.of_nat (len body) = l1 + 256 * l2 ->
  mrefines (mmpUbloxChecksumB b) w (utarget (0xB5 :: 0x62 :: c :: i :: l1 :: l2 :: body ++ [a]) b).
Proof.
  intros Ht Hk Hpad Hlen. pose proof Ht as [Hw Hb Hs Hc]. pose proof Hpad as [_ Hck].
  set (m := 0xB5 :: 0x62 :: c :: i :: l1 :: l2 :: body ++ [a]) in *.
  assert (mublox_verdict (m ++ [b]) = Done (b =? (fletcher (c :: i :: l1 :: l2 :: body)).2)) as Hv.
  { unfold m. destruct (drop_body body l1 l2 [a; b] Hlen) as [Hd Htk]. cbn -[fletcher].
    rewrite <-app_assoc. cbn [app]. by rewrite Hd, Htk. }
  unfold mmpUbloxChecksumB. destruct (b =? (fletcher (c :: i :: l1 :: l2 :: body)).2) eqn:E.
  - destruct (deliver_ok 2 w Hw ltac:(lia)) as (w' & Hdel & Hw' & Hs' & Hk' & _ & Hc').
    eapply (mmp_ublox_done _ w _ b (on_parse (with_state fn_mmpFirstByte) w') [EvEom meom (parse w') 2] true);
      [|mwf_from Hw'|done|by rewrite <-Hk|done| |].
    + run. rewrite Hck, E. rewrite (bind_ok _ _ _ _ _ _ Hdel). reflexivity.
    + rewrite mdelivered_eom. unfold stored in Hs'. by rewrite Hs', <-Hs.
    + rewrite mdelivered_eom. unfold stored in Hs'. rewrite Hs'. exact Hc'.
  - destruct (count_error_ok 2 w Hw ltac:(lia)) as (w' & Hcnt & Hw' & Hs' & Hk' & Hp' & l & Hl).
    destruct (mmpSafePrintf_ok (printDebug (parse w')) "MMP: %s u-blox校验和B错误, 接收: %02X, 计算: %02X"
      [shown_name (parse w'); AInt b; AInt (fletcher (c :: i :: l1 :: l2 :: body)).2] w' eq_refl) as (ev & Hev & Hd').
    eapply (mmp_ublox_done _ w _ b (on_parse (with_state fn_mmpFirstByte) w') ev false);
      [|mwf_from Hw'|done|by rewrite <-Hk|done|done|by rewrite Hd'; cbn; rewrite Hl].
    run. rewrite Hck, E. rewrite (bind_ok _ _ _ tt w' ev).
    + cbn. by rewrite app_nil_r.
    + by rewrite (bind_silent _ _ _ _ _ Hcnt), bind_the.
Qed.

(** All the states of the protocol. *)
Lemma ublox_step_refines w m b :
  ublox_taken w m b -> mublox_rel (scratchPad w) (lengthBytes w) (state (parse w)) m ->
  mrefines (call_state (state (parse w)) b) w (utarget m b).
Proof.
  intros Ht Hrel. inversion Hrel; subst; cbn [call_state].
  - by apply mmpUbloxSync2_refines.
  - by apply mmpUbloxReadClass_refines.
  - by apply mmpUbloxReadMessageId_refines.
  - by apply mmpUbloxReadLength_low.
  - by apply mmpUbloxReadLength_high.
  - by apply mmpUbloxReadData_refines.
  - by apply mmpUbloxChecksumA_refines.
  - by apply mmpUbloxChecksumB_refines.
Qed.

End ublox.
