(* ===== verification/MultiNmea.v ===== *)
(** * The NMEA sentences of the multi-protocol parser

    Every state routine of the NMEA protocol in [MultiParser] takes the step of
    the machine of [MultiSpec]. *)
From S2P Require Import Prelude Crc ParseState MessageParser ParseNmea FrameSpec Sentences.
From S2P Require Import Representation SentenceRefine MultiParser MultiSpec MultiRep.

Local Abbreviation len := List.length.

Lemma mnmea_name_array : name_array nmea_sentenceName nmea_sentenceNameLength.
Proof. split; cbn; done || lia. Qed.

Section nmea.
  Context `{SU : MSetup}.

Record nmea_taken (w : world) (t : text) (b : Z) : Prop := {
  nt_wf : mwf w;
  nt_byte : is_u8 b;
  nt_stored : stored w = flatten 0x24 t ++ [b];
  nt_lengthBytes : lengthBytes w = 0;
  nt_compute : computeCrc (parse w) = None;
  nt_ok : mtext_ok t
}.

(** The step of a sentence whose digits are not complete. *)
Definition ntarget (t : text) (b : Z) : option (bool * mstate * output) :=
  match mtext_step mB t b with
  | Some t => Some (true, Nmea t, [])
  | None => rescan [] b
  end.

Lemma mtext_ok_step t b t' :
  mtext_ok t -> mclosed t = false -> mtext_step mB t b = Some t' -> mtext_ok t'.
Proof.
  pose proof mB_range. unfold mtext_step. intros Hok Hcl H'. destruct t as [name|name body|name body digits].
  - cbn -[flatten Nat.eqb] in H'. destruct Hok as [Hl Hn]. destruct ((b =? 0x2C) && _) eqn:E1.
    + simplify_eq. apply andb_true_iff in E1 as [_ E1%negb_true_iff%bool_decide_eq_false].
      unfold mtext_ok. split_and!; try done. cbn. rewrite length_app. cbn. lia.
    + destruct (negb (name_character b)) eqn:E2; [done|]. destruct (len name =? 15)%nat eqn:E3; [done|]. simplify_eq.
      split.
      * rewrite length_app. cbn. lia.
      * apply Forall_app. split; [done|]. apply Forall_singleton. by apply negb_false_iff.
  - cbn [text_step sentence_overhead] in H'. destruct Hok as (Hn & Hne & Hbody & Hlen & _).
    destruct (b =? 0x2A) eqn:E; [simplify_eq; unfold mtext_ok; split_and!; [done..|cbn; lia]|].
    destruct (_ <? _) eqn:E2; [done|]. simplify_eq. unfold mtext_ok. split_and!; try done; [|lia].
    apply Forall_app. split; [done|]. apply Forall_singleton. lia.
  - cbn in H', Hcl. destruct Hok as (Hn & Hne & Hbody & Hlen & Hd & Hl2). case_match eqn:E; simplify_eq.
    apply Nat.eqb_neq in Hcl. unfold mtext_ok. split_and!; try done; [|rewrite length_app; cbn; lia].
    apply Forall_app. split; [done|]. apply Forall_singleton. by eexists.
Qed.

(** A routine that goes on with the sentence. *)
Lemma nmea_more (r : P bool) w t b t' w' :
  nmea_taken w t b -> mclosed t = false -> mtext_step mB t b = Some t' -> r w = Ok (true, w', []) -> mwf w' ->
  lengthBytes w' = 0 -> (exists s c, parse w' = with_state s (with_crc c (parse w))) ->
  mnmea_rel (scratchPad w') (crc (parse w')) (state (parse w')) t' -> mrefines r w (ntarget t b).
Proof.
  intros [] Hcl Hstep Hr Hw' Hk (s & c & Hp) Hrel. unfold ntarget. rewrite Hstep.
  exists w', []. split_and!; [done| |done|by rewrite Hp]. split; [done|]. split_and!; [|done|by rewrite Hp| |done].
  - unfold mtext_step in Hstep. rewrite (flatten_step _ _ _ _ _ _ Hstep), <-nt_stored0. unfold stored. by rewrite Hp.
  - by eapply mtext_ok_step.
Qed.

Lemma mmpNmeaFindAsterisk_refines w name body b :
  nmea_taken w (TBody name body) b -> terminated nmea_sentenceName (scratchPad w) ->
  crc (parse w) = xor_all (name ++ 0x2C :: body) -> state (parse w) = fn_mmpNmeaFindAsterisk ->
  mrefines (mmpNmeaFindAsterisk b) w (ntarget (TBody name body) b).
Proof.
  intros Ht Hterm Hcrc Hst. pose proof Ht as [Hw Hb Hs Hk Hc Hok]. unfold mmpNmeaFindAsterisk.
  destruct (b =? 0x2A) eqn:E.
  - eapply (nmea_more _ w _ b _ (on_parse (with_state fn_mmpNmeaChecksumByte1) w));
      [done|done|unfold mtext_step; cbn -[flatten]; by rewrite E|reflexivity|mwf_from Hw|done| |by apply mnmea_digit1].
    exists fn_mmpNmeaChecksumByte1, (crc (parse w)). cbn. by destruct (parse w).
  - set (w1 := on_parse (with_crc (Z.lxor (crc (parse w)) b)) w). assert (mwf w1) as Hw1 by (unfold w1; mwf_from Hw).
    pose proof (length_stored w Hw) as Hlen. pose proof (mwf_length w Hw). pose proof mB_range.
    assert (flatten 0x24 (TBody name body) ++ [b] = flatten 0x24 (TBody name (body ++ [b]))) as Hf
      by (cbn; by rewrite <-app_assoc).
    rewrite Hs, Hf in Hlen.
    assert ((bufferLength (parse w1) <? u32 (length (parse w1) + 5)) =
      (mB + 1 <? Z.of_nat (len (flatten 0x24 (TBody name (body ++ [b])))) + 6)) as Hif.
    { change (bufferLength (parse w1)) with (bufferLength (parse w)). rewrite (mwf_bufferLength w Hw), Hlen.
      change (length (parse w1)) with (length (parse w)). rewrite u32_id by (unfold is_u32; lia). lia. }
    destruct (mB + 1 <? _) eqn:E2 in Hif.
    + apply (mrefines_run _ (mmpSafePrintf (printDebug (parse w1)) "MMP: %s NMEA语句过长, 增加缓冲区大小 > %d"
        [shown_name (parse w1); AInt (bufferLength (parse w1))];; mmpFirstByte b) _ w1); [|done|].
      { run. fold w1. unfold id. by rewrite Hif. }
      unfold ntarget, mtext_step. cbn [text_step sentence_overhead]. rewrite E, E2. by apply print_first_refines.
    + eapply (nmea_more _ w _ b _ w1);
        [done|done|unfold mtext_step; cbn [text_step sentence_overhead]; rewrite E, E2; reflexivity| |done|done| |].
      * run. fold w1. unfold id. by rewrite Hif.
      * exists (state (parse w)), (Z.lxor (crc (parse w)) b). cbn. by destruct (parse w).
      * cbn [parse w1 on_parse with_crc state crc]. rewrite Hst. apply mnmea_body; [done|].
        by rewrite Hcrc, app_comm_cons, app_assoc, xor_all_app.
Qed.

Lemma mmpNmeaFindFirstComma_run w (name : list Z) b :
  is_u8 b -> get nmea_sentenceNameLength (scratchPad w) = Z.of_nat (len name) ->
  let w1 := on_parse (with_crc (Z.lxor (crc (parse w)) b)) w in
  mmpNmeaFindFirstComma b w =
    (if (b =? 0x2C) && negb (bool_decide (name = [])) then
       sentenceName_set (Z.of_nat (len name)) 0;; assign (with_state fn_mmpNmeaFindAsterisk);; ret true
     else if negb (name_character b) then
       mmpSafePrintf (printDebug (parse w1)) "MMP: %s NMEA无效语句名字符 0x%02X" [shown_name (parse w1); AInt b];;
       mmpFirstByte b
     else if 15 <=? Z.of_nat (len name) then
       mmpSafePrintf (printDebug (parse w1)) "MMP: %s NMEA语句名 > %d 字符" [shown_name (parse w1); AInt 15];;
       mmpFirstByte b
     else
       pad_set nmea_sentenceNameLength (u8 (Z.of_nat (len name) + 1));;
       sentenceName_set (Z.of_nat (len name)) b;; ret true) w1.
Proof.
  intros Hb Hn w1. unfold mmpNmeaFindFirstComma. run. fold w1. change (scratchPad w1) with (scratchPad w).
  rewrite Hn, name_continues. unfold id. fold (invalid_name_character b). rewrite invalid_name_character_spec by done.
  by destruct (_ && _).
Qed.

Lemma sentenceName_set_ok k v w :
  0 <= k < 16 -> sentenceName_set k v w =
    Ok (tt, World (parse w) (put (Member (nmea_sentenceName + Z.to_nat k) 1) v (scratchPad w)) (lengthBytes w), []).
Proof.
  intros Hk. unfold sentenceName_set, MMP_MAX_SENTENCE_NAME. by destruct ((0 <=? k) && (k <? 16)) eqn:E; [|lia].
Qed.

Lemma mmpNmeaFindFirstComma_refines w name b :
  nmea_taken w (TName name) b -> name_pad nmea_sentenceName nmea_sentenceNameLength (scratchPad w) name ->
  crc (parse w) = xor_all name -> state (parse w) = fn_mmpNmeaFindFirstComma ->
  mrefines (mmpNmeaFindFirstComma b) w (ntarget (TName name) b).
Proof.
  intros Ht Hname Hcrc Hst. pose proof Ht as [Hw Hb Hs Hk Hc [Hlen Hchars]]. pose proof (mwf_pad w Hw) as Hp.
  pose proof mnmea_name_array as Harr. pose proof Hname as [Hnl _].
  pose proof (name_room _ _ Harr (len name) ltac:(lia)) as Hroom.
  pose proof (mmpNmeaFindFirstComma_run w name b Hb Hnl) as Hrun. cbn zeta in Hrun.
  set (w1 := on_parse (with_crc (Z.lxor (crc (parse w)) b)) w) in *. assert (mwf w1) as Hw1 by (unfold w1; mwf_from Hw).
  unfold ntarget, mtext_step. destruct ((b =? 0x2C) && negb (bool_decide (name = []))) eqn:E.
  - assert (b = 0x2C) as Hb2 by lia. eapply (nmea_more _ w _ b (TBody name [])); [done|done| |rewrite Hrun| | | |].
    + unfold mtext_step. cbn -[flatten]. by rewrite E.
    + rewrite (bind_silent _ _ _ _ _ (sentenceName_set_ok (Z.of_nat (len name)) _ _ ltac:(lia))). reflexivity.
    + rewrite Nat2Z.id. mwf_from Hw.
    + done.
    + by exists fn_mmpNmeaFindAsterisk, (Z.lxor (crc (parse w)) b).
    + apply mnmea_body; [|cbn; by rewrite xor_all_app, Hcrc, Hb2].
      apply (closed_terminated _ _ name); [done|]. cbn [scratchPad on_parse]. rewrite Nat2Z.id.
      exact (name_pad_close _ _ Harr _ _ Hp Hlen (proj2 Hname)).
  - destruct (negb (name_character b)) eqn:E2.
    { eapply (mrefines_run _ _ _ w1 _ Hrun); [done|].
      cbn -[flatten]. rewrite E, E2. by apply print_first_refines. }
    destruct (15 <=? Z.of_nat (len name)) eqn:E3.
    { eapply (mrefines_run _ _ _ w1 _ Hrun); [done|].
      cbn -[flatten Nat.eqb]. rewrite E, E2. destruct (len name =? 15)%nat eqn:E4; [|lia]. by apply print_first_refines. }
    eapply (nmea_more _ w _ b (TName (name ++ [b]))); [done|done| |rewrite Hrun; run| | | |].
    + unfold mtext_step. cbn -[flatten Nat.eqb]. rewrite E, E2. destruct (len name =? 15)%nat eqn:E4; [lia|done].
    + rewrite (bind_silent _ _ _ _ _ (sentenceName_set_ok (Z.of_nat (len name)) _ _ ltac:(lia))). reflexivity.
    + rewrite Nat2Z.id. mwf_from Hw.
    + done.
    + exists (state (parse w)), (Z.lxor (crc (parse w)) b). cbn. by destruct (parse w).
    + cbn [parse w1 on_parse with_crc state crc scratchPad]. rewrite Hst, Nat2Z.id. apply mnmea_name.
      * exact (name_pad_push _ _ Harr _ name _ Hp Hb ltac:(lia) Hname).
      * by rewrite xor_all_app, Hcrc.
Qed.

(** ** The check digits *)

Lemma mmpAsciiToNibble_eq : mmpAsciiToNibble = semp_util_asciiToNibble.
Proof. reflexivity. Qed.

(** The two digit states differ in the next state and in the message. *)
Lemma digit_refines (r : P bool) format next w name body digits b :
  nmea_taken w (TSum name body digits) b -> (len digits < 2)%nat ->
  r w = (n <- the length;; c <- buffer_at (n - 1);;
         if 0 <=? mmpAsciiToNibble c then assign (with_state next);; ret true
         else p <- the id;; mmpSafePrintf (printDebug p) format [shown_name p];; mmpFirstByte b)%c w ->
  mnmea_rel (scratchPad w) (crc (parse w)) next (TSum name body (digits ++ [b])) ->
  mrefines r w (ntarget (TSum name body digits) b).
Proof.
  intros Ht Hl Hr Hrel. pose proof Ht as [Hw Hb Hs Hk Hc Hok]. apply (mrefines_run _ _ _ w _ Hr); [done|].
  pose proof (buffer_at_last w _ [b] 0 b Hw Hs eq_refl) as Hat. change (Z.of_nat (len [b] - 0)) with 1 in Hat.
  eapply mrefines_bind_quiet; [reflexivity|done|done|]. eapply mrefines_bind_quiet; [exact Hat|done|done|].
  rewrite mmpAsciiToNibble_eq, asciiToNibble_nonneg by done. destruct (digit_value b) as [v|] eqn:E.
  - eapply (nmea_more _ w _ b _ (on_parse (with_state next) w));
      [done|cbn; by apply Nat.eqb_neq; lia|unfold mtext_step; cbn; by rewrite E|reflexivity|mwf_from Hw|done| |done].
    exists next, (crc (parse w)). cbn. by destruct (parse w).
  - unfold ntarget, mtext_step. cbn [text_step]. rewrite E.
    eapply mrefines_bind_quiet; [reflexivity|done|done|]. by apply print_first_refines.
Qed.

(** ** The end of a sentence *)

(** What the validation does: it delivers what the machine outputs. *)
Definition mvalidates (w : world) (o : option output) : Prop :=
  match o with
  | Some out => exists w' ev, mmpNmeaValidateChecksum w = Ok (tt, w', ev) /\ mwf w' /\ lengthBytes w' = lengthBytes w /\
      mdelivered ev = out /\ messagesProcessed (parse w') = counted out (messagesProcessed (parse w))
  | None => mmpNmeaValidateChecksum w = Ub OutOfBounds
  end.

(** Terminating and delivering a sentence. *)
Definition send_sentence : P unit :=
  buffer_push 0x0D;;
  buffer_push 0x0A;;
  n <- the length;; buffer_set n 0;;
  count_message MMP_PROTOCOL_NMEA;;
  call_eomCallback MMP_PROTOCOL_NMEA.

Lemma buffer_set_above w v :
  mwf w -> length (parse w) < mC -> is_u8 v ->
  exists w', buffer_set (length (parse w)) v w = Ok (tt, w', []) /\ mwf w' /\ stored w' = stored w /\
    lengthBytes w' = lengthBytes w /\ messagesProcessed (parse w') = messagesProcessed (parse w).
Proof.
  intros Hw Hl Hv. pose proof (mwf_length w Hw). pose proof (mwf_buffer w Hw).
  unfold buffer_set. run. unfold lift. rewrite store_ok by lia. eexists. split; [reflexivity|]. split_and!; try done.
  - destruct Hw. split; cbn; try done; [by rewrite length_insert|by apply Forall_insert].
  - unfold stored. cbn. by rewrite take_insert_ge by lia.
Qed.

Lemma mmp_send_sentence_ok w :
  mwf w -> length (parse w) + 2 <= mB ->
  if length (parse w) + 3 <=? mC then
    exists w', send_sentence w = Ok (tt, w', [EvEom meom (parse w') 1]) /\ mwf w' /\
      stored w' = stored w ++ [0x0D; 0x0A] /\ lengthBytes w' = lengthBytes w /\
      messagesProcessed (parse w') = counted [(1, stored w')] (messagesProcessed (parse w))
  else send_sentence w = Ub OutOfBounds.
Proof.
  intros Hw Hl. pose proof (mwf_length w Hw). unfold send_sentence.
  rewrite (bind_silent _ _ _ _ _ (mmp_buffer_push_ok 0x0D w Hw ltac:(lia))).
  set (w1 := on_parse (pushed 0x0D) w). assert (mwf w1) as Hw1 by (apply mwf_pushed; [done|done|lia]).
  rewrite (bind_silent _ _ _ _ _ (mmp_buffer_push_ok 0x0A w1 Hw1 ltac:(cbn; lia))).
  set (w2 := on_parse (pushed 0x0A) w1). assert (mwf w2) as Hw2 by (apply mwf_pushed; [done|done|cbn; lia]).
  assert (length (parse w2) = length (parse w) + 2) as Hl2 by (cbn; lia). rewrite bind_the.
  assert (stored w2 = stored w ++ [0x0D; 0x0A]) as Hs2.
  { unfold w2. rewrite stored_pushed by (done || cbn; lia). unfold w1. rewrite stored_pushed by (done || lia).
    by rewrite <-app_assoc. }
  destruct (length (parse w) + 3 <=? mC) eqn:E.
  - destruct (buffer_set_above w2 0 Hw2 ltac:(lia) ltac:(done)) as (w3 & Hset & Hw3 & Hs3 & Hk3 & Hm3).
    rewrite (bind_silent _ _ _ _ _ Hset). destruct (deliver_ok 1 w3 Hw3 ltac:(lia)) as (w4 & Hdel & Hw4 & Hs4 & Hk4 & _ & Hm4).
    exists w4. split_and!; [exact Hdel|done|congruence|by rewrite Hk4, Hk3|].
    rewrite Hm4, Hm3. by rewrite Hs4.
  - apply bind_ub. unfold buffer_set. run. unfold lift. apply bind_ub. rewrite store_oob; [done|].
    rewrite (mwf_buffer w2 Hw2). lia.
Qed.

Lemma mmp_badCrc_overrides_ok w :
  mwf w -> exists ev, badCrc_overrides w = Ok (maccepts (stored w), w, ev) /\ mdelivered ev = [].
Proof.
  intros Hw. unfold badCrc_overrides. rewrite bind_the. unfold id. rewrite (mwf_bad w Hw).
  pose proof maccepts_spec as Ha. destruct mbad as [f|].
  - exists [EvBadCrc f (parse w)]. split; [|done]. cbn. by rewrite Ha, negb_involutive.
  - exists []. by rewrite Ha.
Qed.

(** The rest of the validation, for a check that is right or not. *)
Definition judge (good : bool) (c2 c1 c : Z) : P unit :=
  if good then send_sentence
  else
    count_error MMP_PROTOCOL_NMEA;;
    p <- the id;;
    sentence <- gets (fun w => take (Z.to_nat MMP_MAX_SENTENCE_NAME) (drop nmea_sentenceName (scratchPad w)));;
    mmpSafePrintf (printDebug p) "MMP: %s NMEA %s, 校验和错误, 接收: %c%c, 计算: %02X"
      [shown_name p; AChars sentence; AInt c2; AInt c1; AInt (Z.land c 0xFF)].

Lemma judge_bad c2 c1 c w :
  mwf w -> terminated nmea_sentenceName (scratchPad w) ->
  exists w' ev, judge false c2 c1 c w = Ok (tt, w', ev) /\ mwf w' /\ lengthBytes w' = lengthBytes w /\
    mdelivered ev = [] /\ messagesProcessed (parse w') = messagesProcessed (parse w).
Proof.
  intros Hw Hterm. destruct (count_error_ok 1 w Hw ltac:(lia)) as (w' & Hcnt & Hw' & _ & Hk' & Hp' & l & Hl).
  destruct (mmpSafePrintf_ok (printDebug (parse w')) "MMP: %s NMEA %s, 校验和错误, 接收: %c%c, 计算: %02X"
    [shown_name (parse w'); AChars (take 16 (drop 0 (scratchPad w'))); AInt c2; AInt c1; AInt (Z.land c 0xFF)] w')
    as (ev & Hev & Hd).
  { unfold terminated, nmea_sentenceName in Hterm. cbn [forallb printable shown_name]. by rewrite Hp', Hterm. }
  exists w', ev. split_and!; [|done|done|done|by rewrite Hl].
  unfold judge. rewrite (bind_silent _ _ _ _ _ Hcnt). run. exact Hev.
Qed.

(** The stored sentence, split before its digits. *)
Lemma closed_sentence w name body d1 d2 :
  mwf w -> stored w = flatten 0x24 (TSum name body [d1; d2]) ->
  stored w = (0x24 :: name ++ 0x2C :: body ++ [0x2A]) ++ [d1; d2] /\ bytes (name ++ 0x2C :: body) /\
  is_u8 d1 /\ is_u8 d2.
Proof.
  intros Hw Hs. pose proof (stored_are_bytes w Hw) as Hb.
  assert (stored w = 0x24 :: (name ++ 0x2C :: body) ++ [0x2A; d1; d2]) as H1.
  { rewrite Hs. cbn. by rewrite <-app_assoc. }
  rewrite H1 in Hb. apply Forall_cons_1 in Hb as [_ [Hc [_ [? [? _]%Forall_cons_1]%Forall_cons_1]%Forall_cons_1]%Forall_app].
  split_and!; try done. rewrite H1. cbn. rewrite <-!app_assoc. cbn. by rewrite <-app_assoc.
Qed.

Lemma mmpNmeaValidateChecksum_validates w name body d1 d2 :
  mwf w -> stored w = flatten 0x24 (TSum name body [d1; d2]) -> mtext_ok (TSum name body [d1; d2]) ->
  terminated nmea_sentenceName (scratchPad w) -> crc (parse w) = xor_all (name ++ 0x2C :: body) ->
  mvalidates w (mfinish mC maccepts (TSum name body [d1; d2])).
Proof.
  intros Hw Hs Hok Hterm Hcrc. destruct (closed_sentence w name body d1 d2 Hw Hs) as (Hs' & Hbc & H1 & H2).
  pose proof Hok as (_ & _ & _ & Hroom & [[E1 [E2 _]%Forall_cons_1]%Forall_cons_1 _]).
  destruct (two_digits_byte d1 d2 H1 H2 E1 E2) as (Hneg & Hval & Hr).
  assert (Z.land (crc (parse w)) 0xFF = xor_all (name ++ 0x2C :: body)) as Hland.
  { rewrite Hcrc, land_ff. apply Z.mod_small, xor_all_range, Hbc. }
  set (check := digits_value [d1; d2] =? xor_all (name ++ 0x2C :: body)).
  destruct (mmp_badCrc_overrides_ok w Hw) as (ev & Hov & Hev).
  assert (exists ev', (if check then ret true else badCrc_overrides) w =
    Ok (check || maccepts (stored w), w, ev') /\ mdelivered ev' = []) as (ev' & Hgood & Hev').
  { destruct check; [by exists []|by exists ev]. }
  assert (mmpNmeaValidateChecksum w =
    match judge (check || maccepts (stored w)) d1 d2 (crc (parse w)) w with
    | Ok (a, w', e) => Ok (a, w', ev' ++ e) | Ub u => Ub u end) as Hrun.
  { unfold mmpNmeaValidateChecksum. rewrite bind_the.
    rewrite (bind_silent _ _ _ _ _ (buffer_at_last w _ [d1; d2] 0 d1 Hw Hs' eq_refl)).
    rewrite mmpAsciiToNibble_eq. unfold shift_left_int. rewrite Hneg, bind_ret.
    rewrite (bind_silent _ _ _ _ _ (buffer_at_last w _ [d1; d2] 1 d2 Hw Hs' eq_refl)), bind_the.
    rewrite Hval. rewrite Hland at 1. fold check. by rewrite (bind_ok _ _ _ _ _ _ Hgood). }
  pose proof (length_stored w Hw) as Hlen. unfold mvalidates, mfinish. rewrite <-Hs.
  assert (text_check (TSum name body [d1; d2]) = check) as -> by done. rewrite Hrun.
  destruct (check || maccepts (stored w)) eqn:E.
  - pose proof (mmp_send_sentence_ok w Hw) as Hsend. rewrite Hlen. cbn [judge].
    rewrite Hs in Hlen. cbn [flatten List.length] in Hlen, Hroom. rewrite !length_app in Hlen, Hroom.
    cbn [List.length] in Hlen, Hroom. rewrite length_app in Hlen. cbn [List.length] in Hlen. specialize (Hsend ltac:(lia)).
    destruct (length (parse w) + 3 <=? mC).
    + destruct Hsend as (w' & -> & Hw' & Hst' & Hk' & Hm'). exists w', (ev' ++ [EvEom meom (parse w') 1]).
      rewrite <-Hst'. split_and!; [done|done|done|by rewrite mdelivered_app, Hev', mdelivered_eom|exact Hm'].
    + by rewrite Hsend.
  - destruct (judge_bad d1 d2 (crc (parse w)) w Hw Hterm) as (w' & e & -> & Hw' & Hk' & Hd & Hm').
    exists w', (ev' ++ e). split_and!; [done|done|done|by rewrite mdelivered_app, Hev', Hd|done].
Qed.

(** The step of a closed sentence. *)
Definition etarget (t : text) (b : Z) : option (bool * mstate * output) :=
  match mfinish mC maccepts t with
  | Some out => if (b =? 0x0D) || (b =? 0x0A) then Some (true, Idle, out) else rescan out b
  | None => None
  end.

Lemma unstored w m b :
  mwf w -> stored w = m ++ [b] ->
  let w' := on_parse (with_length (u16 (length (parse w) - 1))) w in mwf w' /\ stored w' = m.
Proof.
  intros Hw Hs. pose proof (length_stored w Hw) as Hl. rewrite Hs, length_app in Hl.
  cbn [List.length] in Hl. pose proof (mwf_length w Hw). pose proof mB_range. 
  rewrite u16_id by (unfold is_u16; lia). cbn zeta. split.
  - destruct Hw. split; cbn; done || lia.
  - transitivity (take (len m) (stored w)); [|by rewrite Hs, take_app_length].
    unfold stored. rewrite firstn_firstn. cbn. f_equal. lia.
Qed.

Lemma mmpNmeaLineTermination_refines w name body d1 d2 b :
  nmea_taken w (TSum name body [d1; d2]) b -> terminated nmea_sentenceName (scratchPad w) ->
  crc (parse w) = xor_all (name ++ 0x2C :: body) ->
  mrefines (mmpNmeaLineTermination b) w (etarget (TSum name body [d1; d2]) b).
Proof.
  intros [Hw Hb Hs Hk Hc Hok] Hterm Hcrc. destruct (unstored w _ b Hw Hs) as [Hw1 Hs1]. cbn zeta in *.
  set (w1 := on_parse (with_length (u16 (length (parse w) - 1))) w) in *.
  pose proof (mmpNmeaValidateChecksum_validates w1 name body d1 d2 Hw1 Hs1 Hok Hterm Hcrc) as Hval.
  apply (mrefines_run _ (if (b =? 0x0D) || (b =? 0x0A)
    then mmpNmeaValidateChecksum;; assign (with_state fn_mmpFirstByte);; ret true
    else mmpNmeaValidateChecksum;; mmpFirstByte b) _ w1); [|done|].
  { unfold mmpNmeaLineTermination. run. fold w1. by destruct (_ || _). }
  unfold etarget, mvalidates in *. destruct (mfinish _ _ _) as [out|].
  - destruct Hval as (w' & ev & Hv & Hw' & Hk' & Hd & Hm). destruct (_ || _).
    + exists (on_parse (with_state fn_mmpFirstByte) w'), ev.
      split_and!; [|split; [mwf_from Hw'|by rewrite <-Hk]|done|done].
      rewrite (bind_ok _ _ _ _ _ _ Hv). cbn. by rewrite app_nil_r.
    + rewrite <-Hd. eapply mmpFirstByte_after; [exact Hv|done|done|by rewrite Hk'|by rewrite Hd].
  - destruct (_ || _); by apply bind_ub.
Qed.

(** All the states of the protocol. *)
Lemma nmea_step_refines w t b :
  nmea_taken w t b -> mnmea_rel (scratchPad w) (crc (parse w)) (state (parse w)) t ->
  mrefines (call_state (state (parse w)) b) w (if mclosed t then etarget t b else ntarget t b).
Proof.
  intros Ht Hrel. inversion Hrel; subst; cbn [call_state mclosed closed List.length check_digits Nat.eqb].
  - by apply mmpNmeaFindFirstComma_refines.
  - by apply mmpNmeaFindAsterisk_refines.
  - by eapply digit_refines; [done|cbn; lia|reflexivity|apply mnmea_digit2].
  - by eapply digit_refines; [done|cbn; lia|reflexivity|apply mnmea_closed].
  - by apply mmpNmeaLineTermination_refines.
Qed.

End nmea.
