(* ===== verification/MultiMachine.v ===== *)
(** * The multi-protocol parser implements its machine

    Refinement of [mmpProcessByte] and of the two ways to feed the parser: byte by
    byte, and through [mmpProcessBuffer].  Then the runs of that machine: the
    messages it reads, and its invariant. *)
From S2P Require Import Prelude Crc ParseState FrameSpec Sentences Representation SentenceRefine.
From S2P Require Import Messages MessageRuns RoundTrip MultiParser MultiSpec MultiRep MultiSemp.
From S2P Require Import MultiUblox MultiNmea.
Local Abbreviation len := List.length.

Section refine.
  Context `{SU : MSetup}.

(** The structure after a byte has been stored, counted and checked. *)
Definition taken (b : Z) (p : MMP_PARSE_STATE) : MMP_PARSE_STATE :=
  let q := with_totalBytes (u32 (totalBytes p + 1)) (pushed b p) in
  match computeCrc p with
  | None => q
  | Some _ => with_crc (crc32_update (crc p) b) q
  end.

Lemma mmp_taken_members b p :
  state (taken b p) = state p /\ computeCrc (taken b p) = computeCrc p /\
  messagesProcessed (taken b p) = messagesProcessed p /\
  crc (taken b p) = match computeCrc p with None => crc p | Some _ => crc32_update (crc p) b end.
Proof. unfold taken. by destruct (computeCrc p) as [[]|] eqn:E. Qed.

Lemma mmp_taken_run b w :
  mwf w -> length (parse w) < mB ->
  mmpProcessByte b w = call_state (state (parse w)) b (on_parse (taken b) w).
Proof.
  intros Hw Hl. pose proof mC_range. unfold mmpProcessByte. rewrite bind_the. unfold id.
  rewrite (mwf_bufferLength w Hw). destruct (mB <=? length (parse w)) eqn:E; [lia|].
  rewrite (bind_silent _ _ _ _ _ (mmp_buffer_push_ok b w Hw Hl)), bind_the, bind_assign, bind_the.
  set (w1 := on_parse (with_totalBytes _) _).
  assert (computeCrc (parse w1) = computeCrc (parse w)) as -> by done.
  rewrite (bind_silent _ _ _ tt (on_parse (taken b) w)).
  - rewrite bind_the. destruct (mmp_taken_members b (parse w)) as [Hs _].
    change (state (parse (on_parse (taken b) w))) with (state (taken b (parse w))). by rewrite Hs.
  - unfold taken, on_parse. destruct (computeCrc (parse w)) as [[]|] eqn:Ec; by cbn; rewrite ?Ec.
Qed.

Lemma taken_ok b w :
  mwf w -> is_u8 b -> length (parse w) < mB ->
  mwf (on_parse (taken b) w) /\ stored (on_parse (taken b) w) = stored w ++ [b].
Proof.
  intros Hw Hb Hl. pose proof (mwf_pushed b w Hw Hb Hl) as Hp. rewrite <-(stored_pushed b w Hw Hl).
  unfold on_parse, stored, taken in *. cbn [parse] in *. destruct (computeCrc (parse w)); (split; [by destruct Hp|done]).
Qed.

(** A full buffer, or no message under way: the byte starts afresh. *)
Lemma rescan_refines b w :
  mwf w -> is_u8 b -> lengthBytes w = 0 ->
  mB <= length (parse w) \/ state (parse w) = fn_mmpFirstByte ->
  mrefines (mmpProcessByte b) w (rescan [] b).
Proof.
  intros Hw Hb Hk H. destruct (mB <=? length (parse w)) eqn:E.
  - eapply mrefines_bind_quiet; [reflexivity|done|done|]. unfold id. rewrite (mwf_bufferLength w Hw), E.
    by apply print_first_refines.
  - destruct H as [|Hst]; [lia|]. destruct (taken_ok b w Hw Hb ltac:(lia)) as [Hw1 _].
    apply (mrefines_run _ (mmpFirstByte b) _ (on_parse (taken b) w)).
    + rewrite mmp_taken_run by (done || lia). by rewrite Hst.
    + by destruct (mmp_taken_members b (parse w)) as (_ & _ & ? & _).
    + by apply mmpFirstByte_refines.
Qed.

Lemma mublox_rel_long sp k s m : mublox_rel sp k s m -> (5 < len m)%nat -> k = 0.
Proof. intros H Hl. destruct H; cbn in Hl; done || lia. Qed.

(** The parser takes every step of the machine. *)
Lemma mmpProcessByte_refines b w st :
  MR w st -> is_u8 b -> mrefines (mmpProcessByte b) w (mstep mB mC maccepts st b).
Proof.
  intros [Hw Hst] Hb. pose proof mB_range. pose proof (length_stored w Hw) as Hlen.
  assert (forall o, length (parse w) < mB ->
    mrefines (call_state (state (parse w)) b) (on_parse (taken b) w) o -> mrefines (mmpProcessByte b) w o) as Hgo.
  { intros o Hl Ho. apply (mrefines_run _ (call_state (state (parse w)) b) _ (on_parse (taken b) w)); [by apply mmp_taken_run| |done].
    by destruct (mmp_taken_members b (parse w)) as (_ & _ & ? & _). }
  destruct (mmp_taken_members b (parse w)) as (Ts & Tc & _ & Tcrc).
  destruct st as [|m|t|m]; cbn [mstep].
  - destruct Hst as [Hst Hk]. apply rescan_refines; auto.
  - destruct Hst as (Hs & Hk & Hc & Hrel). rewrite Hs in Hlen. rewrite Hlen.
    destruct (mB <=? length (parse w)) eqn:E; [apply rescan_refines; auto; left; lia|].
    destruct (taken_ok b w Hw Hb ltac:(lia)) as [Hw1 Hs1]. rewrite Hs in Hs1. apply Hgo; [lia|]. rewrite <-Ts.
    apply (semp_step_refines (on_parse (taken b) w) m b (crc (parse w))).
    + split; [done|done|done|done|]. cbn. by rewrite Tc.
    + cbn. by rewrite Ts.
    + cbn. by rewrite Tcrc, Hc.
  - destruct Hst as (Hs & Hk & Hc & Hok & Hrel). rewrite Hs in Hlen.
    assert (length (parse w) < mB) as Hl.
    { destruct t as [name|name body|name body digits].
      - destruct Hok as [Hok _]. cbn in Hlen. lia.
      - destruct Hok as (_ & _ & _ & Hok & _). lia.
      - destruct Hok as (_ & _ & _ & Hok & _ & Hd). cbn in Hok, Hlen. rewrite !length_app in Hok, Hlen. cbn in Hok, Hlen.
        rewrite length_app in Hlen. cbn in Hlen. lia. }
    destruct (taken_ok b w Hw Hb Hl) as [Hw1 Hs1]. rewrite Hs in Hs1. apply Hgo; [done|]. rewrite <-Ts.
    apply (nmea_step_refines (on_parse (taken b) w) t b).
    + split; [done|done|done|done| |done]. cbn. by rewrite Tc.
    + cbn. by rewrite Ts, Tcrc, Hc.
  - destruct Hst as (Hs & Hc & Hrel). rewrite Hs in Hlen. rewrite Hlen.
    destruct (mB <=? length (parse w)) eqn:E.
    { apply rescan_refines; [done|done| |left; lia]. eapply mublox_rel_long; [done|lia]. }
    destruct (taken_ok b w Hw Hb ltac:(lia)) as [Hw1 Hs1]. rewrite Hs in Hs1. apply Hgo; [lia|]. rewrite <-Ts.
    apply (ublox_step_refines (on_parse (taken b) w) m b).
    + split; [done|done|done|]. cbn. by rewrite Tc.
    + cbn. by rewrite Ts.
Qed.

(** ** Sequences of bytes *)

(** The calls for the bytes of a list, with the answers ignored. *)
Definition mfeed (l : list Z) : P unit := for_each l (fun b => mmpProcessByte b;; ret tt).

Lemma mfeed_refines l w st :
  MR w st -> bytes l ->
  match mrun mB mC maccepts st l with
  | Some (st', out) =>
      exists w' ev, mfeed l w = Ok (tt, w', ev) /\ MR w' st' /\ mdelivered ev = out /\
        messagesProcessed (parse w') = counted out (messagesProcessed (parse w))
  | None => mfeed l w = Ub OutOfBounds
  end.
Proof.
  intros HR Hl. revert w st HR. induction Hl as [|b l Hb Hl IH]; intros w st HR.
  { exists w, []. by split_and!. }
  pose proof (mmpProcessByte_refines b w st HR Hb) as Hstep. cbn [mrun]. unfold mfeed in *. cbn [for_each].
  destruct (mstep mB mC maccepts st b) as [[[a st1] out1]|]; unfold mrefines in Hstep.
  - destruct Hstep as (w1 & ev1 & H1 & HR1 & Hd1 & Hc1). specialize (IH w1 st1 HR1).
    assert ((mmpProcessByte b;; ret tt)%c w = Ok (tt, w1, ev1)) as Hb1.
    { rewrite (bind_ok _ _ _ _ _ _ H1). cbn. by rewrite app_nil_r. }
    destruct (mrun mB mC maccepts st1 l) as [[st2 out2]|].
    + destruct IH as (w2 & ev2 & H2 & HR2 & Hd2 & Hc2). exists w2, (ev1 ++ ev2).
      rewrite (bind_ok _ _ _ _ _ _ Hb1), H2, mdelivered_app, Hd1, Hd2, counted_app, <-Hc1. done.
    + by rewrite (bind_ok _ _ _ _ _ _ Hb1), IH.
  - apply bind_ub. by apply bind_ub.
Qed.

End refine.

(* ------------------------------------------------------------------ *)
(** ** Properties of the multi-protocol machine

    Which streams the machine of [MultiSpec] delivers, which messages it outputs,
    and when every step is defined. *)

Section machine.
  Context `{SU : MSetup}.
  Abbreviation step := (mstep mB mC maccepts).
  Abbreviation run := (mrun mB mC maccepts).

(** ** Delivery *)

Lemma mrun_cons st b more st' l : step st b = Some (more, st', []) -> run st (b :: l) = run st' l.
Proof. intros H. cbn [mrun]. rewrite H. by destruct (run st' l) as [[??]|]. Qed.

Lemma mrun_quiet st l st' l' : run st l = Some (st', []) -> run st (l ++ l') = run st' l'.
Proof. intros H. rewrite (mrun_app _ _ _ _ _ _ _ _ H). by destruct (run st' l') as [[??]|]. Qed.

(** Steps that all ask for more. *)
Inductive msteps : list Z -> mstate -> mstate -> output -> Prop :=
| msteps_nil st : msteps [] st st []
| msteps_cons b l st st' st'' out out' :
    step st b = Some (true, st', out) -> msteps l st' st'' out' -> msteps (b :: l) st st'' (out ++ out').

Lemma msteps_one b st st' : step st b = Some (true, st', []) -> msteps [b] st st' [].
Proof. intros H. exact (msteps_cons b [] st st' st' [] [] H (msteps_nil st')). Qed.

Lemma msteps_app l1 l2 st1 st2 st3 out1 out2 :
  msteps l1 st1 st2 out1 -> msteps l2 st2 st3 out2 -> msteps (l1 ++ l2) st1 st3 (out1 ++ out2).
Proof.
  induction 1 as [|b l st st' st'' out out' H _ IH]; intros H2; [done|]. cbn [app].
  rewrite <-app_assoc. econstructor; [done|]. by apply IH.
Qed.

Lemma msteps_run l st st' out : msteps l st st' out -> run st l = Some (st', out).
Proof. induction 1 as [|b l st st' st'' out out' H _ IH]; [done|]. cbn [mrun]. by rewrite H, IH. Qed.

(** A whole message: only the last step does not ask for more. *)
Definition whole (st : mstate) (l : list Z) (out : output) : Prop :=
  exists l' b st' out1 out2,
    l = l' ++ [b] /\ msteps l' st st' out1 /\ step st' b = Some (false, Idle, out2) /\ out = out1 ++ out2.

Lemma whole_app l1 l2 st st' out : msteps l1 st st' [] -> whole st' l2 out -> whole st (l1 ++ l2) out.
Proof.
  intros H1 (l' & b & st1 & out1 & out2 & -> & H2 & H3 & ->).
  exists (l1 ++ l'), b, st1, out1, out2. split_and!; [by rewrite app_assoc| |done|done].
  by apply (msteps_app _ _ _ _ _ []  out1 H1).
Qed.

Lemma whole_cons b l st st' out : step st b = Some (true, st', []) -> whole st' l out -> whole st (b :: l) out.
Proof. intros H. by apply (whole_app [b]), msteps_one. Qed.

Lemma whole_run l st out : whole st l out -> run st l = Some (Idle, out).
Proof.
  intros (l' & b & st1 & out1 & out2 & -> & H2 & H3 & ->).
  rewrite (mrun_app _ _ _ _ _ _ _ _ (msteps_run _ _ _ _ H2)). cbn [mrun]. rewrite H3. by rewrite app_nil_r.
Qed.

(** The frame [m ++ l] of which [m] has been received, for a protocol with the
    states [K], the verdicts [V] and the number [i]. *)
Lemma mframe_run (K : list Z -> mstate) V i l m :
  (forall m b, Z.of_nat (len m) < mB -> step (K m) b = frame_end (V (m ++ [b])) (K (m ++ [b])) i (m ++ [b]) b) ->
  l <> [] -> Z.of_nat (len (m ++ l)) <= mB ->
  (forall j, (0 < j < len l)%nat -> V (m ++ take j l) = More) -> V (m ++ l) = Done true ->
  whole (K m) l [(i, m ++ l)].
Proof.
  intros HK. revert m. induction l as [|b l IH]; intros m Hne HB Hmore Hdone; [done|].
  rewrite length_app in HB. cbn [List.length] in HB. pose proof (HK m b ltac:(lia)) as Hstep.
  replace (m ++ b :: l) with ((m ++ [b]) ++ l) in * by (by rewrite <-app_assoc). destruct l as [|b' l].
  - rewrite app_nil_r in *. exists [], b, (K m), [], [(i, m ++ [b])]. rewrite Hdone in Hstep.
    split_and!; [done|constructor|done|done].
  - pose proof (Hmore 1%nat ltac:(cbn; lia)) as H1. cbn [take] in H1. rewrite H1 in Hstep. cbn [frame_end] in Hstep.
    eapply whole_cons; [exact Hstep|]. apply IH; [done| | |done].
    + rewrite !length_app. cbn [List.length] in *. lia.
    + intros j Hj. specialize (Hmore (S j)). cbn [take List.length] in Hmore.
      rewrite <-app_assoc. apply Hmore. cbn [List.length] in Hj. lia.
Qed.

Lemma semp_frame_delivered a c payload :
  len a = 8%nat -> len c = 6%nat -> Z.of_nat (len payload) + 24 <= mB ->
  whole Idle (custom_frame (0x14 :: a) c payload) [(0, custom_frame (0x14 :: a) c payload)].
Proof.
  intros Ha Hc HB. pose proof mB_range. unfold custom_frame. cbn zeta.
  destruct a as [|a0 [|a1 [|a2 [|a3 [|a4 [|a5 [|a6 [|a7 [|]]]]]]]]]; try done.
  destruct c as [|c0 [|c1 [|c2 [|c3 [|c4 [|c5 [|]]]]]]]; try done.
  assert (exists l1 l2, le_split 2 (Z.of_nat (len payload)) = [l1; l2] /\
    Z.to_nat (l1 + 256 * (l2 + 256 * 0)) = len payload) as (l1 & l2 & Hl & Hlen).
  { eexists _, _. split; [reflexivity|]. mlia. }
  rewrite Hl. cbn [app]. set (ck := custom_check _).
  pose proof (length_custom_check _ : len ck = 4%nat) as Hck.
  apply (whole_cons _ _ _ (Semp [0xAA])); [done|]. apply (mframe_run Semp semp_verdict 0 _ [0xAA]); [|done| | |].
  - intros m b Hm. cbn [mstep]. by destruct (mB <=? _) eqn:E; [lia|].
  - cbn [List.length app]. rewrite length_app. lia.
  - intros j Hj. cbn [List.length] in Hj. rewrite length_app in Hj. cbn [app].
    destruct j as [|[|j]]; [lia|done|]. erewrite semp_verdict_synced by reflexivity.
    destruct (_ <? 20)%nat eqn:E; [done|]. do 17 (destruct j as [|j]; [cbn in E; lia|]).
    cbn [take]. unfold get at 1. cbn [take drop offset size le_combine]. change (0x14 + 256 * 0 =? 0x14) with true.
    cbn [negb]. cbv zeta. unfold custom_length, get. cbn [take drop offset size le_combine List.length].
    rewrite Hlen, length_take, length_app. clear E. destruct (_ <? 24 + _)%nat eqn:E2; [done|lia].
  - cbn [app]. erewrite semp_verdict_synced by reflexivity. cbn [List.length]. rewrite length_app.
    destruct (_ <? 20)%nat eqn:E; [lia|]. unfold get at 1. cbn [take drop offset size le_combine].
    change (0x14 + 256 * 0 =? 0x14) with true. cbn [negb]. cbv zeta.
    unfold custom_length, get. cbn [take drop offset size le_combine List.length]. rewrite Hlen.
    destruct (_ <? 24 + _)%nat eqn:E2; [lia|]. f_equal. apply bool_decide_eq_true.
    cbn [Nat.add take drop]. by rewrite take_app_length, drop_app_length.
Qed.

Lemma ublox_frame_mdelivered class id payload :
  Z.of_nat (len payload) < 65536 -> Z.of_nat (len payload) + 8 <= mB ->
  whole Idle (ublox_frame class id payload) [(2, ublox_frame class id payload)].
Proof.
  intros Hn HB. unfold ublox_frame. cbn zeta.
  assert (exists l1 l2, le_split 2 (Z.of_nat (len payload)) = [l1; l2] /\
    Z.to_nat (l1 + 256 * l2) = len payload) as (l1 & l2 & Hl & Hlen).
  { eexists _, _. split; [reflexivity|]. mlia. }
  rewrite Hl. cbn [app]. set (ck := fletcher _).
  apply (whole_cons _ _ _ (Ublox [0xb5])); [done|]. apply (mframe_run Ublox mublox_verdict 2 _ [0xb5]); [|done| | |].
  - intros m b Hm. cbn [mstep]. by destruct (mB <=? _) eqn:E; [lia|].
  - cbn [List.length app]. rewrite length_app. cbn [List.length]. lia.
  - intros j Hj. cbn [List.length] in Hj. rewrite length_app in Hj. cbn [List.length] in Hj. cbn [app].
    destruct j as [|[|[|[|[|j]]]]]; try done. cbn [take mublox_verdict].
    change (negb (0x62 =? 0x62)) with false. cbv iota zeta. rewrite Hlen.
    destruct (decide (j <= len payload)%nat) as [Hle|Hgt].
    + by rewrite drop_ge by (rewrite length_take, length_app; cbn; lia).
    + rewrite take_app_ge by lia. replace (j - len payload)%nat with 1%nat by lia. cbn [take].
      rewrite take_app_length, drop_app_length. fold ck. by rewrite Z.eqb_refl.
  - cbn [app mublox_verdict]. change (negb (0x62 =? 0x62)) with false. cbv iota zeta.
    rewrite Hlen, take_app_length, drop_app_length. fold ck. by rewrite Z.eqb_refl.
Qed.

(** ** Sentences *)

Lemma sentence_mstep t t' b :
  mclosed t = false -> mtext_step mB t b = Some t' -> step (Nmea t) b = Some (true, Nmea t', []).
Proof. intros Hc Ht. cbn [mstep]. by rewrite Hc, Ht. Qed.

Lemma name_mrun name read :
  (len (read ++ name) <= 15)%nat -> Forall (fun b => name_character b = true) name ->
  msteps name (Nmea (TName read)) (Nmea (TName (read ++ name))) [].
Proof.
  intros Hl Hn. revert read Hl. induction Hn as [|b name Hb Hn IH]; intros read Hl;
    [rewrite app_nil_r; constructor|].
  rewrite length_app in Hl. cbn [List.length] in Hl. eapply (msteps_cons _ _ _ _ _ [] []).
  2: { replace (read ++ b :: name) with ((read ++ [b]) ++ name) by (by rewrite <-app_assoc).
       apply IH. rewrite !length_app. cbn. lia. }
  - apply sentence_mstep; [done|]. unfold mtext_step. cbn -[Nat.eqb]. rewrite comma_ends_name, Hb by done.
    cbn -[Nat.eqb]. destruct (len read =? 15)%nat eqn:E; [lia|done].
Qed.

Lemma body_mrun name body read :
  Forall (fun b => b <> 0x2A) body ->
  Z.of_nat (len (flatten 0x24 (TBody name (read ++ body)))) + 5 <= mB ->
  msteps body (Nmea (TBody name read)) (Nmea (TBody name (read ++ body))) [].
Proof.
  intros Hb. revert read. induction Hb as [|b body Hb Hbs IH]; intros read HB;
    [rewrite app_nil_r; constructor|].
  replace (read ++ b :: body) with ((read ++ [b]) ++ body) in * by (by rewrite <-app_assoc).
  eapply (msteps_cons _ _ _ (Nmea (TBody name (read ++ [b]))) _ [] []); [|by apply IH].
  apply sentence_mstep; [done|]. unfold mtext_step. cbn [text_step sentence_overhead].
  destruct (Z.eqb_spec b 0x2A); [done|]. destruct (mB + 1 <? _) eqn:E; [|done].
  cbn in *. rewrite !length_app in *. cbn in *. rewrite !length_app in *. cbn in *. lia.
Qed.

Lemma sentence_closed_mrun name body d1 d2 :
  sentence_name name -> Forall (fun b => b <> 0x2A) body ->
  Z.of_nat (len (flatten 0x24 (TBody name body))) + 5 <= mB ->
  is_Some (digit_value d1) -> is_Some (digit_value d2) ->
  msteps (flatten 0x24 (TSum name body [d1; d2])) Idle (Nmea (TSum name body [d1; d2])) [].
Proof.
  intros (Hne & Hl & Hn) Hbody HB [v1 H1] [v2 H2]. unfold flatten.
  apply (msteps_cons _ _ _ (Nmea (TName [])) _ [] []); [done|].
  apply (msteps_app _ _ _ _ _ [] [] (name_mrun name [] Hl Hn)). cbn [app].
  apply (msteps_cons _ _ _ (Nmea (TBody name [])) _ [] []).
  { apply sentence_mstep; [done|]. unfold mtext_step. cbn. by rewrite bool_decide_eq_false_2 by done. }
  apply (msteps_app _ _ _ _ _ [] [] (body_mrun name body [] Hbody HB)). cbn [app].
  apply (msteps_cons _ _ _ (Nmea (TSum name body [])) _ [] []); [by apply sentence_mstep|].
  apply (msteps_cons _ _ _ (Nmea (TSum name body [d1])) _ [] []).
  { apply sentence_mstep; [done|]. unfold mtext_step. cbn. by rewrite H1. }
  apply msteps_one, sentence_mstep; [done|]. unfold mtext_step. cbn. by rewrite H2.
Qed.

(** A sentence with its check, up to the room for the terminator. *)
Lemma nmea_sentence_split name body :
  bytes (name ++ 0x2C :: body) ->
  exists d1 d2, nmea_sentence 0x24 name body = flatten 0x24 (TSum name body [d1; d2]) ++ [0x0D; 0x0A] /\
    is_Some (digit_value d1) /\ is_Some (digit_value d2) /\ text_check (TSum name body [d1; d2]) = true.
Proof.
  intros Hbs. set (c := name ++ 0x2C :: body) in *.
  destruct (hex_digits_spelled 2 (xor_all c)) as (Hl & Hd & Hv); [apply (xor_all_range c Hbs)|].
  assert (nmea_sentence 0x24 name body = flatten 0x24 (TSum name body (hex_digits 2 (xor_all c))) ++ [0x0D; 0x0A]) as ->
    by (by rewrite flatten_sum).
  set (ds := hex_digits 2 (xor_all c)) in *. clearbody ds. destruct ds as [|d1 [|d2 [|]]]; try done.
  apply Forall_cons_1 in Hd as [H1 [H2 _]%Forall_cons_1]. exists d1, d2. split_and!; [done|done|done|].
  unfold text_check. cbv [Nat.ltb Nat.leb List.length]. fold c. by apply Z.eqb_eq.
Qed.

Lemma nmea_sentence_mdelivered name body :
  sentence_name name -> Forall (fun b => b <> 0x2A) body -> bytes (name ++ 0x2C :: body) ->
  Z.of_nat (len (name ++ 0x2C :: body)) + 6 <= mB -> Z.of_nat (len (name ++ 0x2C :: body)) + 7 <= mC ->
  whole Idle (nmea_sentence 0x24 name body) [(1, nmea_sentence 0x24 name body)].
Proof.
  intros Hn Hb Hbs HB HC. destruct (nmea_sentence_split name body Hbs) as (d1 & d2 & -> & H1 & H2 & Hchk).
  eapply whole_app; [by apply sentence_closed_mrun; [..|cbn; lia| |]|].
  set (m := flatten 0x24 (TSum name body [d1; d2])). exists [0x0D], 0x0A, Idle, [(1, m ++ [0x0D; 0x0A])], [].
  split_and!; [done| |done|done]. apply (msteps_cons _ _ _ Idle _ [(1, m ++ [0x0D; 0x0A])] []); [|constructor].
  cbn [mstep mclosed closed List.length check_digits Nat.eqb]. unfold mfinish. rewrite Hchk. cbn [orb]. fold m.
  destruct (_ <=? mC) eqn:E; [done|]. unfold m in E. rewrite length_flatten_sum in E. cbn [List.length] in E. lia.
Qed.

(** ** Streams *)

(** Bytes between messages. *)
Definition mnoise (l : list Z) : Prop := Forall (fun b => b <> 0xAA /\ b <> 0x24 /\ b <> 0xB5) l.

Lemma mnoise_run l : mnoise l -> run Idle l = Some (Idle, []).
Proof.
  induction 1 as [|b l (H1 & H2 & H3) Hl IH]; [done|]. rewrite (mrun_cons _ _ false Idle); [done|].
  cbn. unfold rescan, mscan. apply Z.eqb_neq in H1, H2, H3. by rewrite H1, H2, H3.
Qed.

(** The messages a sender produces, with the number of their protocol. *)
Inductive msent : Z -> list Z -> Prop :=
| msent_semp a c payload :
    len a = 8%nat -> len c = 6%nat -> Z.of_nat (len payload) + 24 <= mB ->
    msent 0 (custom_frame (0x14 :: a) c payload)
| msent_nmea name body :
    sentence_name name -> Forall (fun b => b <> 0x2A) body -> bytes (name ++ 0x2C :: body) ->
    Z.of_nat (len (name ++ 0x2C :: body)) + 6 <= mB -> Z.of_nat (len (name ++ 0x2C :: body)) + 7 <= mC ->
    msent 1 (nmea_sentence 0x24 name body)
| msent_ublox class id payload :
    Z.of_nat (len payload) + 8 <= mB -> msent 2 (ublox_frame class id payload).

Lemma msent_delivered i m : msent i m -> whole Idle m [(i, m)].
Proof.
  pose proof mB_range. destruct 1.
  - by apply semp_frame_delivered.
  - by apply nmea_sentence_mdelivered.
  - apply ublox_frame_mdelivered; lia.
Qed.

Inductive mstream : list Z -> output -> Prop :=
| mstream_end l : mnoise l -> mstream l []
| mstream_message l i m rest out :
    mnoise l -> msent i m -> mstream rest out -> mstream (l ++ m ++ rest) ((i, m) :: out).

Lemma mstream_run l out : mstream l out -> run Idle l = Some (Idle, out).
Proof.
  induction 1 as [l Hl|l i m rest out Hl Hm Hs IH]; [by apply mnoise_run|].
  rewrite (mrun_quiet _ _ _ _ (mnoise_run l Hl)), (mrun_app _ _ _ _ _ _ _ _ (whole_run _ _ _ (msent_delivered i m Hm))). by rewrite IH.
Qed.

(** ** Outputs *)

(** Messages of the protocols, their checks included. *)
Inductive valid_output : Z * list Z -> Prop :=
| valid_semp a c payload :
    len a = 8%nat -> len c = 6%nat -> Z.of_nat (len payload) < 65536 ->
    valid_output (0, custom_frame (0x14 :: a) c payload)
| valid_sentence m : valid_message fn_sempNmeaPreamble m -> valid_output (1, m)
| valid_binary m : valid_message fn_sempUbloxPreamble m -> valid_output (2, m).

(** A sentence with a wrong checksum that the callback [badCrc] let pass: a name,
    a body and two digits, for which the callback was called with the bytes up to
    the digits. *)
Inductive let_pass : Z * list Z -> Prop :=
| passed_sentence name body digits :
    sentence_name name -> Forall (fun b => b <> 0x2A) body -> len digits = 2%nat ->
    Forall (fun b => is_Some (digit_value b)) digits ->
    digits_value digits <> xor_all (name ++ 0x2C :: body) ->
    maccepts (0x24 :: name ++ 0x2C :: body ++ 0x2A :: digits) = true ->
    let_pass (1, 0x24 :: name ++ 0x2C :: body ++ 0x2A :: digits ++ [0x0D; 0x0A]).

Definition sound_output (im : Z * list Z) : Prop := valid_output im \/ let_pass im.

Lemma semp_done_message m rest :
  bytes m -> m = 0xAA :: rest -> semp_verdict m = Done true -> valid_output (0, m).
Proof.
  intros Hb -> Hv. destruct rest as [|s2 m]; [done|].
  unfold semp_verdict in Hv. destruct (Z.eqb_spec s2 0x44) as [->|]; [|done]. cbn [negb] in Hv.
  destruct m as [|s3 rest]; [done|]. destruct (Z.eqb_spec s3 0x18) as [->|]; [|done]. cbn [negb] in Hv.
  destruct (_ <? 20)%nat eqn:E; [done|].
  destruct rest as [|a0 [|a1 [|a2 [|a3 [|a4 [|a5 [|a6 [|a7 [|a8 [|l1 [|l2 [|c0 [|c1 [|c2 [|c3 [|c4
    [|c5 body]]]]]]]]]]]]]]]]]; try (cbn [List.length] in E; lia). clear E.
  destruct (get (Member 3 1) _ =? 0x14) eqn:Ea in Hv; [|done]. cbn [negb] in Hv. cbn zeta in Hv.
  apply Z.eqb_eq in Ea. unfold get in Ea. cbn in Ea. assert (a0 = 0x14) as -> by lia. clear Ea.
  destruct (_ <? 24 + _)%nat eqn:E; [done|]. injection Hv as Hv. apply bool_decide_eq_true in Hv.
  do 12 apply Forall_cons_1 in Hb as [_ Hb]. apply Forall_cons_1 in Hb as [H1 [H2 _]%Forall_cons_1].
  set (n := custom_length _) in *.
  assert (Z.of_nat n = l1 + 256 * l2) as Hn.
  { unfold n, custom_length, get, is_u8 in *. cbn. lia. }
  clearbody n. cbn [Nat.add drop take] in Hv. apply drop_exact in Hv as [Hbody Hlen]; [|done].
  assert (custom_frame [0x14; a1; a2; a3; a4; a5; a6; a7; a8] [c0; c1; c2; c3; c4; c5] (take n body)
    = 0xAA :: 0x44 :: 0x18 :: 0x14 :: a1 :: a2 :: a3 :: a4 :: a5 :: a6 :: a7 :: a8 :: l1 :: l2
      :: c0 :: c1 :: c2 :: c3 :: c4 :: c5 :: body) as <-.
  { unfold custom_frame. rewrite Hlen, Hn, le_split_bytes_2 by done. cbn [app]. by rewrite Hbody at 3. }
  constructor; [done|done|]. rewrite Hlen, Hn. unfold is_u8 in *. lia.
Qed.

Lemma mublox_done_message m b rest :
  bytes (m ++ [b]) -> m = 0xB5 :: rest -> mublox_verdict m = More -> mublox_verdict (m ++ [b]) = Done true ->
  valid_output (2, m ++ [b]).
Proof.
  intros Hb Hm Hmore Hv. constructor. apply ublox_done; [done|by rewrite Hm|]. subst m.
  destruct rest as [|s2 rest]; [cbn in Hv; by destruct (negb (b =? 0x62))|].
  cbn [app] in *. unfold mublox_verdict in Hmore, Hv. unfold ublox_verdict.
  destruct (negb (s2 =? 0x62)); [done|].
  destruct rest as [|c [|i [|l1 [|l2 body]]]]; try done; cbn [app] in *; cbv zeta in *; [by rewrite drop_nil in Hv|].
  set (n := Z.to_nat (l1 + 256 * l2)) in *. destruct (decide (n <= len body)%nat) as [Hle|Hgt].
  - rewrite take_app_le, drop_app_le in * by done. set (ck := fletcher _) in *.
    destruct (drop n body) as [|a [|]] eqn:E; try done.
    + cbn [app] in Hv. by destruct (b =? ck.1).
    + destruct (Z.eqb_spec a ck.1) as [->|]; [|done]. injection Hv as Hv. cbn [app] in *.
      destruct (_ <? _)%nat eqn:E2.
      { assert (len (drop n body) = 1%nat) as Hd by (by rewrite E). rewrite length_drop in Hd.
        rewrite length_app in E2. cbn [List.length] in E2. lia. }
      f_equal. apply bool_decide_eq_true. by apply Z.eqb_eq in Hv as ->.
  - rewrite drop_ge in Hv by (rewrite length_app; cbn; lia). done.
Qed.

Definition minv (st : mstate) : Prop :=
  match st with
  | Idle => True
  | Semp m => bytes m /\ exists rest, m = 0xAA :: rest
  | Nmea t => mtext_ok t
  | Ublox m => bytes m /\ (exists rest, m = 0xB5 :: rest) /\ mublox_verdict m = More
  end.

Lemma mscan_inv b : is_u8 b -> minv (mscan b).
Proof.
  intros Hb. unfold mscan. destruct (Z.eqb_spec b 0xAA) as [->|]; [split; [by apply Forall_singleton|by eexists]|].
  destruct (b =? 0x24); [split; [cbn; lia|done]|].
  destruct (Z.eqb_spec b 0xB5) as [->|]; [|done]. split_and!; [by apply Forall_singleton|by eexists|done].
Qed.

Lemma rescan_inv out b a st out' :
  is_u8 b -> Forall sound_output out -> rescan out b = Some (a, st, out') -> minv st /\ Forall sound_output out'.
Proof. intros Hb Ho [= <- <- <-]. split; [by apply mscan_inv|done]. Qed.

Lemma flatten_ended name body digits :
  flatten 0x24 (TSum name body digits) ++ [0x0D; 0x0A]
    = 0x24 :: name ++ 0x2C :: body ++ 0x2A :: digits ++ [0x0D; 0x0A].
Proof. cbn. by rewrite <-app_assoc, <-app_comm_cons, <-app_assoc. Qed.

Lemma mfinish_valid t out :
  mtext_ok t -> mclosed t = true -> mfinish mC maccepts t = Some out -> Forall sound_output out.
Proof.
  intros Hok Hc H. unfold mfinish in H. destruct (text_check t) eqn:E; cbn [orb] in H.
  - destruct (_ <=? mC); [|done]. simplify_eq. apply Forall_singleton. left. apply valid_sentence.
    destruct t as [| |name body digits]; try done. cbn in Hc. apply Nat.eqb_eq in Hc.
    destruct Hok as ([Hl Hn] & Hne & Hb & _ & Hd & _).
    rewrite flatten_ended. constructor; [by left|done|done|]. split_and!; [done|done|].
    unfold text_check in E. rewrite Hc in E. cbn -[xor_all] in E. lia.
  - destruct (maccepts _) eqn:Ea; [|by simplify_eq]. destruct (_ <=? mC); [|done]. simplify_eq.
    apply Forall_singleton. right. destruct t as [| |name body digits]; try done.
    cbn in Hc. apply Nat.eqb_eq in Hc. destruct Hok as ([Hl Hn] & Hne & Hb & _ & Hd & _).
    rewrite flatten_ended. apply passed_sentence; try done.
    unfold text_check in E. rewrite Hc in E. cbn -[xor_all] in E. lia.
Qed.

Lemma mstep_inv st b a st' out :
  minv st -> is_u8 b -> step st b = Some (a, st', out) -> minv st' /\ Forall sound_output out.
Proof.
  intros Hi Hb H. destruct st as [|m|t|m]; cbn [mstep] in H.
  - by eapply (rescan_inv []).
  - destruct (mB <=? _); [by eapply (rescan_inv [])|]. destruct Hi as [Hm [rest ->]].
    assert (bytes ((0xAA :: rest) ++ [b])) as Hmb by (by apply Forall_app; split; [|apply Forall_singleton]).
    destruct (semp_verdict _) as [| |ok] eqn:Ev; cbn [frame_end] in H; [|by eapply (rescan_inv [])|]; simplify_eq.
    + split; [|done]. split; [done|]. by exists (rest ++ [b]).
    + split; [done|]. destruct ok; [|done]. apply Forall_singleton. left. by eapply semp_done_message.
  - destruct (mclosed t) eqn:Hc.
    + destruct (mfinish _ _ _) as [out0|] eqn:Hf; [|done]. pose proof (mfinish_valid t out0 Hi Hc Hf) as Hv.
      destruct (_ || _); [by simplify_eq|]. by eapply (rescan_inv out0).
    + destruct (mtext_step _ _ _) as [t'|] eqn:Ht; [|by eapply (rescan_inv [])]. simplify_eq.
      split; [|done]. by eapply mtext_ok_step.
  - destruct (mB <=? _); [by eapply (rescan_inv [])|]. destruct Hi as (Hm & [rest Hr] & Hmore).
    assert (bytes (m ++ [b])) as Hmb by (by apply Forall_app; split; [|apply Forall_singleton]).
    destruct (mublox_verdict (m ++ [b])) as [| |ok] eqn:Ev; cbn [frame_end] in H; [|by eapply (rescan_inv [])|]; simplify_eq.
    + split; [|done]. split_and!; [done|by exists (rest ++ [b])|done].
    + split; [done|]. destruct ok; [|done]. apply Forall_singleton. left. by eapply mublox_done_message.
Qed.

Lemma mrun_inv st l st' out :
  minv st -> bytes l -> run st l = Some (st', out) -> minv st' /\ Forall sound_output out.
Proof.
  intros Hi Hl. revert st out Hi. induction Hl as [|b l Hb Hl IH]; intros st out Hi; cbn [mrun].
  - by intros [= <- <-].
  - destruct (step st b) as [[[a st1] out1]|] eqn:E1; [|done].
    destruct (run st1 l) as [[st2 out2]|] eqn:E2; [|done]. intros [= <- <-].
    destruct (mstep_inv _ _ _ _ _ Hi Hb E1) as [Hi1 Ho1].
    destruct (IH st1 out2 Hi1 E2) as [Hi2 Ho2]. split; [done|]. by apply Forall_app.
Qed.

(** ** An array with a byte to spare *)

Lemma closed_short t : mtext_ok t -> mclosed t = true -> Z.of_nat (len (flatten 0x24 t)) + 2 <= mB.
Proof.
  intros Hok Hc. destruct t as [| |name body digits]; try done. cbn in Hc. apply Nat.eqb_eq in Hc.
  destruct Hok as (_ & _ & _ & Hl & _). rewrite length_flatten_sum, Hc. cbn in Hl. lia.
Qed.

Lemma mrun_defined st l : mB < mC -> minv st -> bytes l -> is_Some (run st l).
Proof.
  intros HC Hi Hl. revert st Hi. induction Hl as [|b l Hb Hl IH]; intros st Hi; cbn [mrun]; [by eexists|].
  assert (is_Some (step st b)) as [[[a st1] out1] E].
  { destruct st as [|m|t|m]; cbn [mstep].
    - by eexists.
    - destruct (mB <=? _); [by eexists|]. destruct (semp_verdict _); by eexists.
    - destruct (mclosed t) eqn:Hc.
      + pose proof (closed_short t Hi Hc). unfold mfinish. destruct (_ || _).
        * destruct (_ <=? mC) eqn:E; [|lia]. destruct (_ || _); by eexists.
        * destruct (_ || _); by eexists.
      + destruct (mtext_step _ _ _); by eexists.
    - destruct (mB <=? _); [by eexists|]. destruct (mublox_verdict _); by eexists. }
  rewrite E. destruct (mstep_inv _ _ _ _ _ Hi Hb E) as [Hi1 _].
  destruct (IH st1 Hi1) as [[st2 out2] ->]. by eexists.
Qed.

End machine.
