(* ===== verification/MultiTheorems.v ===== *)
(** * What the multi-protocol parser guarantees

    Correctness of [src/single_parser/multi_protocol_parser.c] for one parser,
    and its defects: the terminator outside the buffer, the byte counter, and the
    static objects that parsers share. *)
From S2P Require Import Prelude Crc ParseState FrameSpec Sentences Representation SentenceRefine.
From S2P Require Import Messages MessageRuns RoundTrip MultiParser MultiSpec MultiRep MultiNmea.
From S2P Require Import MultiMachine.

Local Abbreviation len := List.length.

Lemma hex_digits_bytes n v : bytes (hex_digits n v).
Proof.
  revert v. induction n as [|n IH]; intros v; cbn [hex_digits]; [constructor|].
  apply Forall_app. split; [apply IH|]. apply Forall_singleton. unfold hex_digit, is_u8.
  pose proof (Z.mod_pos_bound v 16 ltac:(lia)). destruct (_ <? 10); lia.
Qed.

Section multi.
  Context `{SU : MSetup}.

(** A world right after the initialisation of its only parser: the caller's array
    of [mC] bytes, announced as [mB] bytes, and the static objects at their
    initial values (the scratch area may hold anything). *)
Definition initialised (w : world) : Prop :=
  exists buffer name pe pd,
    mmpInitParser true (Some buffer) mB (Some meom) mbad name pe pd = Some (parse w) /\
    bytes buffer /\ Z.of_nat (len buffer) = mC /\ pad_ok (scratchPad w) /\ lengthBytes w = 0.

Lemma initialised_idle w : initialised w -> MR w Idle /\ messagesProcessed (parse w) = replicate 8 0.
Proof.
  pose proof mB_range as Hr. intros (buffer & name & pe & pd & Hi & Hb & Hl & Hp & Hk). unfold mmpInitParser in Hi.
  destruct (mB <? MMP_MINIMUM_BUFFER_LENGTH); [done|]. injection Hi as Hi.
  split; [|by rewrite <-Hi]. split; [|by rewrite <-Hi].
  split; rewrite <-?Hi; try done. cbn. lia.
Qed.

(** ** Counters *)

Lemma counted_lookup out l i v :
  (forall im, im ∈ out -> 0 <= im.1) -> l !! i = Some v -> is_u32 v ->
  counted out l !! i = Some (u32 (v + Z.of_nat (len (outputs_of (Z.of_nat i) out)))).
Proof.
  revert l v. induction out as [|[j m] out IH]; intros l v Hp Hl Hv.
  - unfold counted, outputs_of. cbn. by rewrite Z.add_0_r, u32_id.
  - assert (forall im, im ∈ out -> 0 <= im.1) as Hp' by (intros; apply Hp; by right).
    pose proof (Hp (j, m) ltac:(left)) as Hj. cbn in Hj.
    change (counted ((j, m) :: out) l) with (counted out (<[Z.to_nat j := u32 (nth (Z.to_nat j) l 0 + 1)]> l)).
    unfold outputs_of. destruct (decide (j = Z.of_nat i)) as [->|Hne].
    + rewrite Nat2Z.id, (nth_lookup_Some _ _ _ _ Hl).
      erewrite IH; [|done|apply list_lookup_insert_eq; by eapply lookup_lt_Some|apply u32_range].
      rewrite filter_cons_True by done. cbn [List.length]. f_equal. unfold outputs_of, u32.
      rewrite Zplus_mod_idemp_l. f_equal. lia.
    + rewrite filter_cons_False by done. apply IH; [done| |done]. rewrite list_lookup_insert_ne; [done|lia].
Qed.

(** ** [mmpProcessBuffer] *)

Lemma msteps_loop l st st' out rest n w :
  msteps l st st' out -> MR w st -> bytes l -> 0 <= n -> n + Z.of_nat (len l) < 65536 ->
  exists w' ev, MR w' st' /\ mdelivered ev = out /\
    process_loop (l ++ rest) n w =
      match process_loop rest (n + Z.of_nat (len l)) w' with
      | Ok (a, w2, e2) => Ok (a, w2, ev ++ e2)
      | Ub u => Ub u
      end.
Proof.
  intros H. revert w n. induction H as [st|b l st st1 st2 out1 out2 Hs _ IH]; intros w n HR Hb H0 Hn.
  - exists w, []. cbn [app List.length]. rewrite Z.add_0_r.
    split_and!; [done|done|]. by destruct (process_loop rest n w) as [[[??]?]|].
  - apply Forall_cons_1 in Hb as [Hb Hl]. pose proof (mmpProcessByte_refines b w st HR Hb) as Hr. rewrite Hs in Hr.
    destruct Hr as (w1 & ev1 & H1 & HR1 & Hd1 & _). cbn [List.length] in Hn.
    destruct (IH w1 (n + 1) HR1 Hl) as (w' & ev & HR' & Hd' & Hloop); [lia|lia|].
    exists w', (ev1 ++ ev). split_and!; [done|by rewrite mdelivered_app, Hd1, Hd'|].
    cbn [process_loop app List.length]. rewrite (bind_ok _ _ _ _ _ _ H1), u16_id by (unfold is_u16; lia).
    rewrite Hloop. replace (n + 1 + Z.of_nat (len l)) with (n + Z.of_nat (S (len l))) by lia.
    destruct (process_loop rest (n + Z.of_nat (S (len l))) w') as [[[??]?]|?]; [by rewrite <-app_assoc|done].
Qed.

Lemma whole_process l out rest w :
  whole Idle l out -> MR w Idle -> bytes l -> Z.of_nat (len l) < 65536 ->
  exists w' ev, mmpProcessBuffer (l ++ rest) w = Ok (Z.of_nat (len l), w', ev) /\ MR w' Idle /\ mdelivered ev = out.
Proof.
  intros (l' & b & st & out1 & out2 & -> & Hs & Hlast & ->) HR Hl Hn.
  apply Forall_app in Hl as [Hl' [Hb _]%Forall_cons_1]. rewrite length_app in *. cbn [List.length] in *.
  destruct (msteps_loop l' Idle st out1 (b :: rest) 0 w Hs HR Hl') as (w1 & ev1 & HR1 & Hd1 & Hloop); [lia|lia|].
  pose proof (mmpProcessByte_refines b w1 st HR1 Hb) as Hr. rewrite Hlast in Hr.
  destruct Hr as (w2 & ev2 & H2 & HR2 & Hd2 & _).
  exists w2, (ev1 ++ ev2). split_and!; [|done|by rewrite mdelivered_app, Hd1, Hd2].
  unfold mmpProcessBuffer. rewrite <-app_assoc. cbn [app]. rewrite Hloop. cbn [process_loop].
  rewrite (bind_ok _ _ _ _ _ _ H2), u16_id by (unfold is_u16; lia). cbn. rewrite app_nil_r. do 3 f_equal. lia.
Qed.

(** ** The number of bytes *)

Lemma noise_parsers b w :
  b <> 0xAA -> b <> 0x24 -> b <> 0xB5 ->
  exists ev, try_parsers mmp_parserTable 0 b w = Ok (false, on_parse (with_state fn_mmpFirstByte) w, ev).
Proof.
  intros H1 H2 H3. apply Z.eqb_neq in H1, H2, H3. cbn [try_parsers mmp_parserTable call_preamble].
  unfold mmpSempPreamble, mmpNmeaPreamble, mmpUbloxPreamble, mmpRtcmPreamble. rewrite H1, H2, H3. cbn [negb].
  do 3 (rewrite bind_ret; cbv beta iota).
  destruct (negb (b =? 0xD3)); [by eexists|].
  destruct (mmpSafePrintf_ok (printDebug (parse w)) "MMP: RTCM协议检测到但未完全实现" [] w eq_refl) as (ev & Hev & _).
  eexists. rewrite (bind_ok _ _ _ false (on_parse (with_state fn_mmpFirstByte) w) (ev ++ [])); [reflexivity|].
  run. by rewrite (bind_ok _ _ _ _ _ _ Hev).
Qed.

Lemma totalBytes_taken b p : totalBytes (taken b p) = u32 (totalBytes p + 1).
Proof. unfold taken. by destruct (computeCrc p). Qed.

Lemma totalBytes_rescanned b p : totalBytes (rescanned b p) = u32 (totalBytes p + 1).
Proof. reflexivity. Qed.

Lemma totalBytes_state f w : totalBytes (parse (on_parse (with_state f) w)) = totalBytes (parse w).
Proof. reflexivity. Qed.

Lemma parse_on f w : parse (on_parse f w) = f (parse w).
Proof. reflexivity. Qed.

Lemma mwf_state f w : mwf w -> mwf (on_parse (with_state f) w).
Proof. intros Hw. mwf_from Hw. Qed.

Lemma length_rescanned f b w : length (parse (on_parse (with_state f) (on_parse (rescanned b) w))) = 1.
Proof. reflexivity. Qed.

Lemma state_state f w : state (parse (on_parse (with_state f) w)) = f.
Proof. reflexivity. Qed.

Lemma u32_twice v : u32 (u32 (v + 1) + 1) = u32 (v + 2).
Proof. unfold u32. rewrite Zplus_mod_idemp_l. f_equal. lia. Qed.

(** A byte of noise is counted twice: when it is stored, and again when it turns
    out to start no message. *)
Lemma noise_counted b w :
  mwf w -> is_u8 b -> b <> 0xAA -> b <> 0x24 -> b <> 0xB5 -> state (parse w) = fn_mmpFirstByte ->
  length (parse w) < mB ->
  exists w' ev, mmpProcessByte b w = Ok (false, w', ev) /\ mwf w' /\ state (parse w') = fn_mmpFirstByte /\
    length (parse w') = 1 /\ totalBytes (parse w') = u32 (totalBytes (parse w) + 2).
Proof.
  intros Hw Hb H1 H2 H3 Hst Hl. destruct (taken_ok b w Hw Hb Hl) as [Hw1 _].
  destruct (noise_parsers b (on_parse (rescanned b) (on_parse (taken b) w)) H1 H2 H3) as [ev Hev].
  pose proof (mwf_rescanned b _ Hw1 Hb) as Hr.
  pose proof (totalBytes_rescanned b (taken b (parse w))) as Ht. rewrite totalBytes_taken, u32_twice in Ht.
  assert (mmpProcessByte b w = try_parsers mmp_parserTable 0 b (on_parse (rescanned b) (on_parse (taken b) w))) as Hrun.
  { rewrite (mmp_taken_run b w Hw Hl), Hst. cbn [call_state]. by apply mmpFirstByte_run. }
  rewrite Hev in Hrun. exists (on_parse (with_state fn_mmpFirstByte) (on_parse (rescanned b) (on_parse (taken b) w))), ev.
  split_and!; [exact Hrun|by apply mwf_state|apply state_state|apply length_rescanned|].
  by rewrite totalBytes_state, !parse_on.
Qed.

Lemma noise_counted_all l w :
  mwf w -> bytes l -> mnoise l -> state (parse w) = fn_mmpFirstByte -> length (parse w) < mB ->
  is_u32 (totalBytes (parse w)) ->
  exists w' ev, mfeed l w = Ok (tt, w', ev) /\
    totalBytes (parse w') = u32 (totalBytes (parse w) + 2 * Z.of_nat (len l)).
Proof.
  pose proof mB_range. intros Hw Hb. revert w Hw. induction Hb as [|b l Hb Hl IH]; intros w Hw Hn Hst Hlen H32.
  - exists w, []. split; [done|]. cbn. by rewrite Z.add_0_r, u32_id.
  - apply Forall_cons_1 in Hn as [(H1 & H2 & H3) Hn].
    destruct (noise_counted b w Hw Hb H1 H2 H3 Hst Hlen) as (w1 & ev1 & Hp & Hw1 & Hst1 & Hl1 & Ht1).
    destruct (IH w1 Hw1 Hn Hst1) as (w2 & ev2 & Hf & Ht2); [lia|rewrite Ht1; apply u32_range|].
    exists w2, (ev1 ++ ev2). split.
    + unfold mfeed in *. cbn [for_each]. rewrite (bind_ok _ _ _ tt w1 ev1); [by rewrite Hf|].
      rewrite (bind_ok _ _ _ _ _ _ Hp). cbn. by rewrite app_nil_r.
    + rewrite Ht2, Ht1. unfold u32. rewrite Zplus_mod_idemp_l. f_equal. cbn [List.length]. lia.
Qed.

(** ** Properties *)

(** C12: One multi-protocol parser, fed byte by byte after its initialisation,
    behaves as the abstract machine: it delivers the machine's messages in order,
    ends in a state that represents the machine's, writes outside an array
    exactly where the machine is undefined, and its counters of processed messages are the numbers of
    deliveries per protocol, modulo 2^32. *)
Theorem mmp_refines w l :
  initialised w -> bytes l ->
  match mrun mB mC maccepts Idle l with
  | Some (st, out) =>
      exists w' ev, mfeed l w = Ok (tt, w', ev) /\ MR w' st /\ mdelivered ev = out /\
        forall i, (i < 8)%nat ->
          messagesProcessed (parse w') !! i = Some (u32 (Z.of_nat (len (outputs_of (Z.of_nat i) out))))
  | None => mfeed l w = Ub OutOfBounds
  end.
Proof.
  intros Hi Hl. destruct (initialised_idle w Hi) as [HR Hm]. pose proof (mfeed_refines l w Idle HR Hl) as H.
  destruct (mrun mB mC maccepts Idle l) as [[st out]|] eqn:E; [|done].
  destruct H as (w' & ev & Hf & HR' & Hd & Hc). exists w', ev. split_and!; [done|done|done|].
  intros i Hlt. rewrite Hc, Hm. destruct (mrun_inv Idle l st out I Hl E) as [_ Hv].
  erewrite counted_lookup; [rewrite Z.add_0_l; reflexivity| |by apply lookup_replicate|done].
  intros im Him. rewrite Forall_forall in Hv. by destruct (Hv im Him) as [[]|[]].
Qed.

(** C13: When the caller's array has at least one byte more than the announced
    length, no input makes the parser read or write outside an array, shift a
    negative number or print an unterminated name. *)
Theorem mmp_safe w l :
  initialised w -> bytes l -> mB < mC -> exists w' ev, mfeed l w = Ok (tt, w', ev).
Proof.
  intros Hi Hl HC. destruct (initialised_idle w Hi) as [HR _]. pose proof (mfeed_refines l w Idle HR Hl) as H.
  destruct (mrun_defined Idle l HC I Hl) as [[st out] E]. rewrite E in H.
  destruct H as (w' & ev & Hf & _). by exists w', ev.
Qed.

(** C36: When the array has exactly the announced length, every NMEA sentence of
    the greatest length the parser accepts makes it write its terminator one byte
    past the end of the array. *)
Theorem mmp_overflow w name body :
  initialised w -> mC = mB -> sentence_name name -> Forall (fun b => b <> 0x2A) body ->
  bytes (name ++ 0x2C :: body) -> Z.of_nat (len (name ++ 0x2C :: body)) + 6 = mB ->
  mfeed (nmea_sentence 0x24 name body) w = Ub OutOfBounds.
Proof.
  intros Hi HC Hn Hb Hbs HB. destruct (initialised_idle w Hi) as [HR _].
  destruct (nmea_sentence_split name body Hbs) as (d1 & d2 & Hsp & H1 & H2 & Hchk).
  assert (bytes (nmea_sentence 0x24 name body)) as Hl.
  { unfold nmea_sentence. constructor; [done|]. apply Forall_app. split; [done|]. constructor; [done|].
    apply Forall_app. split; [apply hex_digits_bytes|]. repeat constructor; done. }
  pose proof (mfeed_refines _ w Idle HR Hl) as H. rewrite Hsp in *.
  rewrite (mrun_app _ _ _ _ _ _ _ _ (msteps_run _ _ _ _ (sentence_closed_mrun name body d1 d2 Hn Hb ltac:(cbn; lia) H1 H2))) in H.
  cbn [mrun mstep mclosed closed List.length check_digits Nat.eqb] in H. unfold mfinish in H. rewrite Hchk in H.
  cbn [orb] in H. rewrite length_flatten_sum in H. cbn [List.length] in H.
  destruct (_ <=? mC) eqn:E; [lia|done].
Qed.

(** C14: Round trip: of a stream of SEMP frames, NMEA sentences and u-blox frames
    as a sender encodes them, with any bytes that start no message in between,
    the parser delivers exactly these messages, in order and with the number of
    their protocol. *)
Theorem mmp_stream_delivered w l out :
  initialised w -> bytes l -> mstream l out ->
  exists w' ev, mfeed l w = Ok (tt, w', ev) /\ mdelivered ev = out /\ MR w' Idle.
Proof.
  intros Hi Hl Hs. destruct (initialised_idle w Hi) as [HR _]. pose proof (mfeed_refines l w Idle HR Hl) as H.
  rewrite (mstream_run l out Hs) in H. destruct H as (w' & ev & Hf & HR' & Hd & _). by exists w', ev.
Qed.

(** C15: Soundness: whatever arrives, every message the parser delivers is a
    well-formed message of its protocol with a correct check, or a well-formed
    sentence with a wrong checksum for which the application's [badCrc] callback
    answered false.  Without a callback all delivered messages have correct
    checks.  No RTCM message is ever delivered. *)
Theorem mmp_delivered_valid w l w' ev :
  initialised w -> bytes l -> mfeed l w = Ok (tt, w', ev) ->
  Forall sound_output (mdelivered ev) /\ (mbad = None -> Forall valid_output (mdelivered ev)) /\
  outputs_of MMP_PROTOCOL_RTCM (mdelivered ev) = [].
Proof.
  intros Hi Hl Hf. destruct (initialised_idle w Hi) as [HR _]. pose proof (mfeed_refines l w Idle HR Hl) as H.
  destruct (mrun mB mC maccepts Idle l) as [[st out]|] eqn:E.
  - destruct H as (w1 & ev1 & Hf1 & _ & Hd & _). rewrite Hf in Hf1. injection Hf1 as <- <-. rewrite Hd.
    destruct (mrun_inv Idle l st out I Hl E) as [_ Hv]. split_and!; [done| |].
    + intros Hbad. eapply Forall_impl; [exact Hv|]. intros im [Him|Hpass]; [done|].
      pose proof maccepts_spec as Hacc. rewrite Hbad in Hacc. destruct Hpass. congruence.
    + unfold outputs_of, MMP_PROTOCOL_RTCM. clear -Hv. induction Hv as [|im out Him Hv IH]; [done|].
      rewrite filter_cons_False; [done|]. by destruct Him as [[]|[]].
  - by rewrite Hf in H.
Qed.

(** [mmpProcessBuffer] on a message followed by anything processes exactly the
    bytes of the message, delivers it and returns its length. *)
Theorem mmpProcessBuffer_message w i m rest :
  initialised w -> msent i m -> bytes m -> Z.of_nat (len m) < 65536 ->
  exists w' ev, mmpProcessBuffer (m ++ rest) w = Ok (Z.of_nat (len m), w', ev) /\ mdelivered ev = [(i, m)] /\ MR w' Idle.
Proof.
  intros Hi Hm Hb Hl. destruct (initialised_idle w Hi) as [HR _].
  destruct (whole_process m _ rest w (msent_delivered i m Hm) HR Hb Hl) as (w' & ev & Hp & HR' & Hd).
  by exists w', ev.
Qed.

(** The byte counter counts the bytes outside messages twice: after [n] of
    them it stands at [2 * n] modulo 2^32. *)
Theorem mmp_totalBytes_doubled w l :
  initialised w -> bytes l -> mnoise l ->
  exists w' ev, mfeed l w = Ok (tt, w', ev) /\ totalBytes (parse w') = u32 (2 * Z.of_nat (len l)).
Proof.
  intros Hi Hl Hn. destruct (initialised_idle w Hi) as [[Hw [Hst _]] _]. pose proof mB_range.
  destruct Hi as (buffer & name & pe & pd & Hi & _). unfold mmpInitParser in Hi.
  destruct (mB <? MMP_MINIMUM_BUFFER_LENGTH); [done|]. injection Hi as Hi.
  assert (totalBytes (parse w) = 0 /\ length (parse w) = 0) as [Ht Hlen] by (by rewrite <-Hi).
  destruct (noise_counted_all l w Hw Hl Hn Hst) as (w' & ev & Hf & Htot); [lia|by rewrite Ht|].
  exists w', ev. rewrite Htot, Ht. by rewrite Z.add_0_l.
Qed.

End multi.

(* ------------------------------------------------------------------ *)
(** ** Several parsers *)

(** Another parser of the same program: the static objects are the same. *)
Definition switch (p : MMP_PARSE_STATE) (w : world) : world := World p (scratchPad w) (lengthBytes w).

Module MultiSample.

#[global] Instance app : Application := fun _ _ => true.

Definition setup (C : Z) (H : 256 <= C) : MSetup.
Proof.
  refine {| mB := 256; mC := C; meom := 7; mbad := None; maccepts := fun _ => false |}; done || lia.
Defined.

Definition roomy : MSetup := setup 257 ltac:(lia).
Definition exact : MSetup := setup 256 ltac:(lia).

(** A parser with an array of [n] bytes, announced as 256. *)
Definition parser (n : nat) : MMP_PARSE_STATE :=
  mkParse mmp_parserTable mmp_parserNameTable 4 None (Some 7%nat) None None None fn_mmpFirstByte
    MMP_PROTOCOL_COUNT None 0 (replicate n 0) 0 256 (replicate 8 0) (replicate 8 0) 0.

Definition start (n : nat) : world := World (parser n) (replicate 20 0) 0.

Lemma start_initialised (n : nat) (C : Z) (H : 256 <= C) :
  Z.of_nat n = C -> @initialised app (setup C H) (start n).
Proof.
  intros Hn. exists (replicate n 0), None, None, None. split; [reflexivity|]. split_and!.
  - by apply Forall_replicate.
  - by rewrite length_replicate.
  - split; [cbn; unfold pad_size, port_pad; lia|by apply Forall_replicate].
  - done.
Qed.

(** A u-blox frame, the first bytes of a sentence, and a stream. *)
Definition poll : list Z := ublox_frame 0x0A 0x04 [1; 2].
Definition fix_sentence : list Z := nmea_sentence 0x24 [0x47; 0x47; 0x41] [0x31].
Definition semp : list Z := custom_frame [0x14; 1; 0; 0; 0; 0; 0; 0; 0] [0; 0; 1; 7; 0; 0] [].
Definition traffic : list Z := [1; 2; 3] ++ poll ++ ([] ++ fix_sentence ++ ([9] ++ semp ++ [])).

Lemma mmp_traffic_stream (C : Z) (H : 257 <= C) (H' : 256 <= C) :
  @mstream app (setup C H') traffic [(2, poll); (1, fix_sentence); (0, semp)].
Proof.
  assert (forall l, bytesb l = true -> bytes l) as Hb by apply bytesb_spec. unfold traffic.
  apply mstream_message; [by repeat constructor|by apply msent_ublox|].
  apply mstream_message; [constructor| |].
  { apply msent_nmea; [split_and!; [done|cbn; lia|by repeat constructor]|by repeat constructor|by apply Hb|done|cbn; lia]. }
  apply mstream_message; [by repeat constructor|by apply msent_semp|]. apply mstream_end. constructor.
Qed.

(** A body as long as the buffer allows. *)
Definition long_body : list Z := replicate 246 0x31.

End MultiSample.

(** The scratch area is a static object shared by all parsers: when a second
    parser receives the start of a sentence in the middle of the first parser's
    u-blox frame, the frame is lost; without the second parser it is delivered. *)
Theorem mmp_scratch_shared :
  exists l1 l2 other w1 e1 w2 e2 w3 e3 w4 e4,
    mfeed l1 (MultiSample.start 257) = Ok (tt, w1, e1) /\
    mfeed other (switch (MultiSample.parser 257) w1) = Ok (tt, w2, e2) /\
    mfeed l2 (switch (parse w1) w2) = Ok (tt, w3, e3) /\
    mdelivered (e1 ++ e3) = [] /\
    mfeed (l1 ++ l2) (MultiSample.start 257) = Ok (tt, w4, e4) /\ mdelivered e4 = [(2, l1 ++ l2)].
Proof.
  exists (take 6 MultiSample.poll), (drop 6 MultiSample.poll), [0x24; 0x47].
  eexists _, _, _, _, _, _, _, _. repeat (apply conj; [vm_compute; reflexivity|]). vm_compute. reflexivity.
Qed.

(** The counter of [mmpUbloxReadLength] is static as well and survives the
    initialisation of a parser: when a parser is initialised again after the first
    length byte of a frame, the next complete u-blox frame is not delivered. *)
Theorem mmp_lengthBytes_survives :
  exists l w1 e1 w2 e2,
    mfeed l (MultiSample.start 257) = Ok (tt, w1, e1) /\ lengthBytes w1 = 1 /\
    mfeed MultiSample.poll (switch (MultiSample.parser 257) w1) = Ok (tt, w2, e2) /\ mdelivered e2 = [].
Proof.
  exists (take 5 MultiSample.poll). eexists _, _, _, _. repeat (apply conj; [vm_compute; reflexivity|]). vm_compute. reflexivity.
Qed.

(* ------------------------------------------------------------------ *)
(** ** Statistics *)

(** The entry of a protocol, and whether it has anything to report. *)
Definition stats_of (x : string * Z * Z) : MMP_PROTOCOL_STATS :=
  Stats x.1.1 x.1.2 x.2 (successRate x.1.2 x.2).
Definition active (x : string * Z * Z) : Prop := 0 < x.1.2 \/ 0 < x.2.
#[global] Instance active_dec x : Decision (active x).
Proof. unfold active. apply _. Defined.

Lemma stats_loop_spec l count max :
  stats_loop l count max = take (Z.to_nat (max - count)) (stats_of <$> filter active l).
Proof.
  revert count. induction l as [|[[name m] e] l IH]; intros count; cbn [stats_loop].
  - by destruct (Z.to_nat (max - count)).
  - destruct (count <? max) eqn:E.
    2: { replace (Z.to_nat (max - count)) with 0%nat by lia. done. }
    destruct ((0 <? m) || (0 <? e)) eqn:Ea.
    + rewrite filter_cons_True by (unfold active; cbn; lia). cbn [fmap list_fmap]. rewrite IH.
      replace (Z.to_nat (max - count)) with (S (Z.to_nat (max - (count + 1)))) by lia. done.
    + rewrite filter_cons_False by (unfold active; cbn; lia). apply IH.
Qed.

(** [mmpGetProtocolStats] reports exactly the protocols with a processed
    message or a check error, in the order of their numbers and cut at the size
    of the caller's array, each with its name, its counters and its rate. *)
Theorem mmpGetProtocolStats_reports p max :
  mmpGetProtocolStats p max = take (Z.to_nat max) (stats_of <$> filter active (protocol_counters p)).
Proof. unfold mmpGetProtocolStats. rewrite stats_loop_spec. by rewrite Z.sub_0_r. Qed.

(* ------------------------------------------------------------------ *)
(** ** Examples *)

Section witnesses.
Import MultiSample.

Lemma mmp_refines_witness :
  exists st out w' ev,
    @mrun 256 257 (fun _ => false) Idle traffic = Some (st, out) /\
    @mfeed app traffic (start 257) = Ok (tt, w', ev) /\ mdelivered ev = out /\
    messagesProcessed (parse w') !! 2%nat = Some 1.
Proof.
  pose proof (@mmp_refines app roomy (start 257) traffic (start_initialised 257 257 _ eq_refl)
    (bytesb_spec traffic eq_refl)) as H.
  assert (@mrun 256 257 (fun _ => false) Idle traffic = Some (Idle, [(2, poll); (1, fix_sentence); (0, semp)])) as E
    by (vm_compute; reflexivity).
  change (@mrun (@mB app roomy) (@mC app roomy) (@maccepts app roomy) Idle traffic)
    with (@mrun 256 257 (fun _ => false) Idle traffic) in H.
  rewrite E in H. destruct H as (w' & ev & Hf & _ & Hd & Hc).
  exists Idle, [(2, poll); (1, fix_sentence); (0, semp)], w', ev.
  split; [exact E|]. split; [exact Hf|]. split; [exact Hd|]. apply (Hc 2%nat). lia.
Defined.

Lemma mmp_safe_witness :
  exists w' ev, @mfeed app [0x24; 0xB5; 0x62; 0xD3; 0xAA] (start 257) = Ok (tt, w', ev).
Proof.
  apply (@mmp_safe app roomy (start 257) [0x24; 0xB5; 0x62; 0xD3; 0xAA]);
    [by apply start_initialised|by apply bytesb_spec|cbn; lia].
Defined.

Lemma mmp_overflow_witness :
  @mfeed app (nmea_sentence 0x24 [0x47; 0x47; 0x41] long_body) (start 256) = Ub OutOfBounds.
Proof.
  apply (@mmp_overflow app exact (start 256) [0x47; 0x47; 0x41] long_body).
  - by apply start_initialised.
  - done.
  - split; [done|]. split; [cbn; lia|by repeat constructor].
  - apply Forall_replicate. done.
  - by apply bytesb_spec.
  - done.
Defined.

Lemma mmp_stream_delivered_witness :
  exists w' ev, @mfeed app traffic (start 257) = Ok (tt, w', ev) /\
    mdelivered ev = [(2, poll); (1, fix_sentence); (0, semp)] /\ @MR app roomy w' Idle.
Proof.
  apply (@mmp_stream_delivered app roomy (start 257) traffic [(2, poll); (1, fix_sentence); (0, semp)]).
  - by apply start_initialised.
  - by apply bytesb_spec.
  - apply mmp_traffic_stream. lia.
Defined.

Lemma mmp_delivered_valid_witness :
  exists w' ev, @mfeed app traffic (start 257) = Ok (tt, w', ev) /\ len (mdelivered ev) = 3%nat /\
    Forall (@sound_output app roomy) (mdelivered ev) /\ (None = None :> callback -> Forall valid_output (mdelivered ev)) /\
    outputs_of MMP_PROTOCOL_RTCM (mdelivered ev) = [].
Proof.
  destruct (@mfeed app traffic (start 257)) as [[[[] w'] ev]|] eqn:E; [|vm_compute in E; discriminate].
  exists w', ev. split; [reflexivity|]. split; [vm_compute in E; injection E as <- <-; reflexivity|].
  apply (@mmp_delivered_valid app roomy (start 257) traffic w' ev);
    [by apply start_initialised|by apply bytesb_spec|exact E].
Defined.

Lemma mmpProcessBuffer_message_witness :
  exists w' ev, @mmpProcessBuffer app (poll ++ [1; 2]) (start 257) = Ok (10, w', ev) /\ mdelivered ev = [(2, poll)] /\
    @MR app roomy w' Idle.
Proof.
  apply (@mmpProcessBuffer_message app roomy (start 257) 2 poll [1; 2]).
  - by apply start_initialised.
  - by apply msent_ublox.
  - by apply bytesb_spec.
  - done.
Defined.

Lemma mmp_totalBytes_doubled_witness :
  exists w' ev, @mfeed app [1; 2; 3] (start 257) = Ok (tt, w', ev) /\ totalBytes (parse w') = 6.
Proof.
  apply (@mmp_totalBytes_doubled app roomy (start 257) [1; 2; 3]);
    [by apply start_initialised|by apply bytesb_spec|by repeat constructor].
Defined.

End witnesses.
