(* ===== verification/LibParser.v ===== *)
(** * The C++ library: structure and framework

    [src/lib/SparkFun_Extensible_Message_Parser.h] and [.cpp]: the parse
    structure with its scratch area, the scan for a preamble byte, the start and
    stop of a parser, and the services every protocol parser calls.  The member
    [length] of the source is [msgLength] here. *)
From S2P Require Import Prelude.

(** ** Routines of the library *)

(** The entries of a parser table. *)
Inductive PREAMBLE_ROUTINE :=
| fn_sempNmeaPreamble
| fn_sempRtcmPreamble
| fn_sempUbloxPreamble
| fn_sempUnicoreBinaryPreamble
| fn_sempUnicoreHashPreamble
| fn_sempSpartnPreamble
| fn_sempSbfPreamble
| fn_sempBluetoothPreamble.

(** The values of the [state] member. *)
Inductive SEMP_PARSE_ROUTINE :=
| fn_sempFirstByte
| fn_sempNmeaFindFirstComma
| fn_sempNmeaFindAsterisk
| fn_sempNmeaChecksumByte1
| fn_sempNmeaChecksumByte2
| fn_sempNmeaLineTermination
| fn_sempNmeaCarriageReturn
| fn_sempNmeaLineFeed
| fn_sempRtcmReadLength1
| fn_sempRtcmReadLength2
| fn_sempRtcmReadMessage1
| fn_sempRtcmReadMessage2
| fn_sempRtcmReadData
| fn_sempRtcmReadCrc
| fn_sempUbloxSync2
| fn_sempUbloxClass
| fn_sempUbloxId
| fn_sempUbloxLength1
| fn_sempUbloxLength2
| fn_sempUbloxPayload
| fn_sempUbloxCkB
| fn_sempUnicoreBinaryBinarySync2
| fn_sempUnicoreBinaryBinarySync3
| fn_sempUnicoreBinaryReadHeader
| fn_sempUnicoreBinaryReadData
| fn_sempUnicoreBinaryReadCrc
| fn_sempUnicoreHashFindFirstComma
| fn_sempUnicoreHashFindAsterisk
| fn_sempUnicoreHashChecksumByte
| fn_sempUnicoreHashLineTermination
| fn_sempUnicoreHashCarriageReturn
| fn_sempUnicoreHashLineFeed
| fn_sempSpartnReadTF002TF006
| fn_sempSpartnReadTF007
| fn_sempSpartnReadTF009
| fn_sempSpartnReadTF016
| fn_sempSpartnReadTF017
| fn_sempSpartnReadTF018
| fn_sempSbfPreamble2
| fn_sempSbfCRC1
| fn_sempSbfCRC2
| fn_sempSbfID1
| fn_sempSbfID2
| fn_sempSbfLengthLSB
| fn_sempSbfLengthMSB
| fn_sempSbfReadBytes
| fn_sempBluetoothSync2
| fn_sempBluetoothSync3
| fn_sempBluetoothReadHeader
| fn_sempBluetoothReadData
| fn_sempBluetoothReadCrc.

(** The values of the [computeCrc] member. *)
Inductive SEMP_COMPUTE_CRC :=
| fn_sempRtcmComputeCrc24q
| fn_sempUnicoreBinaryComputeCrc
| fn_sempBluetoothComputeCrc.

#[global] Instance lib_preamble_eq_dec : EqDecision PREAMBLE_ROUTINE.
Proof. solve_decision. Defined.
#[global] Instance lib_routine_eq_dec : EqDecision SEMP_PARSE_ROUTINE.
Proof. solve_decision. Defined.

(* ------------------------------------------------------------------ *)
(** ** The scratch area

    The members of the protocols overlap; a member is its offset and size under
    the usual alignment rules.  Pointers have four or eight bytes. *)

Class Platform := wide : bool.
Definition ptr_bytes `{Platform} : nat := if wide then 8 else 4.

Definition SEMP_NMEA_SENTENCE_NAME_BYTES : nat := 16.
Definition SEMP_UNICORE_HASH_SENTENCE_NAME_BYTES : nat := 16.

Definition nmea_sentenceName : nat := 0.
Definition nmea_sentenceNameLength : member := Member 16 1.

Definition rtcm_crc : member := Member 0 4.
Definition rtcm_bytesRemaining : member := Member 4 2.
Definition rtcm_message : member := Member 6 2.

Definition ublox_bytesRemaining : member := Member 0 2.
Definition ublox_message : member := Member 2 2.
Definition ublox_ck_a : member := Member 4 1.
Definition ublox_ck_b : member := Member 5 1.

Definition unicoreBinary_crc : member := Member 0 4.
Definition unicoreBinary_bytesRemaining : member := Member 4 2.

Definition unicoreHash_bytesRemaining : member := Member 0 1.
Definition unicoreHash_checksumBytes : member := Member 1 1.
Definition unicoreHash_sentenceName : nat := 2.
Definition unicoreHash_sentenceNameLength : member := Member 18 1.

Definition spartn_frameCount : member := Member 0 2.
Definition spartn_crcBytes : member := Member 2 2.
Definition spartn_TF007toTF016 : member := Member 4 2.
Definition spartn_messageType : member := Member 6 1.
Definition spartn_payloadLength : member := Member 8 2.
Definition spartn_EAF : member := Member 10 2.
Definition spartn_crcType : member := Member 12 1.
Definition spartn_frameCRC : member := Member 13 1.
Definition spartn_messageSubtype : member := Member 14 1.
Definition spartn_timeTagType : member := Member 16 2.
Definition spartn_authenticationIndicator : member := Member 18 2.
Definition spartn_embeddedApplicationLengthBytes : member := Member 20 2.

Definition sbf_expectedCRC : member := Member 0 2.
Definition sbf_computedCRC : member := Member 2 2.
Definition sbf_sbfID : member := Member 4 2.
Definition sbf_sbfIDrev : member := Member 6 1.
Definition sbf_length : member := Member 8 2.
Definition sbf_bytesRemaining : member := Member 10 2.
Definition sbf_invalidDataCallback `{Platform} : member :=
  Member (if wide then 16 else 12) ptr_bytes.

Definition bluetooth_crc : member := Member 0 4.
Definition bluetooth_bytesRemaining : member := Member 4 2.

(** [sizeof(SEMP_SCRATCH_PAD)]: the 22 bytes of the SPARTN member, or the 24 of
    the SBF member with wide pointers, padded to the greatest alignment. *)
Definition sizeof_SEMP_SCRATCH_PAD : Z := 24.

(* ------------------------------------------------------------------ *)
(** ** The parse structure and the observable events *)

Record SEMP_PARSE_STATE := mkParse {
  parsers : list PREAMBLE_ROUTINE;
  parserNames : list string;
  state : SEMP_PARSE_ROUTINE;
  eomCallback : callback;
  badCrc : callback;
  computeCrc : option SEMP_COMPUTE_CRC;
  parserName : string;
  scratchPad : list Z;
  printError : callback;
  printDebug : callback;
  crc : Z;
  buffer : list Z;
  bufferLength : Z;
  parserCount : Z;
  msgLength : Z;
  type : Z
}.

(** [EvLine f format args]: [f] writes [args] formatted by [format], with CR LF;
    [EvPrintln f s]: [f] prints the line [s]. *)
Inductive Event :=
| EvEom (f : nat) (parse : SEMP_PARSE_STATE) (type : Z)
| EvBadCrc (f : nat) (parse : SEMP_PARSE_STATE)
| EvInvalid (f : nat) (parse : SEMP_PARSE_STATE)
| EvLine (f : nat) (format : string) (args : list arg)
| EvPrintln (f : nat) (s : string).

(** The application: the answers of its [badCrc] callbacks, and which of its
    routines is at an address, if any.  Callbacks read the structure. *)
Class Application := {
  badCrc_fn : nat -> SEMP_PARSE_STATE -> bool;
  routine_at : Z -> option nat
}.

Abbreviation P := (M SEMP_PARSE_STATE Event).

(** ** Member updates *)

Definition with_state v p := mkParse (parsers p) (parserNames p) v (eomCallback p) (badCrc p)
  (computeCrc p) (parserName p) (scratchPad p) (printError p) (printDebug p) (crc p) (buffer p)
  (bufferLength p) (parserCount p) (msgLength p) (type p).
Definition with_computeCrc v p := mkParse (parsers p) (parserNames p) (state p) (eomCallback p)
  (badCrc p) v (parserName p) (scratchPad p) (printError p) (printDebug p) (crc p) (buffer p)
  (bufferLength p) (parserCount p) (msgLength p) (type p).
Definition with_scratchPad v p := mkParse (parsers p) (parserNames p) (state p) (eomCallback p)
  (badCrc p) (computeCrc p) (parserName p) v (printError p) (printDebug p) (crc p) (buffer p)
  (bufferLength p) (parserCount p) (msgLength p) (type p).
Definition with_printError v p := mkParse (parsers p) (parserNames p) (state p) (eomCallback p)
  (badCrc p) (computeCrc p) (parserName p) (scratchPad p) v (printDebug p) (crc p) (buffer p)
  (bufferLength p) (parserCount p) (msgLength p) (type p).
Definition with_printDebug v p := mkParse (parsers p) (parserNames p) (state p) (eomCallback p)
  (badCrc p) (computeCrc p) (parserName p) (scratchPad p) (printError p) v (crc p) (buffer p)
  (bufferLength p) (parserCount p) (msgLength p) (type p).
Definition with_crc v p := mkParse (parsers p) (parserNames p) (state p) (eomCallback p)
  (badCrc p) (computeCrc p) (parserName p) (scratchPad p) (printError p) (printDebug p) v (buffer p)
  (bufferLength p) (parserCount p) (msgLength p) (type p).
Definition with_buffer v p := mkParse (parsers p) (parserNames p) (state p) (eomCallback p)
  (badCrc p) (computeCrc p) (parserName p) (scratchPad p) (printError p) (printDebug p) (crc p) v
  (bufferLength p) (parserCount p) (msgLength p) (type p).
Definition with_msgLength v p := mkParse (parsers p) (parserNames p) (state p) (eomCallback p)
  (badCrc p) (computeCrc p) (parserName p) (scratchPad p) (printError p) (printDebug p) (crc p)
  (buffer p) (bufferLength p) (parserCount p) v (type p).
Definition with_type v p := mkParse (parsers p) (parserNames p) (state p) (eomCallback p)
  (badCrc p) (computeCrc p) (parserName p) (scratchPad p) (printError p) (printDebug p) (crc p)
  (buffer p) (bufferLength p) (parserCount p) (msgLength p) v.

(** ** Accesses through the structure *)

(** [parse->buffer[i]], [parse->buffer[i] = v] and
    [parse->buffer[parse->length++] = v] *)
Definition buffer_at (i : Z) : P Z := p <- gets id;; lift (load (buffer p) i).

Definition buffer_set (i v : Z) : P unit :=
  p <- gets id;; b <- lift (store (buffer p) i v);; modify (with_buffer b).

Definition buffer_push (v : Z) : P unit :=
  n <- gets msgLength;; modify (with_msgLength (u16 (n + 1)));; buffer_set n v.

(** [header->member], where [header] is the buffer seen as a structure *)
Definition header_get (f : member) : P Z :=
  p <- gets id;;
  if (offset f + size f <=? length (buffer p))%nat then ret (get f (buffer p))
  else undefined OutOfBounds.

(** [scratchPad->member] and [scratchPad->member = v] *)
Definition pad_get (f : member) : P Z := gets (fun p => get f (scratchPad p)).

Definition pad_set (f : member) (v : Z) : P unit :=
  modify (fun p => with_scratchPad (put f v (scratchPad p)) p).

(** [array[i] = v] for the [n]-byte array at offset [o] of the scratch area *)
Definition pad_array_set (o n : nat) (i v : Z) : P unit :=
  if (0 <=? i) && (i <? Z.of_nat n)
  then pad_set (Member (o + Z.to_nat i) 1) v
  else undefined OutOfBounds.

Definition pad_array (o n : nat) (p : SEMP_PARSE_STATE) : list Z :=
  take n (drop o (scratchPad p)).

(** [parse->eomCallback(parse, parse->type)] *)
Definition call_eomCallback : P unit :=
  p <- gets id;;
  match eomCallback p with
  | None => undefined NullCall
  | Some f => emit (EvEom f p (type p))
  end.

(** [parse->badCrc && (!parse->badCrc(parse))] *)
Definition badCrc_overrides `{Application} : P bool :=
  p <- gets id;;
  match badCrc p with
  | None => ret false
  | Some f => emit (EvBadCrc f p);; ret (negb (badCrc_fn f p))
  end.
