(* ===== verification/LibFramework.v ===== *)
(** * The C++ library: framework

    The routines of [src/lib/SparkFun_Extensible_Message_Parser.cpp]: output, the
    conversion of a hexadecimal digit, the names of parsers and states, the scan
    [sempFirstByte], and the start and stop of a parser.  The preamble routines
    the scan calls through the parser table are the interface [ParserTable]. *)
From S2P Require Import Prelude BeginParser LibParser.

(** [sempPrintf(print, format, ...)] *)
Definition sempPrintf {S} (print : callback) (format : string) (args : list arg) : M S Event unit :=
  match print with
  | None => ret tt
  | Some f => if forallb printable args then emit (EvLine f format args)
              else undefined OutOfBounds
  end.

(** [sempPrintln(print, string)] *)
Definition sempPrintln {S} (print : callback) (s : string) : M S Event unit :=
  match print with None => ret tt | Some f => emit (EvPrintln f s) end.

Definition sempAsciiToNibble (data : Z) : Z :=
  let data := Z.lor data 0x20 in
  if (0x61 <=? data) && (data <=? 0x66) then data - 0x61 + 10
  else if (0x30 <=? data) && (data <=? 0x39) then data - 0x30
  else -1.

(* ------------------------------------------------------------------ *)
(** ** The scan *)

Class ParserTable := call_preamble : PREAMBLE_ROUTINE -> Z -> P bool.

Section core.
  Context `{PT : ParserTable}.

(** The loop of [sempFirstByte] over the parser table: entries [index] to
    [index + n - 1]. *)
Fixpoint walk_parsers (n : nat) (index data : Z) : P bool :=
  match n with
  | O => modify (with_state fn_sempFirstByte);; ret false
  | S n =>
      table <- gets parsers;;
      match table !! Z.to_nat index with
      | None => undefined OutOfBounds
      | Some parseRoutine =>
          found <- call_preamble parseRoutine data;;
          if (found : bool) then modify (with_type (u16 index));; ret true
          else walk_parsers n (index + 1) data
      end
  end.

(** [sempFirstByte(parse, data)] for a parse structure that is not null *)
Definition sempFirstByte (data : Z) : P bool :=
  modify (with_crc 0);;
  modify (with_computeCrc None);;
  modify (with_msgLength 0);;
  count <- gets parserCount;;
  modify (with_type count);;
  buffer_push data;;
  walk_parsers (Z.to_nat count) 0 data.

End core.

(* ------------------------------------------------------------------ *)
(** ** Names; [None] is the null parse structure *)

Definition sempGetTypeName (parse : option SEMP_PARSE_STATE) (type : Z) : res string :=
  match parse with
  | None => Ok "Unknown parser"
  | Some p =>
      if type =? parserCount p then Ok "No active parser, scanning for preamble"
      else if type <? parserCount p then
        match parserNames p !! Z.to_nat type with
        | Some name => Ok name
        | None => Ub OutOfBounds
        end
      else Ok "Unknown parser"
  end.

Definition sempGetStateName (parse : option SEMP_PARSE_STATE) : string :=
  match parse with
  | Some p => if decide (state p = fn_sempFirstByte) then "sempFirstByte" else "Unknown state"
  | None => "Unknown state"
  end.

(* ------------------------------------------------------------------ *)
(** ** Start and stop *)

Definition SEMP_MINIMUM_BUFFER_LENGTH : Z := 32.
Definition SEMP_ALIGNMENT_MASK : Z := 7.
Definition SEMP_ALIGN (x : Z) : Z := Z.land (x + SEMP_ALIGNMENT_MASK) (Z.lnot SEMP_ALIGNMENT_MASK).

(** Code that works without a parse structure. *)
Abbreviation IO := (M unit Event).

Section begin_parser.
  Context `{Alloc : Allocator} `{Plat : Platform}.

(** [sizeof(SEMP_PARSE_STATE)] *)
Definition sizeof_SEMP_PARSE_STATE : Z :=
  let ptr := Z.of_nat ptr_bytes in
  sizeof_struct 0 1 [ptr; ptr; ptr; ptr; ptr; ptr; ptr; ptr; ptr; ptr; 4; ptr; 4; 2; 2; 2].

(** [size_t] has the width of a pointer. *)
Definition usize (x : Z) : Z := x mod 256 ^ Z.of_nat ptr_bytes.

(** [sempAllocateParseStructure(printDebug, scratchPadBytes, bufferLength)] *)
Definition sempAllocateParseStructure (printDebug : callback) (scratchPadBytes bufferLength : Z)
    : IO (option allocated) :=
  sempPrintf printDebug "scratchPadBytes: 0x%04x (%d) bytes"
    [AInt scratchPadBytes; AInt scratchPadBytes];;
  scratchPadBytes <-
    (if scratchPadBytes <? SEMP_ALIGN scratchPadBytes then
       let scratchPadBytes := u16 (SEMP_ALIGN scratchPadBytes) in
       sempPrintf printDebug "scratchPadBytes: 0x%04x (%d) bytes after alignment"
         [AInt scratchPadBytes; AInt scratchPadBytes];;
       ret scratchPadBytes
     else ret scratchPadBytes);;
  let length := SEMP_ALIGN sizeof_SEMP_SCRATCH_PAD in
  scratchPadBytes <-
    (if scratchPadBytes <? length then
       let scratchPadBytes := u16 length in
       sempPrintf printDebug "scratchPadBytes: 0x%04x (%d) bytes after mimimum size adjustment"
         [AInt scratchPadBytes; AInt scratchPadBytes];;
       ret scratchPadBytes
     else ret scratchPadBytes);;
  let parseBytes := SEMP_ALIGN sizeof_SEMP_PARSE_STATE in
  sempPrintf printDebug "parseBytes: 0x%04x (%d)" [AInt parseBytes; AInt parseBytes];;
  bufferLength <-
    (if bufferLength <? SEMP_MINIMUM_BUFFER_LENGTH then
       sempPrintf printDebug
         "SEMP: Increasing bufferLength from %ld to %d bytes, minimum size adjustment"
         [AInt bufferLength; AInt SEMP_MINIMUM_BUFFER_LENGTH];;
       ret SEMP_MINIMUM_BUFFER_LENGTH
     else ret bufferLength);;
  let length := parseBytes + scratchPadBytes in
  let parse := malloc (usize (length + bufferLength)) in
  sempPrintf printDebug "parse: %p" [AOpaque];;
  match parse with
  | None => ret None
  | Some block =>
      (* the first [length] bytes are set to zero, the buffer keeps its contents *)
      if Z.of_nat (List.length block) <? length then undefined OutOfBounds
      else
        sempPrintf printDebug "parse->scratchPad: %p" [AOpaque];;
        sempPrintf printDebug "parse->buffer: %p" [AOpaque];;
        ret (Some (Allocated printDebug (replicate (Z.to_nat scratchPadBytes) 0)
                     (drop (Z.to_nat length) block) (u32 bufferLength)))
  end.

(** [sempPrintParserConfiguration(parse, print)] *)
Definition sempPrintParserConfiguration (parse : option SEMP_PARSE_STATE) (print : callback) : IO unit :=
  match print, parse with
  | Some _, Some p =>
      sempPrintln print "SparkFun Extensible Message Parser";;
      sempPrintf print "    Name: %p (%s)" [AOpaque; AStr (parserName p)];;
      sempPrintf print "    parsers: %p" [AOpaque];;
      sempPrintf print "    parserNames: %p" [AOpaque];;
      sempPrintf print "    parserCount: %d" [AInt (parserCount p)];;
      sempPrintf print "    printError: %p" [APtr (printError p)];;
      sempPrintf print "    printDebug: %p" [APtr (printDebug p)];;
      sempPrintf print "    Scratch Pad: %p (%ld bytes)"
        [AOpaque; AInt (Z.of_nat (length (scratchPad p)))];;
      sempPrintf print "    computeCrc: %p" [AOpaque];;
      sempPrintf print "    crc: 0x%08x" [AInt (crc p)];;
      sempPrintf print "    State: %p%s"
        [AOpaque; AStr (if decide (state p = fn_sempFirstByte) then " (sempFirstByte)" else "")];;
      sempPrintf print "    EomCallback: %p" [APtr (eomCallback p)];;
      sempPrintf print "    Buffer: %p (%d bytes)" [AOpaque; AInt (bufferLength p)];;
      sempPrintf print "    length: %d message bytes" [AInt (msgLength p)];;
      name <- lift (sempGetTypeName (Some p) (type p));;
      sempPrintf print "    type: %d (%s)" [AInt (type p); AStr name]
  | _, _ => ret tt
  end.

(** [sempBeginParser(...)]; null pointers are [None]. *)
Definition sempBeginParser (parserTable : option (list PREAMBLE_ROUTINE)) (parserCount : Z)
    (parserNameTable : option (list string)) (parserNameCount : Z)
    (scratchPadBytes bufferLength : Z) (eomCallback : callback) (parserName : option string)
    (printError printDebug badCrc : callback) : IO (option SEMP_PARSE_STATE) :=
  if negb (parserCount =? parserNameCount) then
    sempPrintln printError
      "SEMP: Please fix parserTable and parserNameTable parserCount != parserNameCount";; ret None
  else
  match parserTable with
  | None => sempPrintln printError "SEMP: Please specify a parserTable data structure";; ret None
  | Some parserTable =>
  match parserNameTable with
  | None => sempPrintln printError "SEMP: Please specify a parserNameTable data structure";; ret None
  | Some parserNameTable =>
  match eomCallback with
  | None => sempPrintln printError "SEMP: Please specify an eomCallback routine";; ret None
  | Some _ =>
  match parserName with
  | None | Some EmptyString =>
      sempPrintln printError "SEMP: Please provide a name for the parser";; ret None
  | Some parserName =>
  if parserCount =? 0 then
    sempPrintln printError "SEMP: Please provide at least one parser in parserTable";; ret None
  else
    parse <- sempAllocateParseStructure printDebug scratchPadBytes bufferLength;;
    match parse with
    | None => sempPrintln printError "SEMP: Failed to allocate the parse structure";; ret None
    | Some a =>
        let parse := mkParse parserTable parserNameTable fn_sempFirstByte eomCallback badCrc None
          parserName (alloc_scratchPad a) printError (alloc_printDebug a) 0 (alloc_buffer a)
          (alloc_buffer_length a) parserCount 0 0 in
        sempPrintParserConfiguration (Some parse) (alloc_printDebug a);;
        ret (Some parse)
    end
  end end end end.

End begin_parser.

(** [sempStopParser(&parse)]: the pointer after the call, and whether the
    structure is released.  [None] is a null address of the pointer. *)
Definition sempStopParser (parse : option (option SEMP_PARSE_STATE))
    : option (option SEMP_PARSE_STATE) * bool :=
  match parse with
  | Some (Some _) => (Some None, true)
  | _ => (parse, false)
  end.

Definition sempEnableDebugOutput (parse : option SEMP_PARSE_STATE) (print : callback) :=
  option_map (with_printDebug print) parse.
Definition sempDisableDebugOutput (parse : option SEMP_PARSE_STATE) :=
  option_map (with_printDebug None) parse.
Definition sempEnableErrorOutput (parse : option SEMP_PARSE_STATE) (print : callback) :=
  option_map (with_printError print) parse.
Definition sempDisableErrorOutput (parse : option SEMP_PARSE_STATE) :=
  option_map (with_printError None) parse.
