(* ===== verification/ShiftRegister.v ===== *)
(** * Shift registers

    The arithmetic of cyclic redundancy checks that take the most significant
    bit first, for a register of any width from 8 to 32 bits: the bit-serial
    reference, the byte-at-a-time lookup and their agreement, and the bursts of
    errors a register detects. *)
From S2P Require Import Prelude.

(** The bits of a byte and of a message, most significant bit first. *)
Definition byte_bits (b : Z) : list bool := Z.testbit b <$> [7; 6; 5; 4; 3; 2; 1; 0].
Definition bits (l : list Z) : list bool := l ≫= byte_bits.

(** The number a bit string spells. *)
Fixpoint bits_value (l : list bool) : Z :=
  match l with [] => 0 | b :: l => Z.b2z b * 2 ^ Z.of_nat (length l) + bits_value l end.

Lemma bits_value_range l : 0 <= bits_value l < 2 ^ Z.of_nat (length l).
Proof.
  induction l as [|b l IH]; cbn [bits_value length]; [cbn; lia|].
  rewrite Nat2Z.inj_succ, Z.pow_succ_r by lia. destruct b; cbn [Z.b2z]; lia.
Qed.

Lemma bits_value_inj l k : length l = length k -> bits_value l = bits_value k -> l = k.
Proof.
  revert k. induction l as [|b l IH]; intros [|c k] Hl H; try done.
  injection Hl as Hl. cbn [bits_value] in H. rewrite <-Hl in H.
  pose proof (bits_value_range l). pose proof (bits_value_range k) as Hk. rewrite <-Hl in Hk.
  destruct b, c; cbn [Z.b2z] in H; try lia; f_equal; apply IH; (done || lia).
Qed.

Lemma byte_bits_value b : is_u8 b -> bits_value (byte_bits b) = b.
Proof.
  assert (forallb (fun k => bits_value (byte_bits (Z.of_nat k)) =? Z.of_nat k) (seq 0 256) = true)
    as H by by vm_compute.
  rewrite forallb_forall in H. intros Hb. unfold is_u8 in Hb.
  specialize (H (Z.to_nat b)). rewrite Z2Nat.id, Z.eqb_eq in H by lia. apply H, in_seq. lia.
Qed.

Lemma bits_cons b l : bits (b :: l) = byte_bits b ++ bits l.
Proof. done. Qed.

Section register.
  Context (W : Z) (G : Z).

Definition in_register (x : Z) : Prop := 0 <= x < 2 ^ W.

(** The reference: one bit of the message enters at the top of the register. *)
Definition register_push (c : Z) (bit : bool) : Z :=
  let c' := if xorb (Z.testbit c (W - 1)) bit then Z.lxor (Z.shiftl c 1) G else Z.shiftl c 1 in
  Z.land c' (Z.ones W).

Definition register_ref (c : Z) (l : list Z) : Z := foldl register_push c (bits l).

(** One step of the register on its own. *)
Definition register_step (c : Z) : Z :=
  if Z.testbit c (W - 1) then Z.lxor (Z.shiftl c 1) G else Z.shiftl c 1.

Definition register_byte (c : Z) : Z := Nat.iter 8 register_step c.

(** The lookup of the sources, on [W] bits. *)
Definition register_lookup (table : list Z) (c d : Z) : res Z :=
  res_bind (load table (Z.lxor d (Z.shiftr c (W - 8)))) (fun v =>
  Ok ((Z.lxor v (Z.shiftl c 8)) mod 2 ^ W)).

Definition table_correct (table : list Z) : bool :=
  (length table =? 256)%nat &&
  forallb (fun k => nth k table 0 =? register_byte (Z.shiftl (Z.of_nat k) (W - 8))) (seq 0 256).
End register.

(** ** Widths *)

Section width_lemmas.
  Context (W : Z) (HW : 8 <= W <= 32).

Lemma pow_split : 2 ^ W = 2 * 2 ^ (W - 1).
Proof. rewrite <-Z.pow_succ_r by lia. f_equal. lia. Qed.

Lemma pow_high : 2 ^ W = 2 ^ (W - 8) * 256.
Proof. change 256 with (2 ^ 8). rewrite <-Z.pow_add_r by lia. f_equal. lia. Qed.

Lemma testbit_top x : in_register W x -> Z.testbit x (W - 1) = (2 ^ (W - 1) <=? x).
Proof.
  intros Hx. unfold in_register in Hx. pose proof pow_split.
  assert (0 < 2 ^ (W - 1)) by (apply Z.pow_pos_nonneg; lia).
  rewrite Z.testbit_odd, Z.shiftr_div_pow2 by lia. destruct (2 ^ (W - 1) <=? x) eqn:E.
  - replace (x / 2 ^ (W - 1)) with 1; [done|]. apply (Z.div_unique_pos _ _ 1 (x - 2 ^ (W - 1))); lia.
  - by rewrite Z.div_small by lia.
Qed.

Lemma in_register_lxor x y : in_register W x -> in_register W y -> in_register W (Z.lxor x y).
Proof. intros. apply lxor_range; [lia|done..]. Qed.

(** A register is its top byte and the bits below. *)
Lemma register_split c :
  in_register W c ->
  is_u8 (Z.shiftr c (W - 8)) /\
  c = Z.lxor (c mod 2 ^ (W - 8)) (Z.shiftl (Z.shiftr c (W - 8)) (W - 8)).
Proof.
  intros Hc. assert (0 < 2 ^ (W - 8)) by (apply Z.pow_pos_nonneg; lia).
  unfold in_register in Hc. rewrite pow_high in Hc. split.
  - unfold is_u8. rewrite Z.shiftr_div_pow2 by lia.
    split; [apply Z.div_pos; lia|]. apply Z.div_lt_upper_bound; lia.
  - apply Z.bits_inj'. intros k Hk. rewrite Z.lxor_spec, <-Z.land_ones, Z.land_spec by lia.
    destruct (decide (k < W - 8)).
    + rewrite Z.ones_spec_low, Z.shiftl_spec_low by lia. by rewrite andb_true_r, xorb_false_r.
    + rewrite Z.ones_spec_high, Z.shiftl_spec, Z.shiftr_spec by lia.
      rewrite andb_false_r, xorb_false_l. f_equal. lia.
Qed.

Lemma mod_shifted v c :
  in_register W v -> (Z.lxor v (Z.shiftl c 8)) mod 2 ^ W = Z.lxor v (Z.shiftl (c mod 2 ^ (W - 8)) 8).
Proof.
  intros Hv. assert (0 < 2 ^ (W - 8)) by (apply Z.pow_pos_nonneg; lia).
  assert (Z.shiftl (c mod 2 ^ (W - 8)) 8 = (Z.shiftl c 8) mod 2 ^ W) as ->.
  { rewrite !Z.shiftl_mul_pow2, pow_high by lia. change (2 ^ 8) with 256.
    by rewrite Z.mul_mod_distr_r by lia. }
  rewrite <-(Z.mod_small v (2 ^ W)) at 2 by done. rewrite <-!Z.land_ones by lia.
  apply Z.bits_inj'. intros k Hk. rewrite Z.lxor_spec, !Z.land_spec, Z.lxor_spec.
  by destruct (Z.testbit (Z.ones W) k); rewrite ?andb_true_r, ?andb_false_r.
Qed.
End width_lemmas.

(** ** The register *)

Section register_lemmas.
  Context (W : Z) (G : Z).
  Context (HW : 8 <= W <= 32) (HG : 2 ^ W <= G < 2 ^ (W + 1)) (Hodd : Z.odd G = true).
  #[local] Abbreviation step := (register_step W G).
  #[local] Abbreviation push := (register_push W G).

Lemma step_lxor x y : step (Z.lxor x y) = Z.lxor (step x) (step y).
Proof.
  unfold register_step. rewrite Z.shiftl_lxor, Z.lxor_spec.
  destruct (Z.testbit x (W - 1)), (Z.testbit y (W - 1)); cbn [xorb];
    apply Z.bits_inj'; intros i Hi; rewrite !Z.lxor_spec;
    repeat match goal with |- context [Z.testbit ?z i] => destruct (Z.testbit z i) end; done.
Qed.

Lemma iter_step_lxor n x y :
  Nat.iter n step (Z.lxor x y) = Z.lxor (Nat.iter n step x) (Nat.iter n step y).
Proof. induction n as [|n IH]; [done|]. by rewrite !Nat.iter_succ, IH, step_lxor. Qed.

Lemma generator_split : G = Z.lxor (G - 2 ^ W) (Z.shiftl 1 W) /\ in_register W (G - 2 ^ W).
Proof.
  rewrite Z.pow_add_r in HG by lia. unfold in_register. split; [|lia].
  rewrite lxor_shiftl_add by lia. lia.
Qed.

Lemma step_range x : in_register W x -> in_register W (step x).
Proof.
  intros Hx. unfold register_step. rewrite (testbit_top W HW) by done. pose proof (pow_split W HW).
  destruct generator_split as [HGs HGr]. unfold in_register in *.
  rewrite Z.shiftl_mul_pow2 by lia. change (2 ^ 1) with 2.
  destruct (2 ^ (W - 1) <=? x) eqn:E; [|lia].
  replace (x * 2) with (Z.lxor (x * 2 - 2 ^ W) (Z.shiftl 1 W)) by (rewrite lxor_shiftl_add; lia).
  rewrite HGs, (Z.lxor_comm (G - _)), Z.lxor_assoc, <-(Z.lxor_assoc (Z.shiftl 1 W)).
  rewrite Z.lxor_nilpotent, Z.lxor_0_l. apply lxor_range; lia.
Qed.

Lemma iter_step_range n x : in_register W x -> in_register W (Nat.iter n step x).
Proof. intros H. induction n; [done|]. rewrite Nat.iter_succ. by apply step_range. Qed.

Lemma step_zero x : in_register W x -> step x = 0 -> x = 0.
Proof.
  intros Hx. unfold register_step. rewrite Z.shiftl_mul_pow2 by lia. change (2 ^ 1) with 2.
  destruct (Z.testbit x (W - 1)); [|lia].
  intros H. apply Z.lxor_eq in H. rewrite <-H, Z.mul_comm, Z.odd_even in Hodd. done.
Qed.

Lemma iter_step_zero n x : in_register W x -> Nat.iter n step x = 0 -> x = 0.
Proof.
  revert x. induction n as [|n IH]; intros x Hx H; [done|].
  rewrite Nat.iter_succ_r in H. apply step_zero; [done|]. apply IH; [by apply step_range|done].
Qed.

Lemma iter_step_inj n x y :
  in_register W x -> in_register W y -> Nat.iter n step x = Nat.iter n step y -> x = y.
Proof.
  intros Hx Hy H. apply Z.lxor_eq, (iter_step_zero n); [by apply (in_register_lxor W HW)|].
  by rewrite iter_step_lxor, H, Z.lxor_nilpotent.
Qed.

(** A register with its upper [n] bits clear is shifted without feedback. *)
Lemma iter_step_shiftl n x :
  Z.of_nat n <= W -> 0 <= x < 2 ^ (W - Z.of_nat n) -> Nat.iter n step x = Z.shiftl x (Z.of_nat n).
Proof.
  revert x. induction n as [|n IH]; intros x Hn Hx; [by rewrite Z.shiftl_0_r|].
  assert (2 * 2 ^ (W - Z.of_nat (S n)) = 2 ^ (W - Z.of_nat n)) as Hp.
  { rewrite <-Z.pow_succ_r by lia. f_equal. lia. }
  assert (2 ^ (W - Z.of_nat (S n)) <= 2 ^ (W - 1)) by (apply Z.pow_le_mono_r; lia).
  pose proof (pow_split W HW). rewrite Nat.iter_succ_r. assert (step x = Z.shiftl x 1) as ->.
  { unfold register_step. rewrite (testbit_top W HW) by (unfold in_register; lia).
    by destruct (2 ^ (W - 1) <=? x) eqn:E; [lia|]. }
  rewrite IH by (rewrite ?Z.shiftl_mul_pow2; lia).
  rewrite Z.shiftl_shiftl by lia. f_equal. lia.
Qed.

(** A bit that enters is the top bit of the register flipped before a step. *)
Lemma push_step c bit :
  in_register W c -> push c bit = step (Z.lxor c (Z.shiftl (Z.b2z bit) (W - 1))).
Proof.
  intros Hc. pose proof (pow_split W HW). assert (0 < 2 ^ (W - 1)) by (apply Z.pow_pos_nonneg; lia).
  assert (in_register W (Z.lxor c (Z.shiftl (Z.b2z bit) (W - 1)))) as Hr.
  { apply (in_register_lxor W HW); [done|]. unfold in_register. rewrite Z.shiftl_mul_pow2 by lia.
    destruct bit; cbn [Z.b2z]; lia. }
  pose proof (step_range _ Hr) as Hs. unfold in_register in Hs.
  rewrite <-(Z.mod_small (step _) (2 ^ W)), <-Z.land_ones by lia.
  unfold register_push, register_step. rewrite Z.lxor_spec, Z.shiftl_spec, Z.sub_diag by lia.
  rewrite Z.b2z_bit0, Z.shiftl_lxor, Z.shiftl_shiftl by lia.
  replace (W - 1 + 1) with W by lia.
  apply Z.bits_inj'. intros i Hi. rewrite !Z.land_spec.
  destruct (decide (i < W)); [|rewrite Z.ones_spec_high by lia; by rewrite !andb_false_r].
  assert (Z.testbit (Z.shiftl (Z.b2z bit) W) i = false) as E by (by apply Z.shiftl_spec_low).
  f_equal. destruct (xorb _ _); rewrite !Z.lxor_spec, E; by rewrite ?xorb_false_r.
Qed.

Lemma push_range c bit : in_register W c -> in_register W (push c bit).
Proof.
  intros _. unfold register_push. rewrite Z.land_ones by lia. unfold in_register.
  apply Z.mod_pos_bound. apply Z.pow_pos_nonneg; lia.
Qed.

Lemma pushes_range l c : in_register W c -> in_register W (foldl push c l).
Proof. revert c. induction l as [|b l IH]; intros c Hc; [done|]. by apply IH, push_range. Qed.

(** Up to [W] bits enter together. *)
Lemma pushes_steps l c :
  in_register W c -> Z.of_nat (length l) <= W ->
  foldl push c l =
    Nat.iter (length l) step (Z.lxor c (Z.shiftl (bits_value l) (W - Z.of_nat (length l)))).
Proof.
  revert c. induction l as [|b l IH]; intros c Hc Hl.
  { by rewrite Z.shiftl_0_l, Z.lxor_0_r. }
  cbn [foldl bits_value length] in *. pose proof (bits_value_range l) as Hv.
  rewrite IH by (lia || by apply push_range). rewrite push_step by done.
  set (n := length l) in *. rewrite Nat.iter_succ_r. f_equal.
  assert (Z.shiftl (bits_value l) (W - Z.of_nat n) = step (Z.shiftl (bits_value l) (W - Z.of_nat (S n)))) as ->.
  { pose proof (iter_step_shiftl 1 (Z.shiftl (bits_value l) (W - Z.of_nat (S n)))) as Hs.
    cbn [Nat.iter nat_rect] in Hs. rewrite Hs; [rewrite Z.shiftl_shiftl by lia; f_equal; lia|lia|].
    rewrite Z.shiftl_mul_pow2 by lia.
    replace (2 ^ (W - Z.of_nat 1)) with (2 ^ Z.of_nat n * 2 ^ (W - Z.of_nat (S n)))
      by (rewrite <-Z.pow_add_r by lia; f_equal; lia).
    assert (0 < 2 ^ (W - Z.of_nat (S n))) by (apply Z.pow_pos_nonneg; lia). nia. }
  rewrite <-step_lxor, Z.lxor_assoc. do 2 f_equal.
  replace (W - 1) with (Z.of_nat n + (W - Z.of_nat (S n))) by lia.
  rewrite <-(Z.shiftl_shiftl (Z.b2z b)), <-Z.shiftl_lxor by lia. f_equal.
  destruct n as [|m] eqn:En.
  - cbn in Hv. assert (bits_value l = 0) as -> by lia. rewrite Z.lxor_0_r, Z.shiftl_0_r. cbn. lia.
  - rewrite Z.lxor_comm, lxor_shiftl_add by lia. lia.
Qed.

Lemma table_load table i :
  table_correct W G table = true -> is_u8 i ->
  load table i = Ok (register_byte W G (Z.shiftl i (W - 8))).
Proof.
  intros Ht Hi. unfold table_correct in Ht. apply andb_true_iff in Ht as [Hlen Ht].
  apply Nat.eqb_eq in Hlen. rewrite forallb_forall in Ht. unfold is_u8 in Hi.
  specialize (Ht (Z.to_nat i) ltac:(apply in_seq; lia)). rewrite Z2Nat.id, Z.eqb_eq in Ht by lia.
  rewrite <-Ht, <-(Z2Nat.id i) at 1 by lia. apply load_ok.
  rewrite nth_lookup. destruct (lookup_lt_is_Some_2 table (Z.to_nat i)) as [v Hv]; [lia|]. by rewrite Hv.
Qed.

(** One lookup is the eight bits of the byte. *)
Lemma register_lookup_pushes table c d :
  table_correct W G table = true -> in_register W c -> is_u8 d ->
  register_lookup W table c d = Ok (foldl push c (byte_bits d)).
Proof.
  intros Ht Hc Hd. destruct (register_split W HW c Hc) as [Hh Hsplit].
  set (h := Z.shiftr c (W - 8)) in *. assert (is_u8 (Z.lxor d h)) as Hi by auto with width.
  unfold register_lookup. fold h. rewrite (table_load table _ Ht Hi). cbn [res_bind]. f_equal.
  assert (0 < 2 ^ (W - 8)) by (apply Z.pow_pos_nonneg; lia).
  assert (forall b, is_u8 b -> in_register W (Z.shiftl b (W - 8))) as Hs.
  { intros b Hb. unfold in_register, is_u8 in *. rewrite (pow_high W HW), Z.shiftl_mul_pow2 by lia. nia. }
  rewrite (mod_shifted W HW) by (apply iter_step_range, Hs; done).
  rewrite pushes_steps, byte_bits_value by (done || cbn; lia).
  change (length (byte_bits d)) with 8%nat. change (Z.of_nat 8) with 8.
  rewrite Hsplit at 2. rewrite Z.lxor_assoc, <-Z.shiftl_lxor, (Z.lxor_comm h d), iter_step_lxor.
  rewrite (iter_step_shiftl 8 (c mod _)); [apply Z.lxor_comm|lia|by apply Z.mod_pos_bound].
Qed.

(** ** Errors *)

(** The register forgets nothing: the same bits keep different registers apart. *)
Lemma pushes_inj l c c' :
  in_register W c -> in_register W c' -> foldl push c l = foldl push c' l -> c = c'.
Proof.
  revert c c'. induction l as [|b l IH]; intros c c' Hc Hc' H; [done|].
  apply IH in H; [|by apply push_range..].
  pose proof (pushes_steps [b] c Hc ltac:(cbn; lia)) as E. cbn [foldl] in E. rewrite E in H.
  pose proof (pushes_steps [b] c' Hc' ltac:(cbn; lia)) as E'. cbn [foldl] in E'. rewrite E' in H.
  assert (in_register W (Z.shiftl (bits_value [b]) (W - Z.of_nat (length [b])))) as Hb.
  { unfold in_register. cbn [bits_value length]. rewrite Z.shiftl_mul_pow2 by lia.
    pose proof (pow_split W HW). assert (0 < 2 ^ (W - 1)) by (apply Z.pow_pos_nonneg; lia).
    change (Z.of_nat 1) with 1. destruct b; cbn [Z.b2z Z.of_nat]; lia. }
  apply iter_step_inj in H; [|by apply (in_register_lxor W HW)..].
  apply (f_equal (fun v => Z.lxor v (Z.shiftl (bits_value [b]) (W - Z.of_nat (length [b]))))) in H.
  by rewrite !Z.lxor_assoc, Z.lxor_nilpotent, !Z.lxor_0_r in H.
Qed.

(** Different strings of the same length, up to [W] bits, leave different registers. *)
Lemma pushes_short_inj x y c :
  in_register W c -> length x = length y -> Z.of_nat (length x) <= W ->
  foldl push c x = foldl push c y -> x = y.
Proof.
  intros Hc Hl Hx H. rewrite !pushes_steps, <-Hl in H by (done || lia).
  assert (forall l, length l = length x -> in_register W (Z.shiftl (bits_value l) (W - Z.of_nat (length x)))) as Hr.
  { intros l Hle. pose proof (bits_value_range l) as Hv. rewrite Hle in Hv. unfold in_register.
    rewrite Z.shiftl_mul_pow2 by lia.
    replace (2 ^ W) with (2 ^ Z.of_nat (length x) * 2 ^ (W - Z.of_nat (length x)))
      by (rewrite <-Z.pow_add_r by lia; f_equal; lia).
    assert (0 < 2 ^ (W - Z.of_nat (length x))) by (apply Z.pow_pos_nonneg; lia). nia. }
  apply iter_step_inj in H; [|by apply (in_register_lxor W HW); auto..].
  apply (f_equal (Z.lxor c)) in H. rewrite <-!Z.lxor_assoc, Z.lxor_nilpotent, !Z.lxor_0_l in H.
  rewrite !Z.shiftl_mul_pow2 in H by lia.
  apply Z.mul_cancel_r in H; [|apply Z.pow_nonzero; lia]. by apply bits_value_inj.
Qed.

Lemma burst_changes before x y after c :
  in_register W c -> length x = length y -> Z.of_nat (length x) <= W -> x <> y ->
  foldl push c (before ++ x ++ after) <> foldl push c (before ++ y ++ after).
Proof.
  intros Hc Hl Hx Hne H. rewrite !foldl_app in H.
  apply pushes_inj in H; [|by repeat apply pushes_range..].
  apply Hne. eapply pushes_short_inj; [|done|done|exact H]. by apply pushes_range.
Qed.
End register_lemmas.
