(* ===== verification/LibCrc.v ===== *)
(** * The checks of the C++ library

    [src/lib/semp_crc_spartn.h], [src/lib/semp_crc_sbf.h] and
    [src/lib/semp_crc32.h]: the lookup tables of the SPARTN, SBF and Unicore
    formats and the functions that run over a message with them. *)
From S2P Require Import Prelude.

(** ** Tables *)

Definition semp_u8Crc4Table : list Z := [
   0x00; 0x0B; 0x05; 0x0E; 0x0A; 0x01; 0x0F; 0x04; 0x07; 0x0C; 0x02; 0x09; 0x0D; 0x06; 0x08; 0x03;
   0x0E; 0x05; 0x0B; 0x00; 0x04; 0x0F; 0x01; 0x0A; 0x09; 0x02; 0x0C; 0x07; 0x03; 0x08; 0x06; 0x0D;
   0x0F; 0x04; 0x0A; 0x01; 0x05; 0x0E; 0x00; 0x0B; 0x08; 0x03; 0x0D; 0x06; 0x02; 0x09; 0x07; 0x0C;
   0x01; 0x0A; 0x04; 0x0F; 0x0B; 0x00; 0x0E; 0x05; 0x06; 0x0D; 0x03; 0x08; 0x0C; 0x07; 0x09; 0x02;
   0x0D; 0x06; 0x08; 0x03; 0x07; 0x0C; 0x02; 0x09; 0x0A; 0x01; 0x0F; 0x04; 0x00; 0x0B; 0x05; 0x0E;
   0x03; 0x08; 0x06; 0x0D; 0x09; 0x02; 0x0C; 0x07; 0x04; 0x0F; 0x01; 0x0A; 0x0E; 0x05; 0x0B; 0x00;
   0x02; 0x09; 0x07; 0x0C; 0x08; 0x03; 0x0D; 0x06; 0x05; 0x0E; 0x00; 0x0B; 0x0F; 0x04; 0x0A; 0x01;
   0x0C; 0x07; 0x09; 0x02; 0x06; 0x0D; 0x03; 0x08; 0x0B; 0x00; 0x0E; 0x05; 0x01; 0x0A; 0x04; 0x0F;
   0x09; 0x02; 0x0C; 0x07; 0x03; 0x08; 0x06; 0x0D; 0x0E; 0x05; 0x0B; 0x00; 0x04; 0x0F; 0x01; 0x0A;
   0x07; 0x0C; 0x02; 0x09; 0x0D; 0x06; 0x08; 0x03; 0x00; 0x0B; 0x05; 0x0E; 0x0A; 0x01; 0x0F; 0x04;
   0x06; 0x0D; 0x03; 0x08; 0x0C; 0x07; 0x09; 0x02; 0x01; 0x0A; 0x04; 0x0F; 0x0B; 0x00; 0x0E; 0x05;
   0x08; 0x03; 0x0D; 0x06; 0x02; 0x09; 0x07; 0x0C; 0x0F; 0x04; 0x0A; 0x01; 0x05; 0x0E; 0x00; 0x0B;
   0x04; 0x0F; 0x01; 0x0A; 0x0E; 0x05; 0x0B; 0x00; 0x03; 0x08; 0x06; 0x0D; 0x09; 0x02; 0x0C; 0x07;
   0x0A; 0x01; 0x0F; 0x04; 0x00; 0x0B; 0x05; 0x0E; 0x0D; 0x06; 0x08; 0x03; 0x07; 0x0C; 0x02; 0x09;
   0x0B; 0x00; 0x0E; 0x05; 0x01; 0x0A; 0x04; 0x0F; 0x0C; 0x07; 0x09; 0x02; 0x06; 0x0D; 0x03; 0x08;
   0x05; 0x0E; 0x00; 0x0B; 0x0F; 0x04; 0x0A; 0x01; 0x02; 0x09; 0x07; 0x0C; 0x08; 0x03; 0x0D; 0x06 ].

Definition semp_u8Crc8Table : list Z := [
   0x00; 0x07; 0x0E; 0x09; 0x1C; 0x1B; 0x12; 0x15; 0x38; 0x3F; 0x36; 0x31; 0x24; 0x23; 0x2A; 0x2D;
   0x70; 0x77; 0x7E; 0x79; 0x6C; 0x6B; 0x62; 0x65; 0x48; 0x4F; 0x46; 0x41; 0x54; 0x53; 0x5A; 0x5D;
   0xE0; 0xE7; 0xEE; 0xE9; 0xFC; 0xFB; 0xF2; 0xF5; 0xD8; 0xDF; 0xD6; 0xD1; 0xC4; 0xC3; 0xCA; 0xCD;
   0x90; 0x97; 0x9E; 0x99; 0x8C; 0x8B; 0x82; 0x85; 0xA8; 0xAF; 0xA6; 0xA1; 0xB4; 0xB3; 0xBA; 0xBD;
   0xC7; 0xC0; 0xC9; 0xCE; 0xDB; 0xDC; 0xD5; 0xD2; 0xFF; 0xF8; 0xF1; 0xF6; 0xE3; 0xE4; 0xED; 0xEA;
   0xB7; 0xB0; 0xB9; 0xBE; 0xAB; 0xAC; 0xA5; 0xA2; 0x8F; 0x88; 0x81; 0x86; 0x93; 0x94; 0x9D; 0x9A;
   0x27; 0x20; 0x29; 0x2E; 0x3B; 0x3C; 0x35; 0x32; 0x1F; 0x18; 0x11; 0x16; 0x03; 0x04; 0x0D; 0x0A;
   0x57; 0x50; 0x59; 0x5E; 0x4B; 0x4C; 0x45; 0x42; 0x6F; 0x68; 0x61; 0x66; 0x73; 0x74; 0x7D; 0x7A;
   0x89; 0x8E; 0x87; 0x80; 0x95; 0x92; 0x9B; 0x9C; 0xB1; 0xB6; 0xBF; 0xB8; 0xAD; 0xAA; 0xA3; 0xA4;
   0xF9; 0xFE; 0xF7; 0xF0; 0xE5; 0xE2; 0xEB; 0xEC; 0xC1; 0xC6; 0xCF; 0xC8; 0xDD; 0xDA; 0xD3; 0xD4;
   0x69; 0x6E; 0x67; 0x60; 0x75; 0x72; 0x7B; 0x7C; 0x51; 0x56; 0x5F; 0x58; 0x4D; 0x4A; 0x43; 0x44;
   0x19; 0x1E; 0x17; 0x10; 0x05; 0x02; 0x0B; 0x0C; 0x21; 0x26; 0x2F; 0x28; 0x3D; 0x3A; 0x33; 0x34;
   0x4E; 0x49; 0x40; 0x47; 0x52; 0x55; 0x5C; 0x5B; 0x76; 0x71; 0x78; 0x7F; 0x6A; 0x6D; 0x64; 0x63;
   0x3E; 0x39; 0x30; 0x37; 0x22; 0x25; 0x2C; 0x2B; 0x06; 0x01; 0x08; 0x0F; 0x1A; 0x1D; 0x14; 0x13;
   0xAE; 0xA9; 0xA0; 0xA7; 0xB2; 0xB5; 0xBC; 0xBB; 0x96; 0x91; 0x98; 0x9F; 0x8A; 0x8D; 0x84; 0x83;
   0xDE; 0xD9; 0xD0; 0xD7; 0xC2; 0xC5; 0xCC; 0xCB; 0xE6; 0xE1; 0xE8; 0xEF; 0xFA; 0xFD; 0xF4; 0xF3 ].

Definition semp_u16Crc16Table : list Z := [
   0x0000; 0x1021; 0x2042; 0x3063; 0x4084; 0x50A5; 0x60C6; 0x70E7;
   0x8108; 0x9129; 0xA14A; 0xB16B; 0xC18C; 0xD1AD; 0xE1CE; 0xF1EF;
   0x1231; 0x0210; 0x3273; 0x2252; 0x52B5; 0x4294; 0x72F7; 0x62D6;
   0x9339; 0x8318; 0xB37B; 0xA35A; 0xD3BD; 0xC39C; 0xF3FF; 0xE3DE;
   0x2462; 0x3443; 0x0420; 0x1401; 0x64E6; 0x74C7; 0x44A4; 0x5485;
   0xA56A; 0xB54B; 0x8528; 0x9509; 0xE5EE; 0xF5CF; 0xC5AC; 0xD58D;
   0x3653; 0x2672; 0x1611; 0x0630; 0x76D7; 0x66F6; 0x5695; 0x46B4;
   0xB75B; 0xA77A; 0x9719; 0x8738; 0xF7DF; 0xE7FE; 0xD79D; 0xC7BC;
   0x48C4; 0x58E5; 0x6886; 0x78A7; 0x0840; 0x1861; 0x2802; 0x3823;
   0xC9CC; 0xD9ED; 0xE98E; 0xF9AF; 0x8948; 0x9969; 0xA90A; 0xB92B;
   0x5AF5; 0x4AD4; 0x7AB7; 0x6A96; 0x1A71; 0x0A50; 0x3A33; 0x2A12;
   0xDBFD; 0xCBDC; 0xFBBF; 0xEB9E; 0x9B79; 0x8B58; 0xBB3B; 0xAB1A;
   0x6CA6; 0x7C87; 0x4CE4; 0x5CC5; 0x2C22; 0x3C03; 0x0C60; 0x1C41;
   0xEDAE; 0xFD8F; 0xCDEC; 0xDDCD; 0xAD2A; 0xBD0B; 0x8D68; 0x9D49;
   0x7E97; 0x6EB6; 0x5ED5; 0x4EF4; 0x3E13; 0x2E32; 0x1E51; 0x0E70;
   0xFF9F; 0xEFBE; 0xDFDD; 0xCFFC; 0xBF1B; 0xAF3A; 0x9F59; 0x8F78;
   0x9188; 0x81A9; 0xB1CA; 0xA1EB; 0xD10C; 0xC12D; 0xF14E; 0xE16F;
   0x1080; 0x00A1; 0x30C2; 0x20E3; 0x5004; 0x4025; 0x7046; 0x6067;
   0x83B9; 0x9398; 0xA3FB; 0xB3DA; 0xC33D; 0xD31C; 0xE37F; 0xF35E;
   0x02B1; 0x1290; 0x22F3; 0x32D2; 0x4235; 0x5214; 0x6277; 0x7256;
   0xB5EA; 0xA5CB; 0x95A8; 0x8589; 0xF56E; 0xE54F; 0xD52C; 0xC50D;
   0x34E2; 0x24C3; 0x14A0; 0x0481; 0x7466; 0x6447; 0x5424; 0x4405;
   0xA7DB; 0xB7FA; 0x8799; 0x97B8; 0xE75F; 0xF77E; 0xC71D; 0xD73C;
   0x26D3; 0x36F2; 0x0691; 0x16B0; 0x6657; 0x7676; 0x4615; 0x5634;
   0xD94C; 0xC96D; 0xF90E; 0xE92F; 0x99C8; 0x89E9; 0xB98A; 0xA9AB;
   0x5844; 0x4865; 0x7806; 0x6827; 0x18C0; 0x08E1; 0x3882; 0x28A3;
   0xCB7D; 0xDB5C; 0xEB3F; 0xFB1E; 0x8BF9; 0x9BD8; 0xABBB; 0xBB9A;
   0x4A75; 0x5A54; 0x6A37; 0x7A16; 0x0AF1; 0x1AD0; 0x2AB3; 0x3A92;
   0xFD2E; 0xED0F; 0xDD6C; 0xCD4D; 0xBDAA; 0xAD8B; 0x9DE8; 0x8DC9;
   0x7C26; 0x6C07; 0x5C64; 0x4C45; 0x3CA2; 0x2C83; 0x1CE0; 0x0CC1;
   0xEF1F; 0xFF3E; 0xCF5D; 0xDF7C; 0xAF9B; 0xBFBA; 0x8FD9; 0x9FF8;
   0x6E17; 0x7E36; 0x4E55; 0x5E74; 0x2E93; 0x3EB2; 0x0ED1; 0x1EF0 ].

Definition semp_u32Crc24Table : list Z := [
   0x00000000; 0x00864CFB; 0x008AD50D; 0x000C99F6; 0x0093E6E1; 0x0015AA1A; 0x001933EC; 0x009F7F17;
   0x00A18139; 0x0027CDC2; 0x002B5434; 0x00AD18CF; 0x003267D8; 0x00B42B23; 0x00B8B2D5; 0x003EFE2E;
   0x00C54E89; 0x00430272; 0x004F9B84; 0x00C9D77F; 0x0056A868; 0x00D0E493; 0x00DC7D65; 0x005A319E;
   0x0064CFB0; 0x00E2834B; 0x00EE1ABD; 0x00685646; 0x00F72951; 0x007165AA; 0x007DFC5C; 0x00FBB0A7;
   0x000CD1E9; 0x008A9D12; 0x008604E4; 0x0000481F; 0x009F3708; 0x00197BF3; 0x0015E205; 0x0093AEFE;
   0x00AD50D0; 0x002B1C2B; 0x002785DD; 0x00A1C926; 0x003EB631; 0x00B8FACA; 0x00B4633C; 0x00322FC7;
   0x00C99F60; 0x004FD39B; 0x00434A6D; 0x00C50696; 0x005A7981; 0x00DC357A; 0x00D0AC8C; 0x0056E077;
   0x00681E59; 0x00EE52A2; 0x00E2CB54; 0x006487AF; 0x00FBF8B8; 0x007DB443; 0x00712DB5; 0x00F7614E;
   0x0019A3D2; 0x009FEF29; 0x009376DF; 0x00153A24; 0x008A4533; 0x000C09C8; 0x0000903E; 0x0086DCC5;
   0x00B822EB; 0x003E6E10; 0x0032F7E6; 0x00B4BB1D; 0x002BC40A; 0x00AD88F1; 0x00A11107; 0x00275DFC;
   0x00DCED5B; 0x005AA1A0; 0x00563856; 0x00D074AD; 0x004F0BBA; 0x00C94741; 0x00C5DEB7; 0x0043924C;
   0x007D6C62; 0x00FB2099; 0x00F7B96F; 0x0071F594; 0x00EE8A83; 0x0068C678; 0x00645F8E; 0x00E21375;
   0x0015723B; 0x00933EC0; 0x009FA736; 0x0019EBCD; 0x008694DA; 0x0000D821; 0x000C41D7; 0x008A0D2C;
   0x00B4F302; 0x0032BFF9; 0x003E260F; 0x00B86AF4; 0x002715E3; 0x00A15918; 0x00ADC0EE; 0x002B8C15;
   0x00D03CB2; 0x00567049; 0x005AE9BF; 0x00DCA544; 0x0043DA53; 0x00C596A8; 0x00C90F5E; 0x004F43A5;
   0x0071BD8B; 0x00F7F170; 0x00FB6886; 0x007D247D; 0x00E25B6A; 0x00641791; 0x00688E67; 0x00EEC29C;
   0x003347A4; 0x00B50B5F; 0x00B992A9; 0x003FDE52; 0x00A0A145; 0x0026EDBE; 0x002A7448; 0x00AC38B3;
   0x0092C69D; 0x00148A66; 0x00181390; 0x009E5F6B; 0x0001207C; 0x00876C87; 0x008BF571; 0x000DB98A;
   0x00F6092D; 0x007045D6; 0x007CDC20; 0x00FA90DB; 0x0065EFCC; 0x00E3A337; 0x00EF3AC1; 0x0069763A;
   0x00578814; 0x00D1C4EF; 0x00DD5D19; 0x005B11E2; 0x00C46EF5; 0x0042220E; 0x004EBBF8; 0x00C8F703;
   0x003F964D; 0x00B9DAB6; 0x00B54340; 0x00330FBB; 0x00AC70AC; 0x002A3C57; 0x0026A5A1; 0x00A0E95A;
   0x009E1774; 0x00185B8F; 0x0014C279; 0x00928E82; 0x000DF195; 0x008BBD6E; 0x00872498; 0x00016863;
   0x00FAD8C4; 0x007C943F; 0x00700DC9; 0x00F64132; 0x00693E25; 0x00EF72DE; 0x00E3EB28; 0x0065A7D3;
   0x005B59FD; 0x00DD1506; 0x00D18CF0; 0x0057C00B; 0x00C8BF1C; 0x004EF3E7; 0x00426A11; 0x00C426EA;
   0x002AE476; 0x00ACA88D; 0x00A0317B; 0x00267D80; 0x00B90297; 0x003F4E6C; 0x0033D79A; 0x00B59B61;
   0x008B654F; 0x000D29B4; 0x0001B042; 0x0087FCB9; 0x001883AE; 0x009ECF55; 0x009256A3; 0x00141A58;
   0x00EFAAFF; 0x0069E604; 0x00657FF2; 0x00E33309; 0x007C4C1E; 0x00FA00E5; 0x00F69913; 0x0070D5E8;
   0x004E2BC6; 0x00C8673D; 0x00C4FECB; 0x0042B230; 0x00DDCD27; 0x005B81DC; 0x0057182A; 0x00D154D1;
   0x0026359F; 0x00A07964; 0x00ACE092; 0x002AAC69; 0x00B5D37E; 0x00339F85; 0x003F0673; 0x00B94A88;
   0x0087B4A6; 0x0001F85D; 0x000D61AB; 0x008B2D50; 0x00145247; 0x00921EBC; 0x009E874A; 0x0018CBB1;
   0x00E37B16; 0x006537ED; 0x0069AE1B; 0x00EFE2E0; 0x00709DF7; 0x00F6D10C; 0x00FA48FA; 0x007C0401;
   0x0042FA2F; 0x00C4B6D4; 0x00C82F22; 0x004E63D9; 0x00D11CCE; 0x00575035; 0x005BC9C3; 0x00DD8538 ].

Definition semp_u32Crc32Table : list Z := [
   0x00000000; 0x04C11DB7; 0x09823B6E; 0x0D4326D9; 0x130476DC; 0x17C56B6B; 0x1A864DB2; 0x1E475005;
   0x2608EDB8; 0x22C9F00F; 0x2F8AD6D6; 0x2B4BCB61; 0x350C9B64; 0x31CD86D3; 0x3C8EA00A; 0x384FBDBD;
   0x4C11DB70; 0x48D0C6C7; 0x4593E01E; 0x4152FDA9; 0x5F15ADAC; 0x5BD4B01B; 0x569796C2; 0x52568B75;
   0x6A1936C8; 0x6ED82B7F; 0x639B0DA6; 0x675A1011; 0x791D4014; 0x7DDC5DA3; 0x709F7B7A; 0x745E66CD;
   0x9823B6E0; 0x9CE2AB57; 0x91A18D8E; 0x95609039; 0x8B27C03C; 0x8FE6DD8B; 0x82A5FB52; 0x8664E6E5;
   0xBE2B5B58; 0xBAEA46EF; 0xB7A96036; 0xB3687D81; 0xAD2F2D84; 0xA9EE3033; 0xA4AD16EA; 0xA06C0B5D;
   0xD4326D90; 0xD0F37027; 0xDDB056FE; 0xD9714B49; 0xC7361B4C; 0xC3F706FB; 0xCEB42022; 0xCA753D95;
   0xF23A8028; 0xF6FB9D9F; 0xFBB8BB46; 0xFF79A6F1; 0xE13EF6F4; 0xE5FFEB43; 0xE8BCCD9A; 0xEC7DD02D;
   0x34867077; 0x30476DC0; 0x3D044B19; 0x39C556AE; 0x278206AB; 0x23431B1C; 0x2E003DC5; 0x2AC12072;
   0x128E9DCF; 0x164F8078; 0x1B0CA6A1; 0x1FCDBB16; 0x018AEB13; 0x054BF6A4; 0x0808D07D; 0x0CC9CDCA;
   0x7897AB07; 0x7C56B6B0; 0x71159069; 0x75D48DDE; 0x6B93DDDB; 0x6F52C06C; 0x6211E6B5; 0x66D0FB02;
   0x5E9F46BF; 0x5A5E5B08; 0x571D7DD1; 0x53DC6066; 0x4D9B3063; 0x495A2DD4; 0x44190B0D; 0x40D816BA;
   0xACA5C697; 0xA864DB20; 0xA527FDF9; 0xA1E6E04E; 0xBFA1B04B; 0xBB60ADFC; 0xB6238B25; 0xB2E29692;
   0x8AAD2B2F; 0x8E6C3698; 0x832F1041; 0x87EE0DF6; 0x99A95DF3; 0x9D684044; 0x902B669D; 0x94EA7B2A;
   0xE0B41DE7; 0xE4750050; 0xE9362689; 0xEDF73B3E; 0xF3B06B3B; 0xF771768C; 0xFA325055; 0xFEF34DE2;
   0xC6BCF05F; 0xC27DEDE8; 0xCF3ECB31; 0xCBFFD686; 0xD5B88683; 0xD1799B34; 0xDC3ABDED; 0xD8FBA05A;
   0x690CE0EE; 0x6DCDFD59; 0x608EDB80; 0x644FC637; 0x7A089632; 0x7EC98B85; 0x738AAD5C; 0x774BB0EB;
   0x4F040D56; 0x4BC510E1; 0x46863638; 0x42472B8F; 0x5C007B8A; 0x58C1663D; 0x558240E4; 0x51435D53;
   0x251D3B9E; 0x21DC2629; 0x2C9F00F0; 0x285E1D47; 0x36194D42; 0x32D850F5; 0x3F9B762C; 0x3B5A6B9B;
   0x0315D626; 0x07D4CB91; 0x0A97ED48; 0x0E56F0FF; 0x1011A0FA; 0x14D0BD4D; 0x19939B94; 0x1D528623;
   0xF12F560E; 0xF5EE4BB9; 0xF8AD6D60; 0xFC6C70D7; 0xE22B20D2; 0xE6EA3D65; 0xEBA91BBC; 0xEF68060B;
   0xD727BBB6; 0xD3E6A601; 0xDEA580D8; 0xDA649D6F; 0xC423CD6A; 0xC0E2D0DD; 0xCDA1F604; 0xC960EBB3;
   0xBD3E8D7E; 0xB9FF90C9; 0xB4BCB610; 0xB07DABA7; 0xAE3AFBA2; 0xAAFBE615; 0xA7B8C0CC; 0xA379DD7B;
   0x9B3660C6; 0x9FF77D71; 0x92B45BA8; 0x9675461F; 0x8832161A; 0x8CF30BAD; 0x81B02D74; 0x857130C3;
   0x5D8A9099; 0x594B8D2E; 0x5408ABF7; 0x50C9B640; 0x4E8EE645; 0x4A4FFBF2; 0x470CDD2B; 0x43CDC09C;
   0x7B827D21; 0x7F436096; 0x7200464F; 0x76C15BF8; 0x68860BFD; 0x6C47164A; 0x61043093; 0x65C52D24;
   0x119B4BE9; 0x155A565E; 0x18197087; 0x1CD86D30; 0x029F3D35; 0x065E2082; 0x0B1D065B; 0x0FDC1BEC;
   0x3793A651; 0x3352BBE6; 0x3E119D3F; 0x3AD08088; 0x2497D08D; 0x2056CD3A; 0x2D15EBE3; 0x29D4F654;
   0xC5A92679; 0xC1683BCE; 0xCC2B1D17; 0xC8EA00A0; 0xD6AD50A5; 0xD26C4D12; 0xDF2F6BCB; 0xDBEE767C;
   0xE3A1CBC1; 0xE760D676; 0xEA23F0AF; 0xEEE2ED18; 0xF0A5BD1D; 0xF464A0AA; 0xF9278673; 0xFDE69BC4;
   0x89B8FD09; 0x8D79E0BE; 0x803AC667; 0x84FBDBD0; 0x9ABC8BD5; 0x9E7D9662; 0x933EB0BB; 0x97FFAD0C;
   0xAFB010B1; 0xAB710D06; 0xA6322BDF; 0xA2F33668; 0xBCB4666D; 0xB8757BDA; 0xB5365D03; 0xB1F740B4 ].

Definition semp_ccitt_crc_table : list Z := [
   0x0000; 0x1021; 0x2042; 0x3063; 0x4084; 0x50a5; 0x60c6; 0x70e7;
   0x8108; 0x9129; 0xa14a; 0xb16b; 0xc18c; 0xd1ad; 0xe1ce; 0xf1ef;
   0x1231; 0x0210; 0x3273; 0x2252; 0x52b5; 0x4294; 0x72f7; 0x62d6;
   0x9339; 0x8318; 0xb37b; 0xa35a; 0xd3bd; 0xc39c; 0xf3ff; 0xe3de;
   0x2462; 0x3443; 0x0420; 0x1401; 0x64e6; 0x74c7; 0x44a4; 0x5485;
   0xa56a; 0xb54b; 0x8528; 0x9509; 0xe5ee; 0xf5cf; 0xc5ac; 0xd58d;
   0x3653; 0x2672; 0x1611; 0x0630; 0x76d7; 0x66f6; 0x5695; 0x46b4;
   0xb75b; 0xa77a; 0x9719; 0x8738; 0xf7df; 0xe7fe; 0xd79d; 0xc7bc;
   0x48c4; 0x58e5; 0x6886; 0x78a7; 0x0840; 0x1861; 0x2802; 0x3823;
   0xc9cc; 0xd9ed; 0xe98e; 0xf9af; 0x8948; 0x9969; 0xa90a; 0xb92b;
   0x5af5; 0x4ad4; 0x7ab7; 0x6a96; 0x1a71; 0x0a50; 0x3a33; 0x2a12;
   0xdbfd; 0xcbdc; 0xfbbf; 0xeb9e; 0x9b79; 0x8b58; 0xbb3b; 0xab1a;
   0x6ca6; 0x7c87; 0x4ce4; 0x5cc5; 0x2c22; 0x3c03; 0x0c60; 0x1c41;
   0xedae; 0xfd8f; 0xcdec; 0xddcd; 0xad2a; 0xbd0b; 0x8d68; 0x9d49;
   0x7e97; 0x6eb6; 0x5ed5; 0x4ef4; 0x3e13; 0x2e32; 0x1e51; 0x0e70;
   0xff9f; 0xefbe; 0xdfdd; 0xcffc; 0xbf1b; 0xaf3a; 0x9f59; 0x8f78;
   0x9188; 0x81a9; 0xb1ca; 0xa1eb; 0xd10c; 0xc12d; 0xf14e; 0xe16f;
   0x1080; 0x00a1; 0x30c2; 0x20e3; 0x5004; 0x4025; 0x7046; 0x6067;
   0x83b9; 0x9398; 0xa3fb; 0xb3da; 0xc33d; 0xd31c; 0xe37f; 0xf35e;
   0x02b1; 0x1290; 0x22f3; 0x32d2; 0x4235; 0x5214; 0x6277; 0x7256;
   0xb5ea; 0xa5cb; 0x95a8; 0x8589; 0xf56e; 0xe54f; 0xd52c; 0xc50d;
   0x34e2; 0x24c3; 0x14a0; 0x0481; 0x7466; 0x6447; 0x5424; 0x4405;
   0xa7db; 0xb7fa; 0x8799; 0x97b8; 0xe75f; 0xf77e; 0xc71d; 0xd73c;
   0x26d3; 0x36f2; 0x0691; 0x16b0; 0x6657; 0x7676; 0x4615; 0x5634;
   0xd94c; 0xc96d; 0xf90e; 0xe92f; 0x99c8; 0x89e9; 0xb98a; 0xa9ab;
   0x5844; 0x4865; 0x7806; 0x6827; 0x18c0; 0x08e1; 0x3882; 0x28a3;
   0xcb7d; 0xdb5c; 0xeb3f; 0xfb1e; 0x8bf9; 0x9bd8; 0xabbb; 0xbb9a;
   0x4a75; 0x5a54; 0x6a37; 0x7a16; 0x0af1; 0x1ad0; 0x2ab3; 0x3a92;
   0xfd2e; 0xed0f; 0xdd6c; 0xcd4d; 0xbdaa; 0xad8b; 0x9de8; 0x8dc9;
   0x7c26; 0x6c07; 0x5c64; 0x4c45; 0x3ca2; 0x2c83; 0x1ce0; 0x0cc1;
   0xef1f; 0xff3e; 0xcf5d; 0xdf7c; 0xaf9b; 0xbfba; 0x8fd9; 0x9ff8;
   0x6e17; 0x7e36; 0x4e55; 0x5e74; 0x2e93; 0x3eb2; 0x0ed1; 0x1ef0 ].

Definition semp_crc32Table : list Z := [
   0x00000000; 0x77073096; 0xEE0E612C; 0x990951BA; 0x076DC419; 0x706AF48F; 0xE963A535; 0x9E6495A3;
   0x0EDB8832; 0x79DCB8A4; 0xE0D5E91E; 0x97D2D988; 0x09B64C2B; 0x7EB17CBD; 0xE7B82D07; 0x90BF1D91;
   0x1DB71064; 0x6AB020F2; 0xF3B97148; 0x84BE41DE; 0x1ADAD47D; 0x6DDDE4EB; 0xF4D4B551; 0x83D385C7;
   0x136C9856; 0x646BA8C0; 0xFD62F97A; 0x8A65C9EC; 0x14015C4F; 0x63066CD9; 0xFA0F3D63; 0x8D080DF5;
   0x3B6E20C8; 0x4C69105E; 0xD56041E4; 0xA2677172; 0x3C03E4D1; 0x4B04D447; 0xD20D85FD; 0xA50AB56B;
   0x35B5A8FA; 0x42B2986C; 0xDBBBC9D6; 0xACBCF940; 0x32D86CE3; 0x45DF5C75; 0xDCD60DCF; 0xABD13D59;
   0x26D930AC; 0x51DE003A; 0xC8D75180; 0xBFD06116; 0x21B4F4B5; 0x56B3C423; 0xCFBA9599; 0xB8BDA50F;
   0x2802B89E; 0x5F058808; 0xC60CD9B2; 0xB10BE924; 0x2F6F7C87; 0x58684C11; 0xC1611DAB; 0xB6662D3D;
   0x76DC4190; 0x01DB7106; 0x98D220BC; 0xEFD5102A; 0x71B18589; 0x06B6B51F; 0x9FBFE4A5; 0xE8B8D433;
   0x7807C9A2; 0x0F00F934; 0x9609A88E; 0xE10E9818; 0x7F6A0DBB; 0x086D3D2D; 0x91646C97; 0xE6635C01;
   0x6B6B51F4; 0x1C6C6162; 0x856530D8; 0xF262004E; 0x6C0695ED; 0x1B01A57B; 0x8208F4C1; 0xF50FC457;
   0x65B0D9C6; 0x12B7E950; 0x8BBEB8EA; 0xFCB9887C; 0x62DD1DDF; 0x15DA2D49; 0x8CD37CF3; 0xFBD44C65;
   0x4DB26158; 0x3AB551CE; 0xA3BC0074; 0xD4BB30E2; 0x4ADFA541; 0x3DD895D7; 0xA4D1C46D; 0xD3D6F4FB;
   0x4369E96A; 0x346ED9FC; 0xAD678846; 0xDA60B8D0; 0x44042D73; 0x33031DE5; 0xAA0A4C5F; 0xDD0D7CC9;
   0x5005713C; 0x270241AA; 0xBE0B1010; 0xC90C2086; 0x5768B525; 0x206F85B3; 0xB966D409; 0xCE61E49F;
   0x5EDEF90E; 0x29D9C998; 0xB0D09822; 0xC7D7A8B4; 0x59B33D17; 0x2EB40D81; 0xB7BD5C3B; 0xC0BA6CAD;
   0xEDB88320; 0x9ABFB3B6; 0x03B6E20C; 0x74B1D29A; 0xEAD54739; 0x9DD277AF; 0x04DB2615; 0x73DC1683;
   0xE3630B12; 0x94643B84; 0x0D6D6A3E; 0x7A6A5AA8; 0xE40ECF0B; 0x9309FF9D; 0x0A00AE27; 0x7D079EB1;
   0xF00F9344; 0x8708A3D2; 0x1E01F268; 0x6906C2FE; 0xF762575D; 0x806567CB; 0x196C3671; 0x6E6B06E7;
   0xFED41B76; 0x89D32BE0; 0x10DA7A5A; 0x67DD4ACC; 0xF9B9DF6F; 0x8EBEEFF9; 0x17B7BE43; 0x60B08ED5;
   0xD6D6A3E8; 0xA1D1937E; 0x38D8C2C4; 0x4FDFF252; 0xD1BB67F1; 0xA6BC5767; 0x3FB506DD; 0x48B2364B;
   0xD80D2BDA; 0xAF0A1B4C; 0x36034AF6; 0x41047A60; 0xDF60EFC3; 0xA867DF55; 0x316E8EEF; 0x4669BE79;
   0xCB61B38C; 0xBC66831A; 0x256FD2A0; 0x5268E236; 0xCC0C7795; 0xBB0B4703; 0x220216B9; 0x5505262F;
   0xC5BA3BBE; 0xB2BD0B28; 0x2BB45A92; 0x5CB36A04; 0xC2D7FFA7; 0xB5D0CF31; 0x2CD99E8B; 0x5BDEAE1D;
   0x9B64C2B0; 0xEC63F226; 0x756AA39C; 0x026D930A; 0x9C0906A9; 0xEB0E363F; 0x72076785; 0x05005713;
   0x95BF4A82; 0xE2B87A14; 0x7BB12BAE; 0x0CB61B38; 0x92D28E9B; 0xE5D5BE0D; 0x7CDCEFB7; 0x0BDBDF21;
   0x86D3D2D4; 0xF1D4E242; 0x68DDB3F8; 0x1FDA836E; 0x81BE16CD; 0xF6B9265B; 0x6FB077E1; 0x18B74777;
   0x88085AE6; 0xFF0F6A70; 0x66063BCA; 0x11010B5C; 0x8F659EFF; 0xF862AE69; 0x616BFFD3; 0x166CCF45;
   0xA00AE278; 0xD70DD2EE; 0x4E048354; 0x3903B3C2; 0xA7672661; 0xD06016F7; 0x4969474D; 0x3E6E77DB;
   0xAED16A4A; 0xD9D65ADC; 0x40DF0B66; 0x37D83BF0; 0xA9BCAE53; 0xDEBB9EC5; 0x47B2CF7F; 0x30B5FFE9;
   0xBDBDF21C; 0xCABAC28A; 0x53B39330; 0x24B4A3A6; 0xBAD03605; 0xCDD70693; 0x54DE5729; 0x23D967BF;
   0xB3667A2E; 0xC4614AB8; 0x5D681B02; 0x2A6F2B94; 0xB40BBE37; 0xC30C8EA1; 0x5A05DF1B; 0x2D02EF8D ].

(* ------------------------------------------------------------------ *)
(** ** Functions *)

(** [for (x = 0; x < size; x++) r = step(r, pU8Msg[x]);] from index [x] on,
    with [n] turns left *)
Fixpoint crc_loop (step : Z -> Z -> res Z) (pU8Msg : list Z) (n : nat) (x r : Z) : res Z :=
  match n with
  | O => Ok r
  | S n =>
      res_bind (load pU8Msg x) (fun d =>
      res_bind (step r d) (fun r => crc_loop step pU8Msg n (x + 1) r))
  end.

Definition semp_uSpartnCrc4 (pU8Msg : list Z) (size : Z) : res Z :=
  let step u8Remainder d :=
    let u8TableRemainder := u8 (Z.lxor d u8Remainder) in
    load semp_u8Crc4Table u8TableRemainder in
  crc_loop step pU8Msg (Z.to_nat size) 0 0.

Definition semp_uSpartnCrc8 (pU8Msg : list Z) (size : Z) : res Z :=
  let step u8Remainder d :=
    let u8TableRemainder := u8 (Z.lxor d u8Remainder) in
    load semp_u8Crc8Table u8TableRemainder in
  crc_loop step pU8Msg (Z.to_nat size) 0 0.

Definition semp_uSpartnCrc16 (pU8Msg : list Z) (size : Z) : res Z :=
  let u8NumBitsInCrc := 8 * 2 in
  let step u16Remainder d :=
    let u16TableRemainder := u16 (Z.lxor d (Z.shiftr u16Remainder (u8NumBitsInCrc - 8))) in
    res_bind (load semp_u16Crc16Table u16TableRemainder) (fun v =>
    Ok (u16 (Z.lxor v (Z.shiftl u16Remainder 8)))) in
  crc_loop step pU8Msg (Z.to_nat size) 0 0.

Definition semp_uSpartnCrc24 (pU8Msg : list Z) (size : Z) : res Z :=
  let u8NumBitsInCrc := 8 * 1 * 3 in
  let step u32Remainder d :=
    let u32TableRemainder := u32 (Z.lxor d (Z.shiftr u32Remainder (u8NumBitsInCrc - 8))) in
    res_bind (load semp_u32Crc24Table u32TableRemainder) (fun v =>
    let u32Remainder := u32 (Z.lxor v (u32 (Z.shiftl u32Remainder 8))) in
    Ok (Z.land u32Remainder 0x00FFFFFF)) in
  crc_loop step pU8Msg (Z.to_nat size) 0 0.

Definition semp_uSpartnCrc32 (pU8Msg : list Z) (size : Z) : res Z :=
  let u8NumBitsInCrc := 8 * 4 in
  let u32FinalXORValue := 0xFFFFFFFF in
  let step u32Remainder d :=
    let u32TableRemainder := u32 (Z.lxor d (Z.shiftr u32Remainder (u8NumBitsInCrc - 8))) in
    res_bind (load semp_u32Crc32Table u32TableRemainder) (fun v =>
    Ok (u32 (Z.lxor v (u32 (Z.shiftl u32Remainder 8))))) in
  res_bind (crc_loop step pU8Msg (Z.to_nat size) 0 0xFFFFFFFF) (fun u32Remainder =>
  Ok (u32 (Z.lxor u32Remainder u32FinalXORValue))).

(** One byte of an SBF block: the index is masked to eight bits. *)
Definition semp_ccitt_crc_update (crc data : Z) : res Z :=
  let tbl_idx := u8 (Z.land (Z.lxor (Z.shiftr crc 8) data) 0xff) in
  res_bind (load semp_ccitt_crc_table tbl_idx) (fun v =>
  Ok (u16 (Z.lxor v (Z.shiftl crc 8)))).
