(* ===== verification/LibCrcTheorems.v ===== *)
(** * The checks of the C++ library: theorems

    Each table-driven function of [LibCrc] computes the bit-serial check of its
    polynomial over the message it is given, and detects the bursts of errors
    a register of its width detects. *)
From S2P Require Import Prelude Crc ShiftRegister LibCrc.

(** ** References *)

(** SPARTN CRC-4 takes the least significant bit first. *)
Definition nibble_push (c : Z) (bit : bool) : Z :=
  if xorb (Z.odd c) bit then Z.lxor (Z.shiftr c 1) 0x9 else Z.shiftr c 1.

Definition crc4_ref (l : list Z) : Z := foldl nibble_push 0 (l ≫= (fun b => rev (byte_bits b))).
Definition crc8_ref (l : list Z) : Z := register_ref 8 0x107 0 l.
Definition crc16_ref (c : Z) (l : list Z) : Z := register_ref 16 0x11021 c l.
Definition crc24_ref (l : list Z) : Z := register_ref 24 0x1864CFB 0 l.
Definition crc32_forward_ref (l : list Z) : Z :=
  Z.lxor (register_ref 32 0x104C11DB7 0xFFFFFFFF l) 0xFFFFFFFF.

Arguments crc4_ref : simpl never.
Arguments crc8_ref : simpl never.
Arguments crc16_ref : simpl never.
Arguments crc24_ref : simpl never.
Arguments crc32_forward_ref : simpl never.
#[global] Strategy 100 [crc4_ref crc8_ref crc16_ref crc24_ref crc32_forward_ref].

(** ** The loop *)

(** A loop whose step computes [f] on registers that satisfy [I] is the fold of
    [f] over the bytes it reads. *)
Lemma crc_loop_fold (step : Z -> Z -> res Z) (f : Z -> Z -> Z) (I : Z -> Prop) :
  (forall r d, I r -> is_u8 d -> step r d = Ok (f r d)) ->
  (forall r d, I r -> is_u8 d -> I (f r d)) ->
  forall l msg x r,
    (forall j v, l !! j = Some v -> msg !! (x + j)%nat = Some v) -> bytes l -> I r ->
    crc_loop step msg (length l) (Z.of_nat x) r = Ok (foldl f r l).
Proof.
  intros Hstep HI. induction l as [|d l IH]; intros msg x r Hat Hl Hr; [done|].
  apply Forall_cons_1 in Hl as [Hd Hl]. cbn [length crc_loop].
  rewrite (load_ok msg x d) by (rewrite <-(Nat.add_0_r x); by apply (Hat 0%nat)). cbn [res_bind].
  rewrite Hstep by done. cbn [res_bind foldl].
  replace (Z.of_nat x + 1) with (Z.of_nat (S x)) by lia. apply IH; [|done|by apply HI].
  intros j v Hj. rewrite Nat.add_succ_comm. by apply (Hat (S j)).
Qed.

Lemma crc_loop_take step f (I : Z -> Prop) msg size r :
  (forall r d, I r -> is_u8 d -> step r d = Ok (f r d)) ->
  (forall r d, I r -> is_u8 d -> I (f r d)) ->
  0 <= size <= Z.of_nat (length msg) -> bytes msg -> I r ->
  crc_loop step msg (Z.to_nat size) 0 r = Ok (foldl f r (take (Z.to_nat size) msg)).
Proof.
  intros Hstep HI Hsize Hm Hr.
  rewrite <-(length_take_le msg (Z.to_nat size)) at 1 by lia.
  apply (crc_loop_fold step f I Hstep HI _ msg 0 r); [|by apply Forall_take|done].
  intros j v Hj. by apply lookup_take_Some in Hj as [? _].
Qed.

(** The bytes pushed one after the other are the bits of the message. *)
Lemma foldl_bits (push : Z -> bool -> Z) c l :
  foldl (fun c d => foldl push c (byte_bits d)) c l = foldl push c (bits l).
Proof. revert c. induction l as [|d l IH]; intros c; [done|]. by rewrite bits_cons, foldl_app, <-IH. Qed.

(** The checks fit their bytes. *)
Lemma crc8_ref_range l : is_u8 (crc8_ref l).
Proof. by apply (pushes_range 8 0x107). Qed.
Lemma crc16_ref_range l : is_u16 (crc16_ref 0 l).
Proof. by apply (pushes_range 16 0x11021). Qed.
Lemma crc24_ref_range l : 0 <= crc24_ref l < 2 ^ 24.
Proof. by apply (pushes_range 24 0x1864CFB). Qed.
Lemma crc32_forward_ref_range l : is_u32 (crc32_forward_ref l).
Proof. apply (lxor_u32 _ 0xFFFFFFFF); [|done]. by apply (pushes_range 32 0x104C11DB7). Qed.

(** ** The tables *)

Lemma semp_u8Crc8Table_correct : table_correct 8 0x107 semp_u8Crc8Table = true.
Proof. by vm_compute. Qed.
Lemma semp_u16Crc16Table_correct : table_correct 16 0x11021 semp_u16Crc16Table = true.
Proof. by vm_compute. Qed.
Lemma semp_u32Crc24Table_correct : table_correct 24 0x1864CFB semp_u32Crc24Table = true.
Proof. by vm_compute. Qed.
Lemma semp_u32Crc32Table_correct : table_correct 32 0x104C11DB7 semp_u32Crc32Table = true.
Proof. by vm_compute. Qed.
Lemma semp_ccitt_crc_table_correct : table_correct 16 0x11021 semp_ccitt_crc_table = true.
Proof. by vm_compute. Qed.

(** The Unicore table is the one the C parsers carry. *)
Lemma lib_crc32Table_eq : semp_crc32Table = Crc.semp_crc32Table.
Proof. reflexivity. Qed.

(** ** One step of each function *)

Lemma lxor_shiftr_u8 W c d :
  8 <= W <= 32 -> in_register W c -> is_u8 d -> is_u8 (Z.lxor d (Z.shiftr c (W - 8))).
Proof. intros HW Hc Hd. apply lxor_u8; [done|]. exact (proj1 (register_split W HW c Hc)). Qed.

Lemma crc4_step r d :
  0 <= r < 16 -> is_u8 d ->
  load semp_u8Crc4Table (u8 (Z.lxor d r)) = Ok (foldl nibble_push r (rev (byte_bits d))) /\
  0 <= foldl nibble_push r (rev (byte_bits d)) < 16.
Proof.
  set (ok r d := match load semp_u8Crc4Table (u8 (Z.lxor d r)) with
    | Ok v => (v =? foldl nibble_push r (rev (byte_bits d))) && (0 <=? v) && (v <? 16)
    | Ub _ => false end).
  assert (forallb (fun i => forallb (fun j => ok (Z.of_nat i) (Z.of_nat j)) (seq 0 256)) (seq 0 16) = true)
    as H by by vm_compute.
  intros Hr Hd. unfold is_u8 in Hd. rewrite forallb_forall in H.
  specialize (H (Z.to_nat r) ltac:(apply in_seq; lia)). rewrite forallb_forall in H.
  specialize (H (Z.to_nat d) ltac:(apply in_seq; lia)). rewrite !Z2Nat.id in H by lia.
  unfold ok in H. destruct (load _ _) as [v|]; [|done].
  rewrite !andb_true_iff, Z.eqb_eq in H. destruct H as [[<- ?] ?]. split; [done|lia].
Qed.

Lemma crc8_step r d :
  in_register 8 r -> is_u8 d ->
  load semp_u8Crc8Table (u8 (Z.lxor d r)) = Ok (foldl (register_push 8 0x107) r (byte_bits d)).
Proof.
  intros Hr Hd. assert (is_u8 (Z.lxor d r)) as Hi by (by apply lxor_u8). rewrite u8_id by done.
  rewrite <-(register_lookup_pushes 8 0x107 ltac:(lia) ltac:(lia) eq_refl _ r d
    semp_u8Crc8Table_correct Hr Hd).
  unfold register_lookup. rewrite Z.shiftr_0_r.
  rewrite (table_load 8 0x107 ltac:(lia) eq_refl _ _ semp_u8Crc8Table_correct Hi). cbn [res_bind].
  rewrite (mod_shifted 8 ltac:(lia)).
  - by rewrite Z.mod_1_r, Z.shiftl_0_l, Z.lxor_0_r.
  - apply (iter_step_range 8 0x107 ltac:(lia) ltac:(lia) eq_refl). by rewrite Z.shiftl_0_r.
Qed.

Lemma crc16_step r d :
  in_register 16 r -> is_u8 d ->
  res_bind (load semp_u16Crc16Table (u16 (Z.lxor d (Z.shiftr r (8 * 2 - 8)))))
    (fun v => Ok (u16 (Z.lxor v (Z.shiftl r 8)))) =
  Ok (foldl (register_push 16 0x11021) r (byte_bits d)).
Proof.
  intros Hr Hd. pose proof (lxor_shiftr_u8 16 r d ltac:(lia) Hr Hd).
  rewrite <-(register_lookup_pushes 16 0x11021 ltac:(lia) ltac:(lia) eq_refl _ r d
    semp_u16Crc16Table_correct Hr Hd).
  unfold register_lookup. change (8 * 2 - 8) with (16 - 8).
  by rewrite u16_id by (unfold is_u8, is_u16 in *; lia).
Qed.

Lemma crc24_step r d :
  in_register 24 r -> is_u8 d ->
  res_bind (load semp_u32Crc24Table (u32 (Z.lxor d (Z.shiftr r (8 * 1 * 3 - 8)))))
    (fun v => Ok (Z.land (u32 (Z.lxor v (u32 (Z.shiftl r 8)))) 0x00FFFFFF)) =
  Ok (foldl (register_push 24 0x1864CFB) r (byte_bits d)).
Proof.
  intros Hr Hd. pose proof (lxor_shiftr_u8 24 r d ltac:(lia) Hr Hd) as Hi.
  rewrite <-(register_lookup_pushes 24 0x1864CFB ltac:(lia) ltac:(lia) eq_refl _ r d
    semp_u32Crc24Table_correct Hr Hd).
  unfold register_lookup. change (8 * 1 * 3 - 8) with (24 - 8).
  rewrite (u32_id (Z.lxor d _)) by auto with width.
  destruct (load _ _) as [v|]; [|done]. cbn [res_bind]. f_equal.
  rewrite (u32_id (Z.shiftl r 8)), land_24; [|unfold is_u32, in_register in *; rewrite Z.shiftl_mul_pow2; lia].
  apply Z.mod_mod_divide. by exists 256.
Qed.

Lemma crc32_step r d :
  in_register 32 r -> is_u8 d ->
  res_bind (load semp_u32Crc32Table (u32 (Z.lxor d (Z.shiftr r (8 * 4 - 8)))))
    (fun v => Ok (u32 (Z.lxor v (u32 (Z.shiftl r 8))))) =
  Ok (foldl (register_push 32 0x104C11DB7) r (byte_bits d)).
Proof.
  intros Hr Hd. pose proof (lxor_shiftr_u8 32 r d ltac:(lia) Hr Hd) as Hi.
  rewrite <-(register_lookup_pushes 32 0x104C11DB7 ltac:(lia) ltac:(lia) eq_refl _ r d
    semp_u32Crc32Table_correct Hr Hd).
  unfold register_lookup. change (8 * 4 - 8) with (32 - 8).
  rewrite (u32_id (Z.lxor d _)) by auto with width.
  destruct (load _ _) as [v|]; [|done]. cbn [res_bind]. f_equal.
  unfold u32. change 0x100000000 with (2 ^ 32). rewrite <-!Z.land_ones by lia.
  apply Z.bits_inj'. intros k Hk. rewrite !Z.land_spec, !Z.lxor_spec, Z.land_spec.
  by destruct (Z.testbit (Z.ones 32) k); rewrite ?andb_true_r, ?andb_false_r.
Qed.

Lemma ccitt_step c d :
  is_u16 c -> is_u8 d ->
  semp_ccitt_crc_update c d = Ok (foldl (register_push 16 0x11021) c (byte_bits d)).
Proof.
  intros Hr Hd. pose proof (lxor_shiftr_u8 16 c d ltac:(lia) Hr Hd) as Hi.
  rewrite <-(register_lookup_pushes 16 0x11021 ltac:(lia) ltac:(lia) eq_refl _ c d
    semp_ccitt_crc_table_correct Hr Hd).
  unfold semp_ccitt_crc_update, register_lookup. rewrite (Z.lxor_comm (Z.shiftr c 8)).
  change (16 - 8) with 8 in *. rewrite land_ff.
  fold (u8 (Z.lxor d (Z.shiftr c 8))). by rewrite !(u8_id (Z.lxor d _)) by done.
Qed.

(** ** The functions *)

(** The messages of the same number of bytes whose bits differ only within [n]
    neighbouring positions. *)
Definition burst (n : nat) (m1 m2 : list Z) : Prop :=
  exists before x y after,
    bits m1 = before ++ x ++ after /\ bits m2 = before ++ y ++ after /\
    length x = length y /\ (length x <= n)%nat /\ x <> y.

Lemma semp_uSpartnCrc4_ref msg size :
  0 <= size <= Z.of_nat (length msg) -> bytes msg ->
  semp_uSpartnCrc4 msg size = Ok (crc4_ref (take (Z.to_nat size) msg)).
Proof.
  intros Hs Hm. unfold semp_uSpartnCrc4, crc4_ref.
  erewrite (crc_loop_take _ (fun c d => foldl nibble_push c (rev (byte_bits d))) (fun r => 0 <= r < 16));
    [|intros; by apply crc4_step|intros; by apply crc4_step|done|done|lia].
  f_equal. generalize 0. induction (take _ _) as [|d l IH]; intros c; [done|].
  cbn [foldl]. rewrite IH. change ((d :: l) ≫= _) with (rev (byte_bits d) ++ (l ≫= (fun b => rev (byte_bits b)))).
  by rewrite foldl_app.
Qed.

Lemma semp_uSpartnCrc8_ref msg size :
  0 <= size <= Z.of_nat (length msg) -> bytes msg ->
  semp_uSpartnCrc8 msg size = Ok (crc8_ref (take (Z.to_nat size) msg)).
Proof.
  intros Hs Hm. unfold semp_uSpartnCrc8, crc8_ref, register_ref. rewrite <-foldl_bits.
  apply (crc_loop_take _ _ (in_register 8)); [|..|done|done|unfold in_register; lia]; intros r d Hr Hd.
  - by apply crc8_step.
  - by apply pushes_range.
Qed.

Lemma semp_uSpartnCrc16_ref msg size :
  0 <= size <= Z.of_nat (length msg) -> bytes msg ->
  semp_uSpartnCrc16 msg size = Ok (crc16_ref 0 (take (Z.to_nat size) msg)).
Proof.
  intros Hs Hm. unfold semp_uSpartnCrc16, crc16_ref, register_ref. rewrite <-foldl_bits.
  apply (crc_loop_take _ _ (in_register 16)); [|..|done|done|unfold in_register; lia]; intros r d Hr Hd.
  - by apply crc16_step.
  - by apply pushes_range.
Qed.

Lemma semp_uSpartnCrc24_ref msg size :
  0 <= size <= Z.of_nat (length msg) -> bytes msg ->
  semp_uSpartnCrc24 msg size = Ok (crc24_ref (take (Z.to_nat size) msg)).
Proof.
  intros Hs Hm. unfold semp_uSpartnCrc24, crc24_ref, register_ref. rewrite <-foldl_bits.
  apply (crc_loop_take _ _ (in_register 24)); [|..|done|done|unfold in_register; lia]; intros r d Hr Hd.
  - by apply crc24_step.
  - by apply pushes_range.
Qed.

Lemma semp_uSpartnCrc32_ref msg size :
  0 <= size <= Z.of_nat (length msg) -> bytes msg ->
  semp_uSpartnCrc32 msg size = Ok (crc32_forward_ref (take (Z.to_nat size) msg)).
Proof.
  intros Hs Hm. unfold semp_uSpartnCrc32, crc32_forward_ref.
  assert (in_register 32 0xFFFFFFFF) as H1 by (unfold in_register; lia).
  erewrite (crc_loop_take _ _ (in_register 32)); [cbn [res_bind]|..|done|done|done]; cycle 1.
  { intros r d Hr Hd. by apply crc32_step. }
  { intros r d Hr Hd. by apply pushes_range. }
  rewrite foldl_bits. f_equal. apply u32_id, lxor_u32; [|done].
  by apply (pushes_range 32 0x104C11DB7).
Qed.

(** C31: Each of the five SPARTN checks reads the first [size] bytes of the
    message and nothing else, and returns the bit-serial check of its
    polynomial: x^4+x^3+1 least significant bit first, x^8+x^2+x+1, CCITT,
    CRC-24Q, and CRC-32 with the register and the result complemented. *)
Theorem spartn_checks_match_references msg size :
  0 <= size <= Z.of_nat (length msg) -> bytes msg ->
  let data := take (Z.to_nat size) msg in
  semp_uSpartnCrc4 msg size = Ok (crc4_ref data) /\
  semp_uSpartnCrc8 msg size = Ok (crc8_ref data) /\
  semp_uSpartnCrc16 msg size = Ok (crc16_ref 0 data) /\
  semp_uSpartnCrc24 msg size = Ok (crc24_ref data) /\
  semp_uSpartnCrc32 msg size = Ok (crc32_forward_ref data).
Proof.
  intros Hs Hm data. repeat apply conj; [by apply semp_uSpartnCrc4_ref|by apply semp_uSpartnCrc8_ref
    |by apply semp_uSpartnCrc16_ref|by apply semp_uSpartnCrc24_ref|by apply semp_uSpartnCrc32_ref].
Qed.

(** Running [semp_ccitt_crc_update] over a block is defined and gives the
    bit-serial CCITT check of the block from the register it starts with; over
    a whole message from zero it is the SPARTN CRC-16 of the message. *)
Theorem semp_ccitt_crc_update_runs c l :
  is_u16 c -> bytes l ->
  foldl (fun r d => res_bind r (fun c => semp_ccitt_crc_update c d)) (Ok c) l = Ok (crc16_ref c l) /\
  semp_uSpartnCrc16 l (Z.of_nat (length l)) = Ok (crc16_ref 0 l).
Proof.
  intros Hc Hl. split.
  - unfold crc16_ref, register_ref. rewrite <-foldl_bits. revert c Hc.
    induction Hl as [|d l Hd Hl IH]; intros c Hc; [done|].
    cbn [foldl res_bind]. rewrite ccitt_step by done. apply IH. by apply (pushes_range 16 0x11021).
  - rewrite semp_uSpartnCrc16_ref by (done || lia). by rewrite Nat2Z.id, firstn_all.
Qed.

Lemma register_ref_burst W G c n m1 m2 :
  8 <= W <= 32 -> 2 ^ W <= G < 2 ^ (W + 1) -> Z.odd G = true -> in_register W c ->
  Z.of_nat n <= W -> burst n m1 m2 -> register_ref W G c m1 <> register_ref W G c m2.
Proof.
  intros HW HG Ho Hc Hn (before & x & y & after & H1 & H2 & Hl & Hx & Hne).
  unfold register_ref. rewrite H1, H2. apply burst_changes; (done || lia).
Qed.

(** The checks detect every burst of errors as long as their register:
    messages whose bits differ only within 8, 16, 24 or 32 neighbouring
    positions have different checks. *)
Theorem spartn_checks_detect_bursts m1 m2 :
  bytes m1 -> bytes m2 ->
  let n1 := Z.of_nat (length m1) in let n2 := Z.of_nat (length m2) in
  (burst 8 m1 m2 -> semp_uSpartnCrc8 m1 n1 <> semp_uSpartnCrc8 m2 n2) /\
  (burst 16 m1 m2 -> semp_uSpartnCrc16 m1 n1 <> semp_uSpartnCrc16 m2 n2) /\
  (burst 24 m1 m2 -> semp_uSpartnCrc24 m1 n1 <> semp_uSpartnCrc24 m2 n2) /\
  (burst 32 m1 m2 -> semp_uSpartnCrc32 m1 n1 <> semp_uSpartnCrc32 m2 n2).
Proof.
  intros H1 H2 n1 n2. unfold n1, n2.
  rewrite !semp_uSpartnCrc8_ref, !semp_uSpartnCrc16_ref, !semp_uSpartnCrc24_ref, !semp_uSpartnCrc32_ref
    by (done || lia).
  rewrite !Nat2Z.id, !firstn_all. repeat apply conj; intros Hb H; injection H as H; revert H.
  1-3: by eapply register_ref_burst; [lia|lia|reflexivity|unfold in_register; lia| |exact Hb].
  unfold crc32_forward_ref. intros H. apply (f_equal (fun v => Z.lxor v 0xFFFFFFFF)) in H.
  rewrite !Z.lxor_assoc, Z.lxor_nilpotent, !Z.lxor_0_r in H. revert H.
  by eapply register_ref_burst; [lia|lia|reflexivity|unfold in_register; lia| |exact Hb].
Qed.

(** ** Witnesses *)

Lemma spartn_checks_match_references_witness :
  semp_uSpartnCrc24 [0x31; 0x32; 0x33] 2 = Ok (crc24_ref [0x31; 0x32]).
Proof.
  destruct (spartn_checks_match_references [0x31; 0x32; 0x33] 2) as (_ & _ & _ & H & _);
    [cbn; lia|by apply bytesb_spec|exact H].
Defined.

Lemma semp_ccitt_crc_update_runs_witness :
  semp_uSpartnCrc16 [0x31; 0x32] 2 = Ok (crc16_ref 0 [0x31; 0x32]).
Proof.
  destruct (semp_ccitt_crc_update_runs 0 [0x31; 0x32]) as [_ H]; [done|by apply bytesb_spec|exact H].
Defined.

Lemma spartn_checks_detect_bursts_witness :
  semp_uSpartnCrc8 [0x10; 0x20] 2 <> semp_uSpartnCrc8 [0x11; 0xA0] 2.
Proof.
  destruct (spartn_checks_detect_bursts [0x10; 0x20] [0x11; 0xA0]) as [H _];
    [by apply bytesb_spec|by apply bytesb_spec|]. apply H.
  exists [false; false; false; true; false; false; false], [false; false], [true; true],
    [false; true; false; false; false; false; false].
  repeat (apply conj; [vm_compute; (reflexivity || lia)|]). discriminate.
Defined.
