(* ===== verification/LibBinary.v ===== *)
(** * The C++ library: binary protocols with a length field

    [src/lib/Parse_UBLOX.cpp], [Parse_RTCM.cpp], [Parse_Unicore_Binary.cpp] and
    [Parse_BT.cpp]: one definition per state routine. *)
From S2P Require Import Prelude Crc LibParser LibFramework LibCrc.

Section binary.
  Context `{PT : ParserTable} `{App : Application}.

(* ------------------------------------------------------------------ *)
(** ** u-blox *)

(** [ck_a += data; ck_b += ck_a] *)
Definition ublox_checksum (data : Z) : P unit :=
  a <- pad_get ublox_ck_a;; pad_set ublox_ck_a (u8 (a + data));;
  b <- pad_get ublox_ck_b;; a <- pad_get ublox_ck_a;; pad_set ublox_ck_b (u8 (b + a)).

Definition sempUbloxCkB (data : Z) : P bool :=
  n <- gets msgLength;;
  rx_a <- buffer_at (n - 2);; a <- pad_get ublox_ck_a;;
  rx_b <- buffer_at (n - 1);; b <- pad_get ublox_ck_b;;
  let badChecksum := negb (rx_a =? a) || negb (rx_b =? b) in
  good <- (if negb badChecksum then ret true else badCrc_overrides);;
  (if (good : bool) then call_eomCallback
   else
     dbg <- gets printDebug;; name <- gets parserName;;
     sempPrintf dbg "SEMP %s: UBLOX bad checksum received 0x%02x%02x computed 0x%02x%02x"
       [AStr name; AInt rx_a; AInt rx_b; AInt a; AInt b]);;
  modify (with_msgLength 0);;
  modify (with_state fn_sempFirstByte);;
  ret false.

Definition sempUbloxCkA (data : Z) : P bool :=
  modify (with_state fn_sempUbloxCkB);; ret true.

Definition sempUbloxPayload (data : Z) : P bool :=
  n <- pad_get ublox_bytesRemaining;;
  pad_set ublox_bytesRemaining (u16 (n - 1));;
  if negb (n =? 0) then ublox_checksum data;; ret true
  else sempUbloxCkA data.

Definition sempUbloxLength2 (data : Z) : P bool :=
  ublox_checksum data;;
  n <- pad_get ublox_bytesRemaining;;
  pad_set ublox_bytesRemaining (u16 (Z.lor n (Z.shiftl data 8)));;
  modify (with_state fn_sempUbloxPayload);; ret true.

Definition sempUbloxLength1 (data : Z) : P bool :=
  ublox_checksum data;;
  pad_set ublox_bytesRemaining data;;
  modify (with_state fn_sempUbloxLength2);; ret true.

Definition sempUbloxId (data : Z) : P bool :=
  ublox_checksum data;;
  m <- pad_get ublox_message;;
  pad_set ublox_message (u16 (Z.lor m data));;
  modify (with_state fn_sempUbloxLength1);; ret true.

Definition sempUbloxClass (data : Z) : P bool :=
  pad_set ublox_ck_a data;;
  pad_set ublox_ck_b data;;
  pad_set ublox_message (u16 (Z.shiftl data 8));;
  modify (with_state fn_sempUbloxId);; ret true.

Definition sempUbloxSync2 (data : Z) : P bool :=
  if negb (data =? 0x62) then
    dbg <- gets printDebug;; name <- gets parserName;;
    sempPrintf dbg "SEMP %s: UBLOX invalid second sync byte" [AStr name];;
    sempFirstByte data
  else modify (with_state fn_sempUbloxClass);; ret true.

Definition sempUbloxPreamble (data : Z) : P bool :=
  if negb (data =? 0xb5) then ret false
  else modify (with_state fn_sempUbloxSync2);; ret true.

(* ------------------------------------------------------------------ *)
(** ** RTCM *)

Definition sempRtcmComputeCrc24q (data : Z) : P Z :=
  crc <- gets crc;; ret (crc24q_update crc data).

Definition sempRtcmReadCrc (data : Z) : P bool :=
  n <- pad_get rtcm_bytesRemaining;;
  pad_set rtcm_bytesRemaining (u16 (n - 1));;
  n <- pad_get rtcm_bytesRemaining;;
  if 0 <? n then ret true
  else
    crc <- gets crc;;
    good <- (if crc =? 0 then ret true else badCrc_overrides);;
    (if (good : bool) then call_eomCallback
     else
       dbg <- gets printDebug;; name <- gets parserName;;
       message <- pad_get rtcm_message;; len <- gets msgLength;;
       b3 <- buffer_at (len - 3);; b2 <- buffer_at (len - 2);; b1 <- buffer_at (len - 1);;
       c <- pad_get rtcm_crc;;
       sempPrintf dbg
         "SEMP: %s RTCM %d, 0x%04x (%d) bytes, bad CRC, received %02x %02x %02x, computed: %02x %02x %02x"
         [AStr name; AInt message; AInt len; AInt len; AInt b3; AInt b2; AInt b1;
          AInt (Z.land (Z.shiftr c 16) 0xff); AInt (Z.land (Z.shiftr c 8) 0xff); AInt (Z.land c 0xff)]);;
    modify (with_state fn_sempFirstByte);;
    ret false.

Definition sempRtcmReadData (data : Z) : P bool :=
  n <- pad_get rtcm_bytesRemaining;;
  pad_set rtcm_bytesRemaining (u16 (n - 1));;
  n <- pad_get rtcm_bytesRemaining;;
  when (n <=? 0)
    (c <- gets crc;; pad_set rtcm_crc c;;
     pad_set rtcm_bytesRemaining 3;;
     modify (with_state fn_sempRtcmReadCrc));;
  ret true.

Definition sempRtcmReadMessage2 (data : Z) : P bool :=
  m <- pad_get rtcm_message;;
  pad_set rtcm_message (u16 (Z.lor m (Z.shiftr data 4)));;
  n <- pad_get rtcm_bytesRemaining;;
  pad_set rtcm_bytesRemaining (u16 (n - 1));;
  modify (with_state fn_sempRtcmReadData);; ret true.

Definition sempRtcmReadMessage1 (data : Z) : P bool :=
  pad_set rtcm_message (u16 (Z.shiftl data 4));;
  n <- pad_get rtcm_bytesRemaining;;
  pad_set rtcm_bytesRemaining (u16 (n - 1));;
  modify (with_state fn_sempRtcmReadMessage2);; ret true.

Definition sempRtcmReadLength2 (data : Z) : P bool :=
  n <- pad_get rtcm_bytesRemaining;;
  pad_set rtcm_bytesRemaining (u16 (Z.lor n data));;
  modify (with_state fn_sempRtcmReadMessage1);; ret true.

Definition sempRtcmReadLength1 (data : Z) : P bool :=
  if negb (Z.land data (Z.lnot 3) =? 0) then sempFirstByte data
  else
    pad_set rtcm_bytesRemaining (u16 (Z.shiftl data 8));;
    modify (with_state fn_sempRtcmReadLength2);; ret true.

Definition sempRtcmPreamble (data : Z) : P bool :=
  if data =? 0xd3 then
    modify (with_computeCrc (Some fn_sempRtcmComputeCrc24q));;
    c <- sempRtcmComputeCrc24q data;;
    modify (with_crc c);;
    modify (with_state fn_sempRtcmReadLength1);; ret true
  else ret false.

(* ------------------------------------------------------------------ *)
(** ** Frames with a CRC-32 and a length in the header

    The Unicore and the Bluetooth routines. *)

(** [SEMP_UNICORE_HEADER] *)
Definition sizeof_SEMP_UNICORE_HEADER : Z := 24.
Definition unicore_header_messageLength : member := Member 6 2.

Definition sempUnicoreBinaryComputeCrc (data : Z) : P Z :=
  crc <- gets crc;; ret (crc32_lookup LibCrc.semp_crc32Table crc data).

(** The received and the computed check in a debug line. *)
Definition print_bad_crc (computed : member) : P unit :=
  dbg <- gets printDebug;; name <- gets parserName;;
  len <- gets msgLength;;
  b4 <- buffer_at (len - 4);; b3 <- buffer_at (len - 3);;
  b2 <- buffer_at (len - 2);; b1 <- buffer_at (len - 1);;
  c <- pad_get computed;;
  sempPrintf dbg
    "SEMP: %s Unicore, bad CRC, received %02x %02x %02x %02x, computed: %02x %02x %02x %02x"
    [AStr name; AInt b4; AInt b3; AInt b2; AInt b1;
     AInt (Z.land c 0xff); AInt (Z.land (Z.shiftr c 8) 0xff);
     AInt (Z.land (Z.shiftr c 16) 0xff); AInt (Z.land (Z.shiftr c 24) 0xff)].

Definition sempUnicoreBinaryReadCrc (data : Z) : P bool :=
  n <- pad_get unicoreBinary_bytesRemaining;;
  pad_set unicoreBinary_bytesRemaining (u16 (n - 1));;
  n <- pad_get unicoreBinary_bytesRemaining;;
  if negb (n =? 0) then ret true
  else
    crc <- gets crc;;
    good <- (if crc =? 0 then ret true else badCrc_overrides);;
    (if (good : bool) then call_eomCallback else print_bad_crc unicoreBinary_crc);;
    modify (with_state fn_sempFirstByte);;
    ret false.

Definition sempUnicoreBinaryReadData (data : Z) : P bool :=
  n <- pad_get unicoreBinary_bytesRemaining;;
  pad_set unicoreBinary_bytesRemaining (u16 (n - 1));;
  n <- pad_get unicoreBinary_bytesRemaining;;
  when (n =? 0)
    (pad_set unicoreBinary_bytesRemaining 4;;
     c <- gets crc;; pad_set unicoreBinary_crc c;;
     modify (with_state fn_sempUnicoreBinaryReadCrc));;
  ret true.

Definition sempUnicoreBinaryReadHeader (data : Z) : P bool :=
  n <- gets msgLength;;
  when (sizeof_SEMP_UNICORE_HEADER <=? n)
    (len <- header_get unicore_header_messageLength;;
     pad_set unicoreBinary_bytesRemaining len;;
     modify (with_state fn_sempUnicoreBinaryReadData));;
  ret true.

Definition sempUnicoreBinaryBinarySync3 (data : Z) : P bool :=
  if negb (data =? 0xB5) then sempFirstByte data
  else modify (with_state fn_sempUnicoreBinaryReadHeader);; ret true.

Definition sempUnicoreBinaryBinarySync2 (data : Z) : P bool :=
  if negb (data =? 0x44) then sempFirstByte data
  else modify (with_state fn_sempUnicoreBinaryBinarySync3);; ret true.

Definition sempUnicoreBinaryPreamble (data : Z) : P bool :=
  if negb (data =? 0xAA) then ret false
  else
    modify (with_crc 0);;
    modify (with_computeCrc (Some fn_sempUnicoreBinaryComputeCrc));;
    c <- sempUnicoreBinaryComputeCrc data;;
    modify (with_crc c);;
    modify (with_state fn_sempUnicoreBinaryBinarySync2);; ret true.

(** [SEMP_Bluetooth_HEADER] *)
Definition sizeof_SEMP_Bluetooth_HEADER : Z := 20.
Definition bluetooth_header_messageLength : member := Member 12 2.

Definition sempBluetoothComputeCrc (data : Z) : P Z :=
  crc <- gets crc;; ret (crc32_lookup LibCrc.semp_crc32Table crc data).

Definition sempBluetoothReadCrc (data : Z) : P bool :=
  n <- pad_get bluetooth_bytesRemaining;;
  pad_set bluetooth_bytesRemaining (u16 (n - 1));;
  n <- pad_get bluetooth_bytesRemaining;;
  if negb (n =? 0) then ret true
  else
    crc <- gets crc;;
    good <- (if crc =? 0 then ret true else badCrc_overrides);;
    (if (good : bool) then call_eomCallback else print_bad_crc bluetooth_crc);;
    modify (with_state fn_sempFirstByte);;
    ret false.

Definition sempBluetoothReadData (data : Z) : P bool :=
  n <- pad_get bluetooth_bytesRemaining;;
  pad_set bluetooth_bytesRemaining (u16 (n - 1));;
  n <- pad_get bluetooth_bytesRemaining;;
  when (n =? 0)
    (pad_set bluetooth_bytesRemaining 4;;
     c <- gets crc;; modify (with_crc (Z.lxor c 0xFFFFFFFF));;
     c <- gets crc;; pad_set bluetooth_crc c;;
     modify (with_state fn_sempBluetoothReadCrc));;
  ret true.

Definition sempBluetoothReadHeader (data : Z) : P bool :=
  n <- gets msgLength;;
  when (sizeof_SEMP_Bluetooth_HEADER <=? n)
    (len <- header_get bluetooth_header_messageLength;;
     pad_set bluetooth_bytesRemaining len;;
     modify (with_state fn_sempBluetoothReadData));;
  ret true.

Definition sempBluetoothSync3 (data : Z) : P bool :=
  if negb (data =? 0x18) then sempFirstByte data
  else modify (with_state fn_sempBluetoothReadHeader);; ret true.

Definition sempBluetoothSync2 (data : Z) : P bool :=
  if negb (data =? 0x44) then sempFirstByte data
  else modify (with_state fn_sempBluetoothSync3);; ret true.

Definition sempBluetoothPreamble (data : Z) : P bool :=
  if negb (data =? 0xAA) then ret false
  else
    modify (with_crc 0xFFFFFFFF);;
    modify (with_computeCrc (Some fn_sempBluetoothComputeCrc));;
    c <- sempBluetoothComputeCrc data;;
    modify (with_crc c);;
    modify (with_state fn_sempBluetoothSync2);; ret true.

End binary.
