(* ===== verification/LibText.v ===== *)
(** * The C++ library: sentences

    [src/lib/Parse_NMEA.cpp] and [src/lib/Parse_Unicore_Hash.cpp]: one definition
    per state routine. *)
From S2P Require Import Prelude Crc LibParser LibFramework LibCrc.

(** [((upper < 'A') || (upper > 'Z')) && ((data < '0') || (data > '9'))] with
    [upper = data & ~0x20] *)
Definition invalid_name_character (data : Z) : bool :=
  let upper := u8 (Z.land data (Z.lnot 0x20)) in
  ((upper <? 0x41) || (0x5A <? upper)) && ((data <? 0x30) || (0x39 <? data)).

Section text.
  Context `{PT : ParserTable} `{App : Application}.

(* ------------------------------------------------------------------ *)
(** ** NMEA *)

(** Room for the asterisk, checksum, CR, LF and terminator. *)
Definition NMEA_BUFFER_OVERHEAD : Z := 1 + 2 + 2 + 1.

Definition sempNmeaValidateChecksum : P unit :=
  n <- gets msgLength;;
  c2 <- buffer_at (n - 2);;
  high <- shift_left_int (sempAsciiToNibble c2) 4;;
  c1 <- buffer_at (n - 1);;
  let checksum := Z.lor high (sempAsciiToNibble c1) in
  crc <- gets crc;;
  good <- (if u32 checksum =? crc then ret true else badCrc_overrides);;
  if (good : bool) then
    buffer_push 0x0D;;
    buffer_push 0x0A;;
    n <- gets msgLength;; buffer_set n 0;;
    call_eomCallback
  else
    dbg <- gets printDebug;; name <- gets parserName;;
    sentence <- gets (pad_array nmea_sentenceName SEMP_NMEA_SENTENCE_NAME_BYTES);;
    sempPrintf dbg
      "SEMP: %s NMEA %s, 0x%04x (%d) bytes, bad checksum, received 0x%c%c, computed: 0x%02x"
      [AStr name; AChars sentence; AInt n; AInt n; AInt c2; AInt c1; AInt crc].

Definition sempNmeaLineFeed (data : Z) : P bool :=
  n <- gets msgLength;; modify (with_msgLength (u16 (n - 1)));;
  if data =? 0x0A then
    sempNmeaValidateChecksum;;
    modify (with_state fn_sempFirstByte);; ret true
  else
    sempNmeaValidateChecksum;;
    sempFirstByte data.

Definition sempNmeaCarriageReturn (data : Z) : P bool :=
  n <- gets msgLength;; modify (with_msgLength (u16 (n - 1)));;
  if data =? 0x0D then
    sempNmeaValidateChecksum;;
    modify (with_state fn_sempFirstByte);; ret true
  else
    sempNmeaValidateChecksum;;
    sempFirstByte data.

Definition sempNmeaLineTermination (data : Z) : P bool :=
  n <- gets msgLength;; modify (with_msgLength (u16 (n - 1)));;
  if data =? 0x0D then modify (with_state fn_sempNmeaLineFeed);; ret true
  else if data =? 0x0A then modify (with_state fn_sempNmeaCarriageReturn);; ret true
  else
    sempNmeaValidateChecksum;;
    sempFirstByte data.

Definition sempNmeaChecksumByte2 (data : Z) : P bool :=
  n <- gets msgLength;; c <- buffer_at (n - 1);;
  if 0 <=? sempAsciiToNibble c then
    modify (with_state fn_sempNmeaLineTermination);; ret true
  else
    dbg <- gets printDebug;; name <- gets parserName;;
    sempPrintf dbg "SEMP %s: NMEA invalid second checksum character" [AStr name];;
    sempFirstByte data.

Definition sempNmeaChecksumByte1 (data : Z) : P bool :=
  n <- gets msgLength;; c <- buffer_at (n - 1);;
  if 0 <=? sempAsciiToNibble c then
    modify (with_state fn_sempNmeaChecksumByte2);; ret true
  else
    dbg <- gets printDebug;; name <- gets parserName;;
    sempPrintf dbg "SEMP %s: NMEA invalid first checksum character" [AStr name];;
    sempFirstByte data.

Definition sempNmeaFindAsterisk (data : Z) : P bool :=
  if data =? 0x2A then
    modify (with_state fn_sempNmeaChecksumByte1);; ret true
  else
    c <- gets crc;; modify (with_crc (Z.lxor c data));;
    n <- gets msgLength;; len <- gets bufferLength;;
    if len <? u32 (n + NMEA_BUFFER_OVERHEAD) then
      dbg <- gets printDebug;; name <- gets parserName;;
      sempPrintf dbg "SEMP %s: NMEA sentence too long, increase the buffer size > %d"
        [AStr name; AInt len];;
      sempFirstByte data
    else ret true.

Definition sempNmeaFindFirstComma (data : Z) : P bool :=
  c <- gets crc;; modify (with_crc (Z.lxor c data));;
  k <- pad_get nmea_sentenceNameLength;;
  if negb (data =? 0x2C) || (k =? 0) then
    if invalid_name_character data then
      dbg <- gets printDebug;; name <- gets parserName;;
      sempPrintf dbg "SEMP %s: NMEA invalid sentence name character 0x%02x"
        [AStr name; AInt data];;
      sempFirstByte data
    else if k =? Z.of_nat SEMP_NMEA_SENTENCE_NAME_BYTES - 1 then
      dbg <- gets printDebug;; name <- gets parserName;;
      sempPrintf dbg "SEMP %s: NMEA sentence name > %ld characters"
        [AStr name; AInt (Z.of_nat SEMP_NMEA_SENTENCE_NAME_BYTES - 1)];;
      sempFirstByte data
    else
      pad_set nmea_sentenceNameLength (u8 (k + 1));;
      pad_array_set nmea_sentenceName SEMP_NMEA_SENTENCE_NAME_BYTES k data;;
      ret true
  else
    pad_set nmea_sentenceNameLength (u8 (k + 1));;
    pad_array_set nmea_sentenceName SEMP_NMEA_SENTENCE_NAME_BYTES k 0;;
    modify (with_state fn_sempNmeaFindAsterisk);;
    ret true.

Definition sempNmeaPreamble (data : Z) : P bool :=
  if negb (data =? 0x24) then ret false
  else
    pad_set nmea_sentenceNameLength 0;;
    modify (with_state fn_sempNmeaFindFirstComma);; ret true.

(* ------------------------------------------------------------------ *)
(** ** Unicore hash *)

Fixpoint starts_with (needle hay : list Z) : bool :=
  match needle, hay with
  | [], _ => true
  | a :: needle, b :: hay => (a =? b) && starts_with needle hay
  | _ :: _, [] => false
  end.

(** [strstr(hay, needle) != NULL] *)
Fixpoint strstr (hay needle : list Z) : bool :=
  starts_with needle hay ||
  match hay with [] => false | _ :: hay => strstr hay needle end.

(** The characters of MODE. *)
Definition str_MODE : list Z := [0x4D; 0x4F; 0x44; 0x45].

(** Room for CR, LF and terminator. *)
Definition UNICORE_HASH_BUFFER_OVERHEAD : Z := 1 + 1 + 1.

(** The [do ... while] loop that computes the check from the byte at index [i]
    on, until the next byte is an asterisk; returns the check and the index of
    the asterisk.  Each turn reads one byte further, so the length of the
    buffer bounds the turns. *)
Fixpoint unicore_hash_crc_loop (fuel : nat) (i crc : Z) : P (Z * Z) :=
  match fuel with
  | O => undefined OutOfBounds
  | S fuel =>
      d <- buffer_at i;;
      let crc := crc32_lookup LibCrc.semp_crc32Table crc d in
      d <- buffer_at (i + 1);;
      if d =? 0x2A then ret (crc, i + 1)
      else unicore_hash_crc_loop fuel (i + 1) crc
  end.

(** [crcRx |= sempAsciiToNibble( *++data) << n] for the shifts [n] in turn; the
    last digit is not shifted. *)
Fixpoint unicore_hash_read_crc (shifts : list Z) (i crcRx : Z) : P Z :=
  d <- buffer_at i;;
  match shifts with
  | [] => ret (u32 (Z.lor crcRx (u32 (sempAsciiToNibble d))))
  | n :: shifts =>
      v <- shift_left_int (sempAsciiToNibble d) n;;
      unicore_hash_read_crc shifts (i + 1) (u32 (Z.lor crcRx (u32 v)))
  end.

Definition sempUnicoreHashValidatCrc : P unit :=
  b <- gets buffer;;
  r <- unicore_hash_crc_loop (length b) 1 0;;
  let '(crc, i) := r in
  crcRx <- unicore_hash_read_crc [28; 24; 20; 16; 12; 8; 4] (i + 1) 0;;
  n <- gets msgLength;;
  if negb (crc =? crcRx) then
    dbg <- gets printDebug;; name <- gets parserName;;
    sentence <- gets (pad_array unicoreHash_sentenceName SEMP_UNICORE_HASH_SENTENCE_NAME_BYTES);;
    sempPrintf dbg
      "SEMP: %s Unicore hash (#) %s, 0x%04x (%d) bytes, bad CRC, received 0x%08x, computed: 0x%08x"
      [AStr name; AChars sentence; AInt n; AInt n; AInt crcRx; AInt crc]
  else
    len <- gets bufferLength;;
    if len <? u32 (n + UNICORE_HASH_BUFFER_OVERHEAD) then
      dbg <- gets printDebug;; name <- gets parserName;;
      sempPrintf dbg "SEMP %s: Unicore hash (#) sentence too long, increase the buffer size >= %d"
        [AStr name; AInt (n + UNICORE_HASH_BUFFER_OVERHEAD)];;
      modify (with_state fn_sempFirstByte)
    else
      buffer_push 0x0D;;
      buffer_push 0x0A;;
      n <- gets msgLength;; buffer_set n 0;;
      call_eomCallback.

Definition sempUnicoreHashValidateChecksum : P unit :=
  k <- pad_get unicoreHash_checksumBytes;;
  if 2 <? k then sempUnicoreHashValidatCrc
  else
    n <- gets msgLength;;
    c2 <- buffer_at (n - 2);;
    high <- shift_left_int (sempAsciiToNibble c2) 4;;
    c1 <- buffer_at (n - 1);;
    let checksum := u32 (Z.lor high (sempAsciiToNibble c1)) in
    crc <- gets crc;;
    good <- (if checksum =? crc then ret true else badCrc_overrides);;
    if (good : bool) then
      buffer_push 0x0D;;
      buffer_push 0x0A;;
      n <- gets msgLength;; buffer_set n 0;;
      call_eomCallback
    else
      dbg <- gets printDebug;; name <- gets parserName;;
      sentence <- gets (pad_array unicoreHash_sentenceName SEMP_UNICORE_HASH_SENTENCE_NAME_BYTES);;
      sempPrintf dbg
        "SEMP: %s Unicore hash (#) %s, 0x%04x (%d) bytes, bad checksum, received 0x%c%c, computed: 0x%02x"
        [AStr name; AChars sentence; AInt n; AInt n; AInt c2; AInt c1; AInt crc].

Definition sempUnicoreHashLineFeed (data : Z) : P bool :=
  n <- gets msgLength;; modify (with_msgLength (u16 (n - 1)));;
  if data =? 0x0A then
    sempUnicoreHashValidateChecksum;;
    modify (with_state fn_sempFirstByte);; ret true
  else
    sempUnicoreHashValidateChecksum;;
    sempFirstByte data.

Definition sempUnicoreHashCarriageReturn (data : Z) : P bool :=
  n <- gets msgLength;; modify (with_msgLength (u16 (n - 1)));;
  if data =? 0x0D then
    sempUnicoreHashValidateChecksum;;
    modify (with_state fn_sempFirstByte);; ret true
  else
    sempUnicoreHashValidateChecksum;;
    sempFirstByte data.

Definition sempUnicoreHashLineTermination (data : Z) : P bool :=
  n <- gets msgLength;; modify (with_msgLength (u16 (n - 1)));;
  if data =? 0x0D then modify (with_state fn_sempUnicoreHashLineFeed);; ret true
  else if data =? 0x0A then modify (with_state fn_sempUnicoreHashCarriageReturn);; ret true
  else
    sempUnicoreHashValidateChecksum;;
    sempFirstByte data.

Definition sempUnicoreHashChecksumByte (data : Z) : P bool :=
  k <- pad_get unicoreHash_bytesRemaining;;
  pad_set unicoreHash_bytesRemaining (u8 (k - 1));;
  n <- gets msgLength;; c <- buffer_at (n - 1);;
  k <- pad_get unicoreHash_bytesRemaining;;
  if sempAsciiToNibble c <? 0 then
    dbg <- gets printDebug;; name <- gets parserName;; total <- pad_get unicoreHash_checksumBytes;;
    sempPrintf dbg "SEMP %s: Unicore hash (#) invalid checksum character %d"
      [AStr name; AInt (total - k)];;
    sempFirstByte data
  else
    when (k =? 0) (modify (with_state fn_sempUnicoreHashLineTermination));;
    ret true.

Definition sempUnicoreHashFindAsterisk (data : Z) : P bool :=
  if data =? 0x2A then
    k <- pad_get unicoreHash_checksumBytes;;
    pad_set unicoreHash_bytesRemaining k;;
    modify (with_state fn_sempUnicoreHashChecksumByte);; ret true
  else
    c <- gets crc;; modify (with_crc (Z.lxor c data));;
    n <- gets msgLength;; len <- gets bufferLength;;
    if len <? u32 (n + UNICORE_HASH_BUFFER_OVERHEAD) then
      dbg <- gets printDebug;; name <- gets parserName;;
      sempPrintf dbg "SEMP %s: Unicore hash (#) sentence too long, increase the buffer size > %d"
        [AStr name; AInt len];;
      sempFirstByte data
    else ret true.

Definition sempUnicoreHashFindFirstComma (data : Z) : P bool :=
  c <- gets crc;; modify (with_crc (Z.lxor c data));;
  k <- pad_get unicoreHash_sentenceNameLength;;
  if negb (data =? 0x2C) || (k =? 0) then
    if invalid_name_character data then
      dbg <- gets printDebug;; name <- gets parserName;;
      sempPrintf dbg "SEMP %s: Unicore hash (#) invalid sentence name character 0x%02x"
        [AStr name; AInt data];;
      sempFirstByte data
    else if k =? Z.of_nat SEMP_UNICORE_HASH_SENTENCE_NAME_BYTES - 1 then
      dbg <- gets printDebug;; name <- gets parserName;;
      sempPrintf dbg "SEMP %s: Unicore hash (#) sentence name > %ld characters"
        [AStr name; AInt (Z.of_nat SEMP_UNICORE_HASH_SENTENCE_NAME_BYTES - 1)];;
      sempFirstByte data
    else
      pad_set unicoreHash_sentenceNameLength (u8 (k + 1));;
      pad_array_set unicoreHash_sentenceName SEMP_UNICORE_HASH_SENTENCE_NAME_BYTES k data;;
      ret true
  else
    pad_set unicoreHash_sentenceNameLength (u8 (k + 1));;
    pad_array_set unicoreHash_sentenceName SEMP_UNICORE_HASH_SENTENCE_NAME_BYTES k 0;;
    pad_set unicoreHash_checksumBytes 8;;
    chars <- gets (pad_array unicoreHash_sentenceName SEMP_UNICORE_HASH_SENTENCE_NAME_BYTES);;
    name <- lift (c_string chars);;
    when (strstr name str_MODE) (pad_set unicoreHash_checksumBytes 2);;
    modify (with_state fn_sempUnicoreHashFindAsterisk);;
    ret true.

Definition sempUnicoreHashPreamble (data : Z) : P bool :=
  if negb (data =? 0x23) then ret false
  else
    pad_set unicoreHash_sentenceNameLength 0;;
    modify (with_state fn_sempUnicoreHashFindFirstComma);; ret true.

End text.
