(* ===== verification/LibSbf.v ===== *)
(** * The C++ library: Septentrio SBF

    [src/lib/Parse_SBF.cpp]: one definition per state routine, the registration
    of the invalid-data callback, and the readers of a received block. *)
From S2P Require Import Prelude LibParser LibFramework LibCrc.

Section sbf.
  Context `{PT : ParserTable} `{App : Application} `{Plat : Platform}.

(** [if (scratchPad->sbf.invalidDataCallback)
        scratchPad->sbf.invalidDataCallback(parse);] *)
Definition call_invalidDataCallback : P unit :=
  v <- pad_get sbf_invalidDataCallback;;
  if v =? 0 then ret tt
  else match routine_at v with
       | Some f => p <- gets id;; emit (EvInvalid f p)
       | None => undefined WildCall
       end.

(** [computedCRC = semp_ccitt_crc_update(computedCRC, data)] *)
Definition update_computedCRC (data : Z) : P unit :=
  c <- pad_get sbf_computedCRC;;
  c <- lift (semp_ccitt_crc_update c data);;
  pad_set sbf_computedCRC c.

Definition sempSbfReadBytes (data : Z) : P bool :=
  update_computedCRC data;;
  n <- pad_get sbf_bytesRemaining;;
  pad_set sbf_bytesRemaining (u16 (n - 1));;
  n <- pad_get sbf_bytesRemaining;;
  if n =? 0 then
    modify (with_state fn_sempFirstByte);;
    computed <- pad_get sbf_computedCRC;; expected <- pad_get sbf_expectedCRC;;
    good <- (if computed =? expected then ret true else badCrc_overrides);;
    (if (good : bool) then call_eomCallback
     else
       dbg <- gets printDebug;; name <- gets parserName;;
       i <- pad_get sbf_sbfID;; len <- gets msgLength;;
       sempPrintf dbg "SEMP: %s SBF %d, 0x%04x (%d) bytes, bad CRC"
         [AStr name; AInt i; AInt len; AInt len];;
       call_invalidDataCallback);;
    ret false
  else ret true.

Definition sempSbfLengthMSB (data : Z) : P bool :=
  update_computedCRC data;;
  n <- pad_get sbf_length;;
  pad_set sbf_length (u16 (Z.lor n (Z.shiftl data 8)));;
  n <- pad_get sbf_length;;
  if n mod 4 =? 0 then
    pad_set sbf_bytesRemaining (u16 (n - 8));;
    modify (with_state fn_sempSbfReadBytes);;
    ret true
  else
    dbg <- gets printDebug;; name <- gets parserName;; len <- gets msgLength;;
    sempPrintf dbg "SEMP: %s SBF, 0x%04x (%d) bytes, length not modulo 4"
      [AStr name; AInt len; AInt len];;
    call_invalidDataCallback;;
    modify (with_state fn_sempFirstByte);;
    ret false.

Definition sempSbfLengthLSB (data : Z) : P bool :=
  update_computedCRC data;;
  pad_set sbf_length data;;
  modify (with_state fn_sempSbfLengthMSB);; ret true.

Definition sempSbfID2 (data : Z) : P bool :=
  update_computedCRC data;;
  i <- pad_get sbf_sbfID;;
  pad_set sbf_sbfID (u16 (Z.lor i (Z.shiftl data 8)));;
  i <- pad_get sbf_sbfID;;
  pad_set sbf_sbfID (Z.land i 0x1FFF);;
  pad_set sbf_sbfIDrev (Z.shiftr data 5);;
  modify (with_state fn_sempSbfLengthLSB);; ret true.

Definition sempSbfID1 (data : Z) : P bool :=
  update_computedCRC data;;
  pad_set sbf_sbfID data;;
  modify (with_state fn_sempSbfID2);; ret true.

Definition sempSbfCRC2 (data : Z) : P bool :=
  e <- pad_get sbf_expectedCRC;;
  pad_set sbf_expectedCRC (u16 (Z.lor e (Z.shiftl data 8)));;
  pad_set sbf_computedCRC 0;;
  modify (with_state fn_sempSbfID1);; ret true.

Definition sempSbfCRC1 (data : Z) : P bool :=
  pad_set sbf_expectedCRC data;;
  modify (with_state fn_sempSbfCRC2);; ret true.

Definition sempSbfPreamble2 (data : Z) : P bool :=
  if data =? 0x40 then modify (with_state fn_sempSbfCRC1);; ret true
  else
    dbg <- gets printDebug;; name <- gets parserName;; len <- gets msgLength;;
    sempPrintf dbg "SEMP: %s SBF, 0x%04x (%d) bytes, invalid preamble2"
      [AStr name; AInt len; AInt len];;
    call_invalidDataCallback;;
    modify (with_state fn_sempFirstByte);;
    ret false.

Definition sempSbfPreamble (data : Z) : P bool :=
  if data =? 0x24 then modify (with_state fn_sempSbfPreamble2);; ret true
  else call_invalidDataCallback;; ret false.

(** [sempSbfSetInvalidDataCallback(parse, invalidDataCallback)]: the address *)
Definition sempSbfSetInvalidDataCallback (invalidDataCallback : Z) : P unit :=
  pad_set sbf_invalidDataCallback invalidDataCallback.

End sbf.

(* ------------------------------------------------------------------ *)
(** ** The readers of a block *)

Definition sempSbfGetBlockNumber (p : SEMP_PARSE_STATE) : Z := get sbf_sbfID (scratchPad p).
Definition sempSbfGetBlockRevision (p : SEMP_PARSE_STATE) : Z := get sbf_sbfIDrev (scratchPad p).

Definition sempSbfGetU1 (p : SEMP_PARSE_STATE) (offset : Z) : res Z := load (buffer p) offset.

Definition sempSbfGetU2 (p : SEMP_PARSE_STATE) (offset : Z) : res Z :=
  res_bind (load (buffer p) offset) (fun data =>
  res_bind (load (buffer p) (offset + 1)) (fun d =>
  Ok (u16 (Z.lor data (Z.shiftl d 8))))).

(** [for (i...) data |= buffer[offset + i] << (8 * i)] with [n] turns left *)
Fixpoint sbf_bytes (p : SEMP_PARSE_STATE) (offset : Z) (n : nat) (i data : Z) : res Z :=
  match n with
  | O => Ok data
  | S n =>
      res_bind (load (buffer p) (offset + i)) (fun d =>
      sbf_bytes p offset n (i + 1) (Z.lor data (Z.shiftl d (8 * i))))
  end.

Definition sempSbfGetU4 (p : SEMP_PARSE_STATE) (offset : Z) : res Z := sbf_bytes p offset 4 0 0.
Definition sempSbfGetU8 (p : SEMP_PARSE_STATE) (offset : Z) : res Z := sbf_bytes p offset 8 0 0.

(** The value of a [w]-bit pattern read as a signed integer. *)
Definition signed (w v : Z) : Z := if v <? 2 ^ (w - 1) then v else v - 2 ^ w.

Definition sempSbfGetI1 (p : SEMP_PARSE_STATE) (offset : Z) : res Z :=
  res_bind (sempSbfGetU1 p offset) (fun v => Ok (signed 8 v)).
Definition sempSbfGetI2 (p : SEMP_PARSE_STATE) (offset : Z) : res Z :=
  res_bind (sempSbfGetU2 p offset) (fun v => Ok (signed 16 v)).
Definition sempSbfGetI4 (p : SEMP_PARSE_STATE) (offset : Z) : res Z :=
  res_bind (sempSbfGetU4 p offset) (fun v => Ok (signed 32 v)).
Definition sempSbfGetI8 (p : SEMP_PARSE_STATE) (offset : Z) : res Z :=
  res_bind (sempSbfGetU8 p offset) (fun v => Ok (signed 64 v)).

(** The number an IEEE pattern of [mw] fraction and [ew] exponent bits stands for;
    all patterns of a NaN stand for the same value. *)
Definition float_of_bits (mw ew v : Z) : SpecFloat.spec_float :=
  let s := Z.testbit v (mw + ew) in
  let e := (v / 2 ^ mw) mod 2 ^ ew in
  let m := v mod 2 ^ mw in
  let bias := 2 ^ (ew - 1) - 1 in
  if e =? 0 then
    match m with Zpos m => SpecFloat.S754_finite s m (1 - bias - mw) | _ => SpecFloat.S754_zero s end
  else if e =? 2 ^ ew - 1 then
    if m =? 0 then SpecFloat.S754_infinity s else SpecFloat.S754_nan
  else SpecFloat.S754_finite s (Z.to_pos (m + 2 ^ mw)) (e - bias - mw).

Definition sempSbfGetF4 (p : SEMP_PARSE_STATE) (offset : Z) : res SpecFloat.spec_float :=
  res_bind (sempSbfGetU4 p offset) (fun v => Ok (float_of_bits 23 8 v)).
Definition sempSbfGetF8 (p : SEMP_PARSE_STATE) (offset : Z) : res SpecFloat.spec_float :=
  res_bind (sempSbfGetU8 p offset) (fun v => Ok (float_of_bits 52 11 v)).

(** [&parse->buffer[offset]]: the bytes from there on *)
Definition sempSbfGetString (p : SEMP_PARSE_STATE) (offset : Z) : res (list Z) :=
  if offset <=? Z.of_nat (length (buffer p)) then Ok (drop (Z.to_nat offset) (buffer p))
  else Ub OutOfBounds.

Definition sempSbfIsEncapsulatedNMEA (p : SEMP_PARSE_STATE) : res bool :=
  if get sbf_sbfID (scratchPad p) =? 4097 then
    res_bind (load (buffer p) 14) (fun v => Ok (v =? 4))
  else Ok false.

Definition sempSbfIsEncapsulatedRTCMv3 (p : SEMP_PARSE_STATE) : res bool :=
  if get sbf_sbfID (scratchPad p) =? 4097 then
    res_bind (load (buffer p) 14) (fun v => Ok (v =? 2))
  else Ok false.

Definition sempSbfGetEncapsulatedPayloadLength (p : SEMP_PARSE_STATE) : res Z := sempSbfGetU2 p 16.
Definition sempSbfGetEncapsulatedPayload (p : SEMP_PARSE_STATE) : res (list Z) := sempSbfGetString p 20.
