(* ===== verification/LibSpartn.v ===== *)
(** * The C++ library: SPARTN

    [src/lib/Parse_SPARTN.cpp]: one definition per state routine. *)
From S2P Require Import Prelude LibParser LibFramework LibCrc.

Section spartn.
  Context `{PT : ParserTable} `{App : Application}.

(** [expected = *ptr++; expected <<= 8; expected |= *ptr++; ...] with [n] bytes
    left, on 32 bits *)
Fixpoint spartn_expected (n : nat) (ptr expected : Z) : P Z :=
  match n with
  | O => ret expected
  | S n =>
      d <- buffer_at ptr;;
      spartn_expected n (ptr + 1) (u32 (Z.lor (u32 (Z.shiftl expected 8)) d))
  end.

(** [&parse->buffer[1]] *)
Definition after_preamble (p : SEMP_PARSE_STATE) : list Z := drop 1 (buffer p).

(** The comparison of one case of the switch: the check bytes from [ptr] on and
    the computed check. *)
Definition spartn_compare (n : nat) (ptr : Z) (check : list Z -> Z -> res Z) (size : Z) : P bool :=
  expected <- spartn_expected n ptr 0;;
  p <- gets id;;
  c <- lift (check (after_preamble p) size);;
  if c =? expected then ret true else badCrc_overrides.

Definition sempSpartnReadTF018 (data : Z) : P bool :=
  n <- pad_get spartn_frameCount;; pad_set spartn_frameCount (u16 (n + 1));;
  n <- pad_get spartn_frameCount;; c <- pad_get spartn_crcBytes;;
  if n =? c then
    a <- pad_get spartn_TF007toTF016;; b <- pad_get spartn_payloadLength;;
    e <- pad_get spartn_embeddedApplicationLengthBytes;;
    let numBytes := u16 (4 + a + b + e) in
    ty <- pad_get spartn_crcType;;
    valid <-
      (if ty =? 0 then spartn_compare 1 numBytes semp_uSpartnCrc8 (numBytes - 1)
       else if ty =? 1 then spartn_compare 2 numBytes semp_uSpartnCrc16 (numBytes - 1)
       else if ty =? 2 then spartn_compare 3 numBytes semp_uSpartnCrc24 (numBytes - 1)
       else spartn_compare 4 numBytes semp_uSpartnCrc32 (numBytes - 1));;
    (if (valid : bool) then call_eomCallback
     else
       dbg <- gets printDebug;; name <- gets parserName;;
       mt <- pad_get spartn_messageType;; ms <- pad_get spartn_messageSubtype;;
       len <- gets msgLength;;
       sempPrintf dbg "SEMP: %s SPARTN %d %d, 0x%04x (%d) bytes, bad CRC"
         [AStr name; AInt mt; AInt ms; AInt len; AInt len]);;
    modify (with_state fn_sempFirstByte);;
    ret false
  else ret true.

Definition sempSpartnReadTF017 (data : Z) : P bool :=
  n <- pad_get spartn_frameCount;; pad_set spartn_frameCount (u16 (n + 1));;
  n <- pad_get spartn_frameCount;; e <- pad_get spartn_embeddedApplicationLengthBytes;;
  when (n =? e)
    (modify (with_state fn_sempSpartnReadTF018);;
     pad_set spartn_frameCount 0);;
  ret true.

Definition sempSpartnReadTF016 (data : Z) : P bool :=
  n <- pad_get spartn_frameCount;; pad_set spartn_frameCount (u16 (n + 1));;
  n <- pad_get spartn_frameCount;; l <- pad_get spartn_payloadLength;;
  when (n =? l)
    (e <- pad_get spartn_embeddedApplicationLengthBytes;;
     if 0 <? e then
       modify (with_state fn_sempSpartnReadTF017);; pad_set spartn_frameCount 0
     else
       modify (with_state fn_sempSpartnReadTF018);; pad_set spartn_frameCount 0);;
  ret true.

(** The switch on the length of the embedded data. *)
Definition embedded_length (code : Z) : Z :=
  if code =? 0 then 8
  else if code =? 1 then 12
  else if code =? 2 then 16
  else if code =? 3 then 32
  else 64.

(** The authentication indicator and the length of the embedded data, from the
    last byte of the description. *)
Definition spartn_authentication (data : Z) : P unit :=
  eaf <- pad_get spartn_EAF;;
  if eaf =? 0 then
    pad_set spartn_authenticationIndicator 0;;
    pad_set spartn_embeddedApplicationLengthBytes 0
  else
    pad_set spartn_authenticationIndicator (Z.land (Z.shiftr data 3) 0x07);;
    a <- pad_get spartn_authenticationIndicator;;
    if a <=? 1 then pad_set spartn_embeddedApplicationLengthBytes 0
    else pad_set spartn_embeddedApplicationLengthBytes (embedded_length (Z.land data 0x07)).

Definition sempSpartnReadTF009 (data : Z) : P bool :=
  n <- pad_get spartn_frameCount;; pad_set spartn_frameCount (u16 (n + 1));;
  n <- pad_get spartn_frameCount;; h <- pad_get spartn_TF007toTF016;;
  when (n =? h)
    (spartn_authentication data;;
     pad_set spartn_frameCount 0;;
     modify (with_state fn_sempSpartnReadTF016));;
  ret true.

Definition sempSpartnReadTF007 (data : Z) : P bool :=
  pad_set spartn_messageSubtype (Z.shiftr data 4);;
  pad_set spartn_timeTagType (Z.land (Z.shiftr data 3) 0x01);;
  t <- pad_get spartn_timeTagType;;
  pad_set spartn_TF007toTF016 (if t =? 0 then 4 else 6);;
  eaf <- pad_get spartn_EAF;;
  when (0 <? eaf)
    (h <- pad_get spartn_TF007toTF016;; pad_set spartn_TF007toTF016 (u16 (h + 2)));;
  pad_set spartn_frameCount 1;;
  modify (with_state fn_sempSpartnReadTF009);;
  ret true.

(** The switch on the type of the check. *)
Definition crc_length (crcType : Z) : Z :=
  if crcType =? 0 then 1 else if crcType =? 1 then 2 else if crcType =? 2 then 3 else 4.

(** The fields of the last header byte. *)
Definition spartn_header_fields (data : Z) : P unit :=
  l <- pad_get spartn_payloadLength;; pad_set spartn_payloadLength (u16 (Z.shiftl l 1));;
  l <- pad_get spartn_payloadLength;;
  pad_set spartn_payloadLength (u16 (Z.lor l (Z.shiftr data 7)));;
  pad_set spartn_EAF (Z.land (Z.shiftr data 6) 0x01);;
  pad_set spartn_crcType (Z.land (Z.shiftr data 4) 0x03);;
  ty <- pad_get spartn_crcType;;
  pad_set spartn_crcBytes (crc_length ty);;
  pad_set spartn_frameCRC (Z.land data 0x0F).

(** [frameCount == 2]: the last byte of the header; answers whether the header
    check succeeds. *)
Definition spartn_header (data : Z) : P bool :=
  spartn_header_fields data;;
  b <- buffer_at 3;; buffer_set 3 (Z.land b 0xF0);;
  p <- gets id;;
  c <- lift (semp_uSpartnCrc4 (after_preamble p) 3);;
  f <- pad_get spartn_frameCRC;;
  if c =? f then
    buffer_set 3 data;;
    modify (with_state fn_sempSpartnReadTF007);;
    ret true
  else
    buffer_set 3 data;;
    modify (with_state fn_sempFirstByte);;
    dbg <- gets printDebug;; name <- gets parserName;;
    mt <- pad_get spartn_messageType;; len <- gets msgLength;;
    sempPrintf dbg "SEMP: %s SPARTN %d, 0x%04x (%d) bytes, bad header CRC"
      [AStr name; AInt mt; AInt len; AInt len];;
    ret false.

Definition sempSpartnReadTF002TF006 (data : Z) : P bool :=
  n <- pad_get spartn_frameCount;;
  when (n =? 0)
    (pad_set spartn_messageType (Z.shiftr data 1);;
     pad_set spartn_payloadLength (Z.land data 0x01));;
  n <- pad_get spartn_frameCount;;
  when (n =? 1)
    (l <- pad_get spartn_payloadLength;; pad_set spartn_payloadLength (u16 (Z.shiftl l 8));;
     l <- pad_get spartn_payloadLength;; pad_set spartn_payloadLength (u16 (Z.lor l data)));;
  n <- pad_get spartn_frameCount;;
  good <- (if n =? 2 then spartn_header data else ret true);;
  if (good : bool) then
    n <- pad_get spartn_frameCount;; pad_set spartn_frameCount (u16 (n + 1));;
    ret true
  else ret false.

Definition sempSpartnPreamble (data : Z) : P bool :=
  if data =? 0x73 then
    pad_set spartn_frameCount 0;;
    modify (with_state fn_sempSpartnReadTF002TF006);; ret true
  else ret false.

End spartn.
