(* ===== verification/LibReports.v ===== *)
(** * The C++ library: names and numbers reported to the application

    The [...GetStateName], [...GetMessageNumber] and [...GetSentenceName] routines
    of [src/lib/Parse_*.cpp], and the print of a Unicore header.  A null string
    is [None].  The source also compares the state with the preamble routines
    and with [sempUbloxCkA]; no routine stores one of these in [state], so they
    are not values of [SEMP_PARSE_ROUTINE]. *)
From S2P Require Import Prelude LibParser LibFramework LibBinary LibText.

Definition sempNmeaGetStateName (p : SEMP_PARSE_STATE) : option string :=
  match state p with
  | fn_sempNmeaFindFirstComma => Some "sempNmeaFindFirstComma"
  | fn_sempNmeaFindAsterisk => Some "sempNmeaFindAsterisk"
  | fn_sempNmeaChecksumByte1 => Some "sempNmeaChecksumByte1"
  | fn_sempNmeaChecksumByte2 => Some "sempNmeaChecksumByte2"
  | fn_sempNmeaLineTermination => Some "sempNmeaLineTermination"
  | fn_sempNmeaCarriageReturn => Some "sempNmeaCarriageReturn"
  | fn_sempNmeaLineFeed => Some "sempNmeaLineFeed"
  | _ => None
  end.

Definition sempRtcmGetStateName (p : SEMP_PARSE_STATE) : option string :=
  match state p with
  | fn_sempRtcmReadLength1 => Some "sempRtcmReadLength1"
  | fn_sempRtcmReadLength2 => Some "sempRtcmReadLength2"
  | fn_sempRtcmReadMessage1 => Some "sempRtcmReadMessage1"
  | fn_sempRtcmReadMessage2 => Some "sempRtcmReadMessage2"
  | fn_sempRtcmReadData => Some "sempRtcmReadData"
  | fn_sempRtcmReadCrc => Some "sempRtcmReadCrc"
  | _ => None
  end.

Definition sempUbloxGetStateName (p : SEMP_PARSE_STATE) : option string :=
  match state p with
  | fn_sempUbloxSync2 => Some "sempUbloxSync2"
  | fn_sempUbloxClass => Some "sempUbloxClass"
  | fn_sempUbloxId => Some "sempUbloxId"
  | fn_sempUbloxLength1 => Some "sempUbloxLength1"
  | fn_sempUbloxLength2 => Some "sempUbloxLength2"
  | fn_sempUbloxPayload => Some "sempUbloxPayload"
  | fn_sempUbloxCkB => Some "sempUbloxCkB"
  | _ => None
  end.

Definition sempUnicoreBinaryGetStateName (p : SEMP_PARSE_STATE) : option string :=
  match state p with
  | fn_sempUnicoreBinaryBinarySync2 => Some "sempUnicoreBinaryBinarySync2"
  | fn_sempUnicoreBinaryBinarySync3 => Some "sempUnicoreBinaryBinarySync3"
  | fn_sempUnicoreBinaryReadHeader => Some "sempUnicoreBinaryReadHeader"
  | fn_sempUnicoreBinaryReadData => Some "sempUnicoreBinaryReadData"
  | fn_sempUnicoreBinaryReadCrc => Some "sempUnicoreBinaryReadCrc"
  | _ => None
  end.

Definition sempUnicoreHashGetStateName (p : SEMP_PARSE_STATE) : option string :=
  match state p with
  | fn_sempUnicoreHashFindFirstComma => Some "sempUnicoreHashFindFirstComma"
  | fn_sempUnicoreHashFindAsterisk => Some "sempUnicoreHashFindAsterisk"
  | fn_sempUnicoreHashChecksumByte => Some "sempUnicoreHashChecksumByte"
  | fn_sempUnicoreHashLineTermination => Some "sempUnicoreHashLineTermination"
  | fn_sempUnicoreHashCarriageReturn => Some "sempUnicoreHashCarriageReturn"
  | fn_sempUnicoreHashLineFeed => Some "sempUnicoreHashLineFeed"
  | _ => None
  end.

Definition sempSpartnGetStateName (p : SEMP_PARSE_STATE) : option string :=
  match state p with
  | fn_sempSpartnReadTF002TF006 => Some "sempSpartnReadTF002TF006"
  | fn_sempSpartnReadTF007 => Some "sempSpartnReadTF007"
  | fn_sempSpartnReadTF009 => Some "sempSpartnReadTF009"
  | fn_sempSpartnReadTF016 => Some "sempSpartnReadTF016"
  | fn_sempSpartnReadTF017 => Some "sempSpartnReadTF017"
  | fn_sempSpartnReadTF018 => Some "sempSpartnReadTF018"
  | _ => None
  end.

Definition sempSbfGetStateName (p : SEMP_PARSE_STATE) : option string :=
  match state p with
  | fn_sempSbfPreamble2 => Some "sempSbfPreamble2"
  | fn_sempSbfCRC1 => Some "sempSbfCRC1"
  | fn_sempSbfCRC2 => Some "sempSbfCRC2"
  | fn_sempSbfID1 => Some "sempSbfID1"
  | fn_sempSbfID2 => Some "sempSbfID2"
  | fn_sempSbfLengthLSB => Some "sempSbfLengthLSB"
  | fn_sempSbfLengthMSB => Some "sempSbfLengthMSB"
  | fn_sempSbfReadBytes => Some "sempSbfReadBytes"
  | _ => None
  end.

Definition sempRtcmGetMessageNumber (p : SEMP_PARSE_STATE) : Z := get rtcm_message (scratchPad p).
Definition sempUbloxGetMessageNumber (p : SEMP_PARSE_STATE) : Z := get ublox_message (scratchPad p).
Definition sempSpartnGetMessageType (p : SEMP_PARSE_STATE) : Z := get spartn_messageType (scratchPad p).

(** The array the returned pointer addresses. *)
Definition sempNmeaGetSentenceName (p : SEMP_PARSE_STATE) : list Z :=
  pad_array nmea_sentenceName SEMP_NMEA_SENTENCE_NAME_BYTES p.
Definition sempUnicoreHashGetSentenceName (p : SEMP_PARSE_STATE) : list Z :=
  pad_array unicoreHash_sentenceName SEMP_UNICORE_HASH_SENTENCE_NAME_BYTES p.

(** The lines of the Unicore header and the members they show. *)
Definition unicore_header_lines : list (string * member) :=
  [("      0x%02x: Sync A", Member 0 1);
   ("      0x%02x: Sync B", Member 1 1);
   ("      0x%02x: Sync C", Member 2 1);
   ("      %3d%%: CPU Idle Time", Member 3 1);
   ("     %5d: Message ID", Member 4 2);
   ("     %5d: Message Length (bytes)", Member 6 2);
   ("       %3d: Reference Time", Member 8 1);
   ("      0x%02x: Time Status", Member 9 1);
   ("     %5d: Week Number", Member 10 2);
   ("%10d: Seconds of Week", Member 12 4);
   ("0x%08x: RESERVED", Member 16 4);
   ("       %3d: Release Version", Member 20 1);
   ("       %3d: Leap Seconds", Member 21 1);
   ("     %5d: Output Delay (mSec)", Member 22 2)].

Definition sempUnicoreBinaryPrintHeader : P unit :=
  print <- gets printError;;
  match print with
  | None => ret tt
  | Some _ =>
      sempPrintln print "Unicore Message Header";;
      for_each unicore_header_lines (fun '(format, f) =>
        v <- header_get f;; sempPrintf print format [AInt v])
  end.
