(* ===== verification/LibNextByte.v ===== *)
(** * The C++ library: dispatch and the byte interface

    The indirect calls of [src/lib/SparkFun_Extensible_Message_Parser.cpp]
    resolved: the parser table, [parse->computeCrc] and [parse->state]; and
    [sempParseNextByte]. *)
From S2P Require Import Prelude LibParser LibFramework LibBinary LibText LibSbf LibSpartn.

Section next_byte.
  Context `{App : Application} `{Plat : Platform}.

(** [parse->parsers[index](parse, data)] *)
#[export] Instance lib_preambles : ParserTable := fun r data =>
  match r with
  | fn_sempNmeaPreamble => sempNmeaPreamble data
  | fn_sempRtcmPreamble => sempRtcmPreamble data
  | fn_sempUbloxPreamble => sempUbloxPreamble data
  | fn_sempUnicoreBinaryPreamble => sempUnicoreBinaryPreamble data
  | fn_sempUnicoreHashPreamble => sempUnicoreHashPreamble data
  | fn_sempSpartnPreamble => sempSpartnPreamble data
  | fn_sempSbfPreamble => sempSbfPreamble data
  | fn_sempBluetoothPreamble => sempBluetoothPreamble data
  end.

(** [parse->computeCrc(parse, data)] *)
Definition call_computeCrc (f : SEMP_COMPUTE_CRC) (data : Z) : P Z :=
  match f with
  | fn_sempRtcmComputeCrc24q => sempRtcmComputeCrc24q data
  | fn_sempUnicoreBinaryComputeCrc => sempUnicoreBinaryComputeCrc data
  | fn_sempBluetoothComputeCrc => sempBluetoothComputeCrc data
  end.

(** [parse->state(parse, data)] *)
Definition call_state (f : SEMP_PARSE_ROUTINE) (data : Z) : P bool :=
  match f with
  | fn_sempFirstByte => sempFirstByte data
  | fn_sempNmeaFindFirstComma => sempNmeaFindFirstComma data
  | fn_sempNmeaFindAsterisk => sempNmeaFindAsterisk data
  | fn_sempNmeaChecksumByte1 => sempNmeaChecksumByte1 data
  | fn_sempNmeaChecksumByte2 => sempNmeaChecksumByte2 data
  | fn_sempNmeaLineTermination => sempNmeaLineTermination data
  | fn_sempNmeaCarriageReturn => sempNmeaCarriageReturn data
  | fn_sempNmeaLineFeed => sempNmeaLineFeed data
  | fn_sempRtcmReadLength1 => sempRtcmReadLength1 data
  | fn_sempRtcmReadLength2 => sempRtcmReadLength2 data
  | fn_sempRtcmReadMessage1 => sempRtcmReadMessage1 data
  | fn_sempRtcmReadMessage2 => sempRtcmReadMessage2 data
  | fn_sempRtcmReadData => sempRtcmReadData data
  | fn_sempRtcmReadCrc => sempRtcmReadCrc data
  | fn_sempUbloxSync2 => sempUbloxSync2 data
  | fn_sempUbloxClass => sempUbloxClass data
  | fn_sempUbloxId => sempUbloxId data
  | fn_sempUbloxLength1 => sempUbloxLength1 data
  | fn_sempUbloxLength2 => sempUbloxLength2 data
  | fn_sempUbloxPayload => sempUbloxPayload data
  | fn_sempUbloxCkB => sempUbloxCkB data
  | fn_sempUnicoreBinaryBinarySync2 => sempUnicoreBinaryBinarySync2 data
  | fn_sempUnicoreBinaryBinarySync3 => sempUnicoreBinaryBinarySync3 data
  | fn_sempUnicoreBinaryReadHeader => sempUnicoreBinaryReadHeader data
  | fn_sempUnicoreBinaryReadData => sempUnicoreBinaryReadData data
  | fn_sempUnicoreBinaryReadCrc => sempUnicoreBinaryReadCrc data
  | fn_sempUnicoreHashFindFirstComma => sempUnicoreHashFindFirstComma data
  | fn_sempUnicoreHashFindAsterisk => sempUnicoreHashFindAsterisk data
  | fn_sempUnicoreHashChecksumByte => sempUnicoreHashChecksumByte data
  | fn_sempUnicoreHashLineTermination => sempUnicoreHashLineTermination data
  | fn_sempUnicoreHashCarriageReturn => sempUnicoreHashCarriageReturn data
  | fn_sempUnicoreHashLineFeed => sempUnicoreHashLineFeed data
  | fn_sempSpartnReadTF002TF006 => sempSpartnReadTF002TF006 data
  | fn_sempSpartnReadTF007 => sempSpartnReadTF007 data
  | fn_sempSpartnReadTF009 => sempSpartnReadTF009 data
  | fn_sempSpartnReadTF016 => sempSpartnReadTF016 data
  | fn_sempSpartnReadTF017 => sempSpartnReadTF017 data
  | fn_sempSpartnReadTF018 => sempSpartnReadTF018 data
  | fn_sempSbfPreamble2 => sempSbfPreamble2 data
  | fn_sempSbfCRC1 => sempSbfCRC1 data
  | fn_sempSbfCRC2 => sempSbfCRC2 data
  | fn_sempSbfID1 => sempSbfID1 data
  | fn_sempSbfID2 => sempSbfID2 data
  | fn_sempSbfLengthLSB => sempSbfLengthLSB data
  | fn_sempSbfLengthMSB => sempSbfLengthMSB data
  | fn_sempSbfReadBytes => sempSbfReadBytes data
  | fn_sempBluetoothSync2 => sempBluetoothSync2 data
  | fn_sempBluetoothSync3 => sempBluetoothSync3 data
  | fn_sempBluetoothReadHeader => sempBluetoothReadHeader data
  | fn_sempBluetoothReadData => sempBluetoothReadData data
  | fn_sempBluetoothReadCrc => sempBluetoothReadCrc data
  end.

(** [sempParseNextByte(parse, data)] for a parse structure that is not null *)
Definition sempParseNextByte (data : Z) : P unit :=
  n <- gets msgLength;; len <- gets bufferLength;;
  if len <=? n then
    err <- gets printError;; name <- gets parserName;;
    sempPrintf err "SEMP %s: Message too long, increase the buffer size > %d\r\n"
      [AStr name; AInt len];;
    sempFirstByte data;;
    ret tt
  else
    buffer_push data;;
    f <- gets computeCrc;;
    match f with
    | None => ret tt
    | Some f => c <- call_computeCrc f data;; modify (with_crc c)
    end;;
    f <- gets state;;
    call_state f data;;
    ret tt.

(** A stream of bytes, one call each. *)
Definition parse_bytes (l : list Z) : P unit := for_each l sempParseNextByte.

End next_byte.
