(* ===== verification/LibSpec.v ===== *)
(** * What the C++ library promises

    The abstract machine of the library, written without the parse structure:
    the frame formats of its eight protocols in terms of the bit-level checks,
    and the machine that turns a byte stream into the messages delivered and the
    invalid data handed back.  The formats the library shares with the C port
    are those of [FrameSpec]. *)
From S2P Require Import Prelude Crc ParseState FrameSpec LibParser ShiftRegister LibCrc.
From S2P Require Import LibCrcTheorems.

(* ------------------------------------------------------------------ *)
(** ** Binary frames *)

(** After its last byte a message needs more bytes, is no message and its last
    byte may start another, is no message and is dropped as a whole, or is
    complete. *)
Inductive lverdict := Continue | Restart | Dropped | Complete (ok : bool).

Definition shared_verdict (v : verdict) : lverdict :=
  match v with More => Continue | Reject => Restart | Done ok => Complete ok end.

(** [byte m i]: the byte at index [i] of a message that has it. *)
Definition byte (m : list Z) (i : nat) : Z := default 0 (m !! i).

(** *** SBF: two sync bytes, CRC, identifier, length and body

    The length counts the whole block, the CRC covers what follows it.  A length
    of at most eight is never reached. *)
Definition sbf_verdict (m : list Z) : lverdict :=
  match m with
  | _ :: s2 :: rest =>
      if negb (s2 =? 0x40) then Dropped
      else match rest with
           | c1 :: c2 :: i1 :: i2 :: l1 :: l2 :: body =>
               let n := l1 + 256 * l2 in
               if negb (n mod 4 =? 0) then Dropped
               else if (n <=? 8) || (Z.of_nat (length m) <? n) then Continue
               else Complete ((Z.of_nat (length m) =? n) &&
                              (c1 + 256 * c2 =? crc16_ref 0 (i1 :: i2 :: l1 :: l2 :: body)))
           | _ => Continue
           end
  | _ => Continue
  end.

(** *** SPARTN: a bit-packed header with its own check *)

Definition spartn_header_ok (m : list Z) : bool :=
  crc4_ref [byte m 1; byte m 2; Z.land (byte m 3) 0xF0] =? byte m 3 mod 16.

Definition spartn_payload (m : list Z) : Z :=
  (byte m 1 mod 2 * 256 + byte m 2) * 2 + byte m 3 / 128.
Definition spartn_encrypted (m : list Z) : bool := byte m 3 / 64 mod 2 =? 1.
Definition spartn_check_type (m : list Z) : Z := byte m 3 / 16 mod 4.
Definition spartn_check_length (m : list Z) : Z := spartn_check_type m + 1.

(** The bytes between the header and the payload. *)
Definition spartn_description (m : list Z) : Z :=
  (if byte m 4 / 8 mod 2 =? 1 then 6 else 4) + (if spartn_encrypted m then 2 else 0).

(** The bytes of embedded authentication data after the payload, from the last
    byte of the description. *)
Definition spartn_embedded (m : list Z) : Z :=
  let d := byte m (Z.to_nat (3 + spartn_description m)) in
  if spartn_encrypted m && (1 <? d / 8 mod 8) then
    match d mod 8 with 0 => 8 | 1 => 12 | 2 => 16 | 3 => 32 | _ => 64 end
  else 0.

(** Where the check starts, and its value over the bytes after the preamble. *)
Definition spartn_end (m : list Z) : Z :=
  4 + spartn_description m + spartn_payload m + spartn_embedded m.

Definition spartn_check (ty : Z) (l : list Z) : list Z :=
  match ty with
  | 0 => rev (le_split 1 (crc8_ref l))
  | 1 => rev (le_split 2 (crc16_ref 0 l))
  | 2 => rev (le_split 3 (crc24_ref l))
  | _ => rev (le_split 4 (crc32_forward_ref l))
  end.

(** A frame without payload is never complete. *)
Definition spartn_verdict (m : list Z) : lverdict :=
  let n := Z.of_nat (length m) in
  if n <? 4 then Continue
  else if negb (spartn_header_ok m) then Dropped
  else if (n <? 5) || (n <? 4 + spartn_description m) || (spartn_payload m =? 0)
          || (n <? spartn_end m + spartn_check_length m) then Continue
  else
    let e := Z.to_nat (spartn_end m) in
    Complete (bool_decide (drop e m = spartn_check (spartn_check_type m) (take (e - 1) (drop 1 m)))).

(** *** Unicore: three sync bytes, a header of 24 bytes, data and CRC-32

    As for the custom protocol, a frame without data is never complete. *)
Definition unicore_length (m : list Z) : nat := Z.to_nat (get (Member 6 2) m).

Definition unicore_verdict (m : list Z) : lverdict :=
  match m with
  | _ :: s2 :: rest =>
      if negb (s2 =? 0x44) then Restart
      else match rest with
           | s3 :: _ =>
               if negb (s3 =? 0xB5) then Restart
               else
                 let n := unicore_length m in
                 if (length m <? 24)%nat || (n =? 0)%nat || (length m <? 28 + n)%nat then Continue
                 else Complete (bool_decide
                        (drop (24 + n) m = le_split 4 (crc32_ref 0 (take (24 + n) m))))
           | _ => Continue
           end
  | _ => Continue
  end.

Lemma unicore_verdict_synced m s1 rest :
  m = s1 :: 0x44 :: 0xB5 :: rest ->
  unicore_verdict m =
    let n := unicore_length m in
    if (length m <? 24)%nat || (n =? 0)%nat || (length m <? 28 + n)%nat then Continue
    else Complete (bool_decide (drop (24 + n) m = le_split 4 (crc32_ref 0 (take (24 + n) m)))).
Proof. by intros ->. Qed.

Definition lib_verdict (k : PREAMBLE_ROUTINE) (m : list Z) : lverdict :=
  match k with
  | fn_sempRtcmPreamble => shared_verdict (rtcm_verdict m)
  | fn_sempUbloxPreamble => shared_verdict (ublox_verdict m)
  | fn_sempUnicoreBinaryPreamble => unicore_verdict m
  | fn_sempSpartnPreamble => spartn_verdict m
  | fn_sempSbfPreamble => sbf_verdict m
  | _ => shared_verdict (custom_verdict m)
  end.

(* ------------------------------------------------------------------ *)
(** ** The machine *)

Inductive lspec_state :=
| LScan
| LFrame (i : nat) (k : PREAMBLE_ROUTINE) (m : list Z)
| LSentence (i : nat) (k : PREAMBLE_ROUTINE) (sigil : Z) (t : text)
| LEnding (i : nat) (k : PREAMBLE_ROUTINE) (sigil : Z) (t : text) (expect : Z).

(** What the application sees: messages with their parser's index, and the data
    that the SBF parser hands back. *)
Inductive item := Msg (i : Z) (m : list Z) | Inv (m : list Z).
Abbreviation items := (list item).

Definition messages (o : output) : items := (fun im => Msg im.1 im.2) <$> o.

(** The sentence formats are those of the C port. *)
Definition format (k : PREAMBLE_ROUTINE) : ParseState.PREAMBLE_ROUTINE :=
  match k with
  | fn_sempUnicoreHashPreamble => ParseState.fn_sempUnicoreHashPreamble
  | _ => ParseState.fn_sempNmeaPreamble
  end.

Definition lstarts (k : PREAMBLE_ROUTINE) (b : Z) : bool :=
  match k with
  | fn_sempNmeaPreamble | fn_sempSbfPreamble => b =? 0x24
  | fn_sempRtcmPreamble => b =? 0xd3
  | fn_sempUbloxPreamble => b =? 0xb5
  | fn_sempUnicoreBinaryPreamble | fn_sempBluetoothPreamble => b =? 0xAA
  | fn_sempUnicoreHashPreamble => b =? 0x23
  | fn_sempSpartnPreamble => b =? 0x73
  end.

Definition lbegin (i : nat) (k : PREAMBLE_ROUTINE) (b : Z) : lspec_state :=
  match k with
  | fn_sempNmeaPreamble | fn_sempUnicoreHashPreamble => LSentence i k b (TName [])
  | _ => LFrame i k [b]
  end.

Section machine.
  Context (B : Z) (table : list PREAMBLE_ROUTINE) (accepts : Z -> list Z -> bool) (hands_back : bool).

(** The data a parser hands back when it gives [m] up. *)
Definition invalid (k : PREAMBLE_ROUTINE) (m : list Z) : items :=
  match k with
  | fn_sempSbfPreamble => if hands_back then [Inv m] else []
  | _ => []
  end.

Fixpoint lscan_from (l : list PREAMBLE_ROUTINE) (i : nat) (b : Z) : lspec_state * items :=
  match l with
  | [] => (LScan, [])
  | k :: l =>
      if lstarts k b then (lbegin i k b, [])
      else let '(st, out) := lscan_from l (S i) b in (st, invalid k [b] ++ out)
  end.

Definition lscan (out : items) (b : Z) : option (lspec_state * items) :=
  let '(st, out') := lscan_from table 0 b in Some (st, out ++ out').

Definition lframe_step (i : nat) (k : PREAMBLE_ROUTINE) (m : list Z) (b : Z)
    : option (lspec_state * items) :=
  match lib_verdict k m with
  | Continue => Some (LFrame i k m, [])
  | Restart => lscan [] b
  | Dropped => Some (LScan, invalid k m)
  | Complete ok =>
      Some (LScan, if ok || accepts (Z.of_nat i) m then [Msg (Z.of_nat i) m] else invalid k m)
  end.

Definition lfinish (i : nat) (k : PREAMBLE_ROUTINE) (sigil : Z) (t : text) : option items :=
  messages <$> finish B accepts i (format k) sigil t.

Definition lspec_step (st : lspec_state) (b : Z) : option (lspec_state * items) :=
  match st with
  | LScan => lscan [] b
  | LFrame i k m =>
      if B <=? Z.of_nat (length m) then lscan [] b
      else lframe_step i k (m ++ [b]) b
  | LSentence i k sigil t =>
      if B <=? Z.of_nat (length (flatten sigil t)) then lscan [] b
      else if closed (format k) t then
        if b =? 0x0D then Some (LEnding i k sigil t 0x0A, [])
        else if b =? 0x0A then Some (LEnding i k sigil t 0x0D, [])
        else match lfinish i k sigil t with Some out => lscan out b | None => None end
      else match text_step B (format k) sigil t b with
           | Some t => Some (LSentence i k sigil t, [])
           | None => lscan [] b
           end
  | LEnding i k sigil t expect =>
      if B <=? Z.of_nat (length (flatten sigil t)) then lscan [] b
      else match lfinish i k sigil t with
           | Some out => if b =? expect then Some (LScan, out) else lscan out b
           | None => None
           end
  end.

Fixpoint lspec_run (st : lspec_state) (l : list Z) : option (lspec_state * items) :=
  match l with
  | [] => Some (st, [])
  | b :: l =>
      match lspec_step st b with
      | Some (st, out) =>
          match lspec_run st l with
          | Some (st, out') => Some (st, out ++ out')
          | None => None
          end
      | None => None
      end
  end.

Lemma lspec_run_app st l1 l2 :
  lspec_run st (l1 ++ l2) =
  match lspec_run st l1 with
  | Some (st, out) =>
      match lspec_run st l2 with
      | Some (st, out') => Some (st, out ++ out')
      | None => None
      end
  | None => None
  end.
Proof.
  revert st. induction l1 as [|b l1 IH]; intros st; cbn.
  - by destruct (lspec_run st l2) as [[??]|].
  - destruct (lspec_step st b) as [[st1 out1]|]; [|done]. rewrite IH.
    destruct (lspec_run st1 l1) as [[st2 out2]|]; [|done].
    destruct (lspec_run st2 l2) as [[st3 out3]|]; [|done]. by rewrite app_assoc.
Qed.

End machine.
