(* ===== verification/LibRep.v ===== *)
(** * Representation of the library's machine by the parse structure

    The well-formedness invariant of the library's parse structure, the relation
    between it and a state of the machine of [LibSpec], and what it means for a
    routine to refine a step of the machine.  [LSetup] names what is fixed while
    a parser runs and what the application promises. *)
From S2P Require Import Prelude Crc ParseState FrameSpec Sentences Representation LibParser.
From S2P Require Import LibFramework ShiftRegister LibCrc LibCrcTheorems LibSpec.

#[export] Instance lib_pad : PadSize := 24%nat.

(** The message bytes received so far. *)
Definition lmessage (p : SEMP_PARSE_STATE) : list Z :=
  take (Z.to_nat (msgLength p)) (buffer p).

Definition is_sbf (k : PREAMBLE_ROUTINE) : bool :=
  match k with fn_sempSbfPreamble => true | _ => false end.

(** The parsers whose working values overlap the SBF parser's callback. *)
Definition overlaps_callback (k : PREAMBLE_ROUTINE) : bool :=
  match k with
  | fn_sempNmeaPreamble | fn_sempUnicoreHashPreamble | fn_sempSpartnPreamble => true
  | _ => false
  end.

(** The configuration of a parser.  A [badCrc] callback decides from the parser
    index and the message; [laccepts] is its decision to take the message.  A
    table with the SBF parser has no NMEA, Unicore hash or SPARTN parser, which
    would overwrite its callback ([lib_callback_overwritten] of [LibTheorems]), and
    the callback is null or a routine of the application. *)
Class LSetup `{App : Application} := {
  lB : Z;
  ltable : list PREAMBLE_ROUTINE;
  leom : nat;
  lbad : callback;
  laccepts : Z -> list Z -> bool;
  callback_pointer : Z;
  lB_range : 32 <= lB < 65536;
  ltable_small : Z.of_nat (length ltable) < 65536;
  laccepts_spec :
    match lbad with
    | None => forall i m, laccepts i m = false
    | Some f => forall p, badCrc_fn f p = negb (laccepts (type p) (lmessage p))
    end;
  no_overlap : existsb is_sbf ltable && existsb overlaps_callback ltable = false;
  pointer_valid : callback_pointer = 0 \/ is_Some (routine_at callback_pointer)
}.

(* ------------------------------------------------------------------ *)
(** ** What the application is told about a message *)

(** The characters before the first comma. *)
Fixpoint before_comma (l : list Z) : list Z :=
  match l with
  | [] => []
  | c :: l => if c =? 0x2C then [] else c :: before_comma l
  end.

(** The values that the library's accessors read in the scratch area are those of
    the message [m]: its number, its type, or the name of the sentence. *)
Definition told (k : PREAMBLE_ROUTINE) (sp : list Z) (m : list Z) : Prop :=
  match k with
  | fn_sempUbloxPreamble => get ublox_message sp = 256 * byte m 2 + byte m 3
  | fn_sempRtcmPreamble => get rtcm_message sp = 16 * byte m 3 + byte m 4 / 16
  | fn_sempSpartnPreamble => get spartn_messageType sp = byte m 1 / 2
  | fn_sempSbfPreamble =>
      get sbf_sbfID sp = (byte m 4 + 256 * byte m 5) mod 8192 /\ get sbf_sbfIDrev sp = byte m 5 / 32
  | fn_sempNmeaPreamble => c_string (take 16 (drop nmea_sentenceName sp)) = Ok (before_comma (tail m))
  | fn_sempUnicoreHashPreamble =>
      c_string (take 16 (drop unicoreHash_sentenceName sp)) = Ok (before_comma (tail m))
  | _ => True
  end.

(** What an application receives. *)
Fixpoint ldelivered (l : list Event) : items :=
  match l with
  | [] => []
  | EvEom _ p type :: l => Msg type (lmessage p) :: ldelivered l
  | EvInvalid _ p :: l => Inv (lmessage p) :: ldelivered l
  | _ :: l => ldelivered l
  end.

(** A call for a message comes with the values of that message. *)
Definition informed `{SU : LSetup} (e : Event) : Prop :=
  match e with
  | EvEom _ p type => forall k, ltable !! Z.to_nat type = Some k -> told k (scratchPad p) (lmessage p)
  | _ => True
  end.

(** Calls without a message. *)
Definition handed_back (x : item) : Prop := match x with Msg _ _ => False | Inv _ => True end.

Lemma quiet_informed `{SU : LSetup} ev : Forall handed_back (ldelivered ev) -> Forall informed ev.
Proof.
  induction ev as [|[]]; cbn; intros H; constructor; try done; auto.
  - by inversion H.
  - by inversion H.
  - inversion H. auto.
Qed.

Lemma silent_informed `{SU : LSetup} ev : ldelivered ev = [] -> Forall informed ev.
Proof. intros H. apply quiet_informed. by rewrite H. Qed.

Lemma invalid_quiet b k m : Forall handed_back (invalid b k m).
Proof. destruct k, b; repeat constructor. Qed.

Lemma ldelivered_app l1 l2 : ldelivered (l1 ++ l2) = ldelivered l1 ++ ldelivered l2.
Proof. induction l1 as [|[]]; cbn; congruence. Qed.

(* ------------------------------------------------------------------ *)
(** ** The callback of the SBF parser *)

(** Members in the first twelve bytes are clear of it. *)
Definition low (f : member) : bool := (offset f + size f <=? 12)%nat.

Section pointer.
  Context `{SU : LSetup} `{Plat : Platform}.

Definition has_sbf : bool := existsb is_sbf ltable.
Definition hands_back : bool := negb (callback_pointer =? 0).

Definition pointer_kept (sp : list Z) : Prop :=
  has_sbf = true -> get sbf_invalidDataCallback sp = callback_pointer.

Lemma pointer_in_pad : in_pad sbf_invalidDataCallback = true.
Proof. unfold in_pad, sbf_invalidDataCallback, ptr_bytes. by destruct wide. Qed.

Lemma pointer_put_low f v sp :
  pad_ok sp -> pointer_kept sp -> low f = true -> pointer_kept (put f v sp).
Proof.
  intros Hsp Hk Hf Hs. pose proof Hf as Hf'. unfold low in Hf'. apply Nat.leb_le in Hf'.
  rewrite pad_get_ne; [by apply Hk|done|apply pointer_in_pad| |].
  - unfold in_pad, pad_size, lib_pad. apply Nat.leb_le. lia.
  - unfold disjoint_members, sbf_invalidDataCallback. cbn. apply orb_true_iff. right.
    apply Nat.leb_le. destruct wide; lia.
Qed.

Lemma pointer_free sp : has_sbf = false -> pointer_kept sp.
Proof. unfold pointer_kept. congruence. Qed.

(** A table with one of the overlapping parsers has no SBF parser. *)
Lemma overlapping_free i k :
  ltable !! i = Some k -> overlaps_callback k = true -> has_sbf = false.
Proof.
  intros Hk Ho. pose proof no_overlap as H. apply andb_false_iff in H as [H|H]; [done|].
  rewrite (proj2 (existsb_exists overlaps_callback ltable)) in H; [done|].
  exists k. split; [|done]. by eapply list_elem_of_In, list_elem_of_lookup_2.
Qed.

End pointer.
Arguments pointer_kept : simpl never.
Arguments has_sbf : simpl never.
Arguments hands_back : simpl never.

#[export] Hint Resolve pointer_put_low pointer_free : pad.
#[export] Hint Extern 1 (low _ = true) => reflexivity : pad.

(* ------------------------------------------------------------------ *)
(** ** The invariant *)

Section invariant.
  Context `{SU : LSetup} `{Plat : Platform}.

Record lwf (p : SEMP_PARSE_STATE) : Prop := {
  lwf_bufferLength : bufferLength p = lB;
  lwf_buffer : Z.of_nat (length (buffer p)) = lB;
  lwf_bytes : bytes (buffer p);
  lwf_msgLength : 0 <= msgLength p <= lB;
  lwf_crc : is_u32 (crc p);
  lwf_pad : pad_ok (scratchPad p);
  lwf_pointer : pointer_kept (scratchPad p);
  lwf_table : parsers p = ltable;
  lwf_count : parserCount p = Z.of_nat (length ltable);
  lwf_eom : eomCallback p = Some leom;
  lwf_bad : badCrc p = lbad
}.

Lemma lwf_with_state v p : lwf p -> lwf (with_state v p).
Proof. by intros []. Qed.
Lemma lwf_with_type v p : lwf p -> lwf (with_type v p).
Proof. by intros []. Qed.
Lemma lwf_with_computeCrc v p : lwf p -> lwf (with_computeCrc v p).
Proof. by intros []. Qed.
Lemma lwf_with_crc v p : lwf p -> is_u32 v -> lwf (with_crc v p).
Proof. by intros []. Qed.
Lemma lwf_with_msgLength v p : lwf p -> 0 <= v <= lB -> lwf (with_msgLength v p).
Proof. by intros []. Qed.
Lemma lwf_with_scratchPad l p : lwf p -> pad_ok l -> pointer_kept l -> lwf (with_scratchPad l p).
Proof. by intros []. Qed.
Lemma lwf_with_buffer l p :
  lwf p -> bytes l -> length l = length (buffer p) -> lwf (with_buffer l p).
Proof. intros [] ??. split; cbn; done || congruence. Qed.

(** ** States of the protocols

    Each relation lists, per state routine, what the scratch area and the check
    hold for the message bytes received so far. *)

Definition lublox_check (sp : list Z) (l : list Z) : Prop :=
  get ublox_ck_a sp = (fletcher l).1 /\ get ublox_ck_b sp = (fletcher l).2.

(** [l]: the bytes from the class on. *)
Definition lublox_pad (sp : list Z) (l : list Z) : Prop :=
  lublox_check sp l /\ get ublox_message sp = 256 * byte l 0 + byte l 1.

Inductive lublox_rel (sp : list Z) : SEMP_PARSE_ROUTINE -> list Z -> Prop :=
| lublox_sync2 s1 : lublox_rel sp fn_sempUbloxSync2 [s1]
| lublox_class s1 : lublox_rel sp fn_sempUbloxClass [s1; 0x62]
| lublox_id s1 c :
    lublox_pad sp [c] -> lublox_rel sp fn_sempUbloxId [s1; 0x62; c]
| lublox_length1 s1 c i :
    lublox_pad sp [c; i] -> lublox_rel sp fn_sempUbloxLength1 [s1; 0x62; c; i]
| lublox_length2 s1 c i l1 :
    lublox_pad sp [c; i; l1] -> get ublox_bytesRemaining sp = l1 ->
    lublox_rel sp fn_sempUbloxLength2 [s1; 0x62; c; i; l1]
| lublox_payload s1 c i l1 l2 pl :
    lublox_pad sp (c :: i :: l1 :: l2 :: pl) ->
    get ublox_bytesRemaining sp + Z.of_nat (length pl) = l1 + 256 * l2 ->
    lublox_rel sp fn_sempUbloxPayload (s1 :: 0x62 :: c :: i :: l1 :: l2 :: pl)
| lublox_ckb s1 c i l1 l2 pl a :
    lublox_pad sp (c :: i :: l1 :: l2 :: pl) ->
    Z.of_nat (length pl) = l1 + 256 * l2 ->
    lublox_rel sp fn_sempUbloxCkB (s1 :: 0x62 :: c :: i :: l1 :: l2 :: pl ++ [a]).

Inductive lrtcm_rel (sp : list Z) : SEMP_PARSE_ROUTINE -> list Z -> Prop :=
| lrtcm_length1 s1 : lrtcm_rel sp fn_sempRtcmReadLength1 [s1]
| lrtcm_length2 s1 h :
    h <= 3 -> get rtcm_bytesRemaining sp = 256 * h ->
    lrtcm_rel sp fn_sempRtcmReadLength2 [s1; h]
| lrtcm_message1 s1 h l :
    h <= 3 -> get rtcm_bytesRemaining sp = 256 * h + l ->
    lrtcm_rel sp fn_sempRtcmReadMessage1 [s1; h; l]
| lrtcm_message2 s1 h l d :
    h <= 3 -> get rtcm_bytesRemaining sp = u16 (256 * h + l - 1) -> get rtcm_message sp = 16 * d ->
    lrtcm_rel sp fn_sempRtcmReadMessage2 [s1; h; l; d]
| lrtcm_data s1 h l d1 d2 body :
    h <= 3 ->
    get rtcm_bytesRemaining sp = u16 (256 * h + l - 2 - Z.of_nat (length body)) ->
    256 * h + l < 3 \/ 2 + Z.of_nat (length body) < 256 * h + l ->
    get rtcm_message sp = 16 * d1 + d2 / 16 ->
    lrtcm_rel sp fn_sempRtcmReadData (s1 :: h :: l :: d1 :: d2 :: body)
| lrtcm_crcbytes s1 h l body cks :
    h <= 3 -> 3 <= 256 * h + l ->
    Z.of_nat (length body) = 256 * h + l ->
    get rtcm_bytesRemaining sp = 3 - Z.of_nat (length cks) ->
    (length cks < 3)%nat ->
    get rtcm_message sp = 16 * byte body 0 + byte body 1 / 16 ->
    lrtcm_rel sp fn_sempRtcmReadCrc (s1 :: h :: l :: body ++ cks).

Inductive lbluetooth_rel (sp : list Z) (c : Z) : SEMP_PARSE_ROUTINE -> list Z -> Prop :=
| lbluetooth_sync2 s1 :
    c = crc32_run 0xFFFFFFFF [s1] -> lbluetooth_rel sp c fn_sempBluetoothSync2 [s1]
| lbluetooth_sync3 s1 :
    c = crc32_run 0xFFFFFFFF [s1; 0x44] -> lbluetooth_rel sp c fn_sempBluetoothSync3 [s1; 0x44]
| lbluetooth_header s1 rest :
    (length rest < 17)%nat -> c = crc32_run 0xFFFFFFFF (s1 :: 0x44 :: 0x18 :: rest) ->
    lbluetooth_rel sp c fn_sempBluetoothReadHeader (s1 :: 0x44 :: 0x18 :: rest)
| lbluetooth_data s1 rest m :
    m = s1 :: 0x44 :: 0x18 :: rest ->
    (20 <= length m)%nat ->
    (custom_length m = 0 \/ length m < 20 + custom_length m)%nat ->
    get bluetooth_bytesRemaining sp = u16 (Z.of_nat (custom_length m) - (Z.of_nat (length m) - 20)) ->
    c = crc32_run 0xFFFFFFFF m ->
    lbluetooth_rel sp c fn_sempBluetoothReadData m
| lbluetooth_crcbytes s1 rest m :
    m = s1 :: 0x44 :: 0x18 :: rest ->
    (0 < custom_length m)%nat ->
    (20 + custom_length m <= length m < 24 + custom_length m)%nat ->
    get bluetooth_bytesRemaining sp = 24 + Z.of_nat (custom_length m) - Z.of_nat (length m) ->
    c = custom_crc_of (custom_length m) m ->
    lbluetooth_rel sp c fn_sempBluetoothReadCrc m.

Inductive lunicore_rel (sp : list Z) : SEMP_PARSE_ROUTINE -> list Z -> Prop :=
| lunicore_sync2 s1 : lunicore_rel sp fn_sempUnicoreBinaryBinarySync2 [s1]
| lunicore_sync3 s1 : lunicore_rel sp fn_sempUnicoreBinaryBinarySync3 [s1; 0x44]
| lunicore_header s1 rest :
    (length rest < 21)%nat ->
    lunicore_rel sp fn_sempUnicoreBinaryReadHeader (s1 :: 0x44 :: 0xB5 :: rest)
| lunicore_data s1 rest m :
    m = s1 :: 0x44 :: 0xB5 :: rest ->
    (24 <= length m)%nat ->
    (unicore_length m = 0 \/ length m < 24 + unicore_length m)%nat ->
    get unicoreBinary_bytesRemaining sp
      = u16 (Z.of_nat (unicore_length m) - (Z.of_nat (length m) - 24)) ->
    lunicore_rel sp fn_sempUnicoreBinaryReadData m
| lunicore_crcbytes s1 rest m :
    m = s1 :: 0x44 :: 0xB5 :: rest ->
    (0 < unicore_length m)%nat ->
    (24 + unicore_length m <= length m < 28 + unicore_length m)%nat ->
    get unicoreBinary_bytesRemaining sp = 28 + Z.of_nat (unicore_length m) - Z.of_nat (length m) ->
    lunicore_rel sp fn_sempUnicoreBinaryReadCrc m.

(** The block number and revision, from the bytes after the check. *)
Definition sbf_number (sp : list Z) (l : list Z) : Prop :=
  match l with
  | [] => True
  | [i1] => get sbf_sbfID sp = i1
  | i1 :: i2 :: _ => get sbf_sbfID sp = (i1 + 256 * i2) mod 8192 /\ get sbf_sbfIDrev sp = i2 / 32
  end.

Definition sbf_check (sp : list Z) (c1 c2 : Z) (l : list Z) : Prop :=
  get sbf_expectedCRC sp = c1 + 256 * c2 /\ get sbf_computedCRC sp = crc16_ref 0 l.

Definition sbf_pad (sp : list Z) (c1 c2 : Z) (l : list Z) : Prop := sbf_check sp c1 c2 l /\ sbf_number sp l.

Inductive sbf_rel (sp : list Z) : SEMP_PARSE_ROUTINE -> list Z -> Prop :=
| sbf_preamble2 s1 : sbf_rel sp fn_sempSbfPreamble2 [s1]
| sbf_crc1 s1 : sbf_rel sp fn_sempSbfCRC1 [s1; 0x40]
| sbf_crc2 s1 c1 : get sbf_expectedCRC sp = c1 -> sbf_rel sp fn_sempSbfCRC2 [s1; 0x40; c1]
| sbf_id1 s1 c1 c2 : sbf_pad sp c1 c2 [] -> sbf_rel sp fn_sempSbfID1 [s1; 0x40; c1; c2]
| sbf_id2 s1 c1 c2 i1 :
    sbf_pad sp c1 c2 [i1] -> sbf_rel sp fn_sempSbfID2 [s1; 0x40; c1; c2; i1]
| sbf_lengthlsb s1 c1 c2 i1 i2 :
    sbf_pad sp c1 c2 [i1; i2] -> sbf_rel sp fn_sempSbfLengthLSB [s1; 0x40; c1; c2; i1; i2]
| sbf_lengthmsb s1 c1 c2 i1 i2 l1 :
    sbf_pad sp c1 c2 [i1; i2; l1] -> get sbf_length sp = l1 ->
    sbf_rel sp fn_sempSbfLengthMSB [s1; 0x40; c1; c2; i1; i2; l1]
| sbf_readbytes s1 c1 c2 i1 i2 l1 l2 body :
    sbf_pad sp c1 c2 (i1 :: i2 :: l1 :: l2 :: body) ->
    (l1 + 256 * l2) mod 4 = 0 ->
    l1 + 256 * l2 <= 8 \/ 8 + Z.of_nat (length body) < l1 + 256 * l2 ->
    get sbf_bytesRemaining sp = u16 (l1 + 256 * l2 - 8 - Z.of_nat (length body)) ->
    sbf_rel sp fn_sempSbfReadBytes (s1 :: 0x40 :: c1 :: c2 :: i1 :: i2 :: l1 :: l2 :: body).

(** The members that the header of a SPARTN frame fixes. *)
Record spartn_fields (sp : list Z) (m : list Z) : Prop := {
  sf_header : spartn_header_ok m = true;
  sf_payload : get spartn_payloadLength sp = spartn_payload m;
  sf_eaf : get spartn_EAF sp = if spartn_encrypted m then 1 else 0;
  sf_type : get spartn_crcType sp = spartn_check_type m;
  sf_crcBytes : get spartn_crcBytes sp = spartn_check_length m;
  sf_number : get spartn_messageType sp = byte m 1 / 2
}.

(** Those that the description fixes. *)
Record spartn_described (sp : list Z) (m : list Z) : Prop := {
  sd_fields : spartn_fields sp m;
  sd_description : get spartn_TF007toTF016 sp = spartn_description m;
  sd_embedded : get spartn_embeddedApplicationLengthBytes sp = spartn_embedded m
}.

Definition spartn_rel (sp : list Z) (f : SEMP_PARSE_ROUTINE) (m : list Z) : Prop :=
  let n := Z.of_nat (length m) in
  let count := get spartn_frameCount sp in
  let data := 4 + spartn_description m in
  match f with
  | fn_sempSpartnReadTF002TF006 =>
      1 <= n < 4 /\ count = n - 1 /\ (2 <= n -> get spartn_messageType sp = byte m 1 / 2) /\
      (n = 2 -> get spartn_payloadLength sp = byte m 1 mod 2) /\
      (n = 3 -> get spartn_payloadLength sp = byte m 1 mod 2 * 256 + byte m 2)
  | fn_sempSpartnReadTF007 => n = 4 /\ spartn_fields sp m
  | fn_sempSpartnReadTF009 =>
      5 <= n < data /\ spartn_fields sp m /\
      get spartn_TF007toTF016 sp = spartn_description m /\ count = n - 4
  | fn_sempSpartnReadTF016 =>
      spartn_described sp m /\ data <= n /\
      (spartn_payload m = 0 \/ n < data + spartn_payload m) /\ count = n - data
  | fn_sempSpartnReadTF017 =>
      spartn_described sp m /\ 0 < spartn_payload m /\
      data + spartn_payload m <= n < spartn_end m /\ count = n - (data + spartn_payload m)
  | fn_sempSpartnReadTF018 =>
      spartn_described sp m /\ 0 < spartn_payload m /\
      spartn_end m <= n < spartn_end m + spartn_check_length m /\ count = n - spartn_end m
  | _ => False
  end.

(** The name array holds the name and its terminator. *)
Definition named (o : nat) (sp : list Z) (name : list Z) : Prop :=
  take (S (length name)) (drop o sp) = name ++ [0].

(** The routine that waits for the end of a closed sentence; [expect] is the
    second terminator once the first has been seen. *)
Definition lnmea_end (expect : option Z) : SEMP_PARSE_ROUTINE :=
  match expect with
  | None => fn_sempNmeaLineTermination
  | Some e => if e =? 0x0A then fn_sempNmeaLineFeed else fn_sempNmeaCarriageReturn
  end.

Inductive lnmea_rel (sp : list Z) (c : Z) (expect : option Z) : SEMP_PARSE_ROUTINE -> text -> Prop :=
| lnmea_name name :
    name_pad nmea_sentenceName nmea_sentenceNameLength sp name -> c = xor_all name ->
    lnmea_rel sp c expect fn_sempNmeaFindFirstComma (TName name)
| lnmea_body name body :
    named nmea_sentenceName sp name -> c = xor_all (name ++ 0x2C :: body) ->
    lnmea_rel sp c expect fn_sempNmeaFindAsterisk (TBody name body)
| lnmea_digit1 name body :
    named nmea_sentenceName sp name -> c = xor_all (name ++ 0x2C :: body) ->
    lnmea_rel sp c expect fn_sempNmeaChecksumByte1 (TSum name body [])
| lnmea_digit2 name body d1 :
    named nmea_sentenceName sp name -> c = xor_all (name ++ 0x2C :: body) ->
    lnmea_rel sp c expect fn_sempNmeaChecksumByte2 (TSum name body [d1])
| lnmea_closed name body d1 d2 :
    named nmea_sentenceName sp name -> c = xor_all (name ++ 0x2C :: body) ->
    lnmea_rel sp c expect (lnmea_end expect) (TSum name body [d1; d2]).

Definition lhash_end (expect : option Z) : SEMP_PARSE_ROUTINE :=
  match expect with
  | None => fn_sempUnicoreHashLineTermination
  | Some e => if e =? 0x0A then fn_sempUnicoreHashLineFeed else fn_sempUnicoreHashCarriageReturn
  end.

Inductive lhash_rel (sp : list Z) (c : Z) (expect : option Z) : SEMP_PARSE_ROUTINE -> text -> Prop :=
| lhash_name name :
    name_pad unicoreHash_sentenceName unicoreHash_sentenceNameLength sp name -> c = xor_all name ->
    lhash_rel sp c expect fn_sempUnicoreHashFindFirstComma (TName name)
| lhash_body name body :
    named unicoreHash_sentenceName sp name ->
    get unicoreHash_checksumBytes sp = Z.of_nat (hash_digits name) ->
    c = xor_all (name ++ 0x2C :: body) ->
    lhash_rel sp c expect fn_sempUnicoreHashFindAsterisk (TBody name body)
| lhash_sum name body digits :
    named unicoreHash_sentenceName sp name ->
    get unicoreHash_checksumBytes sp = Z.of_nat (hash_digits name) ->
    get unicoreHash_bytesRemaining sp = Z.of_nat (hash_digits name - length digits) ->
    (length digits < hash_digits name)%nat ->
    c = xor_all (name ++ 0x2C :: body) ->
    lhash_rel sp c expect fn_sempUnicoreHashChecksumByte (TSum name body digits)
| lhash_closed name body digits :
    named unicoreHash_sentenceName sp name ->
    get unicoreHash_checksumBytes sp = Z.of_nat (hash_digits name) ->
    length digits = hash_digits name ->
    c = xor_all (name ++ 0x2C :: body) ->
    lhash_rel sp c expect (lhash_end expect) (TSum name body digits).

Definition ltext_rel (k : PREAMBLE_ROUTINE) (expect : option Z) (p : SEMP_PARSE_STATE) (t : text) : Prop :=
  match k with
  | fn_sempNmeaPreamble => lnmea_rel (scratchPad p) (crc p) expect (state p) t
  | fn_sempUnicoreHashPreamble => lhash_rel (scratchPad p) (crc p) expect (state p) t
  | _ => False
  end.

Definition lframe_rel (k : PREAMBLE_ROUTINE) (p : SEMP_PARSE_STATE) (m : list Z) : Prop :=
  match k with
  | fn_sempUbloxPreamble =>
      computeCrc p = None /\ lublox_rel (scratchPad p) (state p) m
  | fn_sempRtcmPreamble =>
      computeCrc p = Some fn_sempRtcmComputeCrc24q /\ crc p = crc24q_run 0 m /\
      lrtcm_rel (scratchPad p) (state p) m
  | fn_sempUnicoreBinaryPreamble =>
      computeCrc p = Some fn_sempUnicoreBinaryComputeCrc /\ crc p = crc32_run 0 m /\
      lunicore_rel (scratchPad p) (state p) m
  | fn_sempBluetoothPreamble =>
      computeCrc p = Some fn_sempBluetoothComputeCrc /\
      lbluetooth_rel (scratchPad p) (crc p) (state p) m
  | fn_sempSpartnPreamble => computeCrc p = None /\ spartn_rel (scratchPad p) (state p) m
  | fn_sempSbfPreamble => computeCrc p = None /\ sbf_rel (scratchPad p) (state p) m
  | _ => False
  end.

(** ** The representation relation *)
Definition LR (p : SEMP_PARSE_STATE) (st : lspec_state) : Prop :=
  lwf p /\
  match st with
  | LScan => state p = fn_sempFirstByte
  | LFrame i k m =>
      lmessage p = m /\ type p = Z.of_nat i /\ ltable !! i = Some k /\ lframe_rel k p m
  | LSentence i k sigil t =>
      lmessage p = flatten sigil t /\ type p = Z.of_nat i /\ ltable !! i = Some k /\
      computeCrc p = None /\ text_fits lB (format k) sigil t /\ ltext_rel k None p t
  | LEnding i k sigil t expect =>
      lmessage p = flatten sigil t /\ type p = Z.of_nat i /\ ltable !! i = Some k /\
      computeCrc p = None /\ text_fits lB (format k) sigil t /\ ltext_rel k (Some expect) p t /\
      closed (format k) t = true /\ (expect = 0x0A \/ expect = 0x0D)
  end.

(** A routine refines a step of the machine: it reaches a state that represents
    the machine's, the application sees what the machine outputs and is told the
    values of its messages, or it writes outside the buffer where the machine is
    undefined. *)
Definition lrefines {A} (m : P A) (p : SEMP_PARSE_STATE) (o : option (lspec_state * items)) : Prop :=
  match o with
  | Some (st, out) =>
      exists a p' ev, m p = Ok (a, p', ev) /\ LR p' st /\ ldelivered ev = out /\ Forall informed ev
  | None => m p = Ub OutOfBounds
  end.

End invariant.
Arguments lrefines : simpl never.
Arguments LR : simpl never.

(** What a parser table promises to the scan: a preamble routine that does not
    know the byte at most hands it back; one that does starts its protocol. *)
Class LPreambleSpec `{SU : LSetup} `{Plat : Platform} (PT : ParserTable) : Prop := lpreamble_spec :
  forall k i p b,
    ltable !! i = Some k ->
    lwf p -> is_u8 b -> lmessage p = [b] -> computeCrc p = None -> crc p = 0 ->
    if lstarts k b then
      exists p', call_preamble k b p = Ok (true, p', []) /\
                 LR (with_type (Z.of_nat i) p') (lbegin i k b)
    else exists ev, call_preamble k b p = Ok (false, p, ev) /\
                    ldelivered ev = invalid hands_back k [b].

#[export] Hint Extern 1 (pad_ok (scratchPad _)) => eapply lwf_pad; eassumption : pad.
#[export] Hint Resolve lwf_pointer : pad.

(** Scratch areas after writes. *)
Ltac pad_tac :=
  repeat first
    [ assumption | apply pointer_free; assumption
    | apply pad_ok_put; [|first [reflexivity | assumption]]
    | apply pointer_put_low; [| |reflexivity]
    | eapply lwf_pad; eassumption | apply lwf_pointer ].

(** Well-formedness of a structure after member updates. *)
Ltac lwf_tac :=
  repeat first
    [ assumption | apply lwf_with_state | apply lwf_with_type | apply lwf_with_computeCrc
    | apply lwf_with_scratchPad | apply lwf_with_crc | apply lwf_with_msgLength ];
  cbn; pad_tac; auto with width; try done.

(* ------------------------------------------------------------------ *)
(** ** Messages *)

Section messages.
  Context `{SU : LSetup} `{Plat : Platform}.

Lemma length_lmessage p : lwf p -> Z.of_nat (length (lmessage p)) = msgLength p.
Proof.
  intros H. unfold lmessage. rewrite length_take.
  pose proof (lwf_buffer p H). pose proof (lwf_msgLength p H). lia.
Qed.

Lemma lmessage_bytes p : lwf p -> bytes (lmessage p).
Proof. intros H. apply Forall_take, H. Qed.

(** A byte of the message, counted from its end. *)
Lemma lbuffer_at_message p m i v :
  lwf p -> lmessage p = m -> m !! Z.to_nat i = Some v -> 0 <= i ->
  load (buffer p) i = Ok v.
Proof.
  intros Hwf <- Hv Hi. unfold lmessage in Hv. unfold load.
  assert (Z.to_nat i < Z.to_nat (msgLength p))%nat.
  { apply lookup_lt_Some in Hv. rewrite length_take in Hv. lia. }
  rewrite lookup_take_lt in Hv by done. rewrite Hv. by destruct (0 <=? i) eqn:E; [|lia].
Qed.

Lemma lload_end p l s j i v :
  lwf p -> lmessage p = l ++ s -> s !! j = Some v ->
  i = msgLength p - Z.of_nat (length s - j) -> load (buffer p) i = Ok v.
Proof.
  intros Hwf Hm Hv ->. pose proof (length_lmessage p Hwf) as Hl.
  rewrite Hm, length_app in Hl. pose proof (lookup_lt_Some _ _ _ Hv).
  eapply lbuffer_at_message; [done|exact Hm| |lia].
  rewrite lookup_app_r by lia. rewrite <-Hv. f_equal. lia.
Qed.

Lemma lbuffer_at_ok i p :
  lwf p -> 0 <= i < lB -> exists v, buffer_at i p = Ok (v, p, []).
Proof.
  intros Hwf Hi. pose proof (lwf_buffer p Hwf).
  destruct (lookup_lt_is_Some_2 (buffer p) (Z.to_nat i)) as [v Hv]; [lia|].
  exists v. unfold buffer_at, bind, gets, lift, load. cbn. rewrite Hv.
  by destruct (0 <=? i) eqn:E; [|lia].
Qed.

(** A member of a header lies in the buffer and in a message long enough. *)
Lemma lheader_get_ok f p :
  lwf p -> Z.of_nat (offset f + size f) <= msgLength p ->
  header_get f p = Ok (get f (lmessage p), p, []).
Proof.
  intros Hwf Hf. pose proof (lwf_buffer p Hwf). pose proof (lwf_msgLength p Hwf).
  unfold header_get, bind, gets, lmessage. rewrite get_take by lia.
  destruct (offset f + size f <=? length (buffer (id p)))%nat eqn:E; [done|].
  unfold id in E. lia.
Qed.

Definition lpushed (v : Z) (p : SEMP_PARSE_STATE) : SEMP_PARSE_STATE :=
  with_buffer (<[Z.to_nat (msgLength p) := v]> (buffer p))
    (with_msgLength (msgLength p + 1) p).

Lemma lbuffer_push_ok v p :
  lwf p -> msgLength p < lB -> buffer_push v p = Ok (tt, lpushed v p, []).
Proof.
  intros Hwf Hlt. pose proof (lwf_buffer p Hwf). pose proof (lwf_msgLength p Hwf).
  pose proof lB_range.
  unfold buffer_push, buffer_set, bind, gets, modify, lift, lpushed. cbn.
  rewrite store_ok by lia. by rewrite u16_id by (unfold is_u16; lia).
Qed.

Lemma lwf_pushed v p : lwf p -> is_u8 v -> msgLength p < lB -> lwf (lpushed v p).
Proof.
  intros Hwf Hv Hlt. pose proof (lwf_msgLength p Hwf). unfold lpushed.
  apply lwf_with_buffer; [apply lwf_with_msgLength; [done|lia]| |by rewrite length_insert].
  apply Forall_insert; [apply Hwf|done].
Qed.

Lemma lmessage_pushed v p : lwf p -> msgLength p < lB -> lmessage (lpushed v p) = lmessage p ++ [v].
Proof.
  intros Hwf Hlt. pose proof (lwf_buffer p Hwf). pose proof (lwf_msgLength p Hwf).
  unfold lmessage, lpushed. cbn. replace (Z.to_nat (msgLength p + 1)) with (S (Z.to_nat (msgLength p))) by lia.
  apply take_store. lia.
Qed.

End messages.

(* ------------------------------------------------------------------ *)
(** ** Refinement of composed routines *)

Section refinement.
  Context `{SU : LSetup} `{Plat : Platform}.

(** Output to the print callbacks changes nothing and delivers nothing. *)
Lemma lsempPrintf_ok {S} cb format args (p : S) :
  forallb printable args = true ->
  exists ev, sempPrintf cb format args p = Ok (tt, p, ev) /\ ldelivered ev = [].
Proof. intros H. unfold sempPrintf. destruct cb; [rewrite H|]; by eexists. Qed.

Lemma lrefines_bind {A A'} (m : P A) (k : A -> P A') p a p' ev o :
  m p = Ok (a, p', ev) -> ldelivered ev = [] -> lrefines (k a) p' o -> lrefines (bind m k) p o.
Proof.
  intros Hm Hev Hk. unfold lrefines in *. destruct o as [[st out]|].
  - destruct Hk as (a' & p'' & ev' & Hk & HR & <- & Hi). exists a', p'', (ev ++ ev').
    rewrite (bind_ok _ _ _ _ _ _ Hm), Hk, ldelivered_app, Hev. split_and!; try done.
    apply Forall_app. split; [by apply silent_informed|done].
  - by rewrite (bind_ok _ _ _ _ _ _ Hm), Hk.
Qed.

Lemma lrefines_assoc {A A' A''} (m : P A) (k : A -> P A') (k' : A' -> P A'') p o :
  lrefines (bind m (fun a => bind (k a) k')) p o -> lrefines (bind (bind m k) k') p o.
Proof. unfold lrefines. by rewrite bind_assoc. Qed.

(** The debug line that follows a failed check. *)
Lemma lrefines_bind_print {A'} (m : P unit) (k : unit -> P A') cb format args (p : SEMP_PARSE_STATE) o :
  m p = sempPrintf cb format args p -> forallb printable args = true ->
  lrefines (k tt) p o -> lrefines (bind m k) p o.
Proof.
  intros Hm Ha Hk. destruct (lsempPrintf_ok cb format args p Ha) as (ev & Hp & Hev).
  eapply lrefines_bind; [by rewrite Hm|done|done].
Qed.

Lemma lrefines_ok {A} (m : P A) p a p' ev st :
  m p = Ok (a, p', ev) -> LR p' st -> ldelivered ev = [] -> lrefines m p (Some (st, [])).
Proof. intros ? ? H. exists a, p', ev. split_and!; try done. by apply silent_informed. Qed.

(** A routine that delivers a message, or hands data back. *)
Lemma lrefines_tells {A} (m : P A) p a p' ev st out :
  m p = Ok (a, p', ev) -> LR p' st -> ldelivered ev = out -> Forall informed ev -> lrefines m p (Some (st, out)).
Proof. intros. by exists a, p', ev. Qed.

(** The value a routine returns does not matter to its caller. *)
Lemma lrefines_ignore {A A'} (m : P A) (a' : A') p o :
  lrefines m p o -> lrefines (m;; ret a') p o.
Proof.
  unfold lrefines. destruct o as [[st out]|].
  - intros (a & p' & ev & Hm & HR & <- & Hi). exists a', p', ev. unfold bind.
    rewrite Hm. cbn. by rewrite app_nil_r.
  - intros Hu. unfold bind. by rewrite Hu.
Qed.

Lemma lscan_delivers out b :
  lscan ltable hands_back out b =
    match lscan ltable hands_back [] b with Some (st, out') => Some (st, out ++ out') | None => None end.
Proof. unfold lscan. by destruct (lscan_from hands_back ltable 0 b). Qed.

(** The alternative check of the application. *)
Lemma lbadCrc_overrides_ok p :
  lwf p -> exists ev,
    badCrc_overrides p = Ok (laccepts (type p) (lmessage p), p, ev) /\ ldelivered ev = [].
Proof.
  intros Hwf. unfold badCrc_overrides, bind, gets. cbn. rewrite (lwf_bad p Hwf).
  pose proof laccepts_spec as H. destruct lbad as [f|].
  - cbn. rewrite H, negb_involutive. by eexists.
  - cbn. rewrite H. by eexists.
Qed.

Lemma lcheck_ok (c : bool) p :
  lwf p -> exists ev,
    (if c then ret true else badCrc_overrides) p =
      Ok (c || laccepts (type p) (lmessage p), p, ev) /\ ldelivered ev = [].
Proof. intros Hwf. destruct c; [by eexists|by apply lbadCrc_overrides_ok]. Qed.

Lemma lcall_eomCallback_ok p :
  lwf p -> call_eomCallback p = Ok (tt, p, [EvEom leom p (type p)]).
Proof. intros Hwf. unfold call_eomCallback, bind, gets. cbn. by rewrite (lwf_eom p Hwf). Qed.

(** The end of a binary frame: delivery or a debug line, then [k]. *)
Lemma lrefines_deliver {A} (good : bool) (prt : P unit) (k : P A) cb format args (p : SEMP_PARSE_STATE) a q :
  lwf p -> prt p = sempPrintf cb format args p -> forallb printable args = true ->
  k p = Ok (a, q, []) -> LR q LScan -> informed (EvEom leom p (type p)) ->
  lrefines ((if good then call_eomCallback else prt);; k) p
    (Some (LScan, if good then [Msg (type p) (lmessage p)] else [])).
Proof.
  intros Hwf Hprt Ha Hk HR Hi. destruct good.
  - eapply lrefines_tells; [unfold bind; rewrite lcall_eomCallback_ok by done; rewrite Hk; reflexivity|done|done|].
    by apply Forall_singleton.
  - eapply lrefines_bind_print; [exact Hprt|done|]. by eapply lrefines_ok.
Qed.

(** A routine that delivers [out] and then restarts the scan. *)
Lemma lrefines_bind_scan {A A'} (m : P A) (k : A -> P A') p a p' ev b :
  m p = Ok (a, p', ev) -> Forall informed ev -> lrefines (k a) p' (lscan ltable hands_back [] b) ->
  lrefines (bind m k) p (lscan ltable hands_back (ldelivered ev) b).
Proof.
  intros Hm Hi Hk. rewrite lscan_delivers. unfold lscan in *.
  destruct (lscan_from hands_back ltable 0 b) as [st out].
  destruct Hk as (a' & p'' & ev' & Hk & HR & Hev & Hi'). exists a', p'', (ev ++ ev').
  rewrite (bind_ok _ _ _ _ _ _ Hm), Hk, ldelivered_app, Hev. split_and!; try done. by apply Forall_app.
Qed.

End refinement.

(* ------------------------------------------------------------------ *)
(** ** The library's scan for a preamble byte

    [sempFirstByte] refines the machine's scan, for every parser table that keeps
    the promise [LPreambleSpec]. *)

Section scan.
  Context `{SU : LSetup} `{Plat : Platform} `{PS : !LPreambleSpec PT}.

Lemma lwalk_refines l i p b :
  ltable = take i ltable ++ l -> (i + length l = length ltable)%nat ->
  lwf p -> is_u8 b -> lmessage p = [b] -> computeCrc p = None -> crc p = 0 ->
  lrefines (walk_parsers (length l) (Z.of_nat i) b) p (Some (lscan_from hands_back l i b)).
Proof.
  revert i. induction l as [|k l IH]; intros i Ht Hi Hwf Hb Hm Hc H0.
  - cbn. eapply lrefines_ok; [reflexivity| |done]. split; [by apply lwf_with_state|done].
  - cbn [length walk_parsers lscan_from].
    eapply lrefines_bind; [reflexivity|done|]. rewrite (lwf_table p Hwf), Nat2Z.id.
    assert (ltable !! i = Some k) as Hk.
    { rewrite Ht, lookup_app_r by (rewrite length_take; lia).
      rewrite length_take. replace (i - _)%nat with 0%nat by lia. done. }
    rewrite Hk. pose proof (lpreamble_spec k i p b Hk Hwf Hb Hm Hc H0) as Hp.
    destruct (lstarts k b).
    + destruct Hp as (p' & Hp & HR). eapply lrefines_bind; [exact Hp|done|].
      pose proof ltable_small. cbn [length] in Hi.
      eapply lrefines_ok; [reflexivity| |done].
      rewrite u16_id by (unfold is_u16; lia). exact HR.
    + destruct Hp as (ev & Hp & Hev). cbn [length] in Hi.
      specialize (IH (S i)). destruct (lscan_from hands_back l (S i) b) as [st out].
      replace (Z.of_nat i + 1) with (Z.of_nat (S i)) by lia.
      destruct IH as (a & p' & ev' & Hw & HR & <- & Hi'); [|lia|done..|].
      * rewrite Ht at 2. rewrite take_app. replace (take (S i) (take i ltable)) with (take i ltable).
        -- rewrite length_take. replace (S i - i `min` length ltable)%nat with 1%nat by lia.
           cbn. by rewrite <-app_assoc.
        -- rewrite take_take. f_equal. lia.
      * exists a, p', (ev ++ ev'). rewrite (bind_ok _ _ _ _ _ _ Hp), Hw, ldelivered_app, Hev.
        split_and!; try done. apply Forall_app. split; [|done]. apply quiet_informed. rewrite Hev.
        apply invalid_quiet.
Qed.

Lemma lsempFirstByte_refines p b :
  lwf p -> is_u8 b -> lrefines (sempFirstByte b) p (lscan ltable hands_back [] b).
Proof.
  intros Hwf Hb. unfold sempFirstByte.
  do 5 (eapply lrefines_bind; [reflexivity|done|]). pose proof lB_range.
  set (p0 := with_type _ _).
  assert (lwf p0) as Hwf0.
  { apply lwf_with_type, lwf_with_msgLength; [|lia]. apply lwf_with_computeCrc.
    by apply lwf_with_crc. }
  eapply lrefines_bind; [apply lbuffer_push_ok; [done|cbn; lia]|done|].
  match goal with |- context [Z.to_nat ?c] => change c with (parserCount p0) end.
  rewrite (lwf_count p0 Hwf0), Nat2Z.id.
  pose proof (lwalk_refines ltable 0 (lpushed b p0) b) as Hw.
  unfold lscan. destruct (lscan_from hands_back ltable 0 b) as [st out].
  apply Hw; [done|done|apply lwf_pushed; [done|done|cbn; lia]|done| |done|done].
  rewrite lmessage_pushed by (done || cbn; lia). done.
Qed.

(** A message on the way and a restart of the scan. *)
Lemma lprint_scan_refines cb format args (p : SEMP_PARSE_STATE) b :
  lwf p -> is_u8 b -> forallb printable args = true ->
  lrefines (sempPrintf cb format args;; sempFirstByte b) p (lscan ltable hands_back [] b).
Proof.
  intros Hwf Hb Ha. destruct (lsempPrintf_ok cb format args p Ha) as (ev & Hp & Hev).
  eapply lrefines_bind; [exact Hp|done|]. by apply lsempFirstByte_refines.
Qed.

End scan.
