(* ===== verification/LibFrames.v ===== *)
(** * Refinement of the library's u-blox and RTCM parsers

    Every u-blox and RTCM routine of [LibBinary] takes the step of the machine. *)
From S2P Require Import Prelude Crc ParseState FrameSpec Sentences Representation LibParser.
From S2P Require Import LibFramework LibBinary LibSpec LibRep.

Section ublox_refine.
  Context `{SU : LSetup} `{Plat : Platform} `{PS : !LPreambleSpec PT}.
  Context (i : nat) (p : SEMP_PARSE_STATE) (b : Z).
  Context (Hwf : lwf p) (Hb : is_u8 b) (Htype : type p = Z.of_nat i) (Hi : ltable !! i = Some fn_sempUbloxPreamble)
    (Hcrc : computeCrc p = None).
  Abbreviation step m := (lframe_step ltable laccepts hands_back i fn_sempUbloxPreamble m b).

Definition checksummed (q : SEMP_PARSE_STATE) (d : Z) : list Z :=
  put ublox_ck_b (u8 (get ublox_ck_b (scratchPad q) + u8 (get ublox_ck_a (scratchPad q) + d)))
    (put ublox_ck_a (u8 (get ublox_ck_a (scratchPad q) + d)) (scratchPad q)).

Lemma lublox_checksum_ok q d :
  lwf q -> ublox_checksum d q = Ok (tt, with_scratchPad (checksummed q d) q, []).
Proof.
  intros Hq. pose proof (lwf_pad q Hq).
  unfold ublox_checksum, pad_get, pad_set, bind, gets, modify, checksummed. cbn.
  pad_simpl. rewrite Z.mod_small; [done|apply u8_range].
Qed.

Lemma lchecksummed_ok q d : lwf q -> pad_ok (checksummed q d) /\ pointer_kept (checksummed q d).
Proof. intros Hq. unfold checksummed. split; auto 6 with pad. Qed.

Lemma lchecksummed_check q l d :
  lwf q -> lublox_check (scratchPad q) l -> lublox_check (checksummed q d) (l ++ [d]).
Proof.
  intros Hq [Ha Hb']. pose proof (lwf_pad q Hq). unfold lublox_check, checksummed.
  rewrite fletcher_app. pad_simpl. rewrite Ha, Hb'. cbn.
  split; (rewrite Z.mod_small; [done|apply u8_range]).
Qed.

Lemma lchecksummed_pad q c e l d :
  lwf q -> lublox_pad (scratchPad q) (c :: e :: l) -> lublox_pad (checksummed q d) (c :: e :: l ++ [d]).
Proof.
  intros Hq [Hck Hn]. pose proof (lwf_pad q Hq).
  split; [by apply (lchecksummed_check q (c :: e :: l))|]. unfold checksummed. by pad_simpl.
Qed.

Lemma lsempUbloxSync2_refines s1 :
  lmessage p = [s1; b] -> lrefines (sempUbloxSync2 b) p (step [s1; b]).
Proof.
  intros Hm. unfold sempUbloxSync2, lframe_step. cbn. destruct (b =? 0x62) eqn:E; cbn.
  - apply Z.eqb_eq in E as ->. eapply lrefines_ok; [reflexivity| |done].
    split; [lwf_tac|]. repeat split; try done. constructor.
  - do 2 (eapply lrefines_bind; [reflexivity|done|]). by apply lprint_scan_refines.
Qed.

Lemma lsempUbloxClass_refines s1 :
  lmessage p = [s1; 0x62; b] -> lrefines (sempUbloxClass b) p (step [s1; 0x62; b]).
Proof.
  intros Hm. pose proof (lwf_pad p Hwf).
  eapply lrefines_ok; [reflexivity| |done]. split; [lwf_tac|].
  repeat split; try done. constructor. cbn. unfold lublox_pad, lublox_check. pad_simpl.
  unfold is_u8 in Hb. rewrite Z.shiftl_mul_pow2 by lia. cbn. unfold u16. rewrite !Z.mod_small by lia. lia.
Qed.

Lemma lsempUbloxId_refines s1 c :
  lmessage p = [s1; 0x62; c; b] -> lublox_pad (scratchPad p) [c] ->
  lrefines (sempUbloxId b) p (step [s1; 0x62; c; b]).
Proof.
  intros Hm Hck. destruct (lchecksummed_ok p b Hwf).
  eapply lrefines_bind; [by apply lublox_checksum_ok|done|].
  eapply lrefines_ok; [reflexivity| |done]. split; [lwf_tac|].
  repeat split; try done. constructor. cbn. destruct Hck as [Hck Hn]. split; unfold lublox_check; pad_simpl.
  - by apply (lchecksummed_check p [c]).
  - unfold checksummed. pad_simpl. rewrite Hn. unfold byte. cbn -[Z.lor].
    assert (is_u8 c) as Hc.
    { pose proof (lmessage_bytes p Hwf) as Hbs. rewrite Hm in Hbs.
      by do 2 apply Forall_cons_1 in Hbs as [_ Hbs]; apply Forall_cons_1 in Hbs as [? _]. }
    unfold is_u8 in *. replace (256 * c + 0) with (Z.shiftl c 8) by (rewrite Z.shiftl_mul_pow2; lia).
    rewrite Z.lor_comm, lor_shiftl_add by lia. unfold u16. rewrite !Z.mod_small; lia.
Qed.

Lemma lsempUbloxLength1_refines s1 c d :
  lmessage p = [s1; 0x62; c; d; b] -> lublox_pad (scratchPad p) [c; d] ->
  lrefines (sempUbloxLength1 b) p (step [s1; 0x62; c; d; b]).
Proof.
  intros Hm Hck. destruct (lchecksummed_ok p b Hwf).
  eapply lrefines_bind; [by apply lublox_checksum_ok|done|].
  eapply lrefines_ok; [reflexivity| |done]. split; [lwf_tac|].
  repeat split; try done. constructor; cbn.
  - unfold lublox_pad, lublox_check. pad_simpl. by apply (lchecksummed_pad p c d []).
  - pad_simpl. unfold is_u8 in Hb. apply Z.mod_small. cbn. lia.
Qed.

Lemma lsempUbloxLength2_refines s1 c d l1 :
  lmessage p = [s1; 0x62; c; d; l1; b] -> lublox_pad (scratchPad p) [c; d; l1] ->
  get ublox_bytesRemaining (scratchPad p) = l1 ->
  lrefines (sempUbloxLength2 b) p (step [s1; 0x62; c; d; l1; b]).
Proof.
  intros Hm Hck Hl. destruct (lchecksummed_ok p b Hwf). pose proof (lwf_pad p Hwf).
  assert (bytes [s1; 0x62; c; d; l1; b]) as Hbs by (rewrite <-Hm; by apply lmessage_bytes).
  do 4 apply Forall_cons_1 in Hbs as [_ Hbs]. apply Forall_cons_1 in Hbs as [Hl1 _].
  unfold is_u8 in *.
  assert (step [s1; 0x62; c; d; l1; b]
          = Some (LFrame i fn_sempUbloxPreamble [s1; 0x62; c; d; l1; b], [])) as ->.
  { unfold lframe_step, lib_verdict, shared_verdict, ublox_verdict. cbn -[Nat.ltb].
    destruct (0 <? Z.to_nat (l1 + 256 * b) + 2)%nat eqn:E; [done|lia]. }
  eapply lrefines_bind; [by apply lublox_checksum_ok|done|].
  eapply lrefines_ok; [reflexivity| |done]. split; [lwf_tac|].
  repeat split; try done. apply (lublox_payload _ s1 c d l1 b []); cbn.
  - unfold lublox_pad, lublox_check. pad_simpl. by apply (lchecksummed_pad p c d [l1]).
  - pad_simpl. unfold checksummed. pad_simpl. rewrite Hl.
    rewrite lor_shiftl_add by lia. cbn. unfold u16. rewrite !Z.mod_small; lia.
Qed.

Lemma lsempUbloxPayload_refines s1 c d l1 l2 pl :
  let m := s1 :: 0x62 :: c :: d :: l1 :: l2 :: pl in
  lmessage p = m ++ [b] -> lublox_pad (scratchPad p) (c :: d :: l1 :: l2 :: pl) ->
  get ublox_bytesRemaining (scratchPad p) + Z.of_nat (length pl) = l1 + 256 * l2 ->
  state p = fn_sempUbloxPayload ->
  lrefines (sempUbloxPayload b) p (step (m ++ [b])).
Proof.
  intros m Hm Hck Hl Hst. pose proof (lwf_pad p Hwf) as Hpad.
  pose proof (pad_get_range ublox_bytesRemaining (scratchPad p) Hpad eq_refl) as Hr. cbn in Hr.
  unfold m. cbn [app].
  assert (step (s1 :: 0x62 :: c :: d :: l1 :: l2 :: pl ++ [b])
     = Some (LFrame i fn_sempUbloxPreamble (s1 :: 0x62 :: c :: d :: l1 :: l2 :: pl ++ [b]), [])) as ->.
  { unfold lframe_step, lib_verdict, shared_verdict, ublox_verdict. cbn -[Nat.ltb]. rewrite length_app. cbn -[Nat.ltb].
    by destruct (length pl + 1 <? Z.to_nat (l1 + 256 * l2) + 2)%nat eqn:E; [|lia]. }
  unfold sempUbloxPayload. do 2 (eapply lrefines_bind; [reflexivity|done|]).
  set (q := with_scratchPad _ p). assert (lwf q) as Hq by (unfold q; lwf_tac).
  assert (lublox_pad (scratchPad q) (c :: d :: l1 :: l2 :: pl)) as Hckq.
  { unfold q, lublox_pad, lublox_check. cbn. pad_simpl. exact Hck. }
  destruct (get ublox_bytesRemaining (scratchPad p) =? 0) eqn:E; cbn [negb].
  - eapply lrefines_ok; [reflexivity| |done]. split; [lwf_tac|]. repeat split; try done.
    constructor; [exact Hckq|lia].
  - eapply lrefines_bind; [by apply lublox_checksum_ok|done|].
    destruct (lchecksummed_ok q b Hq).
    eapply lrefines_ok; [reflexivity| |done]. split; [lwf_tac|]. repeat split; try done. cbn. rewrite Hst.
    constructor.
    + by apply (lchecksummed_pad q c d (l1 :: l2 :: pl)).
    + unfold checksummed. pose proof (lwf_pad q Hq). pad_simpl. unfold q. cbn. pad_simpl.
      rewrite length_app. cbn. unfold u16. rewrite !Z.mod_small; lia.
Qed.

Lemma lsempUbloxCkB_refines s1 c d l1 l2 pl a :
  let m := s1 :: 0x62 :: c :: d :: l1 :: l2 :: pl ++ [a] in
  lmessage p = m ++ [b] -> lublox_pad (scratchPad p) (c :: d :: l1 :: l2 :: pl) ->
  Z.of_nat (length pl) = l1 + 256 * l2 ->
  lrefines (sempUbloxCkB b) p (step (m ++ [b])).
Proof.
  intros m Hm Hck Hl.
  pose proof (length_lmessage p Hwf) as Hlen. rewrite Hm in Hlen.
  assert (Z.of_nat (length (m ++ [b])) = 8 + Z.of_nat (length pl)) as Hlm.
  { unfold m. rewrite length_app. cbn. rewrite length_app. cbn. lia. }
  unfold m in *. rewrite <-!app_comm_cons, <-app_assoc in *. cbn [app] in Hm |- *.
  set (m' := s1 :: 0x62 :: c :: d :: l1 :: l2 :: pl ++ [a; b]) in *.
  assert (load (buffer p) (msgLength p - 2) = Ok a) as Ha
    by by eapply (lload_end p (s1 :: 0x62 :: c :: d :: l1 :: l2 :: pl) [a; b] 0).
  assert (load (buffer p) (msgLength p - 1) = Ok b) as Hbb
    by by eapply (lload_end p (s1 :: 0x62 :: c :: d :: l1 :: l2 :: pl) [a; b] 1).
  assert (step m' = Some (LScan,
     if bool_decide ([a; b] = [(fletcher (c :: d :: l1 :: l2 :: pl)).1; (fletcher (c :: d :: l1 :: l2 :: pl)).2])
        || laccepts (Z.of_nat i) m' then [Msg (Z.of_nat i) m'] else [])) as ->.
  { unfold lframe_step, lib_verdict, shared_verdict, ublox_verdict, m'. cbn -[Nat.ltb fletcher].
    rewrite length_app. destruct (length pl + length [a; b] <? _)%nat eqn:E; [cbn [length] in E; lia|].
    by rewrite take_app_length', drop_app_length' by lia. }
  destruct Hck as [[Hca Hcb] Hnum]. set (ck := fletcher (c :: d :: l1 :: l2 :: pl)) in *.
  destruct (lcheck_ok (negb (negb (a =? ck.1) || negb (b =? ck.2))) p Hwf) as (ev & Hchk & Hev).
  rewrite Hm, Htype in Hchk.
  assert (negb (negb (a =? ck.1) || negb (b =? ck.2)) = bool_decide ([a; b] = [ck.1; ck.2])) as Heq.
  { destruct (Z.eqb_spec a ck.1), (Z.eqb_spec b ck.2); case_bool_decide; cbn; congruence. }
  rewrite Heq in Hchk. unfold sempUbloxCkB. 
  do 5 (eapply lrefines_bind; [cbn; unfold buffer_at, bind, gets, lift, pad_get; cbn; rewrite ?Ha, ?Hbb; reflexivity|done|]).
  rewrite Hca, Hcb, Heq. eapply lrefines_bind; [exact Hchk|exact Hev|].
  destruct (bool_decide _ || laccepts _ _) eqn:E.
  - eapply lrefines_tells.
    + unfold bind. rewrite lcall_eomCallback_ok by done. reflexivity.
    + split; [|done]. pose proof lB_range. lwf_tac. lia.
    + cbn. by rewrite Hm, Htype.
    + apply Forall_singleton. cbn. intros k. rewrite Htype, Nat2Z.id, Hi, Hm. by intros [= <-].
  - eapply lrefines_bind_print; [run_monad; reflexivity|done|].
    eapply lrefines_ok; [reflexivity| |done]. split; [|done]. pose proof lB_range. lwf_tac. lia.
Qed.

End ublox_refine.

Lemma lsempUbloxPreamble_spec `{SU : LSetup} `{Plat : Platform} i p b :
  ltable !! i = Some fn_sempUbloxPreamble -> lwf p -> lmessage p = [b] -> computeCrc p = None ->
  if b =? 0xb5
  then exists p', sempUbloxPreamble b p = Ok (true, p', []) /\
                  LR (with_type (Z.of_nat i) p') (LFrame i fn_sempUbloxPreamble [b])
  else sempUbloxPreamble b p = Ok (false, p, []).
Proof.
  intros Hi Hwf Hm Hc. unfold sempUbloxPreamble. destruct (b =? 0xb5); [|done]. cbn [negb].
  eexists. split; [reflexivity|]. split; [lwf_tac|]. repeat split; try done. constructor.
Qed.

(* ------------------------------------------------------------------ *)
(** ** Refinement of the library's RTCM parser

    Every RTCM routine of [LibBinary] takes the step of the machine. *)

Section rtcm_refine.
  Context `{SU : LSetup} `{Plat : Platform} `{PS : !LPreambleSpec PT}.
  Context (i : nat) (p : SEMP_PARSE_STATE) (m : list Z) (b : Z).
  Context (Hwf : lwf p) (Hb : is_u8 b) (Htype : type p = Z.of_nat i) (Hi : ltable !! i = Some fn_sempRtcmPreamble)
    (Hfun : computeCrc p = Some fn_sempRtcmComputeCrc24q)
    (Hm : lmessage p = m ++ [b]) (Hcrc : crc p = crc24q_run 0 (m ++ [b])).
  Abbreviation step := (lframe_step ltable laccepts hands_back i fn_sempRtcmPreamble (m ++ [b]) b).
  Abbreviation stay := (Some (LFrame i fn_sempRtcmPreamble (m ++ [b]), [])).

Lemma lrtcm_message_bytes : bytes (m ++ [b]).
Proof. rewrite <-Hm. by apply lmessage_bytes. Qed.

Lemma lrtcm_message_short : Z.of_nat (length (m ++ [b])) <= lB.
Proof. rewrite <-Hm, length_lmessage by done. apply lwf_msgLength, Hwf. Qed.

(** A frame that is not complete. *)
Lemma lrtcm_more s1 h l body :
  m ++ [b] = s1 :: h :: l :: body -> h <= 3 ->
  256 * h + l < 3 \/ Z.of_nat (length body) < 256 * h + l + 3 -> step = stay.
Proof.
  intros -> Hh Hn. unfold lframe_step, lib_verdict. by rewrite rtcm_verdict_more.
Qed.

Lemma lsempRtcmReadLength1_refines s1 :
  m = [s1] -> lrefines (sempRtcmReadLength1 b) p step.
Proof.
  intros Hm1. pose proof (lwf_pad p Hwf). unfold sempRtcmReadLength1.
  assert (negb (Z.land b (Z.lnot 3) =? 0) = (3 <? b)) as ->.
  { rewrite <-Z.ldiff_land. change 3 with (Z.ones 2) at 1. rewrite Z.ldiff_ones_r by lia.
    unfold is_u8 in Hb. rewrite Z.shiftr_div_pow2, Z.shiftl_mul_pow2 by lia. change (2 ^ 2) with 4.
    destruct (3 <? b) eqn:E; destruct (Z.eqb_spec (b / 4 * 4) 0); cbn; try done; mlia. }
  unfold lframe_step, lib_verdict. rewrite Hm1. cbn [app rtcm_verdict].
  destruct (3 <? b) eqn:E; [by apply lsempFirstByte_refines|].
  eapply lrefines_ok; [reflexivity| |done]. split; [lwf_tac|].
  rewrite Hm1 in *. repeat split; try done. constructor; [lia|].
  cbn. pad_simpl. unfold is_u8 in Hb. rewrite Z.shiftl_mul_pow2 by lia. change (2 ^ 8) with 256.
  unfold u16. cbn. rewrite !Z.mod_small; lia.
Qed.

Lemma lsempRtcmReadLength2_refines s1 h :
  m = [s1; h] -> h <= 3 -> get rtcm_bytesRemaining (scratchPad p) = 256 * h ->
  lrefines (sempRtcmReadLength2 b) p step.
Proof.
  intros Hm1 Hh Hn. pose proof (lwf_pad p Hwf). pose proof lrtcm_message_bytes as Hbs.
  rewrite Hm1 in Hbs. apply Forall_cons_1 in Hbs as [_ [Hh' _]%Forall_cons_1].
  unfold is_u8 in *. rewrite (lrtcm_more s1 h b []) by (rewrite ?Hm1; cbn; done || lia).
  eapply lrefines_ok; [reflexivity| |done]. split; [lwf_tac|].
  rewrite Hm1 in *. repeat split; try done. constructor; [done|]. cbn. pad_simpl. rewrite Hn.
  assert (Z.lor (256 * h) b = 256 * h + b) as ->.
  { replace (256 * h) with (Z.shiftl h 8) by (rewrite Z.shiftl_mul_pow2; lia).
    rewrite Z.lor_comm, lor_shiftl_add, Z.shiftl_mul_pow2 by lia. lia. }
  unfold u16. cbn. rewrite !Z.mod_small; lia.
Qed.

Lemma lrtcm_length_range s1 h l body :
  m ++ [b] = s1 :: h :: l :: body -> is_u8 h /\ is_u8 l.
Proof.
  intros Ht. pose proof lrtcm_message_bytes as Hbs. rewrite Ht in Hbs.
  apply Forall_cons_1 in Hbs as [_ [? [? _]%Forall_cons_1]%Forall_cons_1]. done.
Qed.

Lemma lsempRtcmReadMessage1_refines s1 h l :
  m = [s1; h; l] -> h <= 3 -> get rtcm_bytesRemaining (scratchPad p) = 256 * h + l ->
  lrefines (sempRtcmReadMessage1 b) p step.
Proof.
  intros Hm1 Hh Hn. pose proof (lwf_pad p Hwf).
  destruct (lrtcm_length_range s1 h l [b]) as [? ?]; [by rewrite Hm1|]. unfold is_u8 in *.
  rewrite (lrtcm_more s1 h l [b]) by (rewrite ?Hm1; cbn; done || lia).
  eapply lrefines_ok; [reflexivity| |done]. split; [lwf_tac|].
  rewrite Hm1 in *. repeat split; try done. constructor; [done| |]; cbn; pad_simpl.
  - rewrite Hn. apply Z.mod_small, u16_range.
  - rewrite Z.shiftl_mul_pow2 by lia. cbn. unfold u16. rewrite !Z.mod_small; lia.
Qed.

Lemma lsempRtcmReadMessage2_refines s1 h l d :
  m = [s1; h; l; d] -> h <= 3 -> get rtcm_bytesRemaining (scratchPad p) = u16 (256 * h + l - 1) ->
  get rtcm_message (scratchPad p) = 16 * d ->
  lrefines (sempRtcmReadMessage2 b) p step.
Proof.
  intros Hm1 Hh Hn Hnum. pose proof (lwf_pad p Hwf).
  destruct (lrtcm_length_range s1 h l [d; b]) as [? ?]; [by rewrite Hm1|].
  assert (is_u8 d) as Hd.
  { pose proof lrtcm_message_bytes as Hbs. rewrite Hm1 in Hbs.
    do 3 apply Forall_cons_1 in Hbs as [_ Hbs]. by apply Forall_cons_1 in Hbs as [? _]. }
  unfold is_u8 in *.
  rewrite (lrtcm_more s1 h l [d; b]) by (rewrite ?Hm1; cbn; done || lia).
  eapply lrefines_ok; [reflexivity| |done]. split; [lwf_tac|].
  rewrite Hm1 in *. repeat split; try done. constructor; [done| |cbn; lia|]; cbn; pad_simpl.
  - rewrite Hn. cbn. unfold u16. mlia.
  - rewrite Hnum, Z.shiftr_div_pow2 by lia. change (2 ^ 4) with 16.
    replace (16 * d) with (Z.shiftl d 4) by (rewrite Z.shiftl_mul_pow2; lia).
    assert (0 <= b / 16 < 16) as He by mlia. revert He. generalize (b / 16). intros e He.
    rewrite Z.lor_comm, lor_shiftl_add, Z.shiftl_mul_pow2 by lia. cbn. unfold u16. rewrite !Z.mod_small; lia.
Qed.

Lemma lsempRtcmReadData_refines s1 h l d1 d2 body :
  m = s1 :: h :: l :: d1 :: d2 :: body -> h <= 3 ->
  get rtcm_bytesRemaining (scratchPad p) = u16 (256 * h + l - 2 - Z.of_nat (length body)) ->
  256 * h + l < 3 \/ 2 + Z.of_nat (length body) < 256 * h + l ->
  get rtcm_message (scratchPad p) = 16 * d1 + d2 / 16 -> state p = fn_sempRtcmReadData ->
  lrefines (sempRtcmReadData b) p step.
Proof.
  intros Hm1 Hh Hn Hl Hnum Hst. pose proof (lwf_pad p Hwf).
  destruct (lrtcm_length_range s1 h l (d1 :: d2 :: body ++ [b])) as [? ?]; [by rewrite Hm1|].
  pose proof lrtcm_message_short as Hshort. pose proof lB_range.
  rewrite length_app, Hm1 in Hshort. cbn [length] in Hshort. unfold is_u8 in *.
  rewrite (lrtcm_more s1 h l (d1 :: d2 :: body ++ [b]))
    by (rewrite ?Hm1; cbn; rewrite ?length_app; cbn; done || lia).
  rewrite Hm1 in *. unfold sempRtcmReadData.
  do 3 (eapply lrefines_bind; [reflexivity|done|]). cbn. pad_simpl. rewrite Hn.
  set (n := u16 (u16 _ - 1) mod _).
  assert (n = u16 (256 * h + l - 3 - Z.of_nat (length body))) as Hn' by (unfold n, u16; cbn; mlia).
  destruct (n <=? 0) eqn:E.
  - assert (256 * h + l = 3 + Z.of_nat (length body)) by (unfold u16 in Hn'; mlia).
    eapply lrefines_ok; [reflexivity| |done]. split; [lwf_tac|]. repeat split; try done.
    eapply (lrtcm_crcbytes _ s1 h l (d1 :: d2 :: body ++ [b]) []) in Hh; cbn.
    + rewrite app_nil_r in Hh. exact Hh.
    + lia.
    + rewrite length_app. cbn. lia.
    + by pad_simpl.
    + lia.
    + by pad_simpl.
  - eapply lrefines_ok; [reflexivity| |done]. split; [lwf_tac|]. repeat split; try done.
    cbn. rewrite Hst. constructor; [done| | |by pad_simpl].
    + pad_simpl. fold n. rewrite Hn', length_app. cbn. f_equal. lia.
    + rewrite length_app. cbn. unfold u16 in Hn'. mlia.
Qed.

(** The verdict on a complete frame is the register being zero. *)
Lemma lrtcm_done s1 h l body c0 c1 :
  m = s1 :: h :: l :: body ++ [c0; c1] -> h <= 3 -> 3 <= 256 * h + l ->
  Z.of_nat (length body) = 256 * h + l ->
  lib_verdict fn_sempRtcmPreamble (m ++ [b]) = Complete (crc p =? 0).
Proof.
  intros Hm1 Hh Hl Hbody. rewrite Hcrc. pose proof lrtcm_message_bytes as Hbs.
  assert (m ++ [b] = (s1 :: h :: l :: body) ++ [c0; c1; b]) as Hmb
    by (rewrite Hm1; cbn; by rewrite <-app_assoc).
  rewrite Hmb in Hbs |- *. apply Forall_app in Hbs as [Hbs Hck].
  do 2 apply Forall_cons_1 in Hck as [? Hck]. clear Hck.
  pose proof (crc24q_run_range 0 (s1 :: h :: l :: body) ltac:(done)) as Hr.
  pose proof (crc24q_residue _ c0 c1 b Hr ltac:(done) ltac:(done) ltac:(done)) as Hres.
  rewrite crc24q_run_app.
  unfold lib_verdict, rtcm_verdict, shared_verdict. cbn [app]. destruct (3 <? h) eqn:E; [lia|]. cbn zeta.
  rewrite length_app. destruct (_ || _)%nat eqn:E2; [cbn [length] in E2; lia|].
  rewrite drop_app_length' by lia. f_equal.
  replace (take (3 + Z.to_nat (256 * h + l)) (s1 :: h :: l :: body ++ [c0; c1; b]))
    with (s1 :: h :: l :: body).
  2: { cbn. by rewrite take_app_length' by lia. }
  rewrite <-crc24q_run_ref by done.
  case_bool_decide; destruct (Z.eqb_spec (crc24q_run (crc24q_run 0 (s1 :: h :: l :: body)) [c0; c1; b]) 0); tauto.
Qed.

Lemma lsempRtcmReadCrc_refines s1 h l body cks :
  m = s1 :: h :: l :: body ++ cks -> h <= 3 -> 3 <= 256 * h + l ->
  Z.of_nat (length body) = 256 * h + l ->
  get rtcm_bytesRemaining (scratchPad p) = 3 - Z.of_nat (length cks) ->
  (length cks < 3)%nat -> get rtcm_message (scratchPad p) = 16 * byte body 0 + byte body 1 / 16 ->
  state p = fn_sempRtcmReadCrc ->
  lrefines (sempRtcmReadCrc b) p step.
Proof.
  intros Hm1 Hh Hl Hbody Hn Hc Hnum Hst. pose proof (lwf_pad p Hwf).
  unfold sempRtcmReadCrc. do 3 (eapply lrefines_bind; [reflexivity|done|]). cbn. pad_simpl.
  rewrite Hn. rewrite Z.mod_small by apply u16_range. rewrite u16_id by (unfold is_u16; lia).
  destruct (0 <? 3 - Z.of_nat (length cks) - 1) eqn:E.
  - rewrite (lrtcm_more s1 h l (body ++ cks ++ [b])).
    2: by rewrite Hm1, app_assoc. 2: done. 2: rewrite !length_app; cbn; lia.
    eapply lrefines_ok; [reflexivity| |done]. split; [lwf_tac|]. repeat split; try done.
    cbn. rewrite Hst. replace (m ++ [b]) with (s1 :: h :: l :: body ++ (cks ++ [b])).
    2: by rewrite Hm1, app_assoc.
    constructor; rewrite ?length_app; cbn; try (done || lia); pad_simpl; [|done].
    cbn. rewrite Z.mod_small by lia. lia.
  - destruct cks as [|c0 [|c1 [|c2 cks]]]; cbn [length] in E, Hc; try lia.
    set (q := with_scratchPad _ p). assert (lwf q) as Hq by (unfold q; lwf_tac).
    eapply lrefines_bind; [reflexivity|done|].
    destruct (lcheck_ok (crc q =? 0) q Hq) as (ev & Hchk & Hev).
    eapply lrefines_bind; [exact Hchk|exact Hev|].
    unfold lframe_step. rewrite (lrtcm_done s1 h l body c0 c1) by done.
    rewrite <-Hm, <-Htype. change (crc p) with (crc q).
    change (lmessage p) with (lmessage q). change (type p) with (type q).
    pose proof (length_lmessage p Hwf) as Hlen. pose proof (lwf_msgLength p Hwf) as Hmax.
    rewrite Hm, length_app, Hm1 in Hlen. cbn [length] in Hlen. change (msgLength p) with (msgLength q) in *.
    destruct (lbuffer_at_ok (msgLength q - 3) q Hq) as [b3 H3]; [lia|].
    destruct (lbuffer_at_ok (msgLength q - 2) q Hq) as [b2 H2]; [lia|].
    destruct (lbuffer_at_ok (msgLength q - 1) q Hq) as [b1 H1]; [lia|].
    eapply lrefines_deliver; [done| | |reflexivity|split; [lwf_tac|done]|].
    { unfold pad_get. run_monad. rewrite (bind_silent _ _ _ _ _ H3), (bind_silent _ _ _ _ _ H2),
      (bind_silent _ _ _ _ _ H1). run_monad. reflexivity. }
    { done. }
    cbn. intros k. rewrite Htype, Nat2Z.id, Hi. intros [= <-]. cbn. pad_simpl. rewrite Hnum.
    change (lmessage q) with (lmessage p). rewrite Hm, Hm1.
    destruct body as [|d1 [|d2 body]]; cbn [length] in Hbody; [lia..|done].
Qed.

End rtcm_refine.

Lemma lsempRtcmPreamble_spec `{SU : LSetup} `{Plat : Platform} i p b :
  ltable !! i = Some fn_sempRtcmPreamble -> lwf p -> lmessage p = [b] -> crc p = 0 ->
  if b =? 0xd3
  then exists p', sempRtcmPreamble b p = Ok (true, p', []) /\
                  LR (with_type (Z.of_nat i) p') (LFrame i fn_sempRtcmPreamble [b])
  else sempRtcmPreamble b p = Ok (false, p, []).
Proof.
  intros Hi Hwf Hm Hc. unfold sempRtcmPreamble. destruct (b =? 0xd3); [|done].
  eexists. split; [reflexivity|]. split; [lwf_tac|]. cbn. rewrite Hc.
  repeat split; try done. constructor.
Qed.
