(* ===== verification/LibCrcFrames.v ===== *)
(** * Refinement of the library's frames with a CRC-32

    Every Bluetooth and Unicore routine of [LibBinary] takes the step of the
    machine; the Bluetooth format is the custom protocol of the C port. *)
From S2P Require Import Prelude Crc ParseState FrameSpec Sentences Representation FrameRefine.
From S2P Require Import LibParser LibFramework LibCrc LibCrcTheorems LibBinary LibSpec LibRep.

(** The debug line after a failed check. *)
Lemma lprint_bad_crc_ok `{SU : LSetup} `{Plat : Platform} f q :
  lwf q -> 4 <= msgLength q ->
  exists format args, print_bad_crc f q = sempPrintf (printDebug q) format args q /\
                      forallb printable args = true.
Proof.
  intros Hq Hl. pose proof (lwf_msgLength q Hq).
  destruct (lbuffer_at_ok (msgLength q - 4) q Hq) as [b4 H4]; [lia|].
  destruct (lbuffer_at_ok (msgLength q - 3) q Hq) as [b3 H3]; [lia|].
  destruct (lbuffer_at_ok (msgLength q - 2) q Hq) as [b2 H2]; [lia|].
  destruct (lbuffer_at_ok (msgLength q - 1) q Hq) as [b1 H1]; [lia|].
  eexists _, _. split.
  - unfold print_bad_crc, pad_get. run_monad. rewrite (bind_silent _ _ _ _ _ H4).
    rewrite (bind_silent _ _ _ _ _ H3), (bind_silent _ _ _ _ _ H2), (bind_silent _ _ _ _ _ H1).
    run_monad. reflexivity.
  - done.
Qed.

(* ------------------------------------------------------------------ *)
(** ** Bluetooth *)

Section bluetooth_refine.
  Context `{SU : LSetup} `{Plat : Platform} `{PS : !LPreambleSpec PT}.
  Context (i : nat) (p : SEMP_PARSE_STATE) (m : list Z) (b : Z).
  Context (Hwf : lwf p) (Hb : is_u8 b) (Htype : type p = Z.of_nat i) (Hi : ltable !! i = Some fn_sempBluetoothPreamble)
    (Hfun : computeCrc p = Some fn_sempBluetoothComputeCrc)
    (Hm : lmessage p = m ++ [b]).
  Abbreviation step := (lframe_step ltable laccepts hands_back i fn_sempBluetoothPreamble (m ++ [b]) b).
  Abbreviation stay := (Some (LFrame i fn_sempBluetoothPreamble (m ++ [b]), [])).

Lemma lbluetooth_message_bytes : bytes (m ++ [b]).
Proof. rewrite <-Hm. by apply lmessage_bytes. Qed.

Lemma lbluetooth_message_length : Z.of_nat (length (m ++ [b])) = msgLength p.
Proof. by rewrite <-Hm, length_lmessage. Qed.

(** A frame that is not complete. *)
Lemma lbluetooth_more s1 rest :
  m ++ [b] = s1 :: 0x44 :: 0x18 :: rest ->
  (length (m ++ [b]) < 20 \/ custom_length (m ++ [b]) = 0 \/
   length (m ++ [b]) < 24 + custom_length (m ++ [b]))%nat -> step = stay.
Proof.
  intros Hmb Hn. unfold lframe_step, lib_verdict, shared_verdict. rewrite (custom_verdict_synced _ _ _ Hmb).
  cbn zeta. destruct (_ || _)%nat eqn:E; [done|lia].
Qed.

Lemma lsempBluetoothSync2_refines s1 :
  m = [s1] -> crc p = crc32_run 0xFFFFFFFF (m ++ [b]) -> lrefines (sempBluetoothSync2 b) p step.
Proof.
  intros -> Hcrc. unfold sempBluetoothSync2, lframe_step, lib_verdict, shared_verdict. cbn [app custom_verdict].
  destruct (b =? 0x44) eqn:E; cbn [negb]; [|by apply lsempFirstByte_refines].
  apply Z.eqb_eq in E as ->. eapply lrefines_ok; [reflexivity| |done].
  split; [lwf_tac|]. repeat split; try done. by constructor.
Qed.

Lemma lsempBluetoothSync3_refines s1 :
  m = [s1; 0x44] -> crc p = crc32_run 0xFFFFFFFF (m ++ [b]) -> lrefines (sempBluetoothSync3 b) p step.
Proof.
  intros Hm1 Hcrc. unfold sempBluetoothSync3. destruct (b =? 0x18) eqn:E; cbn [negb].
  - apply Z.eqb_eq in E. rewrite (lbluetooth_more s1 []) by (rewrite Hm1, E; done || cbn; lia).
    eapply lrefines_ok; [reflexivity| |done].
    split; [lwf_tac|]. repeat split; try done. rewrite Hm1, E in *. constructor; [cbn; lia|done].
  - unfold lframe_step, lib_verdict, shared_verdict, custom_verdict. rewrite Hm1. cbn [app]. rewrite E.
    by apply lsempFirstByte_refines.
Qed.

Lemma lsempBluetoothReadHeader_refines s1 rest :
  m = s1 :: 0x44 :: 0x18 :: rest -> (length rest < 17)%nat ->
  crc p = crc32_run 0xFFFFFFFF (m ++ [b]) -> state p = fn_sempBluetoothReadHeader ->
  lrefines (sempBluetoothReadHeader b) p step.
Proof.
  intros Hm1 Hr Hcrc Hst. pose proof (lwf_pad p Hwf). pose proof lbluetooth_message_length as Hlen.
  pose proof (lwf_buffer p Hwf). pose proof lB_range. pose proof lbluetooth_message_bytes as Hbs.
  rewrite (lbluetooth_more s1 (rest ++ [b])); [|by rewrite Hm1|].
  2: { rewrite length_app, Hm1. cbn [length]. lia. }
  unfold sempBluetoothReadHeader, sizeof_SEMP_Bluetooth_HEADER. eapply lrefines_bind; [reflexivity|done|].
  destruct (20 <=? msgLength p) eqn:E; cbn [when].
  - assert (length (m ++ [b]) = 20)%nat as Hlm.
    { rewrite length_app, Hm1 in *. cbn [length] in *. lia. }
    destruct (custom_length_range (m ++ [b]) Hbs) as [Hcl Hcl']; [lia|].
    eapply lrefines_ok.
    { unfold bind. rewrite lheader_get_ok by (done || cbn; lia). reflexivity. }
    2: done.
    split; [lwf_tac|]. repeat split; try done. apply (lbluetooth_data _ _ s1 (rest ++ [b])).
    + by rewrite Hm1.
    + lia.
    + lia.
    + cbn. pad_simpl. unfold bluetooth_header_messageLength.
      rewrite Hm, <-Hcl, Hlm. unfold u16. f_equal. cbn. lia.
    + done.
  - eapply lrefines_ok; [reflexivity| |done]. split; [lwf_tac|]. repeat split; try done. rewrite Hst.
    rewrite Hm1 in *. cbn [app] in *. constructor; [|done].
    cbn [length] in Hlen. lia.
Qed.

Lemma lsempBluetoothReadData_refines s1 rest :
  m = s1 :: 0x44 :: 0x18 :: rest -> (20 <= length m)%nat ->
  (custom_length m = 0 \/ length m < 20 + custom_length m)%nat ->
  get bluetooth_bytesRemaining (scratchPad p)
    = u16 (Z.of_nat (custom_length m) - (Z.of_nat (length m) - 20)) ->
  crc p = crc32_run 0xFFFFFFFF (m ++ [b]) -> state p = fn_sempBluetoothReadData ->
  lrefines (sempBluetoothReadData b) p step.
Proof.
  intros Hm1 Hl20 Hn Hget Hcrc Hst. pose proof (lwf_pad p Hwf). pose proof lB_range.
  pose proof lbluetooth_message_length as Hlen. pose proof (lwf_msgLength p Hwf).
  pose proof lbluetooth_message_bytes as Hbs. rewrite length_app in Hlen. cbn [length] in Hlen.
  assert (custom_length (m ++ [b]) = custom_length m) as Hcl by (apply custom_length_app; lia).
  destruct (custom_length_range m) as [_ Hcl']; [by apply Forall_app in Hbs as []|lia|].
  rewrite (lbluetooth_more s1 (rest ++ [b])); [|by rewrite Hm1|].
  2: { rewrite Hcl, length_app. cbn [length]. lia. }
  unfold sempBluetoothReadData. do 3 (eapply lrefines_bind; [reflexivity|done|]).
  cbn. pad_simpl. rewrite Hget. set (n := u16 (u16 _ - 1) mod _).
  assert (n = u16 (Z.of_nat (custom_length m) - (Z.of_nat (length m) - 19))) as Hn'
    by (unfold n, u16; cbn; mlia).
  assert (length (m ++ [b]) = length m + 1)%nat as Hlm by (by rewrite length_app).
  destruct (n =? 0) eqn:E; cbn [when].
  - assert (length m + 1 = 20 + custom_length m)%nat by (unfold u16 in Hn'; mlia).
    assert (is_u32 (Z.lxor (crc p) 0xFFFFFFFF)) by (apply lxor_u32; [apply Hwf|done]).
    eapply lrefines_ok; [reflexivity| |done]. split; [lwf_tac|].
    repeat split; try done. apply (lbluetooth_crcbytes _ _ s1 (rest ++ [b])); rewrite ?Hcl, ?Hlm; cbn.
    + by rewrite Hm1.
    + lia.
    + lia.
    + pad_simpl. cbn. lia.
    + unfold custom_crc_of. rewrite Hlm. destruct (20 + custom_length m <=? length m + 1)%nat eqn:E2; [|lia].
      rewrite take_ge, drop_ge by lia. by rewrite Hcrc.
  - eapply lrefines_ok; [reflexivity| |done]. split; [lwf_tac|]. repeat split; try done.
    cbn. rewrite Hst. apply (lbluetooth_data _ _ s1 (rest ++ [b])); rewrite ?Hcl, ?Hlm.
    + by rewrite Hm1.
    + lia.
    + unfold u16 in Hn'. mlia.
    + pad_simpl. fold n. rewrite Hn'. f_equal. lia.
    + done.
Qed.

(** The verdict on a complete frame is the register being zero. *)
Lemma lbluetooth_done s1 rest :
  m ++ [b] = s1 :: 0x44 :: 0x18 :: rest ->
  let n := custom_length (m ++ [b]) in
  (0 < n)%nat -> length (m ++ [b]) = (24 + n)%nat -> crc p = custom_crc_of n (m ++ [b]) ->
  lib_verdict fn_sempBluetoothPreamble (m ++ [b]) = Complete (crc p =? 0).
Proof.
  intros Hmb n Hn Hlen Hcrc. pose proof lbluetooth_message_bytes as Hbs.
  assert (lib_verdict fn_sempBluetoothPreamble (m ++ [b]) =
    Complete (bool_decide (drop (20 + n) (m ++ [b]) = custom_check (take (20 + n) (m ++ [b]))))) as ->.
  { unfold lib_verdict, shared_verdict. rewrite (custom_verdict_synced _ _ _ Hmb). cbn zeta. fold n.
    destruct (_ || _)%nat eqn:E; [lia|done]. }
  f_equal. rewrite Hcrc. unfold custom_crc_of, custom_check.
  destruct (20 + n <=? length (m ++ [b]))%nat eqn:E; [|lia].
  rewrite <-crc32_run_ref by (done || by apply Forall_take).
  pose proof (crc32_run_range 0xFFFFFFFF (take (20 + n) (m ++ [b])) ltac:(done)) as Hr.
  set (c := crc32_run _ (take _ _)) in *.
  pose proof (crc32_residue (Z.lxor c 0xFFFFFFFF) (drop (20 + n) (m ++ [b]))) as Hres.
  assert (is_u32 (Z.lxor c 0xFFFFFFFF)) by (by apply lxor_u32).
  specialize (Hres ltac:(done) ltac:(by apply Forall_drop) ltac:(rewrite length_drop; lia)).
  case_bool_decide as Hd; symmetry; [apply Z.eqb_eq|apply Z.eqb_neq]; tauto.
Qed.

Lemma lsempBluetoothReadCrc_refines s1 rest :
  m = s1 :: 0x44 :: 0x18 :: rest -> (0 < custom_length m)%nat ->
  (20 + custom_length m <= length m < 24 + custom_length m)%nat ->
  get bluetooth_bytesRemaining (scratchPad p) = 24 + Z.of_nat (custom_length m) - Z.of_nat (length m) ->
  crc p = crc32_update (custom_crc_of (custom_length m) m) b -> state p = fn_sempBluetoothReadCrc ->
  lrefines (sempBluetoothReadCrc b) p step.
Proof.
  intros Hm1 Hn Hl Hget Hcrc Hst. pose proof (lwf_pad p Hwf). pose proof (lwf_msgLength p Hwf).
  assert (custom_length (m ++ [b]) = custom_length m) as Hcl by (apply custom_length_app; lia).
  assert (length (m ++ [b]) = length m + 1)%nat as Hlm by (by rewrite length_app).
  assert (m ++ [b] = s1 :: 0x44 :: 0x18 :: rest ++ [b]) as Hmb by (by rewrite Hm1).
  rewrite <-custom_crc_of_app, <-Hcl in Hcrc by lia. pose proof lbluetooth_message_length as Hlen.
  unfold sempBluetoothReadCrc. do 3 (eapply lrefines_bind; [reflexivity|done|]).
  cbn. pad_simpl. rewrite Hget. rewrite Z.mod_small by apply u16_range.
  rewrite u16_id by (unfold is_u16; lia).
  set (q := with_scratchPad _ p). assert (lwf q) as Hq by (unfold q; lwf_tac).
  destruct (_ - 1 =? 0) eqn:E; cbn [negb].
  - eapply lrefines_bind; [reflexivity|done|].
    destruct (lcheck_ok (crc q =? 0) q Hq) as (ev & Hchk & Hev).
    eapply lrefines_bind; [exact Hchk|exact Hev|].
    unfold lframe_step. rewrite (lbluetooth_done s1 (rest ++ [b])) by (done || lia).
    rewrite <-Hm, <-Htype. change (crc p) with (crc q).
    change (lmessage p) with (lmessage q). change (type p) with (type q).
    destruct (lprint_bad_crc_ok bluetooth_crc q Hq) as (format & args & Hprt & Hargs); [cbn; lia|].
    eapply lrefines_deliver; [done|exact Hprt|done|reflexivity|by split; [lwf_tac|]|].
    cbn. intros k. rewrite Htype, Nat2Z.id, Hi. by intros [= <-].
  - rewrite (lbluetooth_more s1 (rest ++ [b])) by (done || lia).
    eapply lrefines_ok; [reflexivity| |done]. split; [lwf_tac|]. repeat split; try done. cbn.
    rewrite Hst. apply (lbluetooth_crcbytes _ _ s1 (rest ++ [b])); rewrite ?Hcl, ?Hlm; try (done || lia).
    + pad_simpl. cbn. rewrite Z.mod_small; lia.
    + by rewrite Hcrc, Hcl.
Qed.

End bluetooth_refine.

Lemma lsempBluetoothPreamble_spec `{SU : LSetup} `{Plat : Platform} i p b :
  ltable !! i = Some fn_sempBluetoothPreamble -> lwf p -> lmessage p = [b] ->
  if b =? 0xAA
  then exists p', sempBluetoothPreamble b p = Ok (true, p', []) /\
                  LR (with_type (Z.of_nat i) p') (LFrame i fn_sempBluetoothPreamble [b])
  else sempBluetoothPreamble b p = Ok (false, p, []).
Proof.
  intros Hi Hwf Hm. unfold sempBluetoothPreamble. destruct (b =? 0xAA); cbn [negb]; [|done].
  eexists. split; [reflexivity|]. split; [lwf_tac; done|].
  repeat split; try done. by constructor.
Qed.

(* ------------------------------------------------------------------ *)
(** ** Unicore *)

(** The length field is fixed once it has been received. *)
Lemma unicore_length_app m l : (8 <= length m)%nat -> unicore_length (m ++ l) = unicore_length m.
Proof. intros H. unfold unicore_length. by rewrite get_app. Qed.

Lemma unicore_length_range m :
  bytes m -> (8 <= length m)%nat -> Z.of_nat (unicore_length m) = get (Member 6 2) m /\
  Z.of_nat (unicore_length m) < 65536.
Proof.
  intros Hm Hl. unfold unicore_length. pose proof (get_range (Member 6 2) m Hm Hl) as Hr.
  cbn in Hr. lia.
Qed.

Section unicore_refine.
  Context `{SU : LSetup} `{Plat : Platform} `{PS : !LPreambleSpec PT}.
  Context (i : nat) (p : SEMP_PARSE_STATE) (m : list Z) (b : Z).
  Context (Hwf : lwf p) (Hb : is_u8 b) (Htype : type p = Z.of_nat i)
    (Hi : ltable !! i = Some fn_sempUnicoreBinaryPreamble)
    (Hfun : computeCrc p = Some fn_sempUnicoreBinaryComputeCrc)
    (Hm : lmessage p = m ++ [b]) (Hcrc : crc p = crc32_run 0 (m ++ [b])).
  Abbreviation step :=
    (lframe_step ltable laccepts hands_back i fn_sempUnicoreBinaryPreamble (m ++ [b]) b).
  Abbreviation stay := (Some (LFrame i fn_sempUnicoreBinaryPreamble (m ++ [b]), [])).

Lemma lunicore_message_bytes : bytes (m ++ [b]).
Proof. rewrite <-Hm. by apply lmessage_bytes. Qed.

Lemma lunicore_message_length : Z.of_nat (length (m ++ [b])) = msgLength p.
Proof. by rewrite <-Hm, length_lmessage. Qed.

Lemma lunicore_more s1 rest :
  m ++ [b] = s1 :: 0x44 :: 0xB5 :: rest ->
  (length (m ++ [b]) < 24 \/ unicore_length (m ++ [b]) = 0 \/
   length (m ++ [b]) < 28 + unicore_length (m ++ [b]))%nat -> step = stay.
Proof.
  intros Hmb Hn. unfold lframe_step, lib_verdict. rewrite (unicore_verdict_synced _ _ _ Hmb).
  cbn zeta. destruct (_ || _)%nat eqn:E; [done|lia].
Qed.

Lemma lsempUnicoreBinaryBinarySync2_refines s1 :
  m = [s1] -> lrefines (sempUnicoreBinaryBinarySync2 b) p step.
Proof.
  intros Hm1. rewrite Hm1 in *. unfold sempUnicoreBinaryBinarySync2, lframe_step, lib_verdict.
  cbn [app unicore_verdict].
  destruct (b =? 0x44) eqn:E; cbn [negb]; [|by apply lsempFirstByte_refines].
  apply Z.eqb_eq in E. rewrite E in *. eapply lrefines_ok; [reflexivity| |done].
  split; [lwf_tac|]. repeat split; try done. constructor.
Qed.

Lemma lsempUnicoreBinaryBinarySync3_refines s1 :
  m = [s1; 0x44] -> lrefines (sempUnicoreBinaryBinarySync3 b) p step.
Proof.
  intros Hm1. unfold sempUnicoreBinaryBinarySync3. destruct (b =? 0xB5) eqn:E; cbn [negb].
  - apply Z.eqb_eq in E. rewrite (lunicore_more s1 []) by (rewrite Hm1, E; done || cbn; lia).
    eapply lrefines_ok; [reflexivity| |done].
    split; [lwf_tac|]. repeat split; try done. rewrite Hm1, E in *. constructor. cbn. lia.
  - unfold lframe_step, lib_verdict, unicore_verdict. rewrite Hm1. cbn [app]. rewrite E.
    by apply lsempFirstByte_refines.
Qed.

Lemma lsempUnicoreBinaryReadHeader_refines s1 rest :
  m = s1 :: 0x44 :: 0xB5 :: rest -> (length rest < 21)%nat ->
  state p = fn_sempUnicoreBinaryReadHeader ->
  lrefines (sempUnicoreBinaryReadHeader b) p step.
Proof.
  intros Hm1 Hr Hst. pose proof (lwf_pad p Hwf). pose proof lunicore_message_length as Hlen.
  pose proof (lwf_buffer p Hwf). pose proof lB_range. pose proof lunicore_message_bytes as Hbs.
  rewrite (lunicore_more s1 (rest ++ [b])); [|by rewrite Hm1|].
  2: { rewrite length_app, Hm1. cbn [length]. lia. }
  unfold sempUnicoreBinaryReadHeader, sizeof_SEMP_UNICORE_HEADER.
  eapply lrefines_bind; [reflexivity|done|].
  destruct (24 <=? msgLength p) eqn:E; cbn [when].
  - assert (length (m ++ [b]) = 24)%nat as Hlm.
    { rewrite length_app, Hm1 in *. cbn [length] in *. lia. }
    destruct (unicore_length_range (m ++ [b]) Hbs) as [Hcl Hcl']; [lia|].
    eapply lrefines_ok.
    { unfold bind. rewrite lheader_get_ok by (done || cbn; lia). reflexivity. }
    2: done.
    split; [lwf_tac|]. repeat split; try done. apply (lunicore_data _ s1 (rest ++ [b])).
    + by rewrite Hm1.
    + lia.
    + lia.
    + cbn. pad_simpl. unfold unicore_header_messageLength.
      rewrite Hm, <-Hcl, Hlm. unfold u16. f_equal. cbn. lia.
  - eapply lrefines_ok; [reflexivity| |done]. split; [lwf_tac|]. repeat split; try done. rewrite Hst.
    rewrite Hm1 in *. cbn [app] in *. constructor. cbn [length] in Hlen. lia.
Qed.

Lemma lsempUnicoreBinaryReadData_refines s1 rest :
  m = s1 :: 0x44 :: 0xB5 :: rest -> (24 <= length m)%nat ->
  (unicore_length m = 0 \/ length m < 24 + unicore_length m)%nat ->
  get unicoreBinary_bytesRemaining (scratchPad p)
    = u16 (Z.of_nat (unicore_length m) - (Z.of_nat (length m) - 24)) ->
  state p = fn_sempUnicoreBinaryReadData ->
  lrefines (sempUnicoreBinaryReadData b) p step.
Proof.
  intros Hm1 Hl24 Hn Hget Hst. pose proof (lwf_pad p Hwf). pose proof lB_range.
  pose proof lunicore_message_length as Hlen. pose proof (lwf_msgLength p Hwf).
  pose proof lunicore_message_bytes as Hbs. rewrite length_app in Hlen. cbn [length] in Hlen.
  assert (unicore_length (m ++ [b]) = unicore_length m) as Hcl by (apply unicore_length_app; lia).
  destruct (unicore_length_range m) as [_ Hcl']; [by apply Forall_app in Hbs as []|lia|].
  rewrite (lunicore_more s1 (rest ++ [b])); [|by rewrite Hm1|].
  2: { rewrite Hcl, length_app. cbn [length]. lia. }
  unfold sempUnicoreBinaryReadData. do 3 (eapply lrefines_bind; [reflexivity|done|]).
  cbn. pad_simpl. rewrite Hget. set (n := u16 (u16 _ - 1) mod _).
  assert (n = u16 (Z.of_nat (unicore_length m) - (Z.of_nat (length m) - 23))) as Hn'
    by (unfold n, u16; cbn; mlia).
  assert (length (m ++ [b]) = length m + 1)%nat as Hlm by (by rewrite length_app).
  destruct (n =? 0) eqn:E; cbn [when].
  - assert (length m + 1 = 24 + unicore_length m)%nat by (unfold u16 in Hn'; mlia).
    eapply lrefines_ok; [reflexivity| |done]. split; [lwf_tac|].
    repeat split; try done. apply (lunicore_crcbytes _ s1 (rest ++ [b])); rewrite ?Hcl, ?Hlm; cbn.
    + by rewrite Hm1.
    + lia.
    + lia.
    + pad_simpl. cbn. lia.
  - eapply lrefines_ok; [reflexivity| |done]. split; [lwf_tac|]. repeat split; try done.
    cbn. rewrite Hst. apply (lunicore_data _ s1 (rest ++ [b])); rewrite ?Hcl, ?Hlm.
    + by rewrite Hm1.
    + lia.
    + unfold u16 in Hn'. mlia.
    + pad_simpl. fold n. rewrite Hn'. f_equal. lia.
Qed.

(** The verdict on a complete frame is the register being zero. *)
Lemma lunicore_done s1 rest :
  m ++ [b] = s1 :: 0x44 :: 0xB5 :: rest ->
  let n := unicore_length (m ++ [b]) in
  (0 < n)%nat -> length (m ++ [b]) = (28 + n)%nat ->
  lib_verdict fn_sempUnicoreBinaryPreamble (m ++ [b]) = Complete (crc p =? 0).
Proof.
  intros Hmb n Hn Hlen. pose proof lunicore_message_bytes as Hbs.
  unfold lib_verdict. rewrite (unicore_verdict_synced _ _ _ Hmb). cbn zeta. fold n.
  destruct (_ || _)%nat eqn:E; [lia|]. f_equal.
  assert (crc p = crc32_run (crc32_run 0 (take (24 + n) (m ++ [b]))) (drop (24 + n) (m ++ [b]))) as ->
    by (by rewrite <-crc32_run_app, take_drop).
  rewrite <-crc32_run_ref by (done || by apply Forall_take).
  pose proof (crc32_run_range 0 (take (24 + n) (m ++ [b])) ltac:(done)) as Hr.
  set (c := crc32_run _ (take _ _)) in *.
  pose proof (crc32_residue c (drop (24 + n) (m ++ [b]))) as Hres.
  specialize (Hres ltac:(done) ltac:(by apply Forall_drop) ltac:(rewrite length_drop; lia)).
  case_bool_decide as Hd; symmetry; [apply Z.eqb_eq|apply Z.eqb_neq]; tauto.
Qed.

Lemma lsempUnicoreBinaryReadCrc_refines s1 rest :
  m = s1 :: 0x44 :: 0xB5 :: rest -> (0 < unicore_length m)%nat ->
  (24 + unicore_length m <= length m < 28 + unicore_length m)%nat ->
  get unicoreBinary_bytesRemaining (scratchPad p)
    = 28 + Z.of_nat (unicore_length m) - Z.of_nat (length m) ->
  state p = fn_sempUnicoreBinaryReadCrc ->
  lrefines (sempUnicoreBinaryReadCrc b) p step.
Proof.
  intros Hm1 Hn Hl Hget Hst. pose proof (lwf_pad p Hwf). pose proof (lwf_msgLength p Hwf).
  assert (unicore_length (m ++ [b]) = unicore_length m) as Hcl by (apply unicore_length_app; lia).
  assert (length (m ++ [b]) = length m + 1)%nat as Hlm by (by rewrite length_app).
  assert (m ++ [b] = s1 :: 0x44 :: 0xB5 :: rest ++ [b]) as Hmb by (by rewrite Hm1).
  pose proof lunicore_message_length as Hlen.
  unfold sempUnicoreBinaryReadCrc. do 3 (eapply lrefines_bind; [reflexivity|done|]).
  cbn. pad_simpl. rewrite Hget. rewrite Z.mod_small by apply u16_range.
  rewrite u16_id by (unfold is_u16; lia).
  set (q := with_scratchPad _ p). assert (lwf q) as Hq by (unfold q; lwf_tac).
  destruct (_ - 1 =? 0) eqn:E; cbn [negb].
  - eapply lrefines_bind; [reflexivity|done|].
    destruct (lcheck_ok (crc q =? 0) q Hq) as (ev & Hchk & Hev).
    eapply lrefines_bind; [exact Hchk|exact Hev|].
    unfold lframe_step. rewrite (lunicore_done s1 (rest ++ [b])) by (done || lia).
    rewrite <-Hm, <-Htype. change (crc p) with (crc q).
    change (lmessage p) with (lmessage q). change (type p) with (type q).
    destruct (lprint_bad_crc_ok unicoreBinary_crc q Hq) as (format & args & Hprt & Hargs); [cbn; lia|].
    eapply lrefines_deliver; [done|exact Hprt|done|reflexivity|by split; [lwf_tac|]|].
    cbn. intros k. rewrite Htype, Nat2Z.id, Hi. by intros [= <-].
  - rewrite (lunicore_more s1 (rest ++ [b])) by (done || lia).
    eapply lrefines_ok; [reflexivity| |done]. split; [lwf_tac|]. repeat split; try done. cbn.
    rewrite Hst. apply (lunicore_crcbytes _ s1 (rest ++ [b])); rewrite ?Hcl, ?Hlm; try (done || lia).
    pad_simpl. cbn. rewrite Z.mod_small; lia.
Qed.

End unicore_refine.

Lemma lsempUnicoreBinaryPreamble_spec `{SU : LSetup} `{Plat : Platform} i p b :
  ltable !! i = Some fn_sempUnicoreBinaryPreamble -> lwf p -> lmessage p = [b] ->
  if b =? 0xAA
  then exists p', sempUnicoreBinaryPreamble b p = Ok (true, p', []) /\
                  LR (with_type (Z.of_nat i) p') (LFrame i fn_sempUnicoreBinaryPreamble [b])
  else sempUnicoreBinaryPreamble b p = Ok (false, p, []).
Proof.
  intros Hi Hwf Hm. unfold sempUnicoreBinaryPreamble. destruct (b =? 0xAA); cbn [negb]; [|done].
  eexists. split; [reflexivity|]. split; [lwf_tac; done|].
  repeat split; try done. constructor.
Qed.
