(* ===== verification/LibSbfRefine.v ===== *)
(** * Refinement of the library's SBF parser

    Every state routine of [LibSbf] takes the step of the machine. *)
From S2P Require Import Prelude Crc ParseState FrameSpec Sentences Representation LibParser.
From S2P Require Import LibFramework ShiftRegister LibCrc LibCrcTheorems LibSbf LibSpec LibRep.

(** ** The check *)

Lemma crc16_ref_app l d :
  crc16_ref 0 (l ++ [d]) = foldl (register_push 16 0x11021) (crc16_ref 0 l) (byte_bits d).
Proof.
  unfold crc16_ref, register_ref, bits. rewrite bind_app, foldl_app. cbn [mbind list_bind].
  by rewrite app_nil_r.
Qed.

#[export] Hint Resolve crc16_ref_range : width.

Section sbf_refine.
  Context `{SU : LSetup} `{Plat : Platform} `{PS : !LPreambleSpec PT}.

Lemma sbf_in_table i : ltable !! i = Some fn_sempSbfPreamble -> has_sbf = true.
Proof.
  intros Hi. unfold has_sbf. apply existsb_exists. exists fn_sempSbfPreamble. split; [|done].
  by eapply list_elem_of_In, list_elem_of_lookup_2.
Qed.

Lemma call_invalidDataCallback_ok p :
  lwf p -> has_sbf = true ->
  exists ev, call_invalidDataCallback p = Ok (tt, p, ev) /\
             ldelivered ev = invalid hands_back fn_sempSbfPreamble (lmessage p).
Proof.
  intros Hwf Hs. unfold call_invalidDataCallback, pad_get, hands_back. run_monad.
  rewrite (lwf_pointer p Hwf Hs). destruct (Z.eqb_spec callback_pointer 0) as [_|Hne]; [by eexists|].
  destruct pointer_valid as [|[f ->]]; [done|]. by eexists.
Qed.

Lemma update_computedCRC_ok q l d :
  lwf q -> is_u8 d -> get sbf_computedCRC (scratchPad q) = crc16_ref 0 l ->
  update_computedCRC d q
    = Ok (tt, with_scratchPad (put sbf_computedCRC (crc16_ref 0 (l ++ [d])) (scratchPad q)) q, []).
Proof.
  intros Hq Hd Hl. unfold update_computedCRC, pad_get, pad_set. run_monad.
  rewrite Hl. unfold bind, lift. rewrite ccitt_step, <-crc16_ref_app by auto with width. done.
Qed.

Context (i : nat) (p : SEMP_PARSE_STATE) (b : Z).
Context (Hwf : lwf p) (Hb : is_u8 b) (Htype : type p = Z.of_nat i)
  (Hi : ltable !! i = Some fn_sempSbfPreamble) (Hcrc : computeCrc p = None).
Abbreviation step m := (lframe_step ltable laccepts hands_back i fn_sempSbfPreamble m b).

(** A debug line and the data handed back. *)
Lemma sbf_give_up {A} cb format args (k : P A) q a q' m :
  lwf q -> lmessage q = m -> forallb printable args = true ->
  k q = Ok (a, q', []) -> LR q' LScan ->
  lrefines (sempPrintf cb format args;; call_invalidDataCallback;; k) q
    (Some (LScan, invalid hands_back fn_sempSbfPreamble m)).
Proof.
  intros Hq Hm Ha Hk HR. destruct (lsempPrintf_ok cb format args q Ha) as (ev & Hp & Hev).
  eapply lrefines_bind; [exact Hp|done|].
  destruct (call_invalidDataCallback_ok q Hq (sbf_in_table i Hi)) as (ev' & Hc & Hev').
  eapply lrefines_tells; [unfold bind; rewrite Hc, Hk; reflexivity|done|..]; rewrite app_nil_r; [by rewrite Hev', Hm|].
  apply quiet_informed. rewrite Hev'. apply invalid_quiet.
Qed.

Lemma sempSbfPreamble2_refines s1 :
  lmessage p = [s1; b] -> lrefines (sempSbfPreamble2 b) p (step [s1; b]).
Proof.
  intros Hm. unfold sempSbfPreamble2, lframe_step. cbn [lib_verdict sbf_verdict].
  destruct (b =? 0x40) eqn:E; cbn [negb].
  - apply Z.eqb_eq in E as ->. eapply lrefines_ok; [reflexivity| |done].
    split; [lwf_tac|]. repeat split; try done. constructor.
  - do 3 (eapply lrefines_bind; [reflexivity|done|]).
    eapply sbf_give_up; [done|done|done|reflexivity|]. split; [lwf_tac|done].
Qed.

Lemma sempSbfCRC1_refines s1 :
  lmessage p = [s1; 0x40; b] -> lrefines (sempSbfCRC1 b) p (step [s1; 0x40; b]).
Proof.
  intros Hm. pose proof (lwf_pad p Hwf). eapply lrefines_ok; [reflexivity| |done].
  split; [lwf_tac|]. repeat split; try done. constructor. cbn. pad_simpl.
  unfold is_u8 in Hb. apply Z.mod_small. cbn. lia.
Qed.

Lemma sempSbfCRC2_refines s1 c1 :
  lmessage p = [s1; 0x40; c1; b] -> get sbf_expectedCRC (scratchPad p) = c1 ->
  lrefines (sempSbfCRC2 b) p (step [s1; 0x40; c1; b]).
Proof.
  intros Hm Hc. pose proof (lwf_pad p Hwf).
  pose proof (lmessage_bytes p Hwf) as Hbs. rewrite Hm in Hbs.
  do 2 apply Forall_cons_1 in Hbs as [_ Hbs]. apply Forall_cons_1 in Hbs as [Hc1 _]. unfold is_u8 in *.
  eapply lrefines_ok; [reflexivity| |done].
  split; [lwf_tac|]. repeat split; try done. constructor. split; [split|done]; cbn; pad_simpl; [|done].
  rewrite Hc, lor_shiftl_add by lia. cbn. unfold u16. rewrite !Z.mod_small; lia.
Qed.

(** The states that only extend the check. *)
Lemma sbf_pad_push q c1 c2 l d :
  lwf q -> sbf_pad (scratchPad q) c1 c2 l ->
  sbf_check (put sbf_computedCRC (crc16_ref 0 (l ++ [d])) (scratchPad q)) c1 c2 (l ++ [d]).
Proof.
  intros Hq [[He Hc] _]. pose proof (lwf_pad q Hq). split; pad_simpl; [done|].
  apply Z.mod_small, crc16_ref_range.
Qed.

Lemma sbf_check_put sp f v c1 c2 l :
  sbf_check sp c1 c2 l -> pad_ok sp -> in_pad f = true ->
  disjoint_members sbf_expectedCRC f = true -> disjoint_members sbf_computedCRC f = true ->
  sbf_check (put f v sp) c1 c2 l.
Proof. intros [He Hc] Hsp Hf H1 H2. split; by rewrite pad_get_ne. Qed.

Lemma sbf_number_put sp f v l :
  sbf_number sp l -> pad_ok sp -> in_pad f = true ->
  disjoint_members sbf_sbfID f = true -> disjoint_members sbf_sbfIDrev f = true -> sbf_number (put f v sp) l.
Proof.
  intros Hn Hsp Hf H1 H2. destruct l as [|i1 [|i2 l]]; cbn in *; [done| |]; by rewrite ?pad_get_ne.
Qed.

(** The check and the number after writes to other members. *)
Ltac sbf_keeps :=
  cbn [scratchPad with_scratchPad with_state]; repeat first [assumption | apply sbf_check_put; [|pad_tac|reflexivity..]
                    |apply sbf_number_put; [|pad_tac|reflexivity..]].

Lemma sempSbfID1_refines s1 c1 c2 :
  lmessage p = [s1; 0x40; c1; c2; b] -> sbf_pad (scratchPad p) c1 c2 [] ->
  lrefines (sempSbfID1 b) p (step [s1; 0x40; c1; c2; b]).
Proof.
  intros Hm Hpad. pose proof (lwf_pad p Hwf). pose proof (sbf_pad_push p c1 c2 [] b Hwf Hpad) as H0.
  eapply lrefines_bind; [apply (update_computedCRC_ok p []); [done..|apply Hpad]|done|].
  eapply lrefines_ok; [reflexivity| |done].
  split; [lwf_tac|]. repeat split; try done. constructor. split; [sbf_keeps|].
  unfold is_u8 in Hb. cbn. pad_simpl. apply Z.mod_small. cbn. lia.
Qed.

Lemma sempSbfID2_refines s1 c1 c2 i1 :
  lmessage p = [s1; 0x40; c1; c2; i1; b] -> sbf_pad (scratchPad p) c1 c2 [i1] ->
  lrefines (sempSbfID2 b) p (step [s1; 0x40; c1; c2; i1; b]).
Proof.
  intros Hm Hpad. pose proof (lwf_pad p Hwf). pose proof (sbf_pad_push p c1 c2 [i1] b Hwf Hpad) as H0.
  pose proof (lmessage_bytes p Hwf) as Hbs. rewrite Hm in Hbs.
  do 4 apply Forall_cons_1 in Hbs as [_ Hbs]. apply Forall_cons_1 in Hbs as [Hi1 _].
  eapply lrefines_bind; [apply (update_computedCRC_ok p [i1]); [done..|apply Hpad]|done|].
  eapply lrefines_ok; [reflexivity| |done].
  split; [lwf_tac|]. repeat split; try done. constructor. split; [sbf_keeps|].
  destruct Hpad as [_ Hnum]. cbn in Hnum. unfold is_u8 in *. cbn -[Z.land Z.lor]. pad_simpl. rewrite Hnum.
  rewrite lor_shiftl_add, Z.shiftr_div_pow2 by lia. change (2 ^ 8) with 256. change (2 ^ 5) with 32.
  rewrite (Z.mod_small (u16 _)) by apply u16_range. rewrite u16_id by (unfold is_u16; lia).
  change 0x1FFF with (Z.ones 13). rewrite Z.land_ones by lia. change (2 ^ 13) with 8192. split.
  - rewrite (Z.mul_comm b). apply Z.mod_small. cbn. mlia.
  - apply Z.mod_small. cbn. mlia.
Qed.

Lemma sempSbfLengthLSB_refines s1 c1 c2 i1 i2 :
  lmessage p = [s1; 0x40; c1; c2; i1; i2; b] -> sbf_pad (scratchPad p) c1 c2 [i1; i2] ->
  lrefines (sempSbfLengthLSB b) p (step [s1; 0x40; c1; c2; i1; i2; b]).
Proof.
  intros Hm Hpad. pose proof (lwf_pad p Hwf).
  pose proof (sbf_pad_push p c1 c2 [i1; i2] b Hwf Hpad) as H0.
  eapply lrefines_bind; [apply (update_computedCRC_ok p [i1; i2]); [done..|apply Hpad]|done|].
  eapply lrefines_ok; [reflexivity| |done].
  split; [lwf_tac|]. repeat split; try done. destruct Hpad as [_ Hnum]. constructor; [split; sbf_keeps|].
  cbn. pad_simpl. unfold is_u8 in Hb. apply Z.mod_small. cbn. lia.
Qed.

Lemma sbf_length_dropped s1 c1 c2 i1 i2 l1 :
  (l1 + 256 * b) mod 4 <> 0 ->
  step [s1; 0x40; c1; c2; i1; i2; l1; b]
    = Some (LScan, invalid hands_back fn_sempSbfPreamble [s1; 0x40; c1; c2; i1; i2; l1; b]).
Proof.
  intros H. unfold lframe_step. cbn [lib_verdict sbf_verdict].
  change (negb (0x40 =? 0x40)) with false. cbv iota zeta.
  by destruct (Z.eqb_spec ((l1 + 256 * b) mod 4) 0).
Qed.

Lemma sbf_continue s1 c1 c2 i1 i2 l1 l2 body :
  let m := s1 :: 0x40 :: c1 :: c2 :: i1 :: i2 :: l1 :: l2 :: body in
  (l1 + 256 * l2) mod 4 = 0 ->
  l1 + 256 * l2 <= 8 \/ 8 + Z.of_nat (length body) < l1 + 256 * l2 ->
  step m = Some (LFrame i fn_sempSbfPreamble m, []).
Proof.
  intros m Hm4 Hn. unfold lframe_step, m. cbn [lib_verdict sbf_verdict].
  change (negb (0x40 =? 0x40)) with false. cbv iota zeta. rewrite Hm4. cbn [negb Z.eqb].
  destruct (_ || _) eqn:E; [done|]. cbn [length] in E. lia.
Qed.

Lemma sempSbfLengthMSB_refines s1 c1 c2 i1 i2 l1 :
  lmessage p = [s1; 0x40; c1; c2; i1; i2; l1; b] -> sbf_pad (scratchPad p) c1 c2 [i1; i2; l1] ->
  get sbf_length (scratchPad p) = l1 ->
  lrefines (sempSbfLengthMSB b) p (step [s1; 0x40; c1; c2; i1; i2; l1; b]).
Proof.
  intros Hm Hpad Hl. pose proof (lwf_pad p Hwf).
  pose proof (lmessage_bytes p Hwf) as Hbs. rewrite Hm in Hbs.
  do 6 apply Forall_cons_1 in Hbs as [_ Hbs]. apply Forall_cons_1 in Hbs as [Hl1 _]. unfold is_u8 in Hl1.
  pose proof (sbf_pad_push p c1 c2 [i1; i2; l1] b Hwf Hpad) as H0.
  eapply lrefines_bind; [apply (update_computedCRC_ok p [i1; i2; l1]); [done..|apply Hpad]|done|].
  do 3 (eapply lrefines_bind; [reflexivity|done|]). cbn. pad_simpl. rewrite Hl.
  unfold is_u8 in Hb. rewrite lor_shiftl_add by lia. change (2 ^ 8) with 256.
  rewrite (Z.mod_small (u16 _)) by apply u16_range. rewrite u16_id by (unfold is_u16; lia).
  rewrite (Z.mul_comm b).
  destruct (Z.eqb_spec ((l1 + 256 * b) mod 4) 0) as [E|E].
  - rewrite (sbf_continue s1 c1 c2 i1 i2 l1 b []) by (done || cbn; lia).
    eapply lrefines_ok; [reflexivity| |done].
    split; [lwf_tac|]. repeat split; try done. destruct Hpad as [_ Hnum]. constructor; [split; sbf_keeps|done| |].
    + cbn. lia.
    + cbn. pad_simpl. rewrite Z.mod_small by apply u16_range. f_equal. lia.
  - rewrite sbf_length_dropped by done. do 3 (eapply lrefines_bind; [reflexivity|done|]).
    eapply sbf_give_up; [lwf_tac|done|done|reflexivity|]. split; [lwf_tac|done].
Qed.

Lemma sbf_block_complete s1 c1 c2 i1 i2 l1 l2 body :
  let m := s1 :: 0x40 :: c1 :: c2 :: i1 :: i2 :: l1 :: l2 :: body in
  (l1 + 256 * l2) mod 4 = 0 -> 8 < l1 + 256 * l2 -> 8 + Z.of_nat (length body) = l1 + 256 * l2 ->
  lib_verdict fn_sempSbfPreamble m
    = Complete (c1 + 256 * c2 =? crc16_ref 0 (i1 :: i2 :: l1 :: l2 :: body)).
Proof.
  intros m Hm4 Hn Hl. unfold m. cbn [lib_verdict sbf_verdict].
  change (negb (0x40 =? 0x40)) with false. cbv iota zeta. rewrite Hm4. cbn [negb Z.eqb].
  destruct (_ || _) eqn:E; cbn [length] in *; [lia|]. by rewrite (proj2 (Z.eqb_eq _ _)) by lia.
Qed.

(** The end of a block: delivery, or a debug line and the data handed back. *)
Lemma sbf_deliver {A} (good : bool) prt cb format args (k : P A) q a q' :
  lwf q -> prt q = (sempPrintf cb format args;; call_invalidDataCallback)%c q ->
  forallb printable args = true -> k q = Ok (a, q', []) -> LR q' LScan -> informed (EvEom leom q (type q)) ->
  lrefines ((if good then call_eomCallback else prt);; k) q
    (Some (LScan, if good then [Msg (type q) (lmessage q)]
                  else invalid hands_back fn_sempSbfPreamble (lmessage q))).
Proof.
  intros Hq Hprt Ha Hk HR Hinf. destruct good.
  - eapply lrefines_tells; [unfold bind; rewrite lcall_eomCallback_ok by done; rewrite Hk; reflexivity|done|done|].
    by apply Forall_singleton.
  - destruct (lsempPrintf_ok cb format args q Ha) as (ev & Hp & Hev).
    destruct (call_invalidDataCallback_ok q Hq (sbf_in_table i Hi)) as (ev' & Hc & Hev').
    assert (prt q = Ok (tt, q, ev ++ ev')) as Hprt'.
    { rewrite Hprt, (bind_ok _ _ _ _ _ _ Hp). by rewrite Hc. }
    assert (ldelivered (ev ++ ev') = invalid hands_back fn_sempSbfPreamble (lmessage q)) as Hd
      by by rewrite ldelivered_app, Hev, Hev'.
    eapply lrefines_tells; [rewrite (bind_ok _ _ _ _ _ _ Hprt'), Hk; reflexivity|done|..]; rewrite app_nil_r; [done|].
    apply quiet_informed. rewrite Hd. apply invalid_quiet.
Qed.

Lemma sempSbfReadBytes_refines s1 c1 c2 i1 i2 l1 l2 body :
  let m := s1 :: 0x40 :: c1 :: c2 :: i1 :: i2 :: l1 :: l2 :: body in
  lmessage p = m ++ [b] -> sbf_pad (scratchPad p) c1 c2 (i1 :: i2 :: l1 :: l2 :: body) ->
  (l1 + 256 * l2) mod 4 = 0 ->
  l1 + 256 * l2 <= 8 \/ 8 + Z.of_nat (length body) < l1 + 256 * l2 ->
  get sbf_bytesRemaining (scratchPad p) = u16 (l1 + 256 * l2 - 8 - Z.of_nat (length body)) ->
  state p = fn_sempSbfReadBytes ->
  lrefines (sempSbfReadBytes b) p (step (m ++ [b])).
Proof.
  intros m Hm Hpad Hm4 Hn Hr Hst. pose proof (lwf_pad p Hwf).
  pose proof (lmessage_bytes p Hwf) as Hbs. pose proof (length_lmessage p Hwf) as Hlen.
  pose proof (lwf_msgLength p Hwf). pose proof lB_range. rewrite Hm in Hbs, Hlen.
  unfold m in *. clear m. cbn [app] in *. do 6 apply Forall_cons_1 in Hbs as [_ Hbs].
  apply Forall_cons_1 in Hbs as [Hl1 [Hl2 _]%Forall_cons_1]. unfold is_u8 in Hl1, Hl2.
  cbn [length] in Hlen. rewrite length_app in Hlen. cbn [length] in Hlen.
  set (l := i1 :: i2 :: l1 :: l2 :: body) in *.
  pose proof (sbf_pad_push p c1 c2 l b Hwf Hpad) as Hck.
  unfold sempSbfReadBytes.
  eapply lrefines_bind; [apply (update_computedCRC_ok p l); [done..|apply Hpad]|done|].
  do 3 (eapply lrefines_bind; [reflexivity|done|]). cbn. pad_simpl. rewrite Hr.
  rewrite (Z.mod_small (u16 _)) by apply u16_range.
  set (n := u16 (u16 _ - 1)).
  assert (n = u16 (l1 + 256 * l2 - 8 - (Z.of_nat (length body) + 1))) as Hn' by (unfold n, u16; mlia).
  destruct (Z.eqb_spec n 0) as [E|E].
  - assert (8 + Z.of_nat (length body) + 1 = l1 + 256 * l2) as Hd by (unfold u16 in Hn'; mlia).
    do 3 (eapply lrefines_bind; [reflexivity|done|]). cbn.
    set (q := with_state _ _). assert (lwf q) as Hq by (unfold q; lwf_tac).
    assert (sbf_check (scratchPad q) c1 c2 (l ++ [b])) as [He Hc] by sbf_keeps.
    cbn in He, Hc. rewrite He, Hc.
    destruct (lcheck_ok (crc16_ref 0 (l ++ [b]) =? c1 + 256 * c2) q Hq) as (ev & Hchk & Hev).
    eapply lrefines_bind; [exact Hchk|exact Hev|].
    unfold lframe_step. rewrite (sbf_block_complete s1 c1 c2 i1 i2 l1 l2 (body ++ [b]))
      by (rewrite ?length_app; cbn; done || lia).
    rewrite (Z.eqb_sym (c1 + 256 * c2)), <-Hm, <-Htype. change (lmessage p) with (lmessage q).
    change (type p) with (type q). change (i1 :: i2 :: l1 :: l2 :: body ++ [b]) with (l ++ [b]).
    eapply sbf_deliver; [done|unfold pad_get; run_monad; reflexivity|done|reflexivity|by split|].
    cbn. intros k. rewrite Htype, Nat2Z.id, Hi. intros [= <-]. change (lmessage q) with (lmessage p). rewrite Hm.
    destruct Hpad as [_ Hnum]. assert (sbf_number (scratchPad q) l) as Hq' by sbf_keeps. exact Hq'.
  - rewrite (sbf_continue s1 c1 c2 i1 i2 l1 l2 (body ++ [b])); [|done|].
    2: { rewrite length_app. cbn. unfold u16 in Hn'. mlia. }
    eapply lrefines_ok; [reflexivity| |done]. split; [lwf_tac|]. repeat split; try done.
    cbn. rewrite Hst. constructor.
    + destruct Hpad as [_ Hnum]. split; sbf_keeps.
    + done.
    + rewrite length_app. cbn. unfold u16 in Hn'. mlia.
    + pad_simpl. rewrite Z.mod_small by apply u16_range. fold n. rewrite Hn', length_app. cbn. f_equal. lia.
Qed.

End sbf_refine.

Lemma sempSbfPreamble_spec `{SU : LSetup} `{Plat : Platform} i p b :
  ltable !! i = Some fn_sempSbfPreamble -> lwf p -> lmessage p = [b] -> computeCrc p = None ->
  if b =? 0x24
  then exists p', sempSbfPreamble b p = Ok (true, p', []) /\
                  LR (with_type (Z.of_nat i) p') (LFrame i fn_sempSbfPreamble [b])
  else exists ev, sempSbfPreamble b p = Ok (false, p, ev) /\
                  ldelivered ev = invalid hands_back fn_sempSbfPreamble [b].
Proof.
  intros Hi Hwf Hm Hc. unfold sempSbfPreamble. destruct (b =? 0x24).
  - eexists. split; [reflexivity|]. split; [lwf_tac|]. repeat split; try done. constructor.
  - destruct (call_invalidDataCallback_ok p Hwf (sbf_in_table i Hi)) as (ev & Hp & Hev).
    exists ev. rewrite (bind_ok _ _ _ _ _ _ Hp). cbn. by rewrite app_nil_r, Hev, Hm.
Qed.
