(* ===== verification/LibSpartnRefine.v ===== *)
(** * Refinement of the library's SPARTN parser

    Every state routine of [LibSpartn] takes the step of the machine. *)
From S2P Require Import Prelude Crc ParseState FrameSpec Sentences Representation LibParser.
From S2P Require Import LibFramework ShiftRegister LibCrc LibCrcTheorems LibSpartn LibSpec LibRep.

(* ------------------------------------------------------------------ *)
(** ** Fields of a frame *)

Lemma byte_app m l i : (i < length m)%nat -> byte (m ++ l) i = byte m i.
Proof. intros H. unfold byte. by rewrite lookup_app_l. Qed.

Lemma byte_last m b : byte (m ++ [b]) (length m) = b.
Proof. unfold byte. by rewrite list_lookup_middle. Qed.

Lemma byte_range m i : bytes m -> is_u8 (byte m i).
Proof.
  intros Hm. unfold byte. destruct (m !! i) as [v|] eqn:E; [|done].
  by eapply Forall_lookup_1 in E.
Qed.

(** Bits of a byte. *)
Lemma land_low x n : 0 <= n -> Z.land x (Z.ones n) = x mod 2 ^ n.
Proof. apply Z.land_ones. Qed.

Lemma land_bits x s n : 0 <= s -> 0 <= n -> Z.land (Z.shiftr x s) (Z.ones n) = x / 2 ^ s mod 2 ^ n.
Proof. intros. by rewrite Z.land_ones, Z.shiftr_div_pow2. Qed.

Section fields.
  Context (m l : list Z).

Lemma spartn_header_app :
  (4 <= length m)%nat ->
  spartn_header_ok (m ++ l) = spartn_header_ok m /\ spartn_payload (m ++ l) = spartn_payload m /\
  spartn_encrypted (m ++ l) = spartn_encrypted m /\ spartn_check_type (m ++ l) = spartn_check_type m.
Proof.
  intros H. unfold spartn_header_ok, spartn_payload, spartn_encrypted, spartn_check_type.
  by rewrite !byte_app by lia.
Qed.

Lemma spartn_fields_app sp :
  (4 <= length m)%nat -> spartn_fields sp m -> spartn_fields sp (m ++ l).
Proof.
  intros H [H1 H2 H3 H4 H5 H6]. destruct (spartn_header_app H) as (E1 & E2 & E3 & E4).
  split; unfold spartn_check_length; rewrite ?E1, ?E2, ?E3, ?E4; try done. by rewrite byte_app by lia.
Qed.

Lemma spartn_description_app :
  (5 <= length m)%nat -> spartn_description (m ++ l) = spartn_description m.
Proof.
  intros H. destruct (spartn_header_app ltac:(lia)) as (_ & _ & E & _).
  unfold spartn_description. by rewrite E, byte_app by lia.
Qed.

Lemma spartn_description_range : spartn_description m = 4 \/ spartn_description m = 6 \/ spartn_description m = 8.
Proof. unfold spartn_description. destruct (_ =? 1), (spartn_encrypted m); lia. Qed.

Lemma spartn_embedded_app :
  4 + spartn_description m <= Z.of_nat (length m) -> spartn_embedded (m ++ l) = spartn_embedded m.
Proof.
  intros H. pose proof spartn_description_range.
  destruct (spartn_header_app ltac:(lia)) as (_ & _ & E & _).
  unfold spartn_embedded. by rewrite spartn_description_app, E, byte_app by lia.
Qed.

Lemma spartn_embedded_range : 0 <= spartn_embedded m <= 64.
Proof.
  unfold spartn_embedded. destruct (_ && _); [|lia].
  by repeat (lia || case_match).
Qed.

Lemma spartn_end_app :
  4 + spartn_description m <= Z.of_nat (length m) ->
  spartn_end (m ++ l) = spartn_end m /\ spartn_check_length (m ++ l) = spartn_check_length m.
Proof.
  intros H. pose proof spartn_description_range.
  destruct (spartn_header_app ltac:(lia)) as (_ & E1 & _ & E2).
  unfold spartn_end, spartn_check_length.
  by rewrite spartn_description_app, spartn_embedded_app, E1, E2 by lia.
Qed.

Lemma spartn_described_app sp :
  4 + spartn_description m <= Z.of_nat (length m) ->
  spartn_described sp m -> spartn_described sp (m ++ l).
Proof.
  intros H [H1 H2 H3]. pose proof spartn_description_range. split.
  - apply spartn_fields_app; [lia|done].
  - by rewrite spartn_description_app by lia.
  - by rewrite spartn_embedded_app by lia.
Qed.

Lemma spartn_payload_range : bytes m -> 0 <= spartn_payload m < 1024.
Proof.
  intros Hm. pose proof (byte_range m 1 Hm). pose proof (byte_range m 2 Hm).
  pose proof (byte_range m 3 Hm). unfold spartn_payload, is_u8 in *. mlia.
Qed.

Lemma spartn_check_type_range : 0 <= spartn_check_type m < 4.
Proof. unfold spartn_check_type. apply Z.mod_pos_bound. lia. Qed.

(** Frames that are not complete. *)
Lemma spartn_continue :
  (4 <= length m)%nat -> spartn_header_ok m = true ->
  Z.of_nat (length m) < 4 + spartn_description m \/ spartn_payload m = 0 \/
  Z.of_nat (length m) < spartn_end m + spartn_check_length m ->
  spartn_verdict m = Continue.
Proof.
  intros H4 Hh Hn. unfold spartn_verdict. rewrite Hh. cbn [negb].
  destruct (_ <? 4) eqn:E; [done|]. destruct (_ || _) eqn:E2; [done|]. lia.
Qed.

Lemma spartn_complete :
  (5 <= length m)%nat -> spartn_header_ok m = true ->
  4 + spartn_description m <= Z.of_nat (length m) -> spartn_payload m <> 0 ->
  Z.of_nat (length m) = spartn_end m + spartn_check_length m ->
  let e := Z.to_nat (spartn_end m) in
  spartn_verdict m = Complete (bool_decide
    (drop e m = spartn_check (spartn_check_type m) (take (e - 1) (drop 1 m)))).
Proof.
  intros H5 Hh Hd Hp Hn e. unfold spartn_verdict. rewrite Hh. cbn [negb].
  destruct (_ <? 4) eqn:E; [lia|]. destruct (_ || _) eqn:E2; [lia|done].
Qed.

End fields.

(** Members that other writes leave alone. *)
Lemma spartn_fields_put sp m f v :
  spartn_fields sp m -> pad_ok sp -> in_pad f = true ->
  forallb (fun g => disjoint_members g f)
    [spartn_payloadLength; spartn_EAF; spartn_crcType; spartn_crcBytes; spartn_messageType] = true ->
  spartn_fields (put f v sp) m.
Proof.
  intros [H1 H2 H3 H4 H5 H6] Hsp Hf Hd. cbn -[disjoint_members] in Hd. rewrite !andb_true_iff in Hd.
  destruct Hd as (D1 & D2 & D3 & D4 & D5 & _).
  split; [done|rewrite pad_get_ne; [done|done|reflexivity|done|done]..].
Qed.

Lemma spartn_described_put sp m f v :
  spartn_described sp m -> pad_ok sp -> in_pad f = true ->
  forallb (fun g => disjoint_members g f)
    [spartn_payloadLength; spartn_EAF; spartn_crcType; spartn_crcBytes; spartn_messageType;
     spartn_TF007toTF016; spartn_embeddedApplicationLengthBytes] = true ->
  spartn_described (put f v sp) m.
Proof.
  intros [H1 H2 H3] Hsp Hf Hd. cbn -[disjoint_members] in Hd. rewrite !andb_true_iff in Hd.
  destruct Hd as (D1 & D2 & D3 & D4 & D5 & D6 & D7 & _). split.
  - apply spartn_fields_put; [done|done|done|]. cbn -[disjoint_members]. by rewrite D1, D2, D3, D4, D5.
  - by rewrite pad_get_ne.
  - by rewrite pad_get_ne.
Qed.

(* ------------------------------------------------------------------ *)
(** ** Check bytes *)

Definition be_value (l : list Z) : Z := foldl (fun v b => 256 * v + b) 0 l.

Lemma be_value_combine l : be_value l = le_combine (rev l).
Proof.
  induction l as [|b l IH] using rev_ind; [done|]. unfold be_value in *.
  rewrite foldl_app, rev_app_distr. cbn [foldl rev app le_combine]. rewrite IH. lia.
Qed.

Lemma be_value_check n l c :
  bytes l -> length l = n -> 0 <= c < 256 ^ Z.of_nat n ->
  (c =? be_value l) = bool_decide (l = rev (le_split n c)).
Proof.
  intros Hl <- Hc. rewrite be_value_combine. case_bool_decide as H.
  - rewrite H, rev_involutive, le_combine_split by done. apply Z.eqb_refl.
  - apply Z.eqb_neq. intros E. apply H. rewrite E, <-(length_rev l), le_split_combine, rev_involutive; [done|].
    by apply Forall_rev.
Qed.

Section spartn_refine.
  Context `{SU : LSetup} `{Plat : Platform}.

Lemma spartn_expected_ok (p : SEMP_PARSE_STATE) l i acc :
  (forall j v, l !! j = Some v -> buffer_at (i + Z.of_nat j) p = Ok (v, p, [])) -> bytes l ->
  0 <= acc -> (acc + 1) * 256 ^ Z.of_nat (length l) <= 2 ^ 32 ->
  spartn_expected (length l) i acc p = Ok (foldl (fun v b => 256 * v + b) acc l, p, []).
Proof.
  revert i acc. induction l as [|d l IH]; intros i acc Hat Hl Hacc Hmax; [done|].
  apply Forall_cons_1 in Hl as [Hd Hl]. cbn [length spartn_expected foldl].
  rewrite (bind_silent _ _ _ d p) by (rewrite <-(Z.add_0_r i); by apply (Hat 0%nat)).
  cbn [length] in Hmax. rewrite Nat2Z.inj_succ, Z.pow_succ_r in Hmax by lia.
  assert (1 <= 256 ^ Z.of_nat (length l)) by (pose proof (Z.pow_pos_nonneg 256 (Z.of_nat (length l))); lia).
  assert (acc < 2 ^ 24) by nia. unfold is_u8 in Hd.
  assert (u32 (Z.lor (u32 (Z.shiftl acc 8)) d) = 256 * acc + d) as ->.
  { rewrite (u32_id (Z.shiftl acc 8)) by (rewrite Z.shiftl_mul_pow2 by lia; unfold is_u32; lia).
    rewrite Z.lor_comm, lor_shiftl_add by lia. rewrite u32_id; unfold is_u32; lia. }
  apply IH; [|done|lia|nia].
  intros j w Hj. replace (i + 1 + Z.of_nat j) with (i + Z.of_nat (S j)) by lia. by apply Hat.
Qed.

(** One case of the check: [n] bytes from index [e] on against the check [f]. *)
Lemma spartn_compare_ok p m (n e : nat) check (f : list Z -> Z) :
  (forall msg size, 0 <= size <= Z.of_nat (length msg) -> bytes msg ->
     check msg size = Ok (f (take (Z.to_nat size) msg))) ->
  (forall l, 0 <= f l < 256 ^ Z.of_nat n) -> (n <= 4)%nat ->
  lwf p -> lmessage p = m -> length m = (e + n)%nat -> (1 <= e)%nat ->
  exists ev, spartn_compare n (Z.of_nat e) check (Z.of_nat e - 1) p =
    Ok (bool_decide (drop e m = rev (le_split n (f (take (e - 1) (drop 1 m)))))
        || laccepts (type p) m, p, ev) /\ ldelivered ev = [].
Proof.
  intros Hcheck Hf Hn4 Hwf Hm Hlen He. pose proof (lmessage_bytes p Hwf) as Hbs. rewrite Hm in Hbs.
  pose proof (lwf_buffer p Hwf). pose proof (lwf_msgLength p Hwf). pose proof (length_lmessage p Hwf) as Hl.
  rewrite Hm in Hl. unfold spartn_compare.
  rewrite (bind_silent _ _ _ (be_value (drop e m)) p).
  2: { replace n with (length (drop e m)) at 1 by (rewrite length_drop; lia).
       apply spartn_expected_ok; [|by apply Forall_drop|lia|].
       - intros j v Hj. unfold buffer_at. rewrite bind_gets. unfold lift, id.
         rewrite (lbuffer_at_message p m _ v); [done|done|done| |lia].
         rewrite lookup_drop in Hj. rewrite <-Hj. f_equal. lia.
       - rewrite length_drop, Hlen. replace (e + n - e)%nat with n by lia.
         change (2 ^ 32) with (256 ^ 4). rewrite Z.mul_1_l. apply Z.pow_le_mono_r; lia. }
  rewrite bind_gets. unfold after_preamble, id.
  assert (check (drop 1 (buffer p)) (Z.of_nat e - 1) = Ok (f (take (e - 1) (drop 1 m)))) as Hc.
  { rewrite Hcheck; [|rewrite length_drop; lia|by apply Forall_drop, Hwf]. do 2 f_equal.
    rewrite <-Hm. unfold lmessage. rewrite skipn_firstn_comm, firstn_firstn. f_equal. lia. }
  rewrite Hc. unfold bind at 1. cbn [lift].
  rewrite (be_value_check n); [|by apply Forall_drop|rewrite length_drop; lia|done].
  destruct (lcheck_ok (bool_decide (drop e m = rev (le_split n (f (take (e - 1) (drop 1 m)))))) p Hwf)
    as (ev & Hk & Hev).
  rewrite Hk. exists ev. by rewrite Hm.
Qed.

(** The check of a complete frame. *)
Lemma spartn_check_ok p m (e : nat) ty :
  0 <= ty < 4 -> lwf p -> lmessage p = m -> Z.of_nat (length m) = Z.of_nat e + ty + 1 -> (1 <= e)%nat ->
  exists ev,
    (if ty =? 0 then spartn_compare 1 (Z.of_nat e) semp_uSpartnCrc8 (Z.of_nat e - 1)
     else if ty =? 1 then spartn_compare 2 (Z.of_nat e) semp_uSpartnCrc16 (Z.of_nat e - 1)
     else if ty =? 2 then spartn_compare 3 (Z.of_nat e) semp_uSpartnCrc24 (Z.of_nat e - 1)
     else spartn_compare 4 (Z.of_nat e) semp_uSpartnCrc32 (Z.of_nat e - 1)) p =
    Ok (bool_decide (drop e m = spartn_check ty (take (e - 1) (drop 1 m))) || laccepts (type p) m, p, ev)
    /\ ldelivered ev = [].
Proof.
  intros Hty Hwf Hm Hlen He.
  assert (ty = 0 \/ ty = 1 \/ ty = 2 \/ ty = 3) as [->|[->|[->| ->]]] by lia;
    cbn [Z.eqb Pos.eqb spartn_check].
  - apply (spartn_compare_ok p m 1); [apply semp_uSpartnCrc8_ref|apply crc8_ref_range|lia|done|done|lia|done].
  - apply (spartn_compare_ok p m 2); [apply semp_uSpartnCrc16_ref|apply crc16_ref_range|lia|done|done|lia|done].
  - apply (spartn_compare_ok p m 3); [apply semp_uSpartnCrc24_ref|apply crc24_ref_range|lia|done|done|lia|done].
  - apply (spartn_compare_ok p m 4);
      [apply semp_uSpartnCrc32_ref|apply crc32_forward_ref_range|lia|done|done|lia|done].
Qed.

(* ------------------------------------------------------------------ *)
(** ** The states *)

Context `{PS : !LPreambleSpec PT}.
Context (i : nat) (p : SEMP_PARSE_STATE) (m : list Z) (b : Z).
Context (Hwf : lwf p) (Hb : is_u8 b) (Htype : type p = Z.of_nat i)
  (Hi : ltable !! i = Some fn_sempSpartnPreamble) (Hnone : computeCrc p = None)
  (Hm : lmessage p = m ++ [b]).
Abbreviation step := (lframe_step ltable laccepts hands_back i fn_sempSpartnPreamble (m ++ [b]) b).
Abbreviation stay := (Some (LFrame i fn_sempSpartnPreamble (m ++ [b]), [])).

Lemma spartn_free : has_sbf = false.
Proof. by eapply overlapping_free. Qed.

Lemma spartn_length : Z.of_nat (length (m ++ [b])) = Z.of_nat (length m) + 1 /\
  Z.of_nat (length m) + 1 <= lB /\ bytes (m ++ [b]) /\ Z.of_nat (length m) + 1 = msgLength p.
Proof.
  pose proof (length_lmessage p Hwf) as H. pose proof (lwf_msgLength p Hwf).
  pose proof (lmessage_bytes p Hwf) as Hbs. rewrite Hm in H, Hbs. rewrite length_app in *.
  cbn [length] in *. split_and!; done || lia.
Qed.

Lemma spartn_stay :
  spartn_verdict (m ++ [b]) = Continue -> step = stay.
Proof. intros H. unfold lframe_step, lib_verdict. by rewrite H. Qed.

(** A routine that stays in the frame. *)
Lemma spartn_stays {A} (r : P A) p0 a q :
  r p0 = Ok (a, q, []) -> lwf q -> lmessage q = m ++ [b] -> type q = Z.of_nat i ->
  computeCrc q = None -> spartn_rel (scratchPad q) (state q) (m ++ [b]) ->
  spartn_verdict (m ++ [b]) = Continue -> lrefines r p0 step.
Proof.
  intros Hr Hq Hmq Htq Hcq Hrel Hv. rewrite spartn_stay by done.
  eapply lrefines_ok; [exact Hr| |done]. split; [done|]. by split; [|split; [|split; [|split]]].
Qed.

(** The members of the frame in a scratch area after other writes. *)
Ltac spartn_tac :=
  repeat first
    [ assumption | apply spartn_fields_put; [|pad_tac|reflexivity|reflexivity]
    | apply spartn_described_put; [|pad_tac|reflexivity|reflexivity] ].

Lemma sempSpartnReadTF007_refines :
  spartn_rel (scratchPad p) fn_sempSpartnReadTF007 m ->
  lrefines (sempSpartnReadTF007 b) p step.
Proof.
  intros [Hn Hf]. destruct spartn_length as (Hl & HB & Hbs & _). pose proof spartn_free.
  pose proof (lwf_pad p Hwf). assert (length m = 4%nat) as Hlm by lia.
  pose proof (spartn_fields_app m [b] _ ltac:(lia) Hf) as Hf'.
  assert (spartn_description (m ++ [b]) =
    (if Z.land (Z.shiftr b 3) 1 =? 0 then 4 else 6) + (if spartn_encrypted m then 2 else 0)) as Hd.
  { unfold spartn_description. rewrite <-Hlm at 1. rewrite byte_last.
    destruct (spartn_header_app m [b] ltac:(lia)) as (_ & _ & -> & _).
    change 1 with (Z.ones 1) at 2. rewrite land_bits by lia. change (2 ^ 3) with 8. change (2 ^ 1) with 2.
    f_equal. destruct (Z.eqb_spec (b / 8 mod 2) 1), (Z.eqb_spec (b / 8 mod 2) 0); try done; mlia. }
  pose proof (spartn_description_range (m ++ [b])).
  assert (spartn_verdict (m ++ [b]) = Continue).
  { apply spartn_continue; [lia|apply Hf'|lia]. }
  assert (is_u16 (Z.land (Z.shiftr b 3) 1)) as Ht.
  { change 1 with (Z.ones 1). rewrite land_bits by lia. unfold is_u16. mlia. }
  unfold sempSpartnReadTF007. do 5 (eapply lrefines_bind; [reflexivity|done|]).
  cbn [scratchPad with_scratchPad]. pad_simpl. rewrite (sf_eaf _ _ Hf).
  rewrite (Z.mod_small (Z.land _ _)) by exact Ht.
  set (t := if _ =? 0 then 4 else 6) in *. assert (t = 4 \/ t = 6) by (unfold t; destruct (_ =? 0); auto).
  destruct (spartn_encrypted m); cbn [Z.ltb Z.compare when].
  all: eapply spartn_stays; [reflexivity|lwf_tac|done..| |done].
  all: cbn [state with_state scratchPad with_scratchPad spartn_rel].
  all: split; [lia|split; [spartn_tac|]].
  all: pad_simpl; rewrite Hd; cbn; unfold u16; rewrite ?Z.mod_small; lia.
Qed.

(** The length of the embedded data after the last byte of the description. *)
Lemma spartn_authentication_ok q :
  lwf q -> 4 + spartn_description (m ++ [b]) = Z.of_nat (length (m ++ [b])) -> (4 <= length m)%nat ->
  spartn_fields (scratchPad q) m -> get spartn_TF007toTF016 (scratchPad q) = spartn_description (m ++ [b]) ->
  exists sp, spartn_authentication b q = Ok (tt, with_scratchPad sp q, []) /\
             pad_ok sp /\ spartn_described sp (m ++ [b]).
Proof.
  intros Hq Hd H4 Hf Hh. pose proof (lwf_pad q Hq) as Hpad.
  pose proof (spartn_fields_app m [b] _ H4 Hf) as Hf'.
  destruct (spartn_header_app m [b] H4) as (_ & _ & He & _).
  assert (spartn_embedded (m ++ [b]) =
    if spartn_encrypted m && (1 <? Z.land (Z.shiftr b 3) 7) then embedded_length (Z.land b 7) else 0) as Hemb.
  { unfold spartn_embedded. rewrite He. destruct spartn_length as (Hl & _).
    replace (Z.to_nat (3 + _)) with (length m) by lia. rewrite byte_last.
    change 7 with (Z.ones 3). rewrite land_bits, land_low by lia. change (2 ^ 3) with 8.
    destruct (_ && _); [|done]. unfold embedded_length.
    assert (0 <= b mod 8 < 8) by mlia. generalize dependent (b mod 8). intros v Hv.
    assert (v = 0 \/ v = 1 \/ v = 2 \/ v = 3 \/ v = 4 \/ v = 5 \/ v = 6 \/ v = 7) as Hcases by lia.
    by repeat destruct Hcases as [->|Hcases]; subst. }
  assert (forall a e, 0 <= e <= 64 -> spartn_embedded (m ++ [b]) = e ->
    spartn_described (put spartn_embeddedApplicationLengthBytes e
      (put spartn_authenticationIndicator a (scratchPad q))) (m ++ [b])) as Hput.
  { intros a e Hr E. split; [spartn_tac|by pad_simpl|]. pad_simpl. rewrite E. apply Z.mod_small. cbn. lia. }
  pose proof (spartn_embedded_range (m ++ [b])) as Hrange.
  unfold spartn_authentication, pad_get, pad_set. rewrite bind_gets, (sf_eaf _ _ Hf).
  destruct (spartn_encrypted m); cbn [Z.eqb andb] in *.
  - run_monad. cbn [scratchPad with_scratchPad]. pad_simpl.
    assert (0 <= Z.land (Z.shiftr b 3) 7 < 8) as H7.
    { change 7 with (Z.ones 3). rewrite land_bits by lia. mlia. }
    rewrite (Z.mod_small (Z.land _ _)) by (cbn; lia). destruct (_ <=? 1) eqn:E.
    + eexists. split; [reflexivity|]. split; [pad_tac|]. apply Hput; [lia|].
      rewrite Hemb. by destruct (1 <? _) eqn:E2; [lia|].
    + destruct (1 <? _) eqn:E2; [|lia].
      eexists. split; [reflexivity|]. split; [pad_tac|]. apply Hput; [lia|done].
  - run_monad. eexists. split; [reflexivity|]. split; [pad_tac|]. apply Hput; [lia|done].
Qed.

(** The number of bytes counted after this one. *)
Lemma spartn_count n c :
  0 <= n -> n + 1 <= lB -> c = n -> u16 (c + 1) mod 256 ^ Z.of_nat (size spartn_frameCount) = n + 1.
Proof. intros H1 H2 ->. pose proof lB_range. cbn. unfold u16. rewrite !Z.mod_small; lia. Qed.

Lemma sempSpartnReadTF009_refines :
  spartn_rel (scratchPad p) fn_sempSpartnReadTF009 m -> state p = fn_sempSpartnReadTF009 ->
  lrefines (sempSpartnReadTF009 b) p step.
Proof.
  intros (Hn & Hf & Hh & Hc) Hst. destruct spartn_length as (Hl & HB & Hbs & _).
  pose proof spartn_free. pose proof (lwf_pad p Hwf).
  pose proof (spartn_fields_app m [b] _ ltac:(lia) Hf) as Hf'.
  pose proof (spartn_description_app m [b] ltac:(lia)) as Hd.
  assert (spartn_verdict (m ++ [b]) = Continue).
  { apply spartn_continue; [lia|apply Hf'|]. pose proof (spartn_payload_range (m ++ [b]) Hbs).
    pose proof (spartn_embedded_range (m ++ [b])). pose proof (spartn_check_type_range (m ++ [b])).
    unfold spartn_end, spartn_check_length. lia. }
  unfold sempSpartnReadTF009. do 4 (eapply lrefines_bind; [reflexivity|done|]).
  cbn [scratchPad with_scratchPad]. pad_simpl.
  rewrite (spartn_count (Z.of_nat (length m) - 4)), Hh by (done || lia).
  set (q := with_scratchPad _ p). assert (lwf q) as Hq by (unfold q; lwf_tac).
  assert (spartn_fields (scratchPad q) m) as Hfq by (unfold q; cbn; spartn_tac).
  assert (get spartn_TF007toTF016 (scratchPad q) = spartn_description (m ++ [b])) as Hhq
    by (unfold q; cbn; pad_simpl; by rewrite Hd).
  destruct (_ =? spartn_description m) eqn:E; cbn [when].
  - destruct (spartn_authentication_ok q Hq) as (sp & Ha & Hsp & Hdesc); [lia|lia|done|done|].
    apply lrefines_assoc. eapply lrefines_bind; [exact Ha|done|].
    eapply spartn_stays; [reflexivity|lwf_tac|done..| |done].
    cbn [state with_state scratchPad with_scratchPad spartn_rel].
    split; [spartn_tac|]. split; [lia|]. pose proof (spartn_payload_range (m ++ [b]) Hbs).
    split; [lia|]. pad_simpl. cbn. lia.
  - eapply spartn_stays; [reflexivity|done|done..| |done].
    cbn [state with_scratchPad q]. rewrite Hst. cbn [spartn_rel]. split; [lia|].
    split; [unfold q; cbn; spartn_tac|]. split; [done|]. unfold q. cbn [scratchPad with_scratchPad].
    pad_simpl. rewrite (spartn_count (Z.of_nat (length m) - 4)) by (done || lia). lia.
Qed.

(** After the description: the frame's parts as they grow. *)
Lemma spartn_grows :
  spartn_described (scratchPad p) m -> 4 + spartn_description m <= Z.of_nat (length m) ->
  spartn_described (scratchPad p) (m ++ [b]) /\
  spartn_description (m ++ [b]) = spartn_description m /\
  spartn_payload (m ++ [b]) = spartn_payload m /\ spartn_embedded (m ++ [b]) = spartn_embedded m /\
  spartn_check_length (m ++ [b]) = spartn_check_length m /\
  spartn_check_type (m ++ [b]) = spartn_check_type m /\
  (spartn_payload m = 0 \/ Z.of_nat (length m) + 1 < spartn_end m + spartn_check_length m ->
   spartn_verdict (m ++ [b]) = Continue).
Proof.
  intros Hd Hn. pose proof (spartn_description_range m). destruct spartn_length as (Hl & _).
  pose proof (spartn_described_app m [b] _ Hn Hd) as Hd'.
  destruct (spartn_header_app m [b] ltac:(lia)) as (_ & E1 & _ & E2).
  destruct (spartn_end_app m [b] Hn) as (E3 & E4).
  split_and!; try done.
  - apply spartn_description_app. lia.
  - by apply spartn_embedded_app.
  - intros Hc. apply spartn_continue; [lia|apply Hd'|]. rewrite E1, E3, E4. lia.
Qed.

Lemma sempSpartnReadTF016_refines :
  spartn_rel (scratchPad p) fn_sempSpartnReadTF016 m -> state p = fn_sempSpartnReadTF016 ->
  lrefines (sempSpartnReadTF016 b) p step.
Proof.
  intros (Hd & Hn & Hp & Hc) Hst. destruct spartn_length as (Hl & HB & Hbs & _).
  pose proof spartn_free. pose proof (lwf_pad p Hwf).
  destruct (spartn_grows Hd Hn) as (Hd' & E1 & E2 & E3 & E4 & E5 & Hv).
  pose proof (spartn_payload_range (m ++ [b]) Hbs). pose proof (spartn_embedded_range m).
  pose proof (spartn_check_type_range m).
  assert (spartn_verdict (m ++ [b]) = Continue) as Hv'
    by (apply Hv; unfold spartn_end, spartn_check_length; lia).
  unfold sempSpartnReadTF016. do 4 (eapply lrefines_bind; [reflexivity|done|]).
  cbn [scratchPad with_scratchPad]. pad_simpl.
  pose proof (spartn_description_range m).
  rewrite (spartn_count (Z.of_nat (length m) - (4 + spartn_description m))) by (done || lia).
  rewrite (sf_payload _ _ (sd_fields _ _ Hd)).
  set (q := with_scratchPad _ p). assert (lwf q) as Hq by (unfold q; lwf_tac).
  assert (spartn_described (scratchPad q) (m ++ [b])) as Hdq by (unfold q; cbn; spartn_tac).
  destruct (_ =? spartn_payload m) eqn:E; cbn [when].
  - apply lrefines_assoc. eapply lrefines_bind; [reflexivity|done|].
    rewrite (sd_embedded _ _ Hdq), E3. destruct (0 <? spartn_embedded m) eqn:Ee.
    all: eapply spartn_stays; [reflexivity|lwf_tac|done..| |done].
    all: cbn [state with_state scratchPad with_scratchPad spartn_rel].
    all: unfold spartn_end; rewrite ?E1, ?E2, ?E3, ?E4, ?Hl; split; [spartn_tac|].
    all: split; [lia|]; split; [unfold spartn_check_length; lia|]; pad_simpl; cbn; lia.
  - eapply spartn_stays; [reflexivity|done|done..| |done].
    cbn [state with_scratchPad q]. rewrite Hst. cbn [spartn_rel]. rewrite E1, E2, Hl.
    split; [done|]. split; [lia|]. split; [lia|]. unfold q. cbn [scratchPad with_scratchPad].
    pad_simpl. rewrite (spartn_count (Z.of_nat (length m) - (4 + spartn_description m))) by (done || lia). lia.
Qed.

Lemma sempSpartnReadTF017_refines :
  spartn_rel (scratchPad p) fn_sempSpartnReadTF017 m -> state p = fn_sempSpartnReadTF017 ->
  lrefines (sempSpartnReadTF017 b) p step.
Proof.
  intros (Hd & Hp & Hn & Hc) Hst. destruct spartn_length as (Hl & HB & Hbs & _).
  pose proof spartn_free. pose proof (lwf_pad p Hwf).
  destruct (spartn_grows Hd ltac:(lia)) as (Hd' & E1 & E2 & E3 & E4 & E5 & Hv).
  pose proof (spartn_embedded_range m). pose proof (spartn_check_type_range m).
  pose proof (spartn_description_range m).
  assert (spartn_verdict (m ++ [b]) = Continue) as Hv' by (apply Hv; unfold spartn_check_length; lia).
  unfold sempSpartnReadTF017. do 4 (eapply lrefines_bind; [reflexivity|done|]).
  cbn [scratchPad with_scratchPad]. pad_simpl. unfold spartn_end in Hn.
  set (n := Z.of_nat (length m) - (4 + spartn_description m + spartn_payload m)) in *.
  rewrite (spartn_count n), (sd_embedded _ _ Hd) by (done || lia).
  set (q := with_scratchPad _ p). assert (lwf q) as Hq by (unfold q; lwf_tac).
  assert (spartn_described (scratchPad q) (m ++ [b])) as Hdq by (unfold q; cbn; spartn_tac).
  destruct (_ =? spartn_embedded m) eqn:E; cbn [when].
  - eapply spartn_stays; [reflexivity|lwf_tac|done..| |done].
    cbn [state with_state scratchPad with_scratchPad spartn_rel].
    unfold spartn_end; rewrite E1, E2, E3, E4, Hl. split; [spartn_tac|].
    split; [lia|]. split; [unfold spartn_check_length; lia|]. pad_simpl. cbn. lia.
  - eapply spartn_stays; [reflexivity|done|done..| |done].
    cbn [state with_scratchPad q]. rewrite Hst. cbn [spartn_rel]. unfold spartn_end. rewrite E1, E2, E3, Hl.
    split; [done|]. split; [lia|]. split; [lia|]. unfold q. cbn [scratchPad with_scratchPad].
    pad_simpl. rewrite (spartn_count n) by (done || lia). lia.
Qed.

Lemma sempSpartnReadTF018_refines :
  spartn_rel (scratchPad p) fn_sempSpartnReadTF018 m -> state p = fn_sempSpartnReadTF018 ->
  lrefines (sempSpartnReadTF018 b) p step.
Proof.
  intros (Hd & Hp & Hn & Hc) Hst. destruct spartn_length as (Hl & HB & Hbs & _).
  pose proof spartn_free. pose proof (lwf_pad p Hwf). pose proof lB_range.
  pose proof (spartn_embedded_range m). pose proof (spartn_check_type_range m) as Hty.
  pose proof (spartn_description_range m). pose proof (spartn_payload_range (m ++ [b]) Hbs).
  assert (spartn_end m = 4 + spartn_description m + spartn_payload m + spartn_embedded m) as He by done.
  destruct (spartn_grows Hd ltac:(lia)) as (Hd' & E1 & E2 & E3 & E4 & E5 & Hv).
  unfold sempSpartnReadTF018. do 4 (eapply lrefines_bind; [reflexivity|done|]).
  cbn [scratchPad with_scratchPad]. pad_simpl.
  rewrite (spartn_count (Z.of_nat (length m) - spartn_end m)) by (done || lia).
  rewrite (sf_crcBytes _ _ (sd_fields _ _ Hd)).
  set (q := with_scratchPad _ p). assert (lwf q) as Hq by (unfold q; lwf_tac).
  assert (spartn_described (scratchPad q) (m ++ [b])) as Hdq by (unfold q; cbn; spartn_tac).
  destruct (_ =? spartn_check_length m) eqn:E.
  - do 4 (eapply lrefines_bind; [reflexivity|done|]).
    rewrite (sd_description _ _ Hdq), (sd_embedded _ _ Hdq), (sf_payload _ _ (sd_fields _ _ Hdq)).
    rewrite (sf_type _ _ (sd_fields _ _ Hdq)), E1, E2, E3, E5, <-He. cbv zeta.
    rewrite u16_id by (unfold is_u16; lia).
    destruct (spartn_check_ok q (m ++ [b]) (Z.to_nat (spartn_end m)) (spartn_check_type m) Hty Hq Hm)
      as (ev & Hchk & Hev); [unfold spartn_check_length in E; lia|lia|].
    rewrite Z2Nat.id in Hchk by lia. eapply lrefines_bind; [exact Hchk|exact Hev|].
    assert (spartn_end (m ++ [b]) = spartn_end m) as E6 by (unfold spartn_end; congruence).
    unfold lframe_step, lib_verdict. rewrite spartn_complete, E5, E6;
      [|lia|apply Hd'|lia|lia|rewrite E6, E4; lia].
    rewrite <-Htype, <-Hm. change (type p) with (type q). change (lmessage p) with (lmessage q).
    eapply lrefines_deliver; [done|unfold pad_get; run_monad; reflexivity|done|reflexivity|by split; [lwf_tac|]|].
    cbn. intros k. rewrite Htype, Nat2Z.id, Hi. intros [= <-]. change (lmessage q) with (lmessage p). rewrite Hm.
    exact (sf_number _ _ (sd_fields _ _ Hdq)).
  - eapply spartn_stays; [reflexivity|done|done..| |apply Hv; lia].
    cbn [state with_scratchPad q]. rewrite Hst. cbn [spartn_rel]. unfold spartn_end. rewrite E1, E2, E3, E4, Hl, <-He.
    split; [done|]. split; [lia|]. split; [lia|]. unfold q. cbn [scratchPad with_scratchPad].
    pad_simpl. rewrite (spartn_count (Z.of_nat (length m) - spartn_end m)) by (done || lia). lia.
Qed.

(** ** The header *)

Lemma spartn_short : (length (m ++ [b]) < 4)%nat -> spartn_verdict (m ++ [b]) = Continue.
Proof. intros H. unfold spartn_verdict. by destruct (_ <? 4) eqn:E; [|lia]. Qed.

Lemma crc_length_type ty : 0 <= ty < 4 -> crc_length ty = ty + 1.
Proof. intros H. assert (ty = 0 \/ ty = 1 \/ ty = 2 \/ ty = 3) as [->|[->|[->| ->]]] by lia; done. Qed.

(** The writes of the last header byte before its check. *)
Definition header_pad (sp : list Z) : list Z :=
  put spartn_frameCRC (b mod 16)
    (put spartn_crcBytes (b / 16 mod 4 + 1)
      (put spartn_crcType (b / 16 mod 4)
        (put spartn_EAF (b / 64 mod 2)
          (put spartn_payloadLength (2 * get spartn_payloadLength sp + b / 128)
            (put spartn_payloadLength (2 * get spartn_payloadLength sp) sp))))).

Lemma header_pad_ok sp : pad_ok sp -> pad_ok (header_pad sp).
Proof. intros H. unfold header_pad. pad_tac. Qed.

Lemma header_pad_fields sp :
  pad_ok sp -> length m = 3%nat -> spartn_header_ok (m ++ [b]) = true ->
  get spartn_payloadLength sp = byte m 1 mod 2 * 256 + byte m 2 ->
  get spartn_messageType sp = byte m 1 / 2 ->
  spartn_fields (header_pad sp) (m ++ [b]) /\
  get spartn_frameCount (header_pad sp) = get spartn_frameCount sp.
Proof.
  intros Hsp H3 Hok Hp Hty. unfold header_pad. unfold is_u8 in Hb. destruct spartn_length as (_ & _ & Hbs & _).
  apply Forall_app in Hbs as [Hbs _]. pose proof (byte_range m 1 Hbs). pose proof (byte_range m 2 Hbs).
  unfold is_u8 in *. split; [|by pad_simpl].
  assert (byte (m ++ [b]) 3 = b) as Hb3 by (rewrite <-H3; apply byte_last).
  split; [done|..]; pad_simpl.
  - unfold spartn_payload. rewrite Hb3, !byte_app by lia. rewrite Hp. cbn. rewrite Z.mod_small; mlia.
  - unfold spartn_encrypted. rewrite Hb3. destruct (Z.eqb_spec (b / 64 mod 2) 1); cbn; rewrite Z.mod_small; mlia.
  - unfold spartn_check_type. rewrite Hb3. cbn. rewrite Z.mod_small; mlia.
  - unfold spartn_check_length, spartn_check_type. rewrite Hb3. cbn. rewrite Z.mod_small; mlia.
  - by rewrite byte_app by lia.
Qed.

Lemma lbuffer_set_ok v q :
  lwf q -> buffer_set 3 v q = Ok (tt, with_buffer (<[3%nat := v]> (buffer q)) q, []).
Proof.
  intros Hq. pose proof (lwf_buffer q Hq). pose proof lB_range.
  unfold buffer_set. rewrite bind_gets. unfold bind, lift, id. by rewrite store_ok by lia.
Qed.

Lemma land_F0_u8 : is_u8 (Z.land b 0xF0).
Proof.
  pose proof (byte_cases (fun x => (0 <=? Z.land x 0xF0) && (Z.land x 0xF0 <? 256)) eq_refl b Hb).
  unfold is_u8. lia.
Qed.

(** The check of the header reads the three bytes after the preamble, with the
    check itself cleared. *)
Lemma header_crc q :
  lwf q -> buffer q = buffer p -> length m = 3%nat ->
  semp_uSpartnCrc4 (drop 1 (<[3%nat := Z.land b 0xF0]> (buffer q))) 3
    = Ok (crc4_ref [byte (m ++ [b]) 1; byte (m ++ [b]) 2; Z.land b 0xF0]).
Proof.
  intros Hq Hbuf H3. pose proof (lwf_buffer q Hq). pose proof lB_range.
  assert (bytes (<[3%nat := Z.land b 0xF0]> (buffer q))) as Hbs.
  { apply Forall_insert; [apply Hq|exact land_F0_u8]. }
  rewrite semp_uSpartnCrc4_ref; [|rewrite length_drop, length_insert; lia|by apply Forall_drop].
  do 2 f_equal. rewrite Hbuf. destruct spartn_length as (Hl & _ & _ & Hlen). pose proof Hm as Hm'.
  unfold lmessage in Hm'. replace (Z.to_nat (msgLength p)) with 4%nat in Hm' by lia.
  destruct m as [|s [|b1 [|b2 [|]]]]; try done.
  destruct (buffer p) as [|x0 [|x1 [|x2 [|x3 rest]]]]; cbn in Hm'; simplify_eq. done.
Qed.

Lemma buffer_third : length m = 3%nat -> buffer p !! 3%nat = Some b.
Proof.
  intros H3. destruct spartn_length as (Hl & _ & _ & Hlen).
  assert (lmessage p !! 3%nat = Some b) as H by (rewrite Hm, <-H3; apply list_lookup_middle; lia).
  unfold lmessage in H. by rewrite lookup_take_lt in H by lia.
Qed.

(** The values the last header byte is split into. *)
Lemma header_bits :
  Z.shiftr b 7 = b / 128 /\ Z.land (Z.shiftr b 6) 1 = b / 64 mod 2 /\
  Z.land (Z.shiftr b 4) 3 = b / 16 mod 4 /\ Z.land b 15 = b mod 16.
Proof.
  change 15 with (Z.ones 4). change 3 with (Z.ones 2). change (Z.land (Z.shiftr b 6) 1)
    with (Z.land (Z.shiftr b 6) (Z.ones 1)).
  rewrite !land_bits, land_low, Z.shiftr_div_pow2 by lia. done.
Qed.

Lemma spartn_header_fields_ok :
  length m = 3%nat -> get spartn_payloadLength (scratchPad p) = byte m 1 mod 2 * 256 + byte m 2 ->
  spartn_header_fields b p = Ok (tt, with_scratchPad (header_pad (scratchPad p)) p, []).
Proof.
  intros H3 Hp. pose proof (lwf_pad p Hwf) as Hpad.
  destruct header_bits as (B1 & B2 & B3 & B4). unfold is_u8 in Hb.
  destruct spartn_length as (_ & _ & Hbs & _). apply Forall_app in Hbs as [Hbs _].
  pose proof (byte_range m 1 Hbs). pose proof (byte_range m 2 Hbs). unfold is_u8 in *.
  set (l := get spartn_payloadLength (scratchPad p)) in *. assert (0 <= l < 512) by mlia.
  unfold spartn_header_fields, pad_get, pad_set. run_monad. cbn [scratchPad with_scratchPad]. fold l.
  rewrite B1, B2, B3, B4. pad_simpl.
  assert (u16 (Z.shiftl l 1) = 2 * l) as ->.
  { rewrite Z.shiftl_mul_pow2 by lia. unfold u16. rewrite Z.mod_small; lia. }
  rewrite (Z.mod_small (2 * l)) by (cbn; lia).
  assert (u16 (Z.lor (2 * l) (b / 128)) = 2 * l + b / 128) as ->.
  { replace (2 * l) with (Z.shiftl l 1) by (rewrite Z.shiftl_mul_pow2; lia).
    rewrite Z.lor_comm, lor_shiftl_add, Z.shiftl_mul_pow2 by (cbn; mlia). unfold u16. rewrite Z.mod_small; mlia. }
  assert (0 <= b / 16 mod 4 < 4) by mlia.
  rewrite (Z.mod_small (b / 16 mod 4)), crc_length_type by (cbn; lia). done.
Qed.

Lemma spartn_header_run :
  length m = 3%nat -> get spartn_payloadLength (scratchPad p) = byte m 1 mod 2 * 256 + byte m 2 ->
  exists ev q, buffer q = buffer p /\ msgLength q = msgLength p /\ type q = type p /\
    computeCrc q = computeCrc p /\ scratchPad q = header_pad (scratchPad p) /\ lwf q /\
    spartn_header b p =
      (if spartn_header_ok (m ++ [b]) then Ok (true, with_state fn_sempSpartnReadTF007 q, [])
       else Ok (false, with_state fn_sempFirstByte q, ev)) /\ ldelivered ev = [].
Proof.
  intros H3 Hp. pose proof (lwf_pad p Hwf) as Hpad. pose proof spartn_free.
  pose proof (header_pad_ok _ Hpad) as Hpad'.
  unfold spartn_header. rewrite (bind_silent _ _ _ _ _ (spartn_header_fields_ok H3 Hp)).
  set (q0 := with_scratchPad _ p). assert (lwf q0) as Hq0 by (unfold q0; lwf_tac).
  assert (buffer q0 !! 3%nat = Some b) as H3b by (by apply buffer_third).
  assert (buffer_at 3 q0 = Ok (b, q0, [])) as Hat.
  { unfold buffer_at. rewrite bind_gets. unfold lift, id. by rewrite (load_ok _ 3 b). }
  rewrite (bind_silent _ _ _ _ _ Hat), (bind_silent _ _ _ _ _ (lbuffer_set_ok _ q0 Hq0)).
  set (q1 := with_buffer _ q0).
  assert (lwf q1) as Hq1.
  { apply lwf_with_buffer; [done| |by rewrite length_insert]. apply Forall_insert; [apply Hq0|].
    exact land_F0_u8. }
  rewrite bind_gets. unfold after_preamble, id.
  assert (semp_uSpartnCrc4 (drop 1 (buffer q1)) 3
    = Ok (crc4_ref [byte (m ++ [b]) 1; byte (m ++ [b]) 2; Z.land b 0xF0])) as Hcrc by (by apply (header_crc q0)).
  rewrite Hcrc. unfold bind at 1. cbn [lift]. unfold pad_get. rewrite bind_gets.
  assert (get spartn_frameCRC (scratchPad q1) = b mod 16) as ->.
  { cbn. unfold header_pad. pad_simpl. apply Z.mod_small. cbn. mlia. }
  assert (byte (m ++ [b]) 3 = b) as Hb3 by (rewrite <-H3; apply byte_last).
  assert (spartn_header_ok (m ++ [b]) =
    (crc4_ref [byte (m ++ [b]) 1; byte (m ++ [b]) 2; Z.land b 240] =? b mod 16)) as ->
    by (unfold spartn_header_ok; by rewrite Hb3).
  set (q2 := with_buffer (<[3%nat:=b]> (buffer q1)) q1).
  assert (buffer q2 = buffer p) as Hbuf.
  { cbn. rewrite list_insert_insert_eq. by apply list_insert_id. }
  assert (lwf q2) as Hq2.
  { apply lwf_with_buffer; [done|change (bytes (buffer q2)); rewrite Hbuf; apply Hwf|by rewrite length_insert]. }
  destruct (crc4_ref _ =? b mod 16).
  - exists [], q2. do 6 (split; [done|]). split; [|done].
    by rewrite (bind_silent _ _ _ _ _ (lbuffer_set_ok b q1 Hq1)).
  - rewrite (bind_silent _ _ _ _ _ (lbuffer_set_ok b q1 Hq1)). fold q2. run_monad.
    destruct (lsempPrintf_ok (printDebug q2) "SEMP: %s SPARTN %d, 0x%04x (%d) bytes, bad header CRC"
      [AStr (parserName q2); AInt (get spartn_messageType (scratchPad q2)); AInt (msgLength q2); AInt (msgLength q2)]
      (with_state fn_sempFirstByte q2) eq_refl) as (ev & Hprt & Hev).
    exists ev, q2. do 6 (split; [done|]). split; [|done].
    rewrite (bind_ok _ _ _ _ _ _ Hprt). cbn. by rewrite app_nil_r.
Qed.

(** The first two bytes of the header. *)
Lemma spartn_header_byte1 :
  spartn_rel (scratchPad p) fn_sempSpartnReadTF002TF006 m -> state p = fn_sempSpartnReadTF002TF006 ->
  length m = 1%nat -> lrefines (sempSpartnReadTF002TF006 b) p step.
Proof.
  intros (Hn & Hc & _ & _ & _) Hst H1. pose proof (lwf_pad p Hwf). pose proof spartn_free.
  destruct spartn_length as (Hl & _). replace (Z.of_nat (length m) - 1) with 0 in Hc by lia.
  unfold sempSpartnReadTF002TF006. eapply lrefines_bind; [reflexivity|done|]. rewrite Hc. cbn [Z.eqb when].
  apply lrefines_assoc. do 3 (eapply lrefines_bind; [reflexivity|done|]).
  cbn [scratchPad with_scratchPad]. pad_simpl. rewrite Hc. cbn [Z.eqb when].
  do 2 (eapply lrefines_bind; [reflexivity|done|]). cbn [scratchPad with_scratchPad]. pad_simpl.
  rewrite Hc. cbn [Z.eqb].
  do 2 (eapply lrefines_bind; [reflexivity|done|]). cbn [scratchPad with_scratchPad]. pad_simpl. rewrite Hc.
  eapply spartn_stays; [reflexivity|lwf_tac|done..| |apply spartn_short; lia].
  cbn [state with_scratchPad]. rewrite Hst. cbn [spartn_rel scratchPad with_scratchPad]. rewrite Hl, H1.
  split; [lia|]. split; [by pad_simpl|]. unfold is_u8 in Hb. split; [|split]; intros; pad_simpl; [| |lia].
  - rewrite <-H1, byte_last, Z.shiftr_div_pow2 by lia. change (2 ^ 1) with 2. apply Z.mod_small. cbn. mlia.
  - rewrite <-H1, byte_last. change 1 with (Z.ones 1). rewrite land_low by lia.
    change (2 ^ 1) with 2. apply Z.mod_small. cbn. mlia.
Qed.

Lemma spartn_header_byte2 :
  spartn_rel (scratchPad p) fn_sempSpartnReadTF002TF006 m -> state p = fn_sempSpartnReadTF002TF006 ->
  length m = 2%nat -> lrefines (sempSpartnReadTF002TF006 b) p step.
Proof.
  intros (Hn & Hc & Hty & Hp & _) Hst H2. pose proof (lwf_pad p Hwf). pose proof spartn_free.
  destruct spartn_length as (Hl & _ & Hbs & _). specialize (Hp ltac:(lia)).
  replace (Z.of_nat (length m) - 1) with 1 in Hc by lia. unfold sempSpartnReadTF002TF006.
  eapply lrefines_bind; [reflexivity|done|]. rewrite Hc. cbn [Z.eqb when].
  do 2 (eapply lrefines_bind; [reflexivity|done|]). rewrite Hc. cbn [Z.eqb Pos.eqb when].
  do 3 (apply lrefines_assoc; eapply lrefines_bind; [reflexivity|done|]).
  do 2 (eapply lrefines_bind; [reflexivity|done|]).
  cbn [scratchPad with_scratchPad]. pad_simpl. rewrite Hc. cbn [Z.eqb Pos.eqb when].
  do 3 (eapply lrefines_bind; [reflexivity|done|]). cbn [scratchPad with_scratchPad]. pad_simpl. rewrite Hc, Hp.
  eapply spartn_stays; [reflexivity|lwf_tac|done..| |apply spartn_short; lia].
  cbn [state with_scratchPad]. rewrite Hst. cbn [spartn_rel scratchPad with_scratchPad]. rewrite Hl, H2.
  split; [lia|]. split; [by pad_simpl|].
  split; [intros _; pad_simpl; rewrite Hty, (byte_app m [b] 1) by lia; done|]. split; [lia|intros _].
  pad_simpl. rewrite <-H2 at 1. rewrite byte_last, (byte_app m [b] 1) by lia. unfold is_u8 in Hb.
  assert (0 <= byte m 1 mod 2 < 2) by mlia. set (h := byte m 1 mod 2) in *.
  assert (u16 (Z.shiftl h 8) mod 256 ^ Z.of_nat (size spartn_payloadLength) = Z.shiftl h 8) as ->.
  { rewrite Z.shiftl_mul_pow2 by lia. unfold u16. cbn. rewrite !Z.mod_small; lia. }
  rewrite Z.lor_comm, lor_shiftl_add by lia. unfold u16. cbn. rewrite !Z.mod_small; lia.
Qed.

Lemma spartn_header_byte3 :
  spartn_rel (scratchPad p) fn_sempSpartnReadTF002TF006 m ->
  length m = 3%nat -> lrefines (sempSpartnReadTF002TF006 b) p step.
Proof.
  intros (Hn & Hc & Hty & _ & Hp) H3. pose proof (lwf_pad p Hwf) as Hpad. pose proof spartn_free.
  destruct spartn_length as (Hl & _ & Hbs & _). specialize (Hp ltac:(lia)). specialize (Hty ltac:(lia)).
  replace (Z.of_nat (length m) - 1) with 2 in Hc by lia. unfold sempSpartnReadTF002TF006.
  eapply lrefines_bind; [reflexivity|done|]. rewrite Hc. cbn [Z.eqb when].
  do 2 (eapply lrefines_bind; [reflexivity|done|]). rewrite Hc. cbn [Z.eqb Pos.eqb when].
  do 2 (eapply lrefines_bind; [reflexivity|done|]). rewrite Hc. cbn [Z.eqb Pos.eqb].
  destruct (spartn_header_run H3 Hp) as (ev & q & Hbuf & Hlen & Ht & Hn' & Hsp & Hq & Hrun & Hev).
  assert (lmessage q = m ++ [b]) as Hmq by (unfold lmessage; by rewrite Hbuf, Hlen).
  destruct (spartn_header_ok (m ++ [b])) eqn:Hok.
  - destruct (header_pad_fields _ Hpad H3 Hok Hp Hty) as [Hf Hcount].
    eapply lrefines_bind; [exact Hrun|done|]. do 2 (eapply lrefines_bind; [reflexivity|done|]).
    eapply spartn_stays; [reflexivity|lwf_tac|done|by cbn; rewrite Ht|by cbn; rewrite Hn'| |].
    + cbn [state with_state scratchPad with_scratchPad spartn_rel]. split; [lia|].
      pose proof (lwf_pad q Hq). rewrite Hsp in *. spartn_tac.
    + apply spartn_continue; [lia|done|]. left. pose proof (spartn_description_range (m ++ [b])). lia.
  - eapply lrefines_bind; [exact Hrun|done|]. unfold lframe_step, lib_verdict.
    assert (spartn_verdict (m ++ [b]) = Dropped) as ->.
    { unfold spartn_verdict. rewrite Hok. by destruct (_ <? 4) eqn:E; [lia|]. }
    eapply lrefines_ok; [reflexivity| |done]. split; [lwf_tac|done].
Qed.

Lemma sempSpartnReadTF002TF006_refines :
  spartn_rel (scratchPad p) fn_sempSpartnReadTF002TF006 m -> state p = fn_sempSpartnReadTF002TF006 ->
  lrefines (sempSpartnReadTF002TF006 b) p step.
Proof.
  intros Hr Hst. pose proof Hr as (Hn & _).
  assert (length m = 1 \/ length m = 2 \/ length m = 3)%nat as [H1|[H1|H1]] by lia.
  - by apply spartn_header_byte1.
  - by apply spartn_header_byte2.
  - by apply spartn_header_byte3.
Qed.

End spartn_refine.

Lemma sempSpartnPreamble_spec `{SU : LSetup} `{Plat : Platform} i p b :
  ltable !! i = Some fn_sempSpartnPreamble -> lwf p -> lmessage p = [b] -> computeCrc p = None ->
  if b =? 0x73
  then exists p', sempSpartnPreamble b p = Ok (true, p', []) /\
                  LR (with_type (Z.of_nat i) p') (LFrame i fn_sempSpartnPreamble [b])
  else sempSpartnPreamble b p = Ok (false, p, []).
Proof.
  intros Hi Hwf Hm Hc. unfold sempSpartnPreamble. destruct (b =? 0x73); [|done].
  pose proof (overlapping_free i _ Hi eq_refl). pose proof (lwf_pad p Hwf).
  eexists. split; [reflexivity|]. split; [lwf_tac|]. split; [done|]. split; [done|]. split; [done|].
  split; [done|]. cbn [spartn_rel state with_type with_state scratchPad with_scratchPad length].
  split; [lia|]. split; [by pad_simpl|]. split; [|split]; lia.
Qed.
