(* ===== verification/LibSentence.v ===== *)
(** * What the refinements of the library's sentence parsers share

    The name array, the steps of a sentence and its end. *)
From S2P Require Import Prelude Crc ParseState MessageParser ParseNmea FrameSpec Sentences.
From S2P Require Import Representation LibParser LibFramework LibText LibSpec LibRep.

(** The routines on characters are those of the C port. *)
Lemma lib_asciiToNibble : sempAsciiToNibble = semp_util_asciiToNibble.
Proof. reflexivity. Qed.

(* ------------------------------------------------------------------ *)
(** ** The name array *)

Lemma lpad_array_set_ok o n k v p :
  (k < n)%nat ->
  pad_array_set o n (Z.of_nat k) v p =
    Ok (tt, with_scratchPad (put (Member (o + k) 1) v (scratchPad p)) p, []).
Proof.
  intros H. unfold pad_array_set.
  destruct ((0 <=? Z.of_nat k) && (Z.of_nat k <? Z.of_nat n)) eqn:E; [|lia]. by rewrite Nat2Z.id.
Qed.

(** The name of a sentence in the array and in the message. *)
Lemma before_comma_name name rest :
  Forall (fun c => name_character c = true) name -> before_comma (name ++ 0x2C :: rest) = name.
Proof.
  induction 1 as [|c name Hc _ IH]; [done|]. cbn. destruct (Z.eqb_spec c 0x2C) as [->|]; [done|]. by rewrite IH.
Qed.

Lemma sentence_named o sp sigil name body digits l :
  name_ok name -> named o sp name ->
  c_string (take 16 (drop o sp)) = Ok (before_comma (tail (flatten sigil (TSum name body digits) ++ l))).
Proof.
  intros Hn Hsp. rewrite (c_string_name _ _ name) by done. cbn. rewrite <-app_assoc. cbn.
  by rewrite before_comma_name by apply Hn.
Qed.

(* ------------------------------------------------------------------ *)
(** ** Steps *)

Section step.
  Context `{SU : LSetup} `{Plat : Platform}.

(** The next state of a sentence or a restart of the scan. *)
Definition ltext_target (i : nat) (k : PREAMBLE_ROUTINE) (sigil : Z) (t : text) (b : Z) :=
  match text_step lB (format k) sigil t b with
  | Some t' => Some (LSentence i k sigil t', [])
  | None => lscan ltable hands_back [] b
  end.

Lemma ltext_target_scan i k sigil t b :
  text_step lB (format k) sigil t b = None -> ltext_target i k sigil t b = lscan ltable hands_back [] b.
Proof. unfold ltext_target. by intros ->. Qed.

(** A routine that moves to the next part of the sentence. *)
Lemma lrefines_text {A} (m : P A) i k sigil t t' p b a q :
  lmessage p = flatten sigil t ++ [b] -> text_fits lB (format k) sigil t ->
  text_step lB (format k) sigil t b = Some t' ->
  m p = Ok (a, q, []) -> lwf q -> lmessage q = lmessage p ->
  type q = Z.of_nat i -> ltable !! i = Some k -> computeCrc q = None -> ltext_rel k None q t' ->
  lrefines m p (ltext_target i k sigil t b).
Proof.
  intros Hm Hok Hs Hp Hwf Hmq Ht Hi Hc Hr. unfold ltext_target. rewrite Hs.
  eapply lrefines_ok; [exact Hp| |done]. split; [done|].
  split; [by rewrite Hmq, (flatten_step _ _ _ _ _ _ Hs)|]. split_and!; try done.
  pose proof lB_range. eapply text_fits_step; [|done|done]. lia.
Qed.

End step.

(* ------------------------------------------------------------------ *)
(** ** Ends *)

Section ending.
  Context `{SU : LSetup} `{Plat : Platform} `{PS : !LPreambleSpec PT}.

(** CR, LF and a terminator after the message, then its delivery. *)
Abbreviation lsend_sentence :=
  (buffer_push 0x0D;; buffer_push 0x0A;;
   n <- gets msgLength;; buffer_set n 0;; call_eomCallback)%c.

Lemma lsend_sentence_ok p :
  lwf p -> msgLength p + 3 <= lB ->
  exists q, lsend_sentence p = Ok (tt, q, [EvEom leom q (type p)]) /\
            lwf q /\ lmessage q = lmessage p ++ [0x0D; 0x0A] /\ scratchPad q = scratchPad p.
Proof.
  intros Hwf Hl. pose proof (lwf_msgLength p Hwf). pose proof lB_range.
  pose proof (lwf_pushed 0x0D p Hwf ltac:(done) ltac:(lia)) as Hwf1.
  pose proof (lwf_pushed 0x0A (lpushed 0x0D p) Hwf1 ltac:(done) ltac:(cbn; lia)) as Hwf2.
  set (p2 := lpushed 0x0A (lpushed 0x0D p)) in *.
  assert (msgLength p2 = msgLength p + 2) as Hl2 by (cbn; lia).
  set (q := with_buffer (<[Z.to_nat (msgLength p2) := 0]> (buffer p2)) p2).
  assert (lwf q) as Hq.
  { apply lwf_with_buffer; [done|apply Forall_insert; [apply Hwf2|done]|by rewrite length_insert]. }
  exists q. split_and!; [|done| |done].
  - rewrite (bind_silent _ _ _ _ _ (lbuffer_push_ok 0x0D p Hwf ltac:(lia))).
    rewrite (bind_silent _ _ _ _ _ (lbuffer_push_ok 0x0A _ Hwf1 ltac:(cbn; lia))). fold p2.
    rewrite bind_gets. rewrite (bind_silent _ _ p2 tt q); [exact (lcall_eomCallback_ok q Hq)|].
    unfold buffer_set. rewrite bind_gets. unfold bind, lift, id.
    rewrite store_ok by (rewrite (lwf_buffer p2 Hwf2); lia). done.
  - transitivity (lmessage p2).
    + unfold lmessage, q. cbn [buffer msgLength with_buffer]. by rewrite take_insert_ge by lia.
    + unfold p2. rewrite !lmessage_pushed, <-app_assoc by (done || cbn; lia). done.
Qed.

Lemma lbuffer_push_oob v p : lwf p -> msgLength p = lB -> buffer_push v p = Ub OutOfBounds.
Proof.
  intros Hwf Hl. unfold buffer_push. run_monad. unfold buffer_set, bind, gets, lift, id. cbn.
  by rewrite store_oob by (rewrite (lwf_buffer p Hwf); lia).
Qed.

(** Without room for the three bytes, the last of them leaves the buffer. *)
Lemma lsend_sentence_oob p :
  lwf p -> lB < msgLength p + 3 -> lsend_sentence p = Ub OutOfBounds.
Proof.
  intros Hwf Hl. pose proof (lwf_msgLength p Hwf). pose proof lB_range.
  destruct (decide (msgLength p = lB)); [by apply bind_ub, lbuffer_push_oob|].
  rewrite (bind_silent _ _ _ _ _ (lbuffer_push_ok 0x0D p Hwf ltac:(lia))).
  pose proof (lwf_pushed 0x0D p Hwf ltac:(done) ltac:(lia)) as Hwf1.
  destruct (decide (msgLength p = lB - 1)); [apply bind_ub, lbuffer_push_oob; [done|cbn; lia]|].
  rewrite (bind_silent _ _ _ _ _ (lbuffer_push_ok 0x0A _ Hwf1 ltac:(cbn; lia))).
  pose proof (lwf_pushed 0x0A (lpushed 0x0D p) Hwf1 ltac:(done) ltac:(cbn; lia)) as Hwf2.
  rewrite bind_gets. apply bind_ub. unfold buffer_set. rewrite bind_gets. unfold bind, lift, id.
  by rewrite store_oob by (rewrite (lwf_buffer _ Hwf2); cbn; lia).
Qed.

(** A validation routine delivers what the end of the sentence outputs. *)
Definition lvalidated (r : res (unit * SEMP_PARSE_STATE * list Event)) (o : option items) : Prop :=
  match o with
  | Some out => exists q ev, r = Ok (tt, q, ev) /\ lwf q /\ ldelivered ev = out /\ Forall informed ev
  | None => r = Ub OutOfBounds
  end.

Definition lvalidates (m : P unit) (p : SEMP_PARSE_STATE) (o : option items) : Prop := lvalidated (m p) o.

Lemma lvalidates_scan m p o b :
  lvalidates m p o -> is_u8 b ->
  lrefines (m;; sempFirstByte b) p
    (match o with Some out => lscan ltable hands_back out b | None => None end).
Proof.
  intros Hv Hb. destruct o as [out|].
  - destruct Hv as (q & ev & Hm & Hq & <- & Hi). eapply lrefines_bind_scan; [exact Hm|exact Hi|].
    by apply lsempFirstByte_refines.
  - by apply bind_ub.
Qed.

Lemma lvalidates_end m p o :
  lvalidates m p o ->
  lrefines (m;; modify (with_state fn_sempFirstByte);; ret true) p
    (match o with Some out => Some (LScan, out) | None => None end).
Proof.
  intros Hv. destruct o as [out|].
  - destruct Hv as (q & ev & Hm & Hq & <- & Hi). eapply lrefines_tells.
    + rewrite (bind_ok _ _ _ _ _ _ Hm). reflexivity.
    + split; [lwf_tac|done].
    + by rewrite ldelivered_app, app_nil_r.
    + by apply Forall_app.
  - by apply bind_ub.
Qed.

(** The two ways a validation ends: without a call for a message, or with one. *)
Lemma lvalidated_silent q ev : lwf q -> ldelivered ev = [] -> lvalidated (Ok (tt, q, ev)) (Some []).
Proof. intros Hq Hev. exists q, ev. split_and!; try done. by apply silent_informed. Qed.

Lemma lvalidated_sent q ev type :
  lwf q -> ldelivered ev = [] -> informed (EvEom leom q type) ->
  lvalidated (Ok (tt, q, ev ++ [EvEom leom q type])) (Some [Msg type (lmessage q)]).
Proof.
  intros Hq Hev Hi. exists q, (ev ++ [EvEom leom q type]). rewrite ldelivered_app, Hev.
  split_and!; try done. apply Forall_app. split; [by apply silent_informed|by apply Forall_singleton].
Qed.

(** The terminator that [sempParseNextByte] stored is taken off again. *)
Definition lunpushed (p : SEMP_PARSE_STATE) : SEMP_PARSE_STATE :=
  with_msgLength (u16 (msgLength p - 1)) p.

Lemma lunpushed_ok p m b :
  lwf p -> lmessage p = m ++ [b] -> lwf (lunpushed p) /\ lmessage (lunpushed p) = m.
Proof.
  intros Hwf Hm. pose proof (length_lmessage p Hwf) as Hl. pose proof (lwf_msgLength p Hwf).
  pose proof lB_range. rewrite Hm, length_app in Hl. cbn in Hl. unfold lunpushed.
  rewrite u16_id by (unfold is_u16; lia). split; [apply lwf_with_msgLength; [done|lia]|].
  unfold lmessage in *. cbn. replace (take _ (buffer p)) with (take (length m) (m ++ [b])).
  - apply take_app_length.
  - rewrite <-Hm, firstn_firstn. f_equal. lia.
Qed.

(** The steps of a closed sentence. *)
Definition lclosed_target (i : nat) (k : PREAMBLE_ROUTINE) (sigil : Z) (t : text) (b : Z) :=
  if b =? 0x0D then Some (LEnding i k sigil t 0x0A, [])
  else if b =? 0x0A then Some (LEnding i k sigil t 0x0D, [])
  else match lfinish lB laccepts i k sigil t with Some out => lscan ltable hands_back out b | None => None end.

Definition lending_target (i : nat) (k : PREAMBLE_ROUTINE) (sigil : Z) (t : text) (expect b : Z) :=
  match lfinish lB laccepts i k sigil t with
  | Some out => if b =? expect then Some (LScan, out) else lscan ltable hands_back out b
  | None => None
  end.

(** A routine that takes a terminator off and lvalidates. *)
Lemma lending_refines validate i k sigil t expect p b :
  lwf p -> is_u8 b -> lmessage p = flatten sigil t ++ [b] ->
  lvalidates validate (lunpushed p) (lfinish lB laccepts i k sigil t) ->
  lrefines (n <- gets msgLength;; modify (with_msgLength (u16 (n - 1)));;
           if b =? expect then validate;; modify (with_state fn_sempFirstByte);; ret true
           else validate;; sempFirstByte b) p
    (lending_target i k sigil t expect b).
Proof.
  intros Hwf Hb Hm Hv. do 2 (eapply lrefines_bind; [reflexivity|done|]). fold (lunpushed p).
  unfold lending_target. destruct (b =? expect).
  - by apply lvalidates_end.
  - by apply lvalidates_scan.
Qed.

(** The bytes at the end of a message. *)
Lemma lbuffer_at_end p l s j v :
  lwf p -> lmessage p = l ++ s -> s !! j = Some v ->
  buffer_at (msgLength p - Z.of_nat (length s - j)) p = Ok (v, p, []).
Proof.
  intros Hwf Hm Hv. unfold buffer_at. rewrite bind_gets. unfold lift, id.
  by rewrite (lload_end p l s j _ v).
Qed.

(** A closed sentence ends in its digits. *)
Lemma lclosed_split (k : ParseState.PREAMBLE_ROUTINE) sigil name body digits p :
  lwf p -> lmessage p = flatten sigil (TSum name body digits) ->
  text_fits lB k sigil (TSum name body digits) ->
  exists l, lmessage p = l ++ digits /\ bytes digits /\
            Forall (fun b => is_Some (digit_value b)) digits.
Proof.
  intros Hwf Hm (_ & _ & _ & _ & Hd). exists (sigil :: name ++ 0x2C :: body ++ [0x2A]).
  assert (lmessage p = (sigil :: name ++ 0x2C :: body ++ [0x2A]) ++ digits) as Hs.
  { rewrite Hm. cbn. by rewrite <-app_assoc, <-app_comm_cons, <-app_assoc. }
  pose proof (lmessage_bytes p Hwf) as Hbs. rewrite Hs in Hbs. by apply Forall_app in Hbs as [].
Qed.

End ending.

(* ------------------------------------------------------------------ *)
(** ** Refinement of the library's NMEA parser

    Every NMEA routine of [LibText] takes the step of the machine. *)

Lemma lnmea_name_array : name_array nmea_sentenceName nmea_sentenceNameLength.
Proof. split; cbn; done || lia. Qed.

(** The characters of a name are those of the C port. *)
Lemma lib_invalid_name_character : invalid_name_character = ParseNmea.invalid_name_character.
Proof. reflexivity. Qed.

Section nmea_refine.
  Context `{SU : LSetup} `{Plat : Platform} `{PS : !LPreambleSpec PT}.
  Context (i : nat) (sigil : Z) (p : SEMP_PARSE_STATE) (b : Z).
  Context (Hwf : lwf p) (Hb : is_u8 b) (Htype : type p = Z.of_nat i)
    (Hi : ltable !! i = Some fn_sempNmeaPreamble) (Hnone : computeCrc p = None).
  Abbreviation target t := (ltext_target i fn_sempNmeaPreamble sigil t b).
  Abbreviation arrived t :=
    (lmessage p = flatten sigil t ++ [b] /\ text_fits lB ParseState.fn_sempNmeaPreamble sigil t).

Lemma lsempNmeaFindFirstComma_refines name :
  arrived (TName name) -> name_pad nmea_sentenceName nmea_sentenceNameLength (scratchPad p) name ->
  crc p = xor_all name -> state p = fn_sempNmeaFindFirstComma ->
  lrefines (sempNmeaFindFirstComma b) p (target (TName name)).
Proof.
  intros [Hm Hok] Hname Hcrc Hst. pose proof (lwf_pad p Hwf) as Hpad.
  pose proof (overlapping_free i _ Hi eq_refl).
  assert (is_u32 (Z.lxor (crc p) b)) as Hx by (apply lxor_u32; [apply Hwf|auto with width]).
  pose proof Hok as [Hlen _]. pose proof lnmea_name_array as Harr.
  unfold sempNmeaFindFirstComma. do 3 (eapply lrefines_bind; [reflexivity|done|]).
  set (q := with_crc _ p). assert (lwf q) as Hq by (unfold q; lwf_tac).
  pose proof Hname as [Hk _]. cbn [scratchPad with_crc q]. rewrite Hk, lib_invalid_name_character, invalid_name_character_spec by done.
  rewrite name_continues.
  destruct ((b =? 0x2C) && negb (bool_decide (name = []))) eqn:E; cbn [negb].
  - assert (text_step lB ParseState.fn_sempNmeaPreamble sigil (TName name) b = Some (TBody name [])) as Hstep
      by exact (text_step_comma _ _ _ _ _ E).
    assert (b = 0x2C) as Hb2 by lia.
    eapply lrefines_bind; [reflexivity|done|].
    eapply lrefines_bind; [apply lpad_array_set_ok; unfold SEMP_NMEA_SENTENCE_NAME_BYTES; lia|done|].
    pose proof (name_room _ _ Harr (length name) ltac:(lia)).
    eapply lrefines_text; [done|done|exact Hstep|reflexivity|lwf_tac|done..|].
    constructor.
    + apply (name_pad_close _ _ Harr); [pad_tac|done|].
      cbn [scratchPad with_scratchPad q with_crc]. rewrite (name_kept _ _ Harr) by (done || lia). apply Hname.
    + cbn. by rewrite xor_all_app, Hcrc, Hb2.
  - destruct (negb (name_character b)) eqn:E2.
    { rewrite ltext_target_scan by exact (text_step_stray _ _ _ _ _ E E2).
      do 2 (eapply lrefines_bind; [reflexivity|done|]). by apply lprint_scan_refines. }
    change (Z.of_nat SEMP_NMEA_SENTENCE_NAME_BYTES - 1) with 15.
    destruct (Z.of_nat (length name) =? 15) eqn:E3.
    { rewrite ltext_target_scan by exact (text_step_long _ _ _ _ _ E E3).
      do 2 (eapply lrefines_bind; [reflexivity|done|]). by apply lprint_scan_refines. }
    assert (length name < 15)%nat by lia.
    assert (text_step lB ParseState.fn_sempNmeaPreamble sigil (TName name) b = Some (TName (name ++ [b])))
      by exact (text_step_name _ _ _ _ _ E E2 E3).
    eapply lrefines_bind; [reflexivity|done|].
    eapply lrefines_bind; [apply lpad_array_set_ok; unfold SEMP_NMEA_SENTENCE_NAME_BYTES; lia|done|].
    pose proof (name_room _ _ Harr (length name) ltac:(lia)).
    eapply lrefines_text; [done|done|eassumption|reflexivity|lwf_tac|done..|].
    cbn [ltext_rel state with_scratchPad q with_crc]. rewrite Hst. constructor.
    + exact (name_pad_push _ _ Harr _ name _ Hpad Hb ltac:(lia) Hname).
    + cbn. by rewrite xor_all_app, Hcrc.
Qed.

Lemma lsempNmeaFindAsterisk_refines name body :
  arrived (TBody name body) -> named nmea_sentenceName (scratchPad p) name ->
  crc p = xor_all (name ++ 0x2C :: body) -> state p = fn_sempNmeaFindAsterisk ->
  lrefines (sempNmeaFindAsterisk b) p (target (TBody name body)).
Proof.
  intros [Hm Hok] Hterm Hcrc Hst.
  assert (is_u32 (Z.lxor (crc p) b)) as Hx by (apply lxor_u32; [apply Hwf|auto with width]).
  unfold sempNmeaFindAsterisk. destruct (b =? 0x2A) eqn:E.
  - eapply lrefines_text; [done|done|cbn -[flatten]; by rewrite E|reflexivity|lwf_tac|done..|].
    by constructor.
  - do 4 (eapply lrefines_bind; [reflexivity|done|]).
    pose proof (length_lmessage p Hwf) as Hlen. pose proof (lwf_msgLength p Hwf). pose proof lB_range.
    assert (flatten sigil (TBody name body) ++ [b] = flatten sigil (TBody name (body ++ [b]))) as Hf
      by (cbn; by rewrite <-app_assoc).
    rewrite Hm, Hf in Hlen. cbn [bufferLength msgLength with_crc].
    rewrite (lwf_bufferLength p Hwf), u32_id by (unfold is_u32, NMEA_BUFFER_OVERHEAD; lia).
    rewrite <-Hlen. change NMEA_BUFFER_OVERHEAD with (sentence_overhead ParseState.fn_sempNmeaPreamble).
    destruct (lB <? _) eqn:E2.
    + rewrite ltext_target_scan by (cbn [text_step format]; by rewrite E, E2).
      do 2 (eapply lrefines_bind; [reflexivity|done|]). apply lprint_scan_refines; [lwf_tac|done|done].
    + eapply lrefines_text; [done|done|cbn [text_step format]; by rewrite E, E2|reflexivity|lwf_tac|done..|].
      cbn [ltext_rel state with_crc]. rewrite Hst. constructor; [done|].
      cbn. by rewrite app_comm_cons, app_assoc, xor_all_app, Hcrc.
Qed.

(** The last byte received is the one that is looked at. *)
Lemma lnmea_last t : arrived t -> buffer_at (msgLength p - 1) p = Ok (b, p, []).
Proof.
  intros [Hm _]. exact (lbuffer_at_end p (flatten sigil t) [b] 0 b Hwf Hm eq_refl).
Qed.

Lemma lsempNmeaChecksumByte1_refines name body :
  arrived (TSum name body []) -> named nmea_sentenceName (scratchPad p) name ->
  crc p = xor_all (name ++ 0x2C :: body) ->
  lrefines (sempNmeaChecksumByte1 b) p (target (TSum name body [])).
Proof.
  intros Harr Hterm Hcrc. pose proof Harr as [Hm Hok]. unfold sempNmeaChecksumByte1.
  eapply lrefines_bind; [reflexivity|done|]. eapply lrefines_bind; [by eapply lnmea_last|done|].
  rewrite lib_asciiToNibble, asciiToNibble_nonneg by done. destruct (digit_value b) as [v|] eqn:E; cbn -[flatten].
  - eapply lrefines_text; [done|done|cbn; by rewrite E|reflexivity|lwf_tac|done..|]. by constructor.
  - rewrite ltext_target_scan by (cbn; by rewrite E).
    do 2 (eapply lrefines_bind; [reflexivity|done|]). by apply lprint_scan_refines.
Qed.

Lemma lsempNmeaChecksumByte2_refines name body d1 :
  arrived (TSum name body [d1]) -> named nmea_sentenceName (scratchPad p) name ->
  crc p = xor_all (name ++ 0x2C :: body) ->
  lrefines (sempNmeaChecksumByte2 b) p (target (TSum name body [d1])).
Proof.
  intros Harr Hterm Hcrc. pose proof Harr as [Hm Hok]. unfold sempNmeaChecksumByte2.
  eapply lrefines_bind; [reflexivity|done|]. eapply lrefines_bind; [by eapply lnmea_last|done|].
  rewrite lib_asciiToNibble, asciiToNibble_nonneg by done. destruct (digit_value b) as [v|] eqn:E; cbn -[flatten].
  - eapply lrefines_text; [done|done|cbn; by rewrite E|reflexivity|lwf_tac|done..|].
    by apply (lnmea_closed _ _ None).
  - rewrite ltext_target_scan by (cbn; by rewrite E).
    do 2 (eapply lrefines_bind; [reflexivity|done|]). by apply lprint_scan_refines.
Qed.

Section lnmea_end.
  Context (name body : list Z) (d1 d2 : Z).
  Abbreviation t := (TSum name body [d1; d2]).
  Context (Harr : arrived t) (Hterm : named nmea_sentenceName (scratchPad p) name)
    (Hcrc : crc p = xor_all (name ++ 0x2C :: body)).

Lemma lnmea_fits : Z.of_nat (length (flatten sigil t)) + 3 <= lB.
Proof.
  destruct Harr as [_ (_ & _ & _ & Hlen & _)]. cbn in *. rewrite length_app in *. cbn in *.
  rewrite length_app. cbn. lia.
Qed.

Lemma lsempNmeaValidateChecksum_validates :
  lvalidates sempNmeaValidateChecksum (lunpushed p) (lfinish lB laccepts i fn_sempNmeaPreamble sigil t).
Proof.
  destruct Harr as [Hm Hok]. destruct (lunpushed_ok p _ _ Hwf Hm) as [Hq Hmq].
  set (q := lunpushed p) in *. pose proof lnmea_fits as Hfits.
  pose proof (length_lmessage q Hq) as Hlen. rewrite Hmq in Hlen.
  destruct (lclosed_split _ _ _ _ _ q Hq Hmq Hok) as (l & Hl & Hb12 & Hd12).
  apply Forall_cons_1 in Hb12 as [Hb1 [Hb2 _]%Forall_cons_1].
  apply Forall_cons_1 in Hd12 as [Hd1 [Hd2 _]%Forall_cons_1].
  pose proof (lbuffer_at_end q l _ 0 d1 Hq Hl eq_refl) as Hat1.
  pose proof (lbuffer_at_end q l _ 1 d2 Hq Hl eq_refl) as Hat2.
  change (Z.of_nat _) with 2 in Hat1. change (Z.of_nat _) with 1 in Hat2.
  destruct (two_digits d1 d2 Hb1 Hb2 Hd1 Hd2) as [Hneg Hval]. rewrite <-lib_asciiToNibble in Hneg, Hval.
  assert (lfinish lB laccepts i fn_sempNmeaPreamble sigil t =
    Some (if (digits_value [d1; d2] =? crc q) || laccepts (type q) (lmessage q)
          then [Msg (type q) (lmessage q ++ [0x0D; 0x0A])] else [])) as ->.
  { change (crc q) with (crc p). change (type q) with (type p).
    rewrite Hcrc, Hmq, Htype. cbn -[flatten digits_value xor_all].
    destruct (_ || _); [|done]. by destruct (_ <=? lB) eqn:E; [|lia]. }
  destruct (lcheck_ok (digits_value [d1; d2] =? crc q) q Hq) as (ev & Hchk & Hev).
  unfold lvalidates, sempNmeaValidateChecksum.
  rewrite bind_gets, (bind_silent _ _ _ _ _ Hat1). unfold shift_left_int. rewrite Hneg.
  rewrite bind_ret, (bind_silent _ _ _ _ _ Hat2), bind_gets, Hval, (bind_ok _ _ _ _ _ _ Hchk).
  destruct (_ || _).
  - destruct (lsend_sentence_ok q Hq) as (q' & Hs & Hq' & Hmq' & Hsp); [lia|]. rewrite Hs, <-Hmq'.
    apply lvalidated_sent; [done|done|]. cbn. intros k. change (type q) with (type p).
    rewrite Htype, Nat2Z.id, Hi. intros [= <-]. rewrite Hsp, Hmq', Hmq.
    apply (sentence_named nmea_sentenceName); [apply Hok|exact Hterm].
  - run_monad. destruct (lsempPrintf_ok (printDebug q)
      "SEMP: %s NMEA %s, 0x%04x (%d) bytes, bad checksum, received 0x%c%c, computed: 0x%02x"
      [AStr (parserName q); AChars (pad_array nmea_sentenceName SEMP_NMEA_SENTENCE_NAME_BYTES q);
       AInt (msgLength q); AInt (msgLength q); AInt d1; AInt d2; AInt (crc q)] q) as (ev' & Hp & Hev').
    { cbn -[existsb]. rewrite andb_true_r. apply (closed_terminated nmea_sentenceName _ name); [apply Hok|exact Hterm]. }
    rewrite Hp. apply lvalidated_silent; [done|]. by rewrite ldelivered_app, Hev.
Qed.

Lemma lsempNmeaLineTermination_refines :
  lrefines (sempNmeaLineTermination b) p (lclosed_target i fn_sempNmeaPreamble sigil t b).
Proof.
  pose proof Harr as [Hm Hok]. destruct (lunpushed_ok p _ _ Hwf Hm) as [Hq Hmq].
  unfold sempNmeaLineTermination, lclosed_target.
  do 2 (eapply lrefines_bind; [reflexivity|done|]). fold (lunpushed p).
  destruct (b =? 0x0D); [|destruct (b =? 0x0A)].
  - eapply lrefines_ok; [reflexivity| |done]. split; [by apply lwf_with_state|].
    split_and!; try done; [|by left]. by apply (lnmea_closed _ _ (Some 0x0A)).
  - eapply lrefines_ok; [reflexivity| |done]. split; [by apply lwf_with_state|].
    split_and!; try done; [|by right]. by apply (lnmea_closed _ _ (Some 0x0D)).
  - apply lvalidates_scan; [apply lsempNmeaValidateChecksum_validates|done].
Qed.

Lemma lsempNmeaLineFeed_refines :
  lrefines (sempNmeaLineFeed b) p (lending_target i fn_sempNmeaPreamble sigil t 0x0A b).
Proof. eapply lending_refines; [done|done|apply Harr|apply lsempNmeaValidateChecksum_validates]. Qed.

Lemma lsempNmeaCarriageReturn_refines :
  lrefines (sempNmeaCarriageReturn b) p (lending_target i fn_sempNmeaPreamble sigil t 0x0D b).
Proof. eapply lending_refines; [done|done|apply Harr|apply lsempNmeaValidateChecksum_validates]. Qed.

End lnmea_end.
End nmea_refine.

Lemma lsempNmeaPreamble_spec `{SU : LSetup} `{Plat : Platform} i p b :
  ltable !! i = Some fn_sempNmeaPreamble ->
  lwf p -> lmessage p = [b] -> computeCrc p = None -> crc p = 0 ->
  if b =? 0x24
  then exists p', sempNmeaPreamble b p = Ok (true, p', []) /\
                  LR (with_type (Z.of_nat i) p') (LSentence i fn_sempNmeaPreamble b (TName []))
  else sempNmeaPreamble b p = Ok (false, p, []).
Proof.
  intros Hi Hwf Hm Hn Hc. unfold sempNmeaPreamble. destruct (b =? 0x24); cbn [negb]; [|done].
  pose proof (lwf_pad p Hwf). pose proof (overlapping_free i _ Hi eq_refl).
  eexists. split; [reflexivity|]. split; [lwf_tac|]. split_and!; try done.
  - split; [cbn; lia|done].
  - constructor; [|done]. split; [cbn; by pad_simpl|done].
Qed.
