(* ===== verification/LibHash.v ===== *)
(** * Refinement of the library's Unicore hash parser

    Every Unicore hash routine of [LibText] takes the step of the machine. *)
From S2P Require Import Prelude Crc ParseState MessageParser ParseNmea ParseUnicoreHash FrameSpec.
From S2P Require Import Sentences Representation HashRefine LibParser LibFramework LibCrc.
From S2P Require Import LibCrcTheorems LibText LibSpec LibRep LibSentence.

Lemma lhash_name_array : name_array unicoreHash_sentenceName unicoreHash_sentenceNameLength.
Proof. split; cbn; done || lia. Qed.

(** The search is the one of the C port. *)
Lemma lstrstr_MODE name : strstr name str_MODE = contains_MODEb name.
Proof. exact (strstr_MODE name). Qed.

(** ** The CRC over the buffer *)

(** The loop from index [i] over the bytes [l], which end before an asterisk. *)
Lemma lunicore_hash_crc_loop_ok p l d rest fuel i c :
  (forall j v, (d :: l ++ 0x2A :: rest) !! j = Some v -> buffer_at (i + Z.of_nat j) p = Ok (v, p, [])) ->
  Forall (fun b => b <> 0x2A) l -> (length l < fuel)%nat ->
  unicore_hash_crc_loop fuel i c p
    = Ok ((crc32_run c (d :: l), i + Z.of_nat (S (length l))), p, []).
Proof.
  revert d fuel i c. induction l as [|d' l IH]; intros d fuel i c Hat Hl Hf;
    (destruct fuel as [|fuel]; [cbn in Hf; lia|]); cbn [unicore_hash_crc_loop].
  - rewrite (bind_silent _ _ _ d p) by (rewrite <-(Z.add_0_r i); by apply (Hat 0%nat)).
    rewrite (bind_silent _ _ _ 0x2A p) by by apply (Hat 1%nat). done.
  - apply Forall_cons_1 in Hl as [Hd' Hl].
    rewrite (bind_silent _ _ _ d p) by (rewrite <-(Z.add_0_r i); by apply (Hat 0%nat)).
    rewrite (bind_silent _ _ _ d' p) by by apply (Hat 1%nat).
    destruct (Z.eqb_spec d' 0x2A); [done|]. rewrite (IH d').
    + cbn. do 4 f_equal. lia.
    + intros j v Hj. replace (i + 1 + Z.of_nat j) with (i + Z.of_nat (S j)) by lia. by apply Hat.
    + done.
    + cbn in Hf. lia.
Qed.

(** The shifts of the digits before the last of [k + 1]. *)
Fixpoint shifts_of (k : nat) : list Z :=
  match k with O => [] | S k' => 4 * Z.of_nat k :: shifts_of k' end.

(** The digits fill the value from the top. *)
Lemma lunicore_hash_read_crc_ok p k l i a :
  (forall j v, l !! j = Some v -> buffer_at (i + Z.of_nat j) p = Ok (v, p, [])) ->
  bytes l -> Forall (fun b => is_Some (digit_value b)) l -> length l = S k ->
  0 <= a -> (a + 1) * 16 ^ Z.of_nat (S k) <= 2 ^ 32 ->
  unicore_hash_read_crc (shifts_of k) i (a * 16 ^ Z.of_nat (S k)) p
    = Ok (foldl (fun v b => 16 * v + default 0 (digit_value b)) a l, p, []).
Proof.
  revert l i a. induction k as [|k IH]; intros [|d l] i a Hat Hb Hd Hl Ha Hmax; try done;
    apply Forall_cons_1 in Hb as [Hb Hbs]; apply Forall_cons_1 in Hd as [[v Hv] Hds];
    pose proof (digit_value_range _ _ Hv); cbn [shifts_of unicore_hash_read_crc foldl];
    rewrite (bind_silent _ _ _ d p) by (rewrite <-(Z.add_0_r i); by apply (Hat 0%nat));
    rewrite lib_asciiToNibble, asciiToNibble_spec, Hv by done; cbn [default from_option id].
  - destruct l; [|done]. change (16 ^ Z.of_nat 1) with 16 in *. cbn [foldl].
    replace (a * 16) with (Z.shiftl a 4) by (rewrite Z.shiftl_mul_pow2; lia).
    rewrite (u32_id v), Z.lor_comm, lor_shiftl_add, u32_id by (unfold is_u32; lia).
    unfold ret. do 3 f_equal. lia.
  - rewrite (Nat2Z.inj_succ (S k)), Z.pow_succ_r in * by lia. set (w := 16 ^ Z.of_nat (S k)) in *.
    assert (1 <= w) by (unfold w; pose proof (Z.pow_pos_nonneg 16 (Z.of_nat (S k))); lia).
    assert (w = 2 ^ (4 * Z.of_nat (S k))) as Hw by (unfold w; by rewrite Z.pow_mul_r by lia).
    assert (a * (16 * w) = Z.shiftl a (4 + 4 * Z.of_nat (S k))) as Hs.
    { rewrite Z.shiftl_mul_pow2, Z.pow_add_r, <-Hw by lia. lia. }
    unfold shift_left_int. destruct (v <? 0) eqn:E; [lia|]. rewrite bind_ret.
    rewrite Z.shiftl_mul_pow2, <-Hw by lia.
    assert (u32 (Z.lor (a * (16 * w)) (u32 (v * w))) = (16 * a + v) * w) as ->.
    { rewrite (u32_id (v * w)) by (unfold is_u32; nia). rewrite Hs, Z.lor_comm, lor_shiftl_add.
      - rewrite Z.pow_add_r, <-Hw by lia. rewrite u32_id; [lia|]. unfold is_u32. nia.
      - lia.
      - rewrite Z.pow_add_r, <-Hw by lia. nia. }
    apply IH; [|done|done|by injection Hl|lia|nia].
    intros j w' Hj. replace (i + 1 + Z.of_nat j) with (i + Z.of_nat (S j)) by lia. by apply Hat.
Qed.

(** ** The states *)

Section hash_refine.
  Context `{SU : LSetup} `{Plat : Platform} `{PS : !LPreambleSpec PT}.
  Context (i : nat) (sigil : Z) (p : SEMP_PARSE_STATE) (b : Z).
  Context (Hwf : lwf p) (Hb : is_u8 b) (Htype : type p = Z.of_nat i)
    (Hi : ltable !! i = Some fn_sempUnicoreHashPreamble) (Hnone : computeCrc p = None).
  Abbreviation K := fn_sempUnicoreHashPreamble.
  Abbreviation target t := (ltext_target i K sigil t b).
  Abbreviation arrived t := (lmessage p = flatten sigil t ++ [b] /\ text_fits lB (format K) sigil t).

(** The comma closes the name and fixes the number of check digits. *)
Lemma lhash_comma name :
  arrived (TName name) ->
  name_pad unicoreHash_sentenceName unicoreHash_sentenceNameLength (scratchPad p) name ->
  crc p = xor_all name -> (b =? 0x2C) && negb (bool_decide (name = [])) = true ->
  lrefines
    (pad_set unicoreHash_sentenceNameLength (u8 (Z.of_nat (length name) + 1));;
     pad_array_set unicoreHash_sentenceName SEMP_UNICORE_HASH_SENTENCE_NAME_BYTES (Z.of_nat (length name)) 0;;
     pad_set unicoreHash_checksumBytes 8;;
     chars <- gets (pad_array unicoreHash_sentenceName SEMP_UNICORE_HASH_SENTENCE_NAME_BYTES);;
     name <- lift (c_string chars);;
     when (strstr name str_MODE) (pad_set unicoreHash_checksumBytes 2);;
     modify (with_state fn_sempUnicoreHashFindAsterisk);;
     ret true) (with_crc (Z.lxor (crc p) b) p) (target (TName name)).
Proof.
  intros [Hm Hok] Hname Hcrc E. pose proof (lwf_pad p Hwf) as Hpad.
  pose proof (overlapping_free i _ Hi eq_refl). pose proof Hok as [Hlen _]. pose proof lhash_name_array as Harr.
  assert (is_u32 (Z.lxor (crc p) b)) as Hx by (apply lxor_u32; [apply Hwf|auto with width]).
  assert (text_step lB (format K) sigil (TName name) b = Some (TBody name [])) as Hstep
    by exact (text_step_comma _ _ _ _ _ E).
  assert (b = 0x2C) as Hb2 by lia. pose proof (name_room _ _ Harr (length name) ltac:(lia)) as Hroom.
  eapply lrefines_bind; [reflexivity|done|].
  eapply lrefines_bind;
    [apply lpad_array_set_ok; unfold SEMP_UNICORE_HASH_SENTENCE_NAME_BYTES; lia|done|].
  do 2 (eapply lrefines_bind; [reflexivity|done|]). cbn [scratchPad with_scratchPad with_crc].
  set (sp := put unicoreHash_checksumBytes 8 _).
  assert (pad_ok sp) as Hsp by (unfold sp; pad_tac).
  assert (named unicoreHash_sentenceName sp name) as Hclose.
  { unfold sp, named. rewrite drop_put_below; [|pad_tac|done|unfold unicoreHash_sentenceName; cbn; lia].
    apply (name_pad_close _ _ Harr); [pad_tac|done|].
    rewrite (name_kept _ _ Harr) by (done || lia). apply Hname. }
  eapply lrefines_bind;
    [unfold lift, pad_array; cbn [scratchPad with_scratchPad]; erewrite c_string_name;
       [reflexivity|done|exact Hclose]|done|].
  rewrite lstrstr_MODE. destruct (contains_MODEb name) eqn:Emode; cbn [when].
  all: eapply lrefines_text; [done|done|exact Hstep|reflexivity|lwf_tac|done..|].
  all: constructor; [| |cbn; by rewrite xor_all_app, Hcrc, Hb2].
  - unfold named. cbn [scratchPad with_scratchPad with_state].
    rewrite drop_put_below; [exact Hclose|done|done|unfold unicoreHash_sentenceName; cbn; lia].
  - cbn [scratchPad with_scratchPad with_state]. pad_simpl. unfold hash_digits, check_digits. by rewrite Emode.
  - exact Hclose.
  - cbn [scratchPad with_scratchPad with_state]. unfold sp. pad_simpl. unfold hash_digits, check_digits. by rewrite Emode.
Qed.

Lemma lsempUnicoreHashFindFirstComma_refines name :
  arrived (TName name) ->
  name_pad unicoreHash_sentenceName unicoreHash_sentenceNameLength (scratchPad p) name ->
  crc p = xor_all name -> state p = fn_sempUnicoreHashFindFirstComma ->
  lrefines (sempUnicoreHashFindFirstComma b) p (target (TName name)).
Proof.
  intros [Hm Hok] Hname Hcrc Hst. pose proof (lwf_pad p Hwf) as Hpad.
  pose proof (overlapping_free i _ Hi eq_refl).
  assert (is_u32 (Z.lxor (crc p) b)) as Hx by (apply lxor_u32; [apply Hwf|auto with width]).
  pose proof Hok as [Hlen _]. pose proof lhash_name_array as Harr.
  unfold sempUnicoreHashFindFirstComma. do 3 (eapply lrefines_bind; [reflexivity|done|]).
  set (q := with_crc _ p). assert (lwf q) as Hq by (unfold q; lwf_tac).
  pose proof Hname as [Hk _]. cbn [scratchPad with_crc q]. rewrite Hk, lib_invalid_name_character, invalid_name_character_spec by done.
  rewrite name_continues.
  destruct ((b =? 0x2C) && negb (bool_decide (name = []))) eqn:E; cbn [negb].
  - by apply lhash_comma.
  - destruct (negb (name_character b)) eqn:E2.
    { rewrite ltext_target_scan by exact (text_step_stray _ _ _ _ _ E E2).
      do 2 (eapply lrefines_bind; [reflexivity|done|]). by apply lprint_scan_refines. }
    change (Z.of_nat SEMP_UNICORE_HASH_SENTENCE_NAME_BYTES - 1) with 15.
    destruct (Z.of_nat (length name) =? 15) eqn:E3.
    { rewrite ltext_target_scan by exact (text_step_long _ _ _ _ _ E E3).
      do 2 (eapply lrefines_bind; [reflexivity|done|]). by apply lprint_scan_refines. }
    assert (length name < 15)%nat by lia.
    assert (text_step lB (format K) sigil (TName name) b = Some (TName (name ++ [b])))
      by exact (text_step_name _ _ _ _ _ E E2 E3).
    eapply lrefines_bind; [reflexivity|done|].
    eapply lrefines_bind;
      [apply lpad_array_set_ok; unfold SEMP_UNICORE_HASH_SENTENCE_NAME_BYTES; lia|done|].
    pose proof (name_room _ _ Harr (length name) ltac:(lia)).
    eapply lrefines_text; [done|done|eassumption|reflexivity|lwf_tac|done..|].
    cbn [ltext_rel state with_scratchPad q with_crc]. rewrite Hst. constructor.
    + exact (name_pad_push _ _ Harr _ name _ Hpad Hb ltac:(lia) Hname).
    + cbn. by rewrite xor_all_app, Hcrc.
Qed.

Lemma lsempUnicoreHashFindAsterisk_refines name body :
  arrived (TBody name body) -> named unicoreHash_sentenceName (scratchPad p) name ->
  get unicoreHash_checksumBytes (scratchPad p) = Z.of_nat (hash_digits name) ->
  crc p = xor_all (name ++ 0x2C :: body) -> state p = fn_sempUnicoreHashFindAsterisk ->
  lrefines (sempUnicoreHashFindAsterisk b) p (target (TBody name body)).
Proof.
  intros [Hm Hok] Hterm Hn Hcrc Hst. pose proof (lwf_pad p Hwf) as Hpad.
  pose proof (overlapping_free i _ Hi eq_refl).
  assert (is_u32 (Z.lxor (crc p) b)) as Hx by (apply lxor_u32; [apply Hwf|auto with width]).
  unfold sempUnicoreHashFindAsterisk. destruct (b =? 0x2A) eqn:E.
  - eapply lrefines_text; [done|done|cbn -[flatten]; by rewrite E|reflexivity|lwf_tac|done..|].
    assert (0 < hash_digits name <= 8)%nat
      by (unfold hash_digits, check_digits; destruct (contains_MODEb name); lia).
    constructor; cbn; pad_simpl; try done.
    + unfold named. by rewrite drop_put_below by (done || (unfold unicoreHash_sentenceName; cbn; lia)).
    + rewrite Hn, Nat.sub_0_r. apply Z.mod_small. change (256 ^ _) with 256. lia.
    + cbn. lia.
  - do 4 (eapply lrefines_bind; [reflexivity|done|]).
    pose proof (length_lmessage p Hwf) as Hlen. pose proof (lwf_msgLength p Hwf). pose proof lB_range.
    assert (flatten sigil (TBody name body) ++ [b] = flatten sigil (TBody name (body ++ [b]))) as Hf
      by (cbn; by rewrite <-app_assoc).
    rewrite Hm, Hf in Hlen. cbn [bufferLength msgLength with_crc].
    rewrite (lwf_bufferLength p Hwf), u32_id by (unfold is_u32, UNICORE_HASH_BUFFER_OVERHEAD; lia).
    rewrite <-Hlen. change UNICORE_HASH_BUFFER_OVERHEAD with (sentence_overhead (format K)).
    destruct (lB <? _) eqn:E2.
    + rewrite ltext_target_scan by (cbn [text_step]; by rewrite E, E2).
      do 2 (eapply lrefines_bind; [reflexivity|done|]). apply lprint_scan_refines; [lwf_tac|done|done].
    + eapply lrefines_text; [done|done|cbn [text_step]; by rewrite E, E2|reflexivity|lwf_tac|done..|].
      cbn [ltext_rel state with_crc]. rewrite Hst. constructor; [done|done|].
      cbn. by rewrite app_comm_cons, app_assoc, xor_all_app, Hcrc.
Qed.

Lemma lsempUnicoreHashChecksumByte_refines name body digits :
  arrived (TSum name body digits) -> named unicoreHash_sentenceName (scratchPad p) name ->
  get unicoreHash_checksumBytes (scratchPad p) = Z.of_nat (hash_digits name) ->
  get unicoreHash_bytesRemaining (scratchPad p) = Z.of_nat (hash_digits name - length digits) ->
  (length digits < hash_digits name)%nat ->
  crc p = xor_all (name ++ 0x2C :: body) -> state p = fn_sempUnicoreHashChecksumByte ->
  lrefines (sempUnicoreHashChecksumByte b) p (target (TSum name body digits)).
Proof.
  intros [Hm Hok] Hterm Hn Hr Hlt Hcrc Hst. pose proof (lwf_pad p Hwf) as Hpad.
  pose proof (overlapping_free i _ Hi eq_refl).
  assert (hash_digits name <= 8)%nat as Hmax
    by (unfold hash_digits, check_digits; destruct (contains_MODEb name); lia).
  unfold sempUnicoreHashChecksumByte. do 3 (eapply lrefines_bind; [reflexivity|done|]).
  cbn [scratchPad]. rewrite Hr. set (n := u8 _).
  assert (n = Z.of_nat (hash_digits name - length (digits ++ [b]))) as Hn'.
  { unfold n. rewrite length_app. cbn. rewrite u8_id; unfold is_u8; lia. }
  set (q := with_scratchPad _ p). assert (lwf q) as Hq by (unfold q; lwf_tac).
  assert (named unicoreHash_sentenceName (scratchPad q) name) as Htq.
  { unfold q, named. cbn [scratchPad with_scratchPad].
    by rewrite drop_put_below by (done || (unfold unicoreHash_sentenceName; cbn; lia)). }
  assert (get unicoreHash_bytesRemaining (scratchPad q) = n) as Hrq.
  { unfold q. cbn [scratchPad with_scratchPad]. pad_simpl. rewrite Hn'. apply Z.mod_small. cbn. lia. }
  assert (get unicoreHash_checksumBytes (scratchPad q) = Z.of_nat (hash_digits name)) as Hcq.
  { unfold q. cbn [scratchPad with_scratchPad]. by pad_simpl. }
  eapply lrefines_bind; [exact (lbuffer_at_end q (flatten sigil _) [b] 0 b Hq Hm eq_refl)|done|].
  pose proof (asciiToNibble_nonneg b Hb) as Hnn. rewrite <-lib_asciiToNibble in Hnn.
  destruct (digit_value b) as [v|] eqn:E; cbn in Hnn.
  - destruct (_ <? 0) eqn:E2; [lia|]. eapply lrefines_bind; [reflexivity|done|]. rewrite Hrq, Hn'.
    destruct (Z.of_nat _ =? 0) eqn:E3; cbn [when].
    + eapply lrefines_text; [done|done|cbn; by rewrite E|reflexivity|lwf_tac|done..|].
      apply (lhash_closed _ _ None); try done. rewrite length_app in *. cbn in *. lia.
    + eapply lrefines_text; [done|done|cbn; by rewrite E|reflexivity|lwf_tac|done..|].
      cbn [ltext_rel q state with_scratchPad]. rewrite Hst.
      apply lhash_sum; try done; [by rewrite Hrq, Hn'|]. lia.
  - destruct (_ <? 0) eqn:E2; [|lia]. rewrite ltext_target_scan by (cbn; by rewrite E).
    do 4 (eapply lrefines_bind; [reflexivity|done|]). by apply lprint_scan_refines.
Qed.

Section hash_finish.
  Context (name body digits : list Z).
  Abbreviation t := (TSum name body digits).
  Context (Harr : arrived t) (Hterm : named unicoreHash_sentenceName (scratchPad p) name)
    (Hn : get unicoreHash_checksumBytes (scratchPad p) = Z.of_nat (hash_digits name))
    (Hdigits : length digits = hash_digits name)
    (Hcrc : crc p = xor_all (name ++ 0x2C :: body)).
  Abbreviation q := (lunpushed p).
  Abbreviation result := (lfinish lB laccepts i K sigil t).

(** The name in a debug print is terminated. *)
Lemma lhash_print_ok format args :
  forallb printable args = true ->
  exists ev, sempPrintf (printDebug q) format
      (AStr (parserName q) ::
       AChars (pad_array unicoreHash_sentenceName SEMP_UNICORE_HASH_SENTENCE_NAME_BYTES q) :: args) q
    = Ok (tt, q, ev) /\ ldelivered ev = [].
Proof.
  intros Ha. apply lsempPrintf_ok. change (existsb (Z.eqb 0)
    (pad_array unicoreHash_sentenceName SEMP_UNICORE_HASH_SENTENCE_NAME_BYTES q)
    && forallb printable args = true). rewrite Ha, andb_true_r.
  apply (closed_terminated unicoreHash_sentenceName _ name); [apply Harr|exact Hterm].
Qed.

(** The structure of the message's call holds the name of the sentence. *)
Lemma lhash_informed q' :
  scratchPad q' = scratchPad p -> lmessage q' = lmessage q ++ [0x0D; 0x0A] -> informed (EvEom leom q' (type q)).
Proof.
  intros Hsp Hmq'. pose proof Harr as [Hm Hok]. destruct (lunpushed_ok p _ _ Hwf Hm) as [_ Hmq].
  cbn. intros k. change (type q) with (type p). rewrite Htype, Nat2Z.id, Hi. intros [= <-].
  rewrite Hsp, Hmq', Hmq. apply (sentence_named unicoreHash_sentenceName); [apply Hok|exact Hterm].
Qed.

Lemma lhash_content_ok : Forall (fun b => b <> 0x2A) (name ++ 0x2C :: body).
Proof.
  destruct Harr as [_ ((_ & Hname) & _ & Hbody & _)]. apply Forall_app. split.
  - eapply Forall_impl; [exact Hname|]. by intros c Hc ->.
  - by constructor.
Qed.

(** The bytes of the sentence from its second on. *)
Lemma lhash_at j v :
  (name ++ 0x2C :: body ++ 0x2A :: digits) !! j = Some v ->
  buffer_at (1 + Z.of_nat j) q = Ok (v, q, []).
Proof.
  intros Hv. pose proof Harr as [Hm _]. destruct (lunpushed_ok p _ _ Hwf Hm) as [Hq Hmq].
  unfold buffer_at. rewrite bind_gets. unfold lift, id.
  rewrite (lbuffer_at_message q (flatten sigil t) _ v); [done|done|done| |lia].
  replace (Z.to_nat (1 + Z.of_nat j)) with (S j) by lia. exact Hv.
Qed.

(** The two loops of the check read the content and the eight digits. *)
Lemma lhash_crc_read :
  length digits = 8%nat ->
  let content := name ++ 0x2C :: body in
  unicore_hash_crc_loop (length (buffer q)) 1 0 q
    = Ok (crc32_run 0 content, 1 + Z.of_nat (length content), q, []) /\
  unicore_hash_read_crc (shifts_of 7) (1 + Z.of_nat (length content) + 1) 0 q = Ok (digits_value digits, q, []).
Proof.
  intros Hd8 content. pose proof Harr as [Hm Hok].
  destruct (lunpushed_ok p _ _ Hwf Hm) as [Hq Hmq]. pose proof (length_lmessage q Hq) as Hlen.
  pose proof (lwf_msgLength q Hq). pose proof lB_range. pose proof (lwf_buffer q Hq) as Hbuf.
  destruct (lclosed_split _ _ _ _ _ q Hq Hmq Hok) as (l & Hl & Hbd & Hdd).
  assert (forall l, name ++ 0x2C :: body ++ l = content ++ l) as Hsplit
    by (intros l'; unfold content; by rewrite <-app_assoc).
  assert (Z.of_nat (length content) + 10 <= lB) as Hroom.
  { rewrite Hmq in Hlen. unfold flatten in Hlen. rewrite Hsplit in Hlen.
    cbn [length] in Hlen. rewrite length_app in Hlen. cbn [length] in Hlen. lia. }
  split.
  - assert (exists c cs, content = c :: cs) as (c & cs & Hcs).
    { unfold content. destruct name; cbn; by eexists _, _. }
    pose proof lhash_content_ok as Hcontent. fold content in Hcontent. rewrite Hcs in *.
    apply Forall_cons_1 in Hcontent as [_ Hcontent]. cbn [length] in *.
    apply (lunicore_hash_crc_loop_ok q cs c digits); [|done|lia].
    intros j v Hj. apply lhash_at. by rewrite Hsplit.
  - apply (lunicore_hash_read_crc_ok q 7 digits _ 0); [|done|done|done|done|done].
    intros j v Hj. replace (1 + Z.of_nat (length content) + 1 + Z.of_nat j)
      with (1 + Z.of_nat (length (content ++ [0x2A]) + j)) by (rewrite length_app; cbn; lia).
    apply lhash_at. rewrite Hsplit.
    replace (content ++ 0x2A :: digits) with ((content ++ [0x2A]) ++ digits) by by rewrite <-app_assoc.
    rewrite lookup_app_r by lia. rewrite <-Hj. f_equal. lia.
Qed.

Lemma lhash_crc_result :
  length digits = 8%nat ->
  result = Some (if (crc32_run 0 (name ++ 0x2C :: body) =? digits_value digits) && (msgLength q + 3 <=? lB)
     then [Msg (type q) (lmessage q ++ [0x0D; 0x0A])] else []).
Proof.
  intros Hd8. pose proof Harr as [Hm Hok].
  destruct (lunpushed_ok p _ _ Hwf Hm) as [Hq Hmq]. pose proof (length_lmessage q Hq) as Hlen.
  assert (bytes (name ++ 0x2C :: body)) as Hbs.
  { pose proof (lmessage_bytes q Hq) as Hbs. rewrite Hmq in Hbs. apply Forall_cons_1 in Hbs as [_ Hbs].
    rewrite app_comm_cons, app_assoc in Hbs. by apply Forall_app in Hbs as []. }
  rewrite crc32_run_ref by done. change (type q) with (type p).
  rewrite Hmq, Htype, <-Hlen, Hmq. unfold lfinish, finish, text_check. rewrite Hd8.
  cbn [Nat.ltb Nat.leb]. rewrite (Z.eqb_sym (digits_value digits)). cbn. by destruct (_ && _).
Qed.

Lemma lsempUnicoreHashValidatCrc_validates :
  hash_digits name = 8%nat -> lvalidates sempUnicoreHashValidatCrc q result.
Proof.
  intros H8. assert (length digits = 8%nat) as Hd8 by congruence. pose proof Harr as [Hm Hok].
  destruct (lunpushed_ok p _ _ Hwf Hm) as [Hq Hmq]. pose proof (length_lmessage q Hq) as Hlen.
  pose proof (lwf_msgLength q Hq). pose proof lB_range.
  destruct (lhash_crc_read Hd8) as [Hloop Hread]. rewrite (lhash_crc_result Hd8).
  unfold lvalidates, sempUnicoreHashValidatCrc. change [28; 24; 20; 16; 12; 8; 4] with (shifts_of 7).
  rewrite bind_gets, (bind_silent _ _ _ _ _ Hloop), (bind_silent _ _ _ _ _ Hread), bind_gets.
  destruct (_ =? _); cbn [negb andb].
  - rewrite !bind_gets, (lwf_bufferLength q Hq), u32_id by (unfold is_u32, UNICORE_HASH_BUFFER_OVERHEAD; lia).
    unfold UNICORE_HASH_BUFFER_OVERHEAD. destruct (lB <? _) eqn:E.
    + destruct (msgLength q + 3 <=? lB) eqn:E2; [lia|]. run_monad.
      destruct (lsempPrintf_ok (printDebug q)
        "SEMP %s: Unicore hash (#) sentence too long, increase the buffer size >= %d"
        [AStr (parserName q); AInt (msgLength q + 3)] q eq_refl) as (ev & Hp & Hev).
      rewrite (bind_ok _ _ _ _ _ _ Hp). apply lvalidated_silent; [by apply lwf_with_state|].
      by rewrite ldelivered_app, Hev.
    + destruct (msgLength q + 3 <=? lB) eqn:E2; [|lia].
      destruct (lsend_sentence_ok q Hq) as (q' & Hs & Hq' & Hmq' & Hsp); [lia|]. rewrite Hs, <-Hmq'.
      apply (lvalidated_sent q' []); [done|done|by apply lhash_informed].
  - rewrite !bind_gets. edestruct lhash_print_ok as (ev' & Hp & Hev'); [|erewrite Hp]; [done|].
    by apply lvalidated_silent.
Qed.

(** Two digits: the carriage return, line feed and terminator are stored without
    a look at the room left. *)
Lemma lhash_two_digits_validates d1 d2 :
  digits = [d1; d2] -> lvalidates sempUnicoreHashValidateChecksum q result.
Proof.
  intros Hd. pose proof Harr as [Hm Hok].
  destruct (lunpushed_ok p _ _ Hwf Hm) as [Hq Hmq]. pose proof (length_lmessage q Hq) as Hlen.
  destruct (lclosed_split _ _ _ _ _ q Hq Hmq Hok) as (l & Hl & Hb12 & Hd12).
  rewrite Hd in Hl, Hb12, Hd12.
  apply Forall_cons_1 in Hb12 as [Hb1 [Hb2 _]%Forall_cons_1].
  apply Forall_cons_1 in Hd12 as [Hd1 [Hd2 _]%Forall_cons_1].
  pose proof (lbuffer_at_end q l _ 0 d1 Hq Hl eq_refl) as Hat1.
  pose proof (lbuffer_at_end q l _ 1 d2 Hq Hl eq_refl) as Hat2.
  change (Z.of_nat _) with 2 in Hat1. change (Z.of_nat _) with 1 in Hat2.
  destruct (two_digits d1 d2 Hb1 Hb2 Hd1 Hd2) as [Hneg Hval]. rewrite <-lib_asciiToNibble in Hneg, Hval.
  assert (result =
    if (digits_value [d1; d2] =? crc q) || laccepts (type q) (lmessage q) then
      if msgLength q + 3 <=? lB then Some [Msg (type q) (lmessage q ++ [0x0D; 0x0A])] else None
    else Some []) as ->.
  { rewrite <-Hlen. change (crc q) with (crc p). change (type q) with (type p).
    rewrite Hcrc, Hmq, Htype, Hd. unfold lfinish, finish, text_check.
    cbn [length Nat.ltb Nat.leb]. by repeat case_match. }
  destruct (lcheck_ok (digits_value [d1; d2] =? crc q) q Hq) as (ev & Hchk & Hev).
  assert (get unicoreHash_checksumBytes (scratchPad q) = 2) as H2.
  { cbn. by rewrite Hn, <-Hdigits, Hd. }
  unfold lvalidates, sempUnicoreHashValidateChecksum, pad_get.
  rewrite bind_gets, H2. change (2 <? 2) with false. cbv iota.
  rewrite bind_gets, (bind_silent _ _ _ _ _ Hat1).
  unfold shift_left_int. rewrite Hneg. rewrite bind_ret, (bind_silent _ _ _ _ _ Hat2), bind_gets, Hval.
  rewrite (bind_ok _ _ _ _ _ _ Hchk). destruct (_ || _).
  - destruct (msgLength q + 3 <=? lB) eqn:E.
    + destruct (lsend_sentence_ok q Hq) as (q' & Hs & Hq' & Hmq' & Hsp); [lia|]. rewrite Hs, <-Hmq'.
      apply lvalidated_sent; [done|done|by apply lhash_informed].
    + by rewrite lsend_sentence_oob by (done || lia).
  - rewrite !bind_gets. edestruct lhash_print_ok as (ev' & Hp & Hev'); [|rewrite Hp]; [done|].
    apply lvalidated_silent; [done|]. by rewrite ldelivered_app, Hev, Hev'.
Qed.

Lemma lsempUnicoreHashValidateChecksum_validates :
  lvalidates sempUnicoreHashValidateChecksum q result.
Proof.
  assert (hash_digits name = 2 \/ hash_digits name = 8)%nat as [H|H]
    by (unfold hash_digits, check_digits; destruct (contains_MODEb name); auto).
  - assert (exists d1 d2, digits = [d1; d2]) as (d1 & d2 & Hd)
      by (rewrite H in Hdigits; destruct digits as [|d1 [|d2 [|]]]; try done; by eexists _, _).
    by apply (lhash_two_digits_validates d1 d2).
  - pose proof (lsempUnicoreHashValidatCrc_validates H) as Hv.
    unfold lvalidates, sempUnicoreHashValidateChecksum, pad_get in *. rewrite bind_gets.
    change (scratchPad q) with (scratchPad p). by rewrite Hn, H.
Qed.

Lemma lsempUnicoreHashLineTermination_refines :
  lrefines (sempUnicoreHashLineTermination b) p (lclosed_target i K sigil t b).
Proof.
  pose proof Harr as [Hm Hok]. destruct (lunpushed_ok p _ _ Hwf Hm) as [Hq Hmq].
  assert (closed (format K) t = true) by (cbn; by apply Nat.eqb_eq).
  unfold sempUnicoreHashLineTermination, lclosed_target.
  do 2 (eapply lrefines_bind; [reflexivity|done|]). fold q.
  destruct (b =? 0x0D); [|destruct (b =? 0x0A)].
  - eapply lrefines_ok; [reflexivity| |done]. split; [by apply lwf_with_state|].
    split_and!; try done; [|by left]. by apply (lhash_closed _ _ (Some 0x0A)).
  - eapply lrefines_ok; [reflexivity| |done]. split; [by apply lwf_with_state|].
    split_and!; try done; [|by right]. by apply (lhash_closed _ _ (Some 0x0D)).
  - apply lvalidates_scan; [apply lsempUnicoreHashValidateChecksum_validates|done].
Qed.

Lemma lsempUnicoreHashLineFeed_refines :
  lrefines (sempUnicoreHashLineFeed b) p (lending_target i K sigil t 0x0A b).
Proof.
  eapply lending_refines; [done|done|apply Harr|apply lsempUnicoreHashValidateChecksum_validates].
Qed.

Lemma lsempUnicoreHashCarriageReturn_refines :
  lrefines (sempUnicoreHashCarriageReturn b) p (lending_target i K sigil t 0x0D b).
Proof.
  eapply lending_refines; [done|done|apply Harr|apply lsempUnicoreHashValidateChecksum_validates].
Qed.

End hash_finish.
End hash_refine.

Lemma lsempUnicoreHashPreamble_spec `{SU : LSetup} `{Plat : Platform} i p b :
  ltable !! i = Some fn_sempUnicoreHashPreamble ->
  lwf p -> lmessage p = [b] -> computeCrc p = None -> crc p = 0 ->
  if b =? 0x23
  then exists p', sempUnicoreHashPreamble b p = Ok (true, p', []) /\
                  LR (with_type (Z.of_nat i) p') (LSentence i fn_sempUnicoreHashPreamble b (TName []))
  else sempUnicoreHashPreamble b p = Ok (false, p, []).
Proof.
  intros Hi Hwf Hm Hn Hc. unfold sempUnicoreHashPreamble.
  destruct (b =? 0x23); cbn [negb]; [|done]. 
  pose proof (lwf_pad p Hwf). pose proof (overlapping_free i _ Hi eq_refl).
  eexists. split; [reflexivity|]. split; [lwf_tac|]. split_and!; try done.
  - split; [cbn; lia|done].
  - constructor; [|done]. split; [cbn; by pad_simpl|done].
Qed.
