(* ===== verification/LibRefine.v ===== *)
(** * Refinement of the library's byte interface

    The preamble routines of the C++ library keep the promise [LPreambleSpec];
    [sempParseNextByte] refines a step of the machine of [LibSpec], and a
    sequence of calls a run of it. *)
From S2P Require Import Prelude Crc FrameSpec Sentences Representation HashRefine LibParser.
From S2P Require Import LibFramework LibCrc LibCrcTheorems LibBinary LibText LibSbf LibSpartn.
From S2P Require Import LibNextByte LibSpec LibRep LibFrames LibCrcFrames LibSbfRefine.
From S2P Require Import LibSpartnRefine LibSentence LibHash.

Section refine.
  Context `{SU : LSetup} `{Plat : Platform}.

(** A preamble routine that hands nothing back. *)
Lemma lpreamble_quiet {A} (c : bool) (T : Prop) (r : res (bool * A * list Event)) p out :
  out = [] -> (if c then T else r = Ok (false, p, [])) ->
  if c then T else exists ev, r = Ok (false, p, ev) /\ ldelivered ev = out.
Proof. intros ->. destruct c; [done|]. by eexists. Qed.

#[export] Instance lib_preambles_spec : LPreambleSpec lib_preambles.
Proof.
  intros k i p b Hi Hwf Hb Hm Hn Hc. destruct k; cbn [lstarts lbegin call_preamble lib_preambles];
    first [by apply sempSbfPreamble_spec | apply lpreamble_quiet; [done|]].
  - by apply lsempNmeaPreamble_spec.
  - by apply lsempRtcmPreamble_spec.
  - by apply lsempUbloxPreamble_spec.
  - by apply lsempUnicoreBinaryPreamble_spec.
  - by apply lsempUnicoreHashPreamble_spec.
  - by apply sempSpartnPreamble_spec.
  - by apply lsempBluetoothPreamble_spec.
Qed.

(** ** One byte *)

(** The structure when the state routine is called: the byte is stored and the
    running check is updated. *)
Definition lreceived (b : Z) (p : SEMP_PARSE_STATE) : SEMP_PARSE_STATE :=
  match computeCrc p with
  | None => lpushed b p
  | Some fn_sempRtcmComputeCrc24q => with_crc (crc24q_update (crc p) b) (lpushed b p)
  | Some _ => with_crc (crc32_update (crc p) b) (lpushed b p)
  end.

Lemma lreceived_spec b p :
  lwf p -> is_u8 b -> msgLength p < lB ->
  lwf (lreceived b p) /\ lmessage (lreceived b p) = lmessage p ++ [b] /\
  type (lreceived b p) = type p /\ computeCrc (lreceived b p) = computeCrc p /\
  state (lreceived b p) = state p /\ scratchPad (lreceived b p) = scratchPad p.
Proof.
  intros Hwf Hb Hl. pose proof (lwf_pushed b p Hwf Hb Hl). pose proof (lmessage_pushed b p Hwf Hl).
  unfold lreceived. destruct (computeCrc p) as [[]|] eqn:E; split_and!; try done;
    (apply lwf_with_crc; [done|auto with width]).
Qed.

Lemma lsempParseNextByte_received b p o :
  lwf p -> is_u8 b -> msgLength p < lB ->
  lrefines (call_state (state p) b) (lreceived b p) o -> lrefines (sempParseNextByte b) p o.
Proof.
  intros Hwf Hb Hl Ho. unfold sempParseNextByte.
  do 2 (eapply lrefines_bind; [reflexivity|done|]). rewrite (lwf_bufferLength p Hwf).
  destruct (lB <=? msgLength p) eqn:E; [lia|].
  eapply lrefines_bind; [by apply lbuffer_push_ok|done|].
  eapply lrefines_bind; [reflexivity|done|].
  eapply (lrefines_bind _ _ _ tt (lreceived b p) []); [|done|].
  - unfold lreceived. change (computeCrc (lpushed b p)) with (computeCrc p).
    by destruct (computeCrc p) as [[]|].
  - eapply lrefines_bind; [reflexivity|done|].
    destruct (lreceived_spec b p Hwf Hb Hl) as (_ & _ & _ & _ & -> & _). by apply lrefines_ignore.
Qed.

(** A message that fills the buffer is given up. *)
Lemma lsempParseNextByte_full b p :
  lwf p -> is_u8 b -> lB <= msgLength p -> lrefines (sempParseNextByte b) p (lscan ltable hands_back [] b).
Proof.
  intros Hwf Hb Hl. unfold sempParseNextByte.
  do 2 (eapply lrefines_bind; [reflexivity|done|]). rewrite (lwf_bufferLength p Hwf).
  destruct (lB <=? msgLength p) eqn:E; [|lia].
  do 2 (eapply lrefines_bind; [reflexivity|done|]).
  eapply lrefines_bind_print; [reflexivity|done|]. by apply lrefines_ignore, lsempFirstByte_refines.
Qed.

(** The steps of the protocols, from the structure of [lreceived]. *)
Section frames.
  Context (i : nat) (m : list Z) (b : Z) (p : SEMP_PARSE_STATE).
  Context (Hwf : lwf p) (Hb : is_u8 b) (Hl : msgLength p < lB)
    (Hm : lmessage p = m) (Htype : type p = Z.of_nat i).
  Abbreviation step k := (lframe_step ltable laccepts hands_back i k (m ++ [b]) b).

Lemma lublox_step :
  ltable !! i = Some fn_sempUbloxPreamble ->
  computeCrc p = None -> lublox_rel (scratchPad p) (state p) m ->
  lrefines (sempParseNextByte b) p (step fn_sempUbloxPreamble).
Proof.
  intros Hi Hn Hr. apply lsempParseNextByte_received; [done..|].
  destruct (lreceived_spec b p Hwf Hb Hl) as (Hwf' & Hm' & Ht' & Hc' & Hs' & Hsp').
  rewrite Hm in Hm'. rewrite Htype in Ht'. rewrite Hn in Hc'. rewrite <-Hsp' in Hr.
  remember (state p) as f eqn:Hf. clear Hf. destruct Hr; cbn [call_state].
  - by apply lsempUbloxSync2_refines.
  - by apply lsempUbloxClass_refines.
  - by apply lsempUbloxId_refines.
  - by apply lsempUbloxLength1_refines.
  - by apply lsempUbloxLength2_refines.
  - by apply lsempUbloxPayload_refines.
  - by apply lsempUbloxCkB_refines.
Qed.

Lemma lrtcm_step :
  ltable !! i = Some fn_sempRtcmPreamble ->
  computeCrc p = Some fn_sempRtcmComputeCrc24q -> crc p = crc24q_run 0 m ->
  lrtcm_rel (scratchPad p) (state p) m ->
  lrefines (sempParseNextByte b) p (step fn_sempRtcmPreamble).
Proof.
  intros Hi Hn Hc Hr. apply lsempParseNextByte_received; [done..|].
  destruct (lreceived_spec b p Hwf Hb Hl) as (Hwf' & Hm' & Ht' & Hc' & Hs' & Hsp').
  assert (crc (lreceived b p) = crc24q_run 0 (m ++ [b])) as Hcrc.
  { unfold lreceived. rewrite Hn. cbn. by rewrite crc24q_run_app, Hc. }
  rewrite Hm in Hm'. rewrite Htype in Ht'. rewrite Hn in Hc'. rewrite <-Hsp' in Hr.
  remember (state p) as f eqn:Hf. clear Hf. destruct Hr; cbn [call_state].
  - by eapply lsempRtcmReadLength1_refines.
  - by eapply lsempRtcmReadLength2_refines.
  - by eapply lsempRtcmReadMessage1_refines.
  - by eapply lsempRtcmReadMessage2_refines.
  - by eapply lsempRtcmReadData_refines.
  - by eapply lsempRtcmReadCrc_refines.
Qed.

Lemma lbluetooth_step :
  ltable !! i = Some fn_sempBluetoothPreamble ->
  computeCrc p = Some fn_sempBluetoothComputeCrc -> lbluetooth_rel (scratchPad p) (crc p) (state p) m ->
  lrefines (sempParseNextByte b) p (step fn_sempBluetoothPreamble).
Proof.
  intros Hi Hn Hr. apply lsempParseNextByte_received; [done..|].
  destruct (lreceived_spec b p Hwf Hb Hl) as (Hwf' & Hm' & Ht' & Hc' & Hs' & Hsp').
  assert (crc (lreceived b p) = crc32_update (crc p) b) as Hcrc by (unfold lreceived; by rewrite Hn).
  rewrite Hm in Hm'. rewrite Htype in Ht'. rewrite Hn in Hc'. rewrite <-Hsp' in Hr.
  remember (state p) as f eqn:Hf. clear Hf.
  remember (crc p) as c eqn:Hc. clear Hc. destruct Hr; subst c; cbn [call_state].
  - eapply lsempBluetoothSync2_refines; done || by rewrite crc32_run_app, Hcrc.
  - eapply lsempBluetoothSync3_refines; done || by rewrite crc32_run_app, Hcrc.
  - eapply lsempBluetoothReadHeader_refines; done || by rewrite crc32_run_app, Hcrc.
  - eapply lsempBluetoothReadData_refines; done || by rewrite crc32_run_app, Hcrc.
  - by eapply lsempBluetoothReadCrc_refines.
Qed.

Lemma lunicore_step :
  ltable !! i = Some fn_sempUnicoreBinaryPreamble ->
  computeCrc p = Some fn_sempUnicoreBinaryComputeCrc -> crc p = crc32_run 0 m ->
  lunicore_rel (scratchPad p) (state p) m ->
  lrefines (sempParseNextByte b) p (step fn_sempUnicoreBinaryPreamble).
Proof.
  intros Hi Hn Hc Hr. apply lsempParseNextByte_received; [done..|].
  destruct (lreceived_spec b p Hwf Hb Hl) as (Hwf' & Hm' & Ht' & Hc' & Hs' & Hsp').
  assert (crc (lreceived b p) = crc32_run 0 (m ++ [b])) as Hcrc.
  { unfold lreceived. rewrite Hn, crc32_run_app, <-Hc. done. }
  rewrite Hm in Hm'. rewrite Htype in Ht'. rewrite Hn in Hc'. rewrite <-Hsp' in Hr.
  remember (state p) as f eqn:Hf. clear Hf. destruct Hr; cbn [call_state].
  - by eapply lsempUnicoreBinaryBinarySync2_refines.
  - by eapply lsempUnicoreBinaryBinarySync3_refines.
  - by eapply lsempUnicoreBinaryReadHeader_refines.
  - by eapply lsempUnicoreBinaryReadData_refines.
  - by eapply lsempUnicoreBinaryReadCrc_refines.
Qed.

Lemma sbf_step :
  ltable !! i = Some fn_sempSbfPreamble ->
  computeCrc p = None -> sbf_rel (scratchPad p) (state p) m ->
  lrefines (sempParseNextByte b) p (step fn_sempSbfPreamble).
Proof.
  intros Hi Hn Hr. apply lsempParseNextByte_received; [done..|].
  destruct (lreceived_spec b p Hwf Hb Hl) as (Hwf' & Hm' & Ht' & Hc' & Hs' & Hsp').
  rewrite Hm in Hm'. rewrite Htype in Ht'. rewrite Hn in Hc'. rewrite <-Hsp' in Hr.
  remember (state p) as f eqn:Hf. clear Hf. destruct Hr; cbn [call_state].
  - by apply sempSbfPreamble2_refines.
  - by apply sempSbfCRC1_refines.
  - by apply sempSbfCRC2_refines.
  - by apply sempSbfID1_refines.
  - by apply sempSbfID2_refines.
  - by apply sempSbfLengthLSB_refines.
  - by apply sempSbfLengthMSB_refines.
  - by apply sempSbfReadBytes_refines.
Qed.

Lemma spartn_step :
  ltable !! i = Some fn_sempSpartnPreamble ->
  computeCrc p = None -> spartn_rel (scratchPad p) (state p) m ->
  lrefines (sempParseNextByte b) p (step fn_sempSpartnPreamble).
Proof.
  intros Hi Hn Hr. apply lsempParseNextByte_received; [done..|].
  destruct (lreceived_spec b p Hwf Hb Hl) as (Hwf' & Hm' & Ht' & Hc' & Hs' & Hsp').
  rewrite Hm in Hm'. rewrite Htype in Ht'. rewrite Hn in Hc'. rewrite <-Hsp' in Hr.
  remember (state p) as f eqn:Hf. clear Hf.
  destruct f; try (cbn in Hr; done); cbn [call_state].
  - by apply sempSpartnReadTF002TF006_refines.
  - by apply sempSpartnReadTF007_refines.
  - by apply sempSpartnReadTF009_refines.
  - by apply sempSpartnReadTF016_refines.
  - by apply sempSpartnReadTF017_refines.
  - by apply sempSpartnReadTF018_refines.
Qed.

End frames.

Section sentences.
  Context (i : nat) (sigil : Z) (t : text) (b : Z) (p : SEMP_PARSE_STATE).
  Context (Hwf : lwf p) (Hb : is_u8 b) (Hl : msgLength p < lB)
    (Hm : lmessage p = flatten sigil t) (Htype : type p = Z.of_nat i)
    (Hn : computeCrc p = None).

(** Where a sentence stands: under way, closed, or after the first terminator. *)
Definition lsentence_target (k : PREAMBLE_ROUTINE) (expect : option Z) :=
  if closed (format k) t then
    match expect with
    | None => lclosed_target i k sigil t b
    | Some e => lending_target i k sigil t e b
    end
  else ltext_target i k sigil t b.

Lemma lnmea_step expect :
  ltable !! i = Some fn_sempNmeaPreamble -> text_fits lB (format fn_sempNmeaPreamble) sigil t ->
  lnmea_rel (scratchPad p) (crc p) expect (state p) t ->
  expect = None \/ expect = Some 0x0A \/ expect = Some 0x0D ->
  lrefines (sempParseNextByte b) p (lsentence_target fn_sempNmeaPreamble expect).
Proof.
  intros Hi Hok Hr He. apply lsempParseNextByte_received; [done..|].
  destruct (lreceived_spec b p Hwf Hb Hl) as (Hwf' & Hm' & Ht' & Hc' & Hs' & Hsp').
  assert (crc (lreceived b p) = crc p) as Hcrc by (unfold lreceived; by rewrite Hn).
  rewrite Hm in Hm'. rewrite Htype in Ht'. rewrite Hn in Hc'. rewrite <-Hsp', <-Hcrc in Hr.
  remember (state p) as f eqn:Hf. clear Hf. unfold lsentence_target. destruct Hr; cbn [call_state].
  - by apply lsempNmeaFindFirstComma_refines.
  - by apply lsempNmeaFindAsterisk_refines.
  - by apply lsempNmeaChecksumByte1_refines.
  - by apply lsempNmeaChecksumByte2_refines.
  - destruct He as [->|[->| ->]]; cbn [lnmea_end call_state].
    + by apply lsempNmeaLineTermination_refines.
    + by apply lsempNmeaLineFeed_refines.
    + by apply lsempNmeaCarriageReturn_refines.
Qed.

Lemma lhash_step expect :
  ltable !! i = Some fn_sempUnicoreHashPreamble -> text_fits lB (format fn_sempUnicoreHashPreamble) sigil t ->
  lhash_rel (scratchPad p) (crc p) expect (state p) t ->
  expect = None \/ expect = Some 0x0A \/ expect = Some 0x0D ->
  lrefines (sempParseNextByte b) p (lsentence_target fn_sempUnicoreHashPreamble expect).
Proof.
  intros Hi Hok Hr He. apply lsempParseNextByte_received; [done..|].
  destruct (lreceived_spec b p Hwf Hb Hl) as (Hwf' & Hm' & Ht' & Hc' & Hs' & Hsp').
  assert (crc (lreceived b p) = crc p) as Hcrc by (unfold lreceived; by rewrite Hn).
  rewrite Hm in Hm'. rewrite Htype in Ht'. rewrite Hn in Hc'. rewrite <-Hsp', <-Hcrc in Hr.
  remember (state p) as f eqn:Hf. clear Hf. unfold lsentence_target.
  destruct Hr as [name|name body|name body digits H1 H2 H3 Hlt|name body digits H1 H2 Heq].
  - by apply lsempUnicoreHashFindFirstComma_refines.
  - by apply lsempUnicoreHashFindAsterisk_refines.
  - cbn [format closed call_state]. fold (hash_digits name). rewrite (proj2 (Nat.eqb_neq _ _)) by lia.
    by apply lsempUnicoreHashChecksumByte_refines.
  - cbn [format closed]. fold (hash_digits name). rewrite (proj2 (Nat.eqb_eq _ _)) by done.
    destruct He as [->|[->| ->]]; cbn [lhash_end call_state].
    + by apply lsempUnicoreHashLineTermination_refines.
    + by apply lsempUnicoreHashLineFeed_refines.
    + by apply lsempUnicoreHashCarriageReturn_refines.
Qed.

End sentences.

Lemma lsempParseNextByte_step st p b :
  LR p st -> is_u8 b ->
  lrefines (sempParseNextByte b) p (lspec_step lB ltable laccepts hands_back st b).
Proof.
  intros [Hwf HR] Hb. pose proof (length_lmessage p Hwf) as Hlen.
  destruct (decide (lB <= msgLength p)) as [Hfull|Hl].
  { assert (lspec_step lB ltable laccepts hands_back st b = lscan ltable hands_back [] b) as ->.
    { destruct st; cbn [lspec_step]; [done|..]; destruct HR as [Hm _]; rewrite Hm in Hlen;
        (destruct (lB <=? _) eqn:E; [done|lia]). }
    by apply lsempParseNextByte_full. }
  destruct st as [|i k m|i k sigil t|i k sigil t e]; cbn [lspec_step].
  - apply lsempParseNextByte_received; [done|done|lia|]. rewrite HR.
    apply lsempFirstByte_refines; [|done]. apply lreceived_spec; [done|done|lia].
  - destruct HR as (Hm & Ht & Hi & Hf). rewrite Hm in Hlen.
    destruct (lB <=? _) eqn:E; [lia|]. assert (msgLength p < lB) as Hlt by lia.
    destruct k; try (cbn in Hf; done).
    + destruct Hf as (Hc & Hcrc & Hr). by apply lrtcm_step.
    + destruct Hf as [Hc Hr]. by apply lublox_step.
    + destruct Hf as (Hc & Hcrc & Hr). by apply lunicore_step.
    + destruct Hf as [Hc Hr]. by apply spartn_step.
    + destruct Hf as [Hc Hr]. by apply sbf_step.
    + destruct Hf as [Hc Hr]. by apply lbluetooth_step.
  - destruct HR as (Hm & Ht & Hi & Hn & Hok & Hr). rewrite Hm in Hlen.
    destruct (lB <=? _) eqn:E; [lia|]. destruct k; try done.
    + apply (lnmea_step i sigil t b p) with (expect := None); auto; lia.
    + apply (lhash_step i sigil t b p) with (expect := None); auto; lia.
  - destruct HR as (Hm & Ht & Hi & Hn & Hok & Hr & Hclosed & He). rewrite Hm in Hlen.
    destruct (lB <=? _) eqn:E; [lia|].
    replace (match lfinish lB laccepts i k sigil t with _ => _ end)
      with (lsentence_target i sigil t b k (Some e))
      by (unfold lsentence_target; by rewrite Hclosed).
    destruct k; try done.
    + apply lnmea_step; auto; [lia|]. destruct He as [->| ->]; auto.
    + apply lhash_step; auto; [lia|]. destruct He as [->| ->]; auto.
Qed.

(** ** Many bytes *)

Lemma lparse_bytes_run st p l :
  LR p st -> bytes l -> lrefines (parse_bytes l) p (lspec_run lB ltable laccepts hands_back st l).
Proof.
  intros HR Hl. revert st p HR.
  induction Hl as [|b l Hb Hl IH]; intros st p HR; cbn [lspec_run].
  - by eapply lrefines_ok.
  - change (parse_bytes (b :: l)) with (sempParseNextByte b;; parse_bytes l).
    pose proof (lsempParseNextByte_step st p b HR Hb) as Hs.
    destruct (lspec_step lB ltable laccepts hands_back st b) as [[st1 out1]|].
    + destruct Hs as ([] & p1 & ev1 & H1 & HR1 & <- & Hi1). specialize (IH st1 p1 HR1).
      destruct (lspec_run lB ltable laccepts hands_back st1 l) as [[st2 out2]|].
      * destruct IH as ([] & p2 & ev2 & H2 & HR2 & <- & Hi2).
        eapply lrefines_tells; [rewrite (bind_ok _ _ _ _ _ _ H1), H2; reflexivity|done| |by apply Forall_app].
        by rewrite ldelivered_app.
      * unfold lrefines in *. by rewrite (bind_ok _ _ _ _ _ _ H1), IH.
    + by apply bind_ub.
Qed.

End refine.
