(* ===== verification/LibMessages.v ===== *)
(** * The messages of the library's protocols

    Encoders of the frames that only the C++ library reads, what it means for a
    byte string to be a message of one of its eight protocols, and that the
    verdicts of [LibSpec] say so. *)
From S2P Require Import Prelude Crc ParseState FrameSpec Sentences Messages MessageRuns LibParser.
From S2P Require Import ShiftRegister LibCrc LibCrcTheorems LibSpec LibSpartnRefine.

(* ------------------------------------------------------------------ *)
(** ** Encoders *)

(** A Septentrio block; the length counts the eight bytes of the header. *)
Definition sbf_block (id : Z) (body : list Z) : list Z :=
  let content := le_split 2 id ++ le_split 2 (8 + Z.of_nat (length body)) ++ body in
  0x24 :: 0x40 :: le_split 2 (crc16_ref 0 content) ++ content.

(** [a] holds the three header bytes before the length field, [c] the sixteen after it. *)
Definition unicore_frame (a c payload : list Z) : list Z :=
  let m := 0xAA :: 0x44 :: 0xB5 :: a ++ le_split 2 (Z.of_nat (length payload)) ++ c ++ payload in
  m ++ le_split 4 (crc32_ref 0 m).

(** A SPARTN frame: message type, encryption and check type are packed with the
    payload length and a check of their own; [desc] is the payload description,
    [auth] the embedded authentication data. *)
Definition spartn_frame (ty : Z) (encrypted : bool) (check : Z) (desc payload auth : list Z) : list Z :=
  let n := Z.of_nat (length payload) in
  let b1 := ty * 2 + n / 512 in
  let b2 := n / 2 mod 256 in
  let b3 := n mod 2 * 128 + (if encrypted then 64 else 0) + check * 16 in
  let content := b1 :: b2 :: b3 + crc4_ref [b1; b2; b3] :: desc ++ payload ++ auth in
  0x73 :: content ++ spartn_check check content.

(** The length of the description, from its first byte, and of the
    authentication data, from its last. *)
Definition description_bytes (encrypted : bool) (d : Z) : Z :=
  (if d / 8 mod 2 =? 1 then 6 else 4) + (if encrypted then 2 else 0).
Definition authentication_bytes (encrypted : bool) (d : Z) : Z :=
  if encrypted && (1 <? d / 8 mod 8) then
    match d mod 8 with 0 => 8 | 1 => 12 | 2 => 16 | 3 => 32 | _ => 64 end
  else 0.

Record spartn_parts (ty : Z) (encrypted : bool) (check : Z) (desc payload auth : list Z) : Prop := {
  part_type : 0 <= ty < 128;
  part_check : 0 <= check < 4;
  part_description : Z.of_nat (length desc) = description_bytes encrypted (byte desc 0);
  part_payload : 1 <= Z.of_nat (length payload) < 1024;
  part_authentication : Z.of_nat (length auth) = authentication_bytes encrypted (byte desc (length desc - 1))
}.

(* ------------------------------------------------------------------ *)
(** ** Messages *)

(** The protocols that the C port reads as well. *)
Definition shared_format (k : PREAMBLE_ROUTINE) : option ParseState.PREAMBLE_ROUTINE :=
  match k with
  | fn_sempNmeaPreamble => Some ParseState.fn_sempNmeaPreamble
  | fn_sempRtcmPreamble => Some ParseState.fn_sempRtcmPreamble
  | fn_sempUbloxPreamble => Some ParseState.fn_sempUbloxPreamble
  | fn_sempUnicoreHashPreamble => Some ParseState.fn_sempUnicoreHashPreamble
  | fn_sempBluetoothPreamble => Some ParseState.fn_sempCustomPreamble
  | _ => None
  end.

Inductive lvalid_message : PREAMBLE_ROUTINE -> list Z -> Prop :=
| lvalid_shared k k' m b :
    shared_format k = Some k' -> head m = Some b -> lstarts k b = true -> valid_message k' m ->
    lvalid_message k m
| lvalid_sbf id body :
    8 < 8 + Z.of_nat (length body) < 65536 -> (8 + Z.of_nat (length body)) mod 4 = 0 ->
    lvalid_message fn_sempSbfPreamble (sbf_block id body)
| lvalid_unicore a c payload :
    length a = 3%nat -> length c = 16%nat -> 1 <= Z.of_nat (length payload) < 65536 ->
    lvalid_message fn_sempUnicoreBinaryPreamble (unicore_frame a c payload)
| lvalid_spartn ty encrypted check desc payload auth :
    spartn_parts ty encrypted check desc payload auth ->
    lvalid_message fn_sempSpartnPreamble (spartn_frame ty encrypted check desc payload auth).

(* ------------------------------------------------------------------ *)
(** ** A complete frame is a message *)

Lemma complete_true ok : Complete ok = Complete true -> ok = true.
Proof. congruence. Qed.

Lemma sbf_complete m :
  bytes m -> lstarts fn_sempSbfPreamble (default 0 (head m)) = true ->
  sbf_verdict m = Complete true -> lvalid_message fn_sempSbfPreamble m.
Proof.
  intros Hb Hs Hv. destruct m as [|s1 [|s2 m]]; try done. cbn in Hs. apply Z.eqb_eq in Hs as ->.
  unfold sbf_verdict in Hv. destruct (Z.eqb_spec s2 0x40) as [->|]; [|done]. cbn [negb] in Hv.
  destruct m as [|c1 [|c2 [|i1 [|i2 [|l1 [|l2 body]]]]]]; try done. cbv zeta in Hv.
  destruct (Z.eqb_spec ((l1 + 256 * l2) mod 4) 0) as [Hm4|]; [|done]. cbn [negb] in Hv.
  destruct (_ || _) eqn:E; [done|]. apply complete_true, andb_true_iff in Hv as [Hlen Hcrc]. cbn [length] in E, Hlen.
  assert (8 + Z.of_nat (length body) = l1 + 256 * l2) as Hn by lia.
  do 2 apply Forall_cons_1 in Hb as [_ Hb]. apply Forall_cons_1 in Hb as [H1 Hb].
  apply Forall_cons_1 in Hb as [H2 Hb]. apply Forall_cons_1 in Hb as [H3 Hb].
  apply Forall_cons_1 in Hb as [H4 Hb]. apply Forall_cons_1 in Hb as [H5 [H6 _]%Forall_cons_1].
  assert (sbf_block (i1 + 256 * i2) body = 0x24 :: 0x40 :: c1 :: c2 :: i1 :: i2 :: l1 :: l2 :: body) as <-.
  { unfold sbf_block. rewrite Hn, !(le_split_bytes_2 i1), (le_split_bytes_2 l1) by done. cbn [app].
    rewrite <-(proj1 (Z.eqb_eq _ _) Hcrc). by rewrite le_split_bytes_2. }
  unfold is_u8 in *. apply lvalid_sbf; rewrite Hn; [lia|done].
Qed.

Lemma unicore_complete m :
  bytes m -> lstarts fn_sempUnicoreBinaryPreamble (default 0 (head m)) = true ->
  unicore_verdict m = Complete true -> lvalid_message fn_sempUnicoreBinaryPreamble m.
Proof.
  intros Hb Hs Hv. destruct m as [|s1 [|s2 m]]; try done. cbn in Hs. apply Z.eqb_eq in Hs as ->.
  unfold unicore_verdict in Hv. destruct (Z.eqb_spec s2 0x44) as [->|]; [|done]. cbn [negb] in Hv.
  destruct m as [|s3 rest]; [done|]. destruct (Z.eqb_spec s3 0xB5) as [->|]; [|done]. cbn [negb] in Hv.
  cbn zeta in Hv. destruct (_ || _)%nat eqn:E; [done|]. apply complete_true, bool_decide_eq_true in Hv.
  destruct rest as [|a0 [|a1 [|a2 [|l1 [|l2 [|c0 [|c1 [|c2 [|c3 [|c4 [|c5 [|c6 [|c7 [|c8 [|c9 [|c10
    [|c11 [|c12 [|c13 [|c14 [|c15 body]]]]]]]]]]]]]]]]]]]]]; try (cbn [length] in E; lia).
  do 6 apply Forall_cons_1 in Hb as [_ Hb]. apply Forall_cons_1 in Hb as [H1 [H2 _]%Forall_cons_1].
  set (n := unicore_length _) in *.
  assert (Z.of_nat n = l1 + 256 * l2) as Hn.
  { unfold n, unicore_length, get, is_u8 in *. cbn. lia. }
  clearbody n. cbn [Nat.add drop take] in Hv. apply drop_exact in Hv as [Hbody Hlen]; [|done].
  assert (unicore_frame [a0; a1; a2]
      [c0; c1; c2; c3; c4; c5; c6; c7; c8; c9; c10; c11; c12; c13; c14; c15] (take n body)
    = 0xAA :: 0x44 :: 0xB5 :: a0 :: a1 :: a2 :: l1 :: l2 :: c0 :: c1 :: c2 :: c3 :: c4 :: c5 :: c6 :: c7
      :: c8 :: c9 :: c10 :: c11 :: c12 :: c13 :: c14 :: c15 :: body) as <-.
  { unfold unicore_frame. rewrite Hlen, Hn, le_split_bytes_2 by done. cbn [app].
    by rewrite Hbody at 3. }
  apply lvalid_unicore; [done|done|]. rewrite Hlen, Hn. unfold is_u8 in *. lia.
Qed.

(** The fields of a SPARTN header make up its bytes. *)
Lemma land_high b : is_u8 b -> Z.land b 0xF0 = b / 16 * 16.
Proof.
  intros Hb. apply Z.eqb_eq. revert b Hb. by apply (byte_cases (fun b => Z.land b 0xF0 =? b / 16 * 16)).
Qed.

Lemma spartn_header_bytes m :
  bytes m ->
  byte m 1 / 2 * 2 + spartn_payload m / 512 = byte m 1 /\ spartn_payload m / 2 mod 256 = byte m 2 /\
  spartn_payload m mod 2 * 128 + (if spartn_encrypted m then 64 else 0) + spartn_check_type m * 16
    = Z.land (byte m 3) 0xF0 /\
  Z.land (byte m 3) 0xF0 + byte m 3 mod 16 = byte m 3.
Proof.
  intros Hm. pose proof (byte_range m 1 Hm) as H1. pose proof (byte_range m 2 Hm) as H2.
  pose proof (byte_range m 3 Hm) as H3. rewrite land_high by done.
  unfold spartn_payload, spartn_encrypted, spartn_check_type, is_u8 in *.
  generalize dependent (byte m 1). generalize dependent (byte m 2). generalize dependent (byte m 3).
  clear. intros b3 H3 b2 H2 b1 H1. split_and!; [mlia|mlia| |mlia]. destruct (_ =? 1) eqn:E; mlia.
Qed.

Lemma spartn_check_length_eq ty l :
  0 <= ty < 4 -> Z.of_nat (length (spartn_check ty l)) = ty + 1.
Proof.
  intros H. assert (ty = 0 \/ ty = 1 \/ ty = 2 \/ ty = 3) as [->|[->|[->| ->]]] by lia;
    cbn [spartn_check]; by rewrite length_rev, length_le_split.
Qed.

(** The parts of a byte string that starts with a header and has room for them. *)
Lemma spartn_split m :
  Z.of_nat (length m) = spartn_end m + spartn_check_length m ->
  4 + spartn_description m <= Z.of_nat (length m) -> bytes m -> head m = Some 0x73 ->
  exists desc payload auth ck,
    m = 0x73 :: byte m 1 :: byte m 2 :: byte m 3 :: (desc ++ payload ++ auth) ++ ck /\
    Z.of_nat (length desc) = spartn_description m /\ Z.of_nat (length payload) = spartn_payload m /\
    Z.of_nat (length auth) = spartn_embedded m /\
    drop (Z.to_nat (spartn_end m)) m = ck /\
    take (Z.to_nat (spartn_end m) - 1) (drop 1 m)
      = byte m 1 :: byte m 2 :: byte m 3 :: desc ++ payload ++ auth.
Proof.
  intros Hlen Hd Hb Hh. pose proof (spartn_payload_range m Hb) as Hp.
  pose proof (spartn_embedded_range m) as He. pose proof (spartn_description_range m) as Hd'.
  pose proof (spartn_check_type_range m) as Ht. unfold spartn_end, spartn_check_length in *.
  destruct m as [|s [|b1 [|b2 [|b3 rest]]]]; cbn [length] in Hlen, Hd; try lia. injection Hh as ->.
  cbn [byte lookup list_lookup default from_option id].
  set (d := spartn_description _) in *. set (n := spartn_payload _) in *. set (a := spartn_embedded _) in *.
  change (byte _ 1) with b1. change (byte _ 2) with b2. change (byte _ 3) with b3. clearbody d n a.
  set (l := take (Z.to_nat (d + n + a)) rest). assert (Z.of_nat (length l) = d + n + a) as Hl.
  { unfold l. rewrite length_take. lia. }
  exists (take (Z.to_nat d) l), (take (Z.to_nat n) (drop (Z.to_nat d) l)),
    (drop (Z.to_nat n) (drop (Z.to_nat d) l)), (drop (Z.to_nat (d + n + a)) rest).
  rewrite !take_drop. split_and!.
  - unfold l. by rewrite take_drop.
  - rewrite length_take. lia.
  - rewrite length_take, length_drop. lia.
  - rewrite !length_drop. lia.
  - replace (Z.to_nat (4 + d + n + a)) with (4 + Z.to_nat (d + n + a))%nat by lia. done.
  - replace (Z.to_nat (4 + d + n + a) - 1)%nat with (3 + Z.to_nat (d + n + a))%nat by lia. done.
Qed.

(** The description says how long it and the authentication data are. *)
Lemma spartn_description_read m b0 b1 b2 b3 desc l :
  m = b0 :: b1 :: b2 :: b3 :: desc ++ l -> (0 < length desc)%nat ->
  spartn_description m = description_bytes (spartn_encrypted m) (byte desc 0) /\
  (Z.of_nat (length desc) = spartn_description m ->
   spartn_embedded m = authentication_bytes (spartn_encrypted m) (byte desc (length desc - 1))).
Proof.
  intros Hm Hd. assert (forall j, (j < length desc)%nat -> byte m (4 + j) = byte desc j) as Hat.
  { intros j Hj. unfold byte. rewrite Hm. do 4 (rewrite lookup_cons_ne_0 by lia; cbn [Nat.add Nat.pred]).
    by rewrite lookup_app_l. }
  unfold spartn_embedded, spartn_description. change 4%nat with (4 + 0)%nat. rewrite (Hat 0%nat) by done.
  split; [done|]. intros Hl.
  replace (Z.to_nat _) with (4 + (length desc - 1))%nat by lia. by rewrite Hat by lia.
Qed.

Lemma spartn_frame_eq ty (encrypted : bool) check desc payload auth b1 b2 h3 b3 :
  let n := Z.of_nat (length payload) in
  ty * 2 + n / 512 = b1 -> n / 2 mod 256 = b2 ->
  n mod 2 * 128 + (if encrypted then 64 else 0) + check * 16 = h3 -> h3 + crc4_ref [b1; b2; h3] = b3 ->
  spartn_frame ty encrypted check desc payload auth
    = 0x73 :: (b1 :: b2 :: b3 :: desc ++ payload ++ auth)
        ++ spartn_check check (b1 :: b2 :: b3 :: desc ++ payload ++ auth).
Proof. intros n <- <- <- <-. reflexivity. Qed.

(** A byte string with a correct header and check is what its parts encode. *)
Lemma spartn_frame_of m desc payload auth :
  bytes m -> spartn_header_ok m = true -> Z.of_nat (length payload) = spartn_payload m ->
  spartn_frame (byte m 1 / 2) (spartn_encrypted m) (spartn_check_type m) desc payload auth
    = 0x73 :: (byte m 1 :: byte m 2 :: byte m 3 :: desc ++ payload ++ auth)
        ++ spartn_check (spartn_check_type m) (byte m 1 :: byte m 2 :: byte m 3 :: desc ++ payload ++ auth).
Proof.
  intros Hb Hok Hpay. destruct (spartn_header_bytes m Hb) as (H1 & H2 & H3 & H4).
  unfold spartn_header_ok in Hok. apply Z.eqb_eq in Hok. rewrite <-Hpay in H1, H2, H3.
  apply (spartn_frame_eq _ _ _ _ _ _ _ _ _ _ H1 H2 H3). rewrite Hok. exact H4.
Qed.

Lemma spartn_complete_message m :
  bytes m -> lstarts fn_sempSpartnPreamble (default 0 (head m)) = true ->
  spartn_verdict m = Complete true -> lvalid_message fn_sempSpartnPreamble m.
Proof.
  intros Hb Hs Hv. assert (head m = Some 0x73) as Hh.
  { destruct m as [|s m]; [done|]. cbn in *. f_equal. lia. }
  unfold spartn_verdict in Hv. destruct (_ <? 4) eqn:E4; [done|].
  destruct (spartn_header_ok m) eqn:Hok; [|done]. cbn [negb] in Hv. destruct (_ || _) eqn:E; [done|].
  cbn zeta in Hv. apply complete_true, bool_decide_eq_true in Hv.
  pose proof (spartn_check_type_range m) as Hty.
  assert (Z.of_nat (length m) = spartn_end m + spartn_check_length m) as Hlen.
  { apply (f_equal (fun l => Z.of_nat (length l))) in Hv.
    rewrite spartn_check_length_eq, length_drop in Hv by done.
    unfold spartn_check_length in *. pose proof (spartn_payload_range m Hb).
    pose proof (spartn_embedded_range m). pose proof (spartn_description_range m). unfold spartn_end in *. lia. }
  destruct (spartn_split m Hlen ltac:(lia) Hb Hh)
    as (desc & payload & auth & ck & Hm & Hdesc & Hpay & Hauth & Hck & Htake).
  rewrite Hck, Htake in Hv. pose proof (spartn_frame_of m desc payload auth Hb Hok Hpay) as Hframe.
  rewrite <-Hv, <-!app_comm_cons, <-Hm in Hframe. rewrite <-Hframe.
  pose proof (spartn_description_range m) as Hd. rewrite <-app_assoc in Hm.
  destruct (spartn_description_read m _ _ _ _ _ _ Hm) as [Hr1 Hr2]; [lia|].
  pose proof (byte_range m 1 Hb) as Hb1. unfold is_u8 in Hb1.
  pose proof (spartn_payload_range m Hb) as Hp. apply lvalid_spartn. split.
  - clear -Hb1. mlia.
  - exact Hty.
  - rewrite Hdesc. exact Hr1.
  - clear -Hpay Hp E. lia.
  - rewrite <-(Hr2 Hdesc). exact Hauth.
Qed.

(* ------------------------------------------------------------------ *)
(** ** Reading a whole frame of the library's protocols

    The verdicts on the prefixes of an encoded frame: more bytes are needed until
    the last one, and then the frame is complete with a correct check. *)

Definition lframed (k : PREAMBLE_ROUTINE) (m : list Z) : Prop :=
  (forall j, (2 <= j < length m)%nat -> lib_verdict k (take j m) = Continue) /\
  lib_verdict k m = Complete true.

Lemma lframed_shared k v m :
  (forall m, lib_verdict k m = shared_verdict (v m)) -> framed v m -> lframed k m.
Proof.
  intros Hk [Hm Hd]. split; [|by rewrite Hk, Hd]. intros j Hj. by rewrite Hk, Hm.
Qed.

(** ** SBF *)

Lemma length_sbf_block id body : length (sbf_block id body) = (8 + length body)%nat.
Proof. unfold sbf_block. cbn zeta. cbn [length]. rewrite !length_app, !length_le_split. lia. Qed.

(** The verdict on a block of which [body] has been received. *)
Lemma sbf_verdict_header c1 c2 i1 i2 l1 l2 body :
  (l1 + 256 * l2) mod 4 = 0 ->
  sbf_verdict (0x24 :: 0x40 :: c1 :: c2 :: i1 :: i2 :: l1 :: l2 :: body) =
    if (l1 + 256 * l2 <=? 8) || (8 + Z.of_nat (length body) <? l1 + 256 * l2) then Continue
    else Complete ((8 + Z.of_nat (length body) =? l1 + 256 * l2) &&
                   (c1 + 256 * c2 =? crc16_ref 0 (i1 :: i2 :: l1 :: l2 :: body))).
Proof.
  intros Hm. unfold sbf_verdict. change (negb (0x40 =? 0x40)) with false. cbv iota zeta. rewrite Hm.
  change (negb (0 =? 0)) with false. cbv iota.
  replace (Z.of_nat (length (0x24 :: 0x40 :: c1 :: c2 :: i1 :: i2 :: l1 :: l2 :: body)))
    with (8 + Z.of_nat (length body)) by (cbn [length]; lia). done.
Qed.

Lemma le_split_2 v : 0 <= v < 65536 -> exists a b, le_split 2 v = [a; b] /\ a + 256 * b = v.
Proof. intros H. eexists _, _. split; [reflexivity|]. mlia. Qed.

Lemma sbf_framed id body :
  8 < 8 + Z.of_nat (length body) < 65536 -> (8 + Z.of_nat (length body)) mod 4 = 0 ->
  lframed fn_sempSbfPreamble (sbf_block id body).
Proof.
  intros Hn Hm. unfold sbf_block. cbn zeta.
  destruct (le_split_2 (8 + Z.of_nat (length body))) as (l1 & l2 & -> & Hl); [lia|].
  set (content := le_split 2 id ++ [l1; l2] ++ body).
  destruct (le_split_2 (crc16_ref 0 content)) as (c1 & c2 & -> & Hc); [apply crc16_ref_range|].
  unfold content in *. clear content. unfold le_split in *. cbn [app] in *.
  set (i1 := id mod 256) in *. set (i2 := id / 256 mod 256) in *. clearbody i1 i2. split.
  - intros j Hj. cbn [length] in Hj. do 8 (destruct j as [|j]; [done || lia|]). cbn [lib_verdict take].
    rewrite sbf_verdict_header by congruence. rewrite length_take.
    destruct (_ || _) eqn:E; [done|lia].
  - cbn [lib_verdict]. rewrite sbf_verdict_header by congruence. rewrite <-Hl, Hc, !Z.eqb_refl.
    destruct (_ || _) eqn:E; [lia|done].
Qed.

(** ** Unicore *)

Lemma length_unicore_frame a c payload :
  length a = 3%nat -> length c = 16%nat -> length (unicore_frame a c payload) = (28 + length payload)%nat.
Proof.
  intros Ha Hc. unfold unicore_frame. cbn zeta. rewrite length_app, length_le_split. cbn [length].
  rewrite !length_app, length_le_split. lia.
Qed.

Lemma unicore_framed a c payload :
  length a = 3%nat -> length c = 16%nat -> 1 <= Z.of_nat (length payload) < 65536 ->
  lframed fn_sempUnicoreBinaryPreamble (unicore_frame a c payload).
Proof.
  intros Ha Hc Hn. unfold unicore_frame. cbn zeta.
  destruct a as [|a0 [|a1 [|a2 [|]]]]; try done.
  destruct (le_split_2 (Z.of_nat (length payload))) as (l1 & l2 & -> & Hl); [lia|].
  set (m := 0xAA :: 0x44 :: 0xB5 :: [a0; a1; a2] ++ [l1; l2] ++ c ++ payload). set (ck := le_split 4 _).
  pose proof (length_le_split 4 _ : length ck = 4%nat) as Hck.
  assert (length m = 24 + length payload)%nat as Hm.
  { unfold m. cbn [app length]. rewrite length_app. lia. }
  assert (forall l, unicore_length (take 8 m ++ l) = length payload) as Hlen.
  { intros l. unfold unicore_length, get, m. cbn [take app drop offset size le_combine]. rewrite take_0. cbn [le_combine]. lia. }
  assert (forall j, (8 <= j)%nat -> take j (m ++ ck) = take 8 m ++ take (j - 8) (drop 8 (m ++ ck))) as Htake.
  { intros j Hj. replace j with (8 + (j - 8))%nat at 1 by lia. by rewrite <-take_take_drop. }
  assert (unicore_length (m ++ ck) = length payload) as Hall by apply (Hlen (drop 8 (m ++ ck))).
  split.
  - intros j Hj. cbn [lib_verdict]. destruct j as [|[|[|j]]]; [lia|lia|done|].
    erewrite unicore_verdict_synced by reflexivity. cbv zeta.
    destruct (_ || _)%nat eqn:E; [done|]. rewrite length_app in Hj. rewrite length_take, length_app in E.
    rewrite Htake, Hlen in E by lia. lia.
  - cbn [lib_verdict]. erewrite unicore_verdict_synced by reflexivity. cbv zeta.
    rewrite Hall, length_app. destruct (_ || _)%nat eqn:E; [lia|]. f_equal. apply bool_decide_eq_true.
    rewrite <-Hm. by rewrite take_app_length, drop_app_length.
Qed.

(** ** SPARTN *)

Lemma crc4_ref_range l : 0 <= crc4_ref l < 16.
Proof.
  assert (forall bits c, 0 <= c < 16 -> 0 <= foldl nibble_push c bits < 16) as H; [|by apply H].
  induction bits as [|b bits IH]; intros c Hc; [done|]. apply IH. unfold nibble_push.
  assert (0 <= Z.shiftr c 1 < 16) by (rewrite Z.shiftr_div_pow2 by lia; mlia).
  destruct (xorb _ _); [|done]. apply (lxor_range _ _ 4); [lia|done|lia].
Qed.

(** The bytes of a header hold its fields. *)
Lemma spartn_header_pack ty n e check c :
  0 <= ty < 128 -> 0 <= n < 1024 -> 0 <= e <= 1 -> 0 <= check < 4 -> 0 <= c < 16 ->
  let h3 := n mod 2 * 128 + e * 64 + check * 16 in
  is_u8 (h3 + c) /\ (h3 + c) / 16 * 16 = h3 /\ (h3 + c) mod 16 = c /\
  ((ty * 2 + n / 512) mod 2 * 256 + n / 2 mod 256) * 2 + (h3 + c) / 128 = n /\
  (h3 + c) / 64 mod 2 = e /\ (h3 + c) / 16 mod 4 = check.
Proof. intros H1 H2 H3 H4 H5 h3. unfold h3, is_u8. clear h3. split_and!; mlia. Qed.

(** What a header with the fields [ty], [n], [e] and [check] says. *)
Lemma spartn_header_reads m ty n e check :
  0 <= ty < 128 -> 0 <= n < 1024 -> 0 <= e <= 1 -> 0 <= check < 4 ->
  let h3 := n mod 2 * 128 + e * 64 + check * 16 in
  byte m 1 = ty * 2 + n / 512 -> byte m 2 = n / 2 mod 256 ->
  byte m 3 = h3 + crc4_ref [byte m 1; byte m 2; h3] ->
  spartn_header_ok m = true /\ spartn_payload m = n /\ spartn_encrypted m = (e =? 1) /\
  spartn_check_type m = check.
Proof.
  intros Hty Hn He Hck h3 H1 H2 H3. set (c := crc4_ref _) in H3.
  destruct (spartn_header_pack ty n e check c) as (H8 & Hhigh & Hlow & Hpay & Henc & Ht);
    [done..|apply crc4_ref_range|]. fold h3 in H8, Hhigh, Hlow, Hpay, Henc, Ht.
  unfold spartn_header_ok, spartn_payload, spartn_encrypted, spartn_check_type.
  rewrite H3, land_high, Hhigh, Hlow, Henc, Ht by done. split_and!; [apply Z.eqb_refl| |done|done].
  by rewrite H1, H2.
Qed.

Lemma spartn_frame_header ty encrypted check desc payload auth :
  spartn_parts ty encrypted check desc payload auth ->
  let m := spartn_frame ty encrypted check desc payload auth in
  spartn_header_ok m = true /\ spartn_payload m = Z.of_nat (length payload) /\
  spartn_encrypted m = encrypted /\ spartn_check_type m = check.
Proof.
  intros [Hty Hck _ Hp _] m.
  destruct (spartn_header_reads m ty (Z.of_nat (length payload)) (if encrypted then 1 else 0) check)
    as (H1 & H2 & H3 & H4); [done|lia|by destruct encrypted|done|reflexivity|reflexivity|..].
  - unfold m. by destruct encrypted.
  - split_and!; [done|done| |done]. rewrite H3. by destruct encrypted.
Qed.

Lemma length_spartn_frame ty encrypted check desc payload auth :
  0 <= check < 4 ->
  Z.of_nat (length (spartn_frame ty encrypted check desc payload auth)) =
    5 + Z.of_nat (length desc) + Z.of_nat (length payload) + Z.of_nat (length auth) + check.
Proof.
  intros Hc. unfold spartn_frame. cbn zeta. cbn [length]. rewrite length_app. cbn [length].
  rewrite !length_app. pose proof (spartn_check_length_eq check
    (ty * 2 + Z.of_nat (length payload) / 512 :: Z.of_nat (length payload) / 2 mod 256 ::
     Z.of_nat (length payload) mod 2 * 128 + (if encrypted then 64 else 0) + check * 16 +
     crc4_ref [ty * 2 + Z.of_nat (length payload) / 512; Z.of_nat (length payload) / 2 mod 256;
       Z.of_nat (length payload) mod 2 * 128 + (if encrypted then 64 else 0) + check * 16]
     :: desc ++ payload ++ auth) Hc). lia.
Qed.

(** Where the parts of an encoded frame end. *)
Lemma spartn_frame_layout ty encrypted check desc payload auth :
  spartn_parts ty encrypted check desc payload auth ->
  let m := spartn_frame ty encrypted check desc payload auth in
  spartn_description m = Z.of_nat (length desc) /\ spartn_embedded m = Z.of_nat (length auth) /\
  spartn_end m = 4 + Z.of_nat (length desc) + Z.of_nat (length payload) + Z.of_nat (length auth) /\
  Z.of_nat (length m) = spartn_end m + spartn_check_length m.
Proof.
  intros Hparts m. pose proof Hparts as [Hty Hck Hdesc Hp Hauth].
  destruct (spartn_frame_header _ _ _ _ _ _ Hparts) as (_ & Hpay & Henc & Htype). fold m in Hpay, Henc, Htype.
  assert (exists b1 b2 b3 l, m = 0x73 :: b1 :: b2 :: b3 :: desc ++ l) as (b1 & b2 & b3 & l & Hm).
  { eexists _, _, _, _. unfold m, spartn_frame. cbn zeta. rewrite <-!app_comm_cons, <-!app_assoc. reflexivity. }
  assert (0 < length desc)%nat as Hd.
  { unfold description_bytes in Hdesc. destruct (_ =? 1), encrypted; lia. }
  destruct (spartn_description_read m _ _ _ _ _ _ Hm Hd) as [Hd' He]. rewrite Henc in Hd', He.
  rewrite <-Hdesc in Hd'. specialize (He (eq_sym Hd')). rewrite <-Hauth in He.
  assert (spartn_end m = 4 + Z.of_nat (length desc) + Z.of_nat (length payload) + Z.of_nat (length auth)) as Hend
    by (unfold spartn_end; lia).
  split_and!; [done..|]. unfold m at 1. rewrite length_spartn_frame by done.
  unfold spartn_check_length. lia.
Qed.

(** A prefix of a frame is not complete. *)
Lemma spartn_prefix m j :
  spartn_header_ok m = true -> (j < length m)%nat ->
  Z.of_nat (length m) = spartn_end m + spartn_check_length m -> spartn_verdict (take j m) = Continue.
Proof.
  intros Hok Hj Hlen. pose proof (take_drop j m) as Hm. set (l := drop j m) in Hm. set (q := take j m) in *.
  assert (length q = j) as Hq by (unfold q; rewrite length_take; lia).
  destruct (decide (j < 4)%nat) as [H4|H4].
  { unfold spartn_verdict. destruct (_ <? 4) eqn:E; [done|lia]. }
  destruct (spartn_header_app q l ltac:(lia)) as (E1 & _ & _ & _). rewrite Hm, Hok in E1.
  apply spartn_continue; [lia|done|].
  destruct (decide (Z.of_nat j < 4 + spartn_description q)) as [Hd|Hd]; [by left; lia|].
  destruct (spartn_end_app q l) as [E2 E3]; [lia|]. rewrite Hm in E2, E3. right. right. lia.
Qed.

Lemma spartn_framed ty encrypted check desc payload auth :
  spartn_parts ty encrypted check desc payload auth ->
  lframed fn_sempSpartnPreamble (spartn_frame ty encrypted check desc payload auth).
Proof.
  intros Hparts. pose proof Hparts as [_ Hck _ Hp _].
  destruct (spartn_frame_header _ _ _ _ _ _ Hparts) as (Hok & Hpay & _ & Htype).
  destruct (spartn_frame_layout _ _ _ _ _ _ Hparts) as (Hd & He & Hend & Hlen).
  split; [intros j Hj; apply spartn_prefix; [done|lia|done]|]. cbn [lib_verdict].
  rewrite spartn_complete, Hend, Htype; [|unfold spartn_check_length in *; lia..]. f_equal.
  apply bool_decide_eq_true. unfold spartn_frame. cbn zeta. rewrite <-!app_comm_cons.
  set (ck := spartn_check check _). set (l := desc ++ payload ++ auth).
  replace (Z.to_nat _) with (4 + length l)%nat by (unfold l; rewrite !length_app; lia).
  cbn [Nat.add drop Nat.sub take]. by rewrite drop_app_length, take_app_length.
Qed.
