(* ===== verification/LibMachine.v ===== *)
(** * Properties of the library's machine

    The invariant of the machine's states, what it delivers and hands back, and
    for which parser tables every step is defined. *)
From S2P Require Import Prelude Crc ParseState FrameSpec Sentences Representation Messages.
From S2P Require Import MessageRuns LibParser ShiftRegister LibCrc LibCrcTheorems LibSpec LibRep.
From S2P Require Import LibMessages.

Definition ltextual (k : PREAMBLE_ROUTINE) : bool :=
  match k with fn_sempNmeaPreamble | fn_sempUnicoreHashPreamble => true | _ => false end.

(** The protocols whose routines are always defined. *)
Definition lsafe (k : PREAMBLE_ROUTINE) : bool :=
  match k with fn_sempUnicoreHashPreamble => false | _ => true end.

Lemma lframe_done k m :
  ltextual k = false -> bytes m -> lstarts k (default 0 (head m)) = true ->
  lib_verdict k m = Complete true -> lvalid_message k m.
Proof.
  intros Hk Hb Hs Hv. assert (exists b, head m = Some b /\ lstarts k b = true) as (b & Hh & Hsb).
  { destruct m as [|b m]; [|by exists b]. destruct k; done. }
  destruct k; try done; cbn [lib_verdict] in Hv.
  - eapply lvalid_shared; [done..|]. apply rtcm_done_message; [done|done|]. by destruct (rtcm_verdict m); simplify_eq/=.
  - eapply lvalid_shared; [done..|]. apply ublox_done; [done|done|]. by destruct (ublox_verdict m); simplify_eq/=.
  - by apply unicore_complete.
  - by apply spartn_complete_message.
  - by apply sbf_complete.
  - eapply lvalid_shared; [done..|]. apply custom_done_message; [done|done|]. by destruct (custom_verdict m); simplify_eq/=.
Qed.

(** A valid block is complete. *)
Lemma sbf_valid_complete m :
  lvalid_message fn_sempSbfPreamble m -> sbf_verdict m = Complete true /\ head m = Some 0x24.
Proof.
  remember fn_sempSbfPreamble as k eqn:Hk. destruct 1; simplify_eq.
  split; [|done]. by apply (sbf_framed id body).
Qed.

Section machine_theory.
  Context `{SU : LSetup}.
  Abbreviation step := (lspec_step lB ltable laccepts hands_back).
  Abbreviation run := (lspec_run lB ltable laccepts hands_back).

Definition linv (st : lspec_state) : Prop :=
  match st with
  | LScan => True
  | LFrame i k m =>
      ltable !! i = Some k /\ ltextual k = false /\ bytes m /\ lstarts k (default 0 (head m)) = true
  | LSentence i k sigil t =>
      ltable !! i = Some k /\ ltextual k = true /\ lstarts k sigil = true /\ text_fits lB (format k) sigil t
  | LEnding i k sigil t _ =>
      ltable !! i = Some k /\ ltextual k = true /\ lstarts k sigil = true /\
      text_fits lB (format k) sigil t /\ closed (format k) t = true
  end.

(** A message that the application accepted though its check failed. *)
Definition laccepted (i : Z) (m : list Z) : Prop :=
  exists raw, laccepts i raw = true /\ (m = raw \/ m = raw ++ [0x0D; 0x0A]).

(** What is delivered belongs to its protocol; what is handed back is no block. *)
Definition sound_item (x : item) : Prop :=
  match x with
  | Msg j m =>
      exists i k, j = Z.of_nat i /\ ltable !! i = Some k /\ (lvalid_message k m \/ laccepted j m)
  | Inv m => hands_back = true /\ ~ lvalid_message fn_sempSbfPreamble m
  end.

Lemma invalid_sound k m :
  (k = fn_sempSbfPreamble -> ~ lvalid_message fn_sempSbfPreamble m) ->
  Forall sound_item (invalid hands_back k m).
Proof.
  intros Hm. unfold invalid. destruct k; try done. destruct hands_back eqn:E; [|done].
  apply Forall_singleton. split; [done|auto].
Qed.

Lemma lbegin_inv i k b :
  ltable !! i = Some k -> lstarts k b = true -> is_u8 b -> linv (lbegin i k b).
Proof.
  intros Hk Hs Hb. destruct k; split_and!; try done; try by constructor.
  all: split; [cbn; lia|done].
Qed.

Lemma lscan_from_inv l i b st out :
  (forall j k, l !! j = Some k -> ltable !! (i + j)%nat = Some k) -> is_u8 b ->
  lscan_from hands_back l i b = (st, out) -> linv st /\ Forall sound_item out.
Proof.
  intros Hl Hb. revert i out Hl. induction l as [|k l IH]; intros i out Hl; cbn; [by intros [= <- <-]|].
  destruct (lstarts k b) eqn:E.
  - intros [= <- <-]. split; [|done]. apply lbegin_inv; [|done|done]. rewrite <-(Nat.add_0_r i). by apply Hl.
  - destruct (lscan_from hands_back l (S i) b) as [st' out'] eqn:Hs. intros [= <- <-].
    destruct (IH (S i) out') as [Hi Ho]; [|done|].
    { intros j k' Hj. rewrite Nat.add_succ_comm. by apply Hl. }
    split; [done|]. apply Forall_app. split; [|done]. apply invalid_sound. intros -> Hv.
    apply sbf_valid_complete in Hv as [_ [= ->]]. done.
Qed.

Lemma lscan_inv out b st out' :
  is_u8 b -> Forall sound_item out -> lscan ltable hands_back out b = Some (st, out') ->
  linv st /\ Forall sound_item out'.
Proof.
  unfold lscan. intros Hb Ho H. destruct (lscan_from hands_back ltable 0 b) as [st' o] eqn:E. simplify_eq.
  destruct (lscan_from_inv ltable 0 b st o) as [Hi Ho']; [done|done|done|].
  split; [done|]. by apply Forall_app.
Qed.

Lemma lframe_step_inv i k m b st out :
  linv (LFrame i k m) -> is_u8 b -> lframe_step ltable laccepts hands_back i k m b = Some (st, out) ->
  linv st /\ Forall sound_item out.
Proof.
  intros (Hk & Hbin & Hm & Hs) Hb. unfold lframe_step. destruct (lib_verdict k m) as [| | |ok] eqn:E.
  - by intros [= <- <-].
  - by apply lscan_inv.
  - intros [= <- <-]. split; [done|]. apply invalid_sound. intros -> [Hv _]%sbf_valid_complete.
    cbn [lib_verdict] in E. congruence.
  - intros [= <- <-]. split; [done|]. destruct ok; cbn [orb].
    + apply Forall_singleton. exists i, k. split_and!; [done..|]. left. by apply lframe_done.
    + destruct (laccepts _ _) eqn:Ea.
      * apply Forall_singleton. exists i, k. split_and!; [done..|]. right. exists m. auto.
      * apply invalid_sound. intros -> [Hv _]%sbf_valid_complete. cbn [lib_verdict] in E. congruence.
Qed.

Lemma lclosed_valid k sigil t :
  ltextual k = true -> lstarts k sigil = true -> text_fits lB (format k) sigil t ->
  closed (format k) t = true -> text_check t = true ->
  lvalid_message k (flatten sigil t ++ [0x0D; 0x0A]).
Proof.
  intros Ht Hs Hok Hc Hchk. destruct t as [| |name body digits]; try done.
  eapply (lvalid_shared k (format k)); [by destruct k|reflexivity|done|].
  apply (closed_valid lB); [by destruct k| |done..]. destruct k; try done. cbn in Hs |- *. by rewrite Hs.
Qed.

Lemma lfinish_sound i k sigil t out :
  linv (LEnding i k sigil t 0) -> lfinish lB laccepts i k sigil t = Some out ->
  Forall sound_item out.
Proof.
  intros (Hk & Ht & Hs & Hok & Hc) H. destruct t as [| |name body digits]; try done.
  assert (text_check (TSum name body digits) = true \/
      laccepts (Z.of_nat i) (flatten sigil (TSum name body digits)) = true ->
    sound_item (Msg (Z.of_nat i) (flatten sigil (TSum name body digits) ++ [0x0D; 0x0A]))) as Hsound.
  { intros [Hchk|Ha]; exists i, k; (split_and!; [done|done|]).
    - left. by apply lclosed_valid.
    - right. eexists. split; [exact Ha|auto]. }
  unfold lfinish, finish in H. destruct (2 <? _)%nat.
  - destruct (text_check _); cbn [andb] in H; [|by simplify_eq/=].
    destruct (_ <=? lB); simplify_eq/=; [|done]. apply Forall_singleton. apply Hsound. auto.
  - destruct (text_check _); [|destruct (laccepts _ _)]; cbn [orb] in H; simplify_eq/=; try done;
      (destruct (_ <=? lB); simplify_eq/=); apply Forall_singleton; apply Hsound; auto.
Qed.

Lemma lspec_step_inv st b st' out :
  linv st -> is_u8 b -> step st b = Some (st', out) -> linv st' /\ Forall sound_item out.
Proof.
  intros Hi Hb H. assert (forall out0, Forall sound_item out0 ->
    lscan ltable hands_back out0 b = Some (st', out) -> linv st' /\ Forall sound_item out) as Hscan.
  { intros out0 Hout. by apply lscan_inv. }
  destruct st as [|i k m|i k sigil t|i k sigil t e]; cbn [lspec_step] in H.
  - by eapply Hscan.
  - case_match; [by eapply Hscan|]. eapply lframe_step_inv; [|done|exact H].
    destruct Hi as (? & ? & Hm & Hs). split_and!; [done|done|by apply Forall_app; split; [|apply Forall_singleton]|].
    by destruct m; destruct k.
  - case_match; [by eapply Hscan|]. pose proof Hi as (Hk & Ht & Hs & Hok).
    destruct (closed _ t) eqn:Hc.
    + destruct (b =? 0x0D); [by simplify_eq|]. destruct (b =? 0x0A); [by simplify_eq|].
      destruct (lfinish _ _ _ _ _ _) as [out0|] eqn:Hf; [|done]. eapply Hscan; [|exact H].
      by eapply lfinish_sound.
    + destruct (text_step _ _ _ _ _) as [t'|] eqn:Hts; [|by eapply Hscan]. simplify_eq.
      split; [|done]. split_and!; try done. pose proof lB_range. eapply text_fits_step; [|done|done]. lia.
  - case_match; [by eapply Hscan|].
    destruct (lfinish _ _ _ _ _ _) as [out0|] eqn:Hf; [|done].
    assert (Forall sound_item out0) by by eapply lfinish_sound.
    destruct (b =? e); [by simplify_eq|]. by eapply Hscan.
Qed.

Lemma lspec_run_inv st l st' out :
  linv st -> bytes l -> run st l = Some (st', out) -> linv st' /\ Forall sound_item out.
Proof.
  intros Hi Hl. revert st out Hi. induction Hl as [|b l Hb Hl IH]; intros st out Hi; cbn [lspec_run].
  - by intros [= <- <-].
  - destruct (step st b) as [[st1 out1]|] eqn:E1; [|done].
    destruct (run st1 l) as [[st2 out2]|] eqn:E2; [|done]. intros [= <- <-].
    destruct (lspec_step_inv st b st1 out1 Hi Hb E1) as [Hi1 Ho1].
    destruct (IH st1 out2 Hi1 E2) as [Hi2 Ho2]. split; [done|]. by apply Forall_app.
Qed.

(** ** Tables without the Unicore hash parser *)

Section safe_table.
  Context (Hsafe : forallb lsafe ltable = true).

Lemma lscan_defined out b : is_Some (lscan ltable hands_back out b).
Proof. unfold lscan. destruct (lscan_from _ _ _ _). by eexists. Qed.

Lemma lfinish_defined i k sigil t :
  linv (LEnding i k sigil t 0) -> is_Some (lfinish lB laccepts i k sigil t).
Proof.
  intros (Hk & Ht & Hs & Hok & Hc). destruct t as [| |name body digits]; try done.
  assert (lsafe k = true) as Hsk.
  { rewrite forallb_forall in Hsafe. apply Hsafe. by eapply list_elem_of_In, list_elem_of_lookup_2. }
  destruct k; try done. cbn [format] in *. cbn in Hc. apply Nat.eqb_eq in Hc.
  destruct Hok as (_ & _ & _ & Hlen & _). cbn in Hlen.
  assert (Z.of_nat (length (flatten sigil (TSum name body digits))) + 3 <= lB) as Hfit.
  { rewrite length_flatten_sum. rewrite length_app in *. cbn in *. lia. }
  unfold lfinish, finish. cbn [format]. rewrite Hc. cbn -[flatten].
  destruct (_ || _); [|by eexists]. destruct (_ <=? lB) eqn:E; [by eexists|lia].
Qed.

Lemma lspec_step_defined st b : linv st -> is_Some (step st b).
Proof.
  intros Hi. pose proof (fun out => lscan_defined out b) as Hscan.
  destruct st as [|i k m|i k sigil t|i k sigil t e]; cbn [lspec_step].
  - done.
  - case_match; [done|]. unfold lframe_step. case_match; [by eexists|done|by eexists|by eexists].
  - case_match; [done|]. destruct Hi as (Hk & Ht & Hs & Hok). destruct (closed _ t) eqn:Hc.
    + destruct (b =? 0x0D); [by eexists|]. destruct (b =? 0x0A); [by eexists|].
      by destruct (lfinish_defined i k sigil t) as [out ->].
    + destruct (text_step _ _ _ _ _); [by eexists|done].
  - case_match; [done|]. destruct (lfinish_defined i k sigil t) as [out ->]; [done|].
    destruct (b =? e); [by eexists|done].
Qed.

Lemma lspec_run_defined st l : linv st -> bytes l -> is_Some (run st l).
Proof.
  intros Hi Hl. revert st Hi. induction Hl as [|b l Hb Hl IH]; intros st Hi; cbn [lspec_run]; [by eexists|].
  destruct (lspec_step_defined st b Hi) as [[st1 out1] E]. rewrite E.
  destruct (lspec_step_inv _ _ _ _ Hi Hb E) as [Hi1 _].
  destruct (IH st1 Hi1) as [[st2 out2] ->]. by eexists.
Qed.

End safe_table.
End machine_theory.
