(* ===== verification/LibLifecycle.v ===== *)
(** * Start of a library parser: what it establishes

    [sempBeginParser] of the C++ library rejects what it must reject and otherwise
    returns a structure that represents the scanning machine; setting the SBF
    parser's callback keeps it so. *)
From S2P Require Import Prelude BeginParser FrameSpec Lifecycle LibParser LibFramework LibSbf.
From S2P Require Import LibSpec LibRep.

Lemma lreturns_printf cb format args Q :
  forallb printable args = true -> Q tt -> returns (sempPrintf (S := unit) cb format args) Q.
Proof.
  intros Ha HQ. destruct (lsempPrintf_ok cb format args tt Ha) as (ev & Hp & _). by exists tt, ev.
Qed.

Lemma lreturns_println cb s Q : Q tt -> returns (sempPrintln (S := unit) cb s) Q.
Proof. intros HQ. unfold sempPrintln. destruct cb; by eexists tt, _. Qed.

#[export] Hint Resolve lreturns_printf lreturns_println : prints.

Lemma lSEMP_ALIGN_eq x : 0 <= x -> SEMP_ALIGN x = (x + 7) / 8 * 8.
Proof. exact (Lifecycle.SEMP_ALIGN_eq x). Qed.

Section allocate.
  Context `{Alloc : Allocator} `{Plat : Platform}.

(** The structure takes 64 bytes with 32-bit pointers and 112 with 64-bit ones. *)
Definition structure_bytes : Z := if wide then 112 else 64.

Lemma lsizeof_SEMP_PARSE_STATE_eq : SEMP_ALIGN sizeof_SEMP_PARSE_STATE = structure_bytes.
Proof. unfold structure_bytes, sizeof_SEMP_PARSE_STATE, ptr_bytes. destruct wide; vm_compute; reflexivity. Qed.

(** The block a parser with [n] scratch bytes and [len] buffer bytes needs. *)
Definition lblock_bytes (n len : Z) : Z :=
  structure_bytes + scratch_bytes n + Z.max 32 len.

Lemma usize_block n len :
  is_u16 n -> 0 <= len < 65536 ->
  usize (structure_bytes + scratch_bytes n + Z.max 32 len) = lblock_bytes n len.
Proof.
  intros Hn Hlen. pose proof (scratch_bytes_range n Hn). unfold lblock_bytes.
  unfold usize, ptr_bytes, structure_bytes. destruct wide; apply Z.mod_small; lia.
Qed.

Context `{AS : !AllocatorSpec Alloc}.

Lemma lsempAllocateParseStructure_returns dbg n len :
  is_u16 n -> 0 <= len < 65536 ->
  returns (sempAllocateParseStructure dbg n len) (fun r =>
    match malloc (lblock_bytes n len) with
    | None => r = None
    | Some block =>
        r = Some (Allocated dbg (replicate (Z.to_nat (scratch_bytes n)) 0)
                    (drop (Z.to_nat (structure_bytes + scratch_bytes n)) block)
                    (Z.max 32 len))
    end).
Proof.
  intros Hn Hlen. pose proof (scratch_bytes_range n Hn). unfold sempAllocateParseStructure.
  rewrite lsizeof_SEMP_PARSE_STATE_eq. skip_prints.
  apply (returns_bind _ _ (fun m => m = u16 ((n + 7) / 8 * 8))).
  { apply returns_if; rewrite lSEMP_ALIGN_eq by (unfold is_u16 in *; lia); intros E; cbn zeta; skip_prints.
    - by apply returns_ret.
    - apply returns_ret. unfold is_u16 in *. rewrite u16_id; [|unfold is_u16]; mlia. }
  intros m ->. apply (returns_bind _ _ (fun m => m = scratch_bytes n)).
  { unfold scratch_bytes. apply returns_if; intros E; change (SEMP_ALIGN _) with 24 in *; cbn zeta;
      skip_prints; apply returns_ret; lia || (rewrite u16_id; [lia|done]). }
  intros m ->. cbn zeta. skip_prints. apply (returns_bind _ _ (fun m => m = Z.max 32 len)).
  { apply returns_if; intros E; unfold SEMP_MINIMUM_BUFFER_LENGTH in *; skip_prints;
      apply returns_ret; lia. }
  intros m ->. cbn zeta. skip_prints. rewrite usize_block by done.
  destruct (malloc _) as [block|] eqn:Hm; [|by apply returns_ret].
  destruct (malloc_spec _ _ Hm) as [Hsize _]. apply returns_if; intros E; [unfold lblock_bytes in Hsize; lia|].
  skip_prints. apply returns_ret. rewrite u32_id; [done|unfold is_u32; lia].
Qed.

End allocate.

(* ------------------------------------------------------------------ *)
(** ** [sempBeginParser] *)

Lemma lsempPrintParserConfiguration_returns p print :
  is_Some (parserNames p !! Z.to_nat (type p)) ->
  returns (sempPrintParserConfiguration (Some p) print) (fun _ => True).
Proof.
  intros [name Hname]. unfold sempPrintParserConfiguration. destruct print as [f|]; [|by apply returns_ret].
  skip_prints. apply (returns_bind _ _ (fun _ => True)); [|intros ? _; by apply lreturns_printf].
  unfold sempGetTypeName. destruct (_ =? _); [by eexists _, _|].
  destruct (_ <? _); [|by eexists _, _]. rewrite Hname. by eexists _, _.
Qed.

(** The conditions on the arguments. *)
Definition larguments_ok (name : option string) (tbl : option (list PREAMBLE_ROUTINE)) (count : Z)
    (names : option (list string)) (namesCount : Z) (eomCallback : callback) : Prop :=
  count = namesCount /\ is_Some tbl /\ is_Some names /\ is_Some eomCallback /\
  is_Some name /\ name <> Some "" /\ count <> 0.

Section begin.
  Context `{Alloc : Allocator} `{AS : !AllocatorSpec Alloc} `{Plat : Platform}.

(** The structure of a new parser. *)
Definition lstarted name tbl count names eomCallback err dbg badCrc n len block : SEMP_PARSE_STATE :=
  mkParse tbl names fn_sempFirstByte eomCallback badCrc None name
    (replicate (Z.to_nat (scratch_bytes n)) 0) err dbg 0
    (drop (Z.to_nat (structure_bytes + scratch_bytes n)) block)
    (Z.max 32 len) count 0 0.

Lemma lsempBeginParser_returns name tbl count names namesCount n len eomCallback err dbg badCrc :
  is_u16 n -> 0 <= len < 65536 ->
  (forall l, names = Some l -> Z.of_nat (length l) = namesCount) ->
  returns (sempBeginParser tbl count names namesCount n len eomCallback name err dbg badCrc)
    (fun r =>
       match r with
       | None => ~ larguments_ok name tbl count names namesCount eomCallback
                 \/ malloc (lblock_bytes n len) = None
       | Some p =>
           larguments_ok name tbl count names namesCount eomCallback /\
           exists block, malloc (lblock_bytes n len) = Some block /\
             p = lstarted (default "" name) (default [] tbl) count (default [] names)
                   eomCallback err dbg badCrc n len block
       end).
Proof.
  intros Hn Hlen Hnames. unfold sempBeginParser, larguments_ok.
  destruct (Z.eqb_spec count namesCount) as [<-|]; cbn [negb];
    [|skip_prints; apply returns_ret; tauto].
  destruct tbl as [tbl|]; [|skip_prints; apply returns_ret; left; by intros (_ & [? [=]] & _)].
  destruct names as [names|]; [|skip_prints; apply returns_ret; left; by intros (_ & _ & [? [=]] & _)].
  destruct eomCallback as [f|]; [|skip_prints; apply returns_ret; left; by intros (_ & _ & _ & [? [=]] & _)].
  destruct name as [[|c name]|];
    [skip_prints; apply returns_ret; tauto| |
     skip_prints; apply returns_ret; left; by intros (_ & _ & _ & _ & [? [=]] & _)].
  destruct (Z.eqb_spec count 0); [skip_prints; apply returns_ret; tauto|].
  eapply returns_bind; [by apply lsempAllocateParseStructure_returns|]. cbn beta. intros r Hr.
  destruct (malloc (lblock_bytes n len)) as [block|] eqn:Hm; subst r.
  - apply returns_then.
    + apply lsempPrintParserConfiguration_returns. cbn [parserNames type].
      apply lookup_lt_is_Some_2.
      specialize (Hnames _ eq_refl). lia.
    + apply returns_ret. split; [by split_and!|]. by exists block.
  - skip_prints. apply returns_ret. by right.
Qed.

End begin.

Section started.
  Context `{SU : LSetup} `{Alloc : Allocator} `{AS : !AllocatorSpec Alloc} `{Plat : Platform}.

(** A new parser scans, and so it does once its callback is set. *)
Lemma lstarted_scans name names err dbg n len block sp :
  is_u16 n -> 0 <= len < 65536 -> lB = Z.max 32 len -> malloc (lblock_bytes n len) = Some block ->
  pad_ok sp -> pointer_kept sp ->
  LR (with_scratchPad sp
       (lstarted name ltable (Z.of_nat (length ltable)) names (Some leom) err dbg lbad n len block)) LScan.
Proof.
  intros Hn Hlen HB Hm Hsp Hk. destruct (malloc_spec _ _ Hm) as [Hsize Hbytes].
  pose proof (scratch_bytes_range n Hn) as Hs. pose proof lB_range as Hr.
  unfold lblock_bytes in Hsize. unfold lstarted, structure_bytes in *.
  generalize dependent (scratch_bytes n). intros s Hsize Hs. split; [|done].
  split; cbn -[Z.add Z.mul]; try done; try lia.
  - rewrite length_drop. destruct wide; lia.
  - by apply Forall_drop.
Qed.

Lemma zero_pad n f : is_u16 n -> get f (replicate (Z.to_nat (scratch_bytes n)) 0) = 0.
Proof.
  intros Hn. unfold get. rewrite drop_replicate, take_replicate. generalize (size f `min` (Z.to_nat (scratch_bytes n) - offset f))%nat.
  intros k. induction k as [|k IH]; [done|]. cbn [replicate le_combine]. lia.
Qed.

(** A new parser scans if its callback is not set or does not matter, and once
    it is set. *)
Lemma lstarted_callback name names err dbg n len block :
  is_u16 n -> 0 <= len < 65536 -> lB = Z.max 32 len -> malloc (lblock_bytes n len) = Some block ->
  0 <= callback_pointer < 256 ^ Z.of_nat ptr_bytes ->
  let p := lstarted name ltable (Z.of_nat (length ltable)) names (Some leom) err dbg lbad n len block in
  (has_sbf = false \/ callback_pointer = 0 -> LR p LScan) /\
  (has_sbf = true -> exists p',
     sempSbfSetInvalidDataCallback callback_pointer p = Ok (tt, p', []) /\ LR p' LScan).
Proof.
  intros Hn Hlen HB Hm Hptr p. pose proof (scratch_bytes_range n Hn).
  assert (pad_ok (scratchPad p)) as Hpad.
  { split; [cbn; rewrite length_replicate; unfold pad_size, lib_pad; lia|]. by apply Forall_replicate. }
  split.
  - intros H0. change p with (with_scratchPad (scratchPad p) p). apply lstarted_scans; try done.
    destruct H0 as [H0|H0]; [by apply pointer_free|]. intros _. rewrite H0. by apply zero_pad.
  - intros _. eexists. split; [reflexivity|]. apply lstarted_scans; try done.
    + apply pad_ok_put; [done|]. apply pointer_in_pad.
    + intros _. rewrite pad_get_eq; [|done|apply pointer_in_pad]. by apply Z.mod_small.
Qed.

End started.
