(* ===== verification/LibRoundTrip.v ===== *)
(** * Every message is delivered by the library's machine

    Scanning, it outputs exactly the message it is fed, for every encoder, and
    passes over bytes that start no message.  In between the SBF parser hands
    back the bytes it does not know, so the statements are about the messages. *)
From S2P Require Import Prelude Crc ParseState FrameSpec Sentences Representation SentenceRefine.
From S2P Require Import Messages MessageRuns LibParser ShiftRegister LibCrc LibCrcTheorems.
From S2P Require Import LibSpec LibRep LibSpartnRefine LibMessages LibMachine.

(** The messages among what the application receives. *)
Definition item_message (x : item) : option (Z * list Z) :=
  match x with Msg i m => Some (i, m) | Inv _ => None end.
Definition delivered_messages (o : items) : output := omap item_message o.

Lemma delivered_messages_app o o' :
  delivered_messages (o ++ o') = delivered_messages o ++ delivered_messages o'.
Proof. apply omap_app. Qed.

Section round_trip.
  Context `{SU : LSetup}.
  Abbreviation step := (lspec_step lB ltable laccepts hands_back).
  Abbreviation run := (lspec_run lB ltable laccepts hands_back).

(** A run that ends in a state and delivers messages, whatever is handed back. *)
Definition reaches (st : lspec_state) (l : list Z) (st' : lspec_state) (o : output) : Prop :=
  exists out, run st l = Some (st', out) /\ delivered_messages out = o.

Lemma reaches_app st l st1 o1 l' st2 o2 :
  reaches st l st1 o1 -> reaches st1 l' st2 o2 -> reaches st (l ++ l') st2 (o1 ++ o2).
Proof.
  intros (out1 & H1 & <-) (out2 & H2 & <-). exists (out1 ++ out2).
  by rewrite lspec_run_app, H1, H2, delivered_messages_app.
Qed.

Lemma reaches_step st b st' out : step st b = Some (st', out) -> reaches st [b] st' (delivered_messages out).
Proof. intros H. exists out. cbn [lspec_run]. rewrite H. by rewrite app_nil_r. Qed.

Lemma reaches_cons st b st1 l st2 o :
  step st b = Some (st1, []) -> reaches st1 l st2 o -> reaches st (b :: l) st2 o.
Proof. intros H1 H2. exact (reaches_app _ [b] _ [] l _ _ (reaches_step _ _ _ _ H1) H2). Qed.

(** ** The scan *)

(** The first parser of the table that knows the byte [b]. *)
Definition lfirst_parser (i : nat) (k : PREAMBLE_ROUTINE) (b : Z) : Prop :=
  ltable !! i = Some k /\ lstarts k b = true /\
  forall j k', (j < i)%nat -> ltable !! j = Some k' -> lstarts k' b = false.

Lemma lfirst_parser_intro i k b :
  ltable !! i = Some k -> lstarts k b = true ->
  forallb (fun k' => negb (lstarts k' b)) (take i ltable) = true -> lfirst_parser i k b.
Proof.
  intros Hk Hs Hf. split_and!; [done|done|]. intros j k' Hj Hk'. rewrite forallb_forall in Hf.
  apply negb_true_iff, Hf, list_elem_of_In, list_elem_of_lookup. exists j. by rewrite lookup_take_lt.
Qed.

Lemma invalid_no_message k m : delivered_messages (invalid hands_back k m) = [].
Proof. unfold invalid. destruct k; try done. by destruct hands_back. Qed.

Lemma lfirst_parser_scan i k b :
  lfirst_parser i k b -> reaches LScan [b] (lbegin i k b) [].
Proof.
  intros (Hk & Hs & Hmin).
  assert (forall l n, (forall j, l !! j = ltable !! (n + j)%nat) -> (n <= i)%nat ->
    exists out, lscan_from hands_back l n b = (lbegin i k b, out) /\ delivered_messages out = []) as H.
  { induction l as [|k' l IH]; intros n Hl Hn.
    - specialize (Hl (i - n)%nat). replace (n + (i - n))%nat with i in Hl by lia. by rewrite Hk in Hl.
    - cbn. pose proof (Hl 0%nat) as H0. rewrite Nat.add_0_r in H0. cbn in H0.
      destruct (decide (n = i)) as [->|Hne].
      + rewrite Hk in H0. injection H0 as ->. rewrite Hs. by eexists.
      + rewrite (Hmin n k') by (done || lia). destruct (IH (S n)) as (out & -> & Hout); [|lia|].
        * intros j. specialize (Hl (S j)). rewrite Nat.add_succ_comm. exact Hl.
        * eexists. split; [reflexivity|]. by rewrite delivered_messages_app, invalid_no_message. }
  destruct (H ltable 0%nat) as (out & Hout & Hno); [done|lia|].
  rewrite <-Hno. apply reaches_step. cbn [lspec_step]. unfold lscan. by rewrite Hout.
Qed.

(** Bytes between messages: no parser of the table knows them. *)
Definition lnoise (l : list Z) : Prop :=
  Forall (fun b => forallb (fun k => negb (lstarts k b)) ltable = true) l.

Lemma lnoise_scan out b :
  forallb (fun k => negb (lstarts k b)) ltable = true ->
  exists out', lscan ltable hands_back out b = Some (LScan, out ++ out') /\ delivered_messages out' = [].
Proof.
  intros H. unfold lscan.
  assert (forall l i, forallb (fun k => negb (lstarts k b)) l = true ->
    exists out, lscan_from hands_back l i b = (LScan, out) /\ delivered_messages out = []) as Hs.
  { induction l as [|k l IH]; intros i Hl; cbn in *; [by eexists|].
    apply andb_true_iff in Hl as [Hk%negb_true_iff Hl]. rewrite Hk. destruct (IH (S i) Hl) as (o & -> & Ho).
    eexists. split; [reflexivity|]. by rewrite delivered_messages_app, invalid_no_message. }
  destruct (Hs ltable 0%nat H) as (o & -> & Ho). by exists o.
Qed.

Lemma lnoise_run l : lnoise l -> reaches LScan l LScan [].
Proof.
  induction 1 as [|b l Hb Hl IH]; [by exists []|].
  destruct (lnoise_scan [] b Hb) as (o & Ho & Hno). change [] with (@nil (Z * list Z) ++ []).
  apply (reaches_app LScan [b] LScan [] l LScan []); [|done]. rewrite <-Hno. by apply reaches_step.
Qed.

(** ** Binary frames *)

Lemma lframe_run i k l m :
  l <> [] -> Z.of_nat (length (m ++ l)) <= lB ->
  (forall j, (0 < j < length l)%nat -> lib_verdict k (m ++ take j l) = Continue) ->
  lib_verdict k (m ++ l) = Complete true ->
  reaches (LFrame i k m) l LScan [(Z.of_nat i, m ++ l)].
Proof.
  revert m. induction l as [|b l IH]; intros m Hne HB Hmore Hdone; [done|].
  rewrite length_app in HB. cbn [length] in HB.
  replace (m ++ b :: l) with ((m ++ [b]) ++ l) in * by (by rewrite <-app_assoc).
  destruct l as [|b' l].
  - rewrite app_nil_r in *. eapply (reaches_step _ _ _ [Msg _ _]). cbn [lspec_step].
    destruct (lB <=? _) eqn:E; [lia|]. unfold lframe_step. by rewrite Hdone.
  - pose proof (Hmore 1%nat ltac:(cbn; lia)) as H1. cbn [take] in H1.
    apply (reaches_cons _ _ (LFrame i k (m ++ [b]))).
    + cbn [lspec_step]. destruct (lB <=? _) eqn:E; [lia|]. unfold lframe_step. by rewrite H1.
    + apply IH; [done| | |done].
      * rewrite !length_app. cbn [length] in *. lia.
      * intros j Hj. specialize (Hmore (S j)). cbn [take length] in Hmore.
        rewrite <-app_assoc. apply Hmore. cbn [length] in Hj. lia.
Qed.

(** A whole frame, from its preamble byte on. *)
Lemma lframe_delivered i k b m :
  lfirst_parser i k b -> ltextual k = false -> lframed k m -> head m = Some b ->
  (2 <= length m)%nat -> Z.of_nat (length m) <= lB -> reaches LScan m LScan [(Z.of_nat i, m)].
Proof.
  intros Hi Hbin [Hmore Hdone] Hb H2 HB. destruct m as [|? l]; [done|]. injection Hb as ->.
  apply (reaches_app LScan [b] (LFrame i k [b]) []).
  - assert (LFrame i k [b] = lbegin i k b) as -> by by destruct k. by apply lfirst_parser_scan.
  - apply (lframe_run i k l [b]); [by destruct l; cbn in *; [lia|]|done| |done].
    intros j Hj. apply (Hmore (S j)). cbn. lia.
Qed.

(** ** Sentences *)

Lemma lsentence_text_run i k sigil t l t' :
  text_run lB (format k) sigil t l = Some t' -> reaches (LSentence i k sigil t) l (LSentence i k sigil t') [].
Proof.
  revert t. induction l as [|b l IH]; intros t; cbn [text_run]; [by intros [= ->]; exists []|].
  destruct (closed _ t) eqn:Hc, (lB <=? _) eqn:HB; try done. cbn [orb].
  destruct (text_step _ _ _ _ _) as [t1|] eqn:Ht; [|done]. intros H.
  apply (reaches_cons _ _ (LSentence i k sigil t1)); [|by apply IH]. cbn [lspec_step]. by rewrite HB, Hc, Ht.
Qed.

(** CR and LF end a complete sentence. *)
Lemma lsentence_delivered i k sigil t :
  lfirst_parser i k sigil -> ltextual k = true -> complete_text lB (format k) sigil t ->
  Z.of_nat (length (flatten sigil t)) + 3 <= lB ->
  reaches LScan (flatten sigil t ++ [0x0D; 0x0A]) LScan [(Z.of_nat i, flatten sigil t ++ [0x0D; 0x0A])].
Proof.
  intros Hi Hk Ht HB. pose proof (complete_finish lB laccepts _ i (format k) _ _ Ht HB) as Hf.
  assert (lfinish lB laccepts i k sigil t = Some [Msg (Z.of_nat i) (flatten sigil t ++ [0x0D; 0x0A])]) as Hlf
    by (unfold lfinish; by rewrite Hf). clear Hf.
  pose proof (ct_closed _ _ _ _ Ht) as Hc.
  assert ((lB <=? Z.of_nat (length (flatten sigil t))) = false) as E by lia.
  apply (reaches_app LScan (flatten sigil t) (LSentence i k sigil t) []).
  - destruct Ht as [(l & -> & Hl) _ _]. apply (reaches_app LScan [sigil] (LSentence i k sigil (TName [])) []).
    + assert (LSentence i k sigil (TName []) = lbegin i k sigil) as -> by by destruct k. by apply lfirst_parser_scan.
    + by apply lsentence_text_run.
  - apply (reaches_cons _ _ (LEnding i k sigil t 0x0A)); [cbn [lspec_step]; by rewrite E, Hc|].
    eapply (reaches_step _ _ _ [Msg _ _]). cbn [lspec_step]. by rewrite E, Hlf.
Qed.

(** ** Streams *)

(** A message of the protocol at index [i], as a sender encodes it, that fits the
    buffer.  The code loses RTCM frames with fewer than three bytes of data,
    Bluetooth, Unicore and SPARTN frames without payload and SBF blocks of a header
    only, so these are not among them. *)
Inductive lsent : nat -> list Z -> Prop :=
| lsent_ublox i class id payload :
    lfirst_parser i fn_sempUbloxPreamble 0xb5 ->
    Z.of_nat (length payload) < 65536 -> Z.of_nat (length payload) + 8 <= lB ->
    lsent i (ublox_frame class id payload)
| lsent_rtcm i payload :
    lfirst_parser i fn_sempRtcmPreamble 0xd3 ->
    3 <= Z.of_nat (length payload) < 1024 -> Z.of_nat (length payload) + 6 <= lB ->
    lsent i (rtcm_frame payload)
| lsent_bluetooth i a c payload :
    lfirst_parser i fn_sempBluetoothPreamble 0xAA -> length a = 9%nat -> length c = 6%nat ->
    1 <= Z.of_nat (length payload) < 65536 -> Z.of_nat (length payload) + 24 <= lB ->
    lsent i (custom_frame a c payload)
| lsent_unicore i a c payload :
    lfirst_parser i fn_sempUnicoreBinaryPreamble 0xAA -> length a = 3%nat -> length c = 16%nat ->
    1 <= Z.of_nat (length payload) < 65536 -> Z.of_nat (length payload) + 28 <= lB ->
    lsent i (unicore_frame a c payload)
| lsent_sbf i id body :
    lfirst_parser i fn_sempSbfPreamble 0x24 ->
    8 < 8 + Z.of_nat (length body) <= lB -> (8 + Z.of_nat (length body)) mod 4 = 0 ->
    lsent i (sbf_block id body)
| lsent_spartn i ty encrypted check desc payload auth :
    lfirst_parser i fn_sempSpartnPreamble 0x73 ->
    spartn_parts ty encrypted check desc payload auth ->
    Z.of_nat (length (spartn_frame ty encrypted check desc payload auth)) <= lB ->
    lsent i (spartn_frame ty encrypted check desc payload auth)
| lsent_nmea i name body :
    lfirst_parser i fn_sempNmeaPreamble 0x24 -> sentence_name name ->
    Forall (fun b => b <> 0x2A) body -> bytes (name ++ 0x2C :: body) ->
    Z.of_nat (length (name ++ 0x2C :: body)) + 7 <= lB ->
    lsent i (nmea_sentence 0x24 name body)
| lsent_hash i name body :
    lfirst_parser i fn_sempUnicoreHashPreamble 0x23 -> sentence_name name ->
    Forall (fun b => b <> 0x2A) body -> bytes (name ++ 0x2C :: body) ->
    Z.of_nat (length (name ++ 0x2C :: body)) + 13 <= lB ->
    lsent i (hash_sentence name body).

Lemma lsent_delivered i m : lsent i m -> reaches LScan m LScan [(Z.of_nat i, m)].
Proof.
  pose proof lB_range as HB. assert (32 <= lB) as H32 by lia.
  destruct 1 as [i class id payload Hi Hn Hl|i payload Hi Hn Hl|i a c payload Hi Ha Hc Hn Hl
    |i a c payload Hi Ha Hc Hn Hl|i id body Hi Hn Hm|i ty enc ck desc payload auth Hi Hp Hl
    |i name body Hi Hname Hbody Hb Hl|i name body Hi Hname Hbody Hb Hl].
  - eapply lframe_delivered; [exact Hi|done| |done|rewrite length_ublox_frame; lia..].
    by apply (lframed_shared _ ublox_verdict), ublox_framed.
  - eapply lframe_delivered; [exact Hi|done| |done|rewrite length_rtcm_frame; lia..].
    by apply (lframed_shared _ rtcm_verdict), rtcm_framed.
  - eapply lframe_delivered; [exact Hi|done| |done|rewrite length_custom_frame by done; lia..].
    by apply (lframed_shared _ custom_verdict), custom_framed.
  - eapply lframe_delivered; [exact Hi|done|by apply unicore_framed|done|rewrite length_unicore_frame by done; lia..].
  - eapply lframe_delivered; [exact Hi|done| |done|rewrite length_sbf_block; lia..].
    apply sbf_framed; [lia|done].
  - eapply lframe_delivered; [exact Hi|done|by apply spartn_framed|done| |done].
    destruct (spartn_frame_layout _ _ _ _ _ _ Hp) as (_ & _ & Hend & Hlen).
    pose proof (spartn_check_type_range (spartn_frame ty enc ck desc payload auth)).
    unfold spartn_check_length in Hlen. lia.
  - destruct (nmea_sentence_text lB name body H32 Hname Hbody Hb 0x24 Hl) as (-> & Ht & Hfit).
    by apply lsentence_delivered with (k := fn_sempNmeaPreamble).
  - destruct (hash_sentence_text lB name body H32 Hname Hbody Hb) as (-> & Ht & Hlen).
    apply lsentence_delivered with (k := fn_sempUnicoreHashPreamble); [done|done| |].
    + apply Ht; [destruct (contains_MODEb name)|]; lia.
    + rewrite Hlen. destruct (contains_MODEb name); lia.
Qed.

(** A stream of messages with noise around them, and what it carries. *)
Inductive lstream : list Z -> output -> Prop :=
| lstream_end l : lnoise l -> lstream l []
| lstream_message l i m rest out :
    lnoise l -> lsent i m -> lstream rest out -> lstream (l ++ m ++ rest) ((Z.of_nat i, m) :: out).

Lemma lstream_run l out : lstream l out -> reaches LScan l LScan out.
Proof.
  induction 1 as [l Hl|l i m rest out Hl Hm Hs IH]; [by apply lnoise_run|].
  apply (reaches_app _ _ _ [] _ _ ((Z.of_nat i, m) :: out) (lnoise_run l Hl)).
  by apply (reaches_app _ _ _ [(Z.of_nat i, m)] _ _ out (lsent_delivered i m Hm)).
Qed.

End round_trip.

(* ------------------------------------------------------------------ *)
(** ** The library's machine returns to its scan

    A buffer's length of bytes that start no message ends whatever message is
    under way. *)

Section recovery.
  Context `{SU : LSetup}.
  Abbreviation step := (lspec_step lB ltable laccepts hands_back).
  Abbreviation run := (lspec_run lB ltable laccepts hands_back).

(** How many more bytes a message under way can take, at least one. *)
Definition lpatience (st : lspec_state) : Z :=
  match st with
  | LScan => 0
  | LFrame _ _ m => Z.max 0 (lB - Z.of_nat (length m)) + 2
  | LSentence _ _ sigil t => Z.max 0 (lB - Z.of_nat (length (flatten sigil t))) + 2
  | LEnding _ _ sigil t _ => Z.max 0 (lB - Z.of_nat (length (flatten sigil t))) + 1
  end.

Lemma lpatience_step st b st' out :
  forallb (fun k => negb (lstarts k b)) ltable = true -> step st b = Some (st', out) ->
  lpatience st' <= Z.max 0 (lpatience st - 1).
Proof.
  intros Hb H. assert (forall out0, lscan ltable hands_back out0 b = Some (st', out) -> st' = LScan) as Hscan.
  { intros out0 H0. destruct (lnoise_scan out0 b Hb) as (o & Ho & _). congruence. }
  destruct st as [|i k m|i k sigil t|i k sigil t e]; cbn [lspec_step] in H.
  - by apply Hscan in H as ->.
  - destruct (lB <=? _) eqn:E; [apply Hscan in H as ->; cbn; lia|]. unfold lframe_step in H.
    destruct (lib_verdict _ _); [simplify_eq|apply Hscan in H as ->|simplify_eq..]; cbn; try lia.
    rewrite length_app. cbn. lia.
  - destruct (lB <=? _) eqn:E; [apply Hscan in H as ->; cbn [lpatience]; lia|]. destruct (closed _ t).
    + destruct (b =? 0x0D); [simplify_eq; cbn [lpatience]; lia|].
      destruct (b =? 0x0A); [simplify_eq; cbn [lpatience]; lia|].
      destruct (lfinish _ _ _ _ _ _); [|done]. apply Hscan in H as ->. cbn [lpatience]. lia.
    + destruct (text_step _ _ _ _ _) as [t'|] eqn:Et; [|apply Hscan in H as ->; cbn [lpatience]; lia].
      simplify_eq. apply flatten_step in Et. cbn [lpatience]. rewrite Et, length_app. cbn [length]. lia.
  - destruct (lB <=? _) eqn:E; [apply Hscan in H as ->; cbn [lpatience]; lia|].
    destruct (lfinish _ _ _ _ _ _); [|done].
    destruct (b =? e); [simplify_eq|apply Hscan in H as ->]; cbn [lpatience]; lia.
Qed.

Lemma lpatience_run st l st' out :
  lnoise l -> run st l = Some (st', out) -> lpatience st' <= Z.max 0 (lpatience st - Z.of_nat (length l)).
Proof.
  intros Hl. revert st out. induction Hl as [|b l Hb Hl IH]; intros st out; cbn [lspec_run length].
  - intros [= <- <-]. lia.
  - destruct (step st b) as [[st1 out1]|] eqn:E1; [|done].
    destruct (run st1 l) as [[st2 out2]|] eqn:E2; [|done]. intros [= <- <-].
    pose proof (lpatience_step _ _ _ _ Hb E1). specialize (IH _ _ E2). lia.
Qed.

Lemma lpatience_max st : linv st -> lpatience st <= lB + 1.
Proof.
  pose proof lB_range. destruct st as [|i k [|b m]|i k sigil t|i k sigil t e]; cbn; try lia.
  intros (_ & Hbin & _ & Hs). by destruct k.
Qed.

Lemma lrecovers st l st' out :
  linv st -> lnoise l -> lB < Z.of_nat (length l) -> run st l = Some (st', out) -> st' = LScan.
Proof.
  intros Hi Hl HB H. pose proof (lpatience_run _ _ _ _ Hl H). pose proof (lpatience_max st Hi).
  destruct st'; cbn [lpatience] in *; [done|lia..].
Qed.

End recovery.
