(* ===== verification/LibConserve.v ===== *)
(** * Where every byte goes, and frames that hold the parser

    A parser for SBF alone with its callback set accounts for every byte it is
    fed: it is part of a delivered block, handed back, still pending, or lost with
    a block that filled the buffer.  Blocks and frames with a length below what
    the code counts down hold the parser until then. *)
From S2P Require Import Prelude Crc ParseState FrameSpec Sentences Representation Messages.
From S2P Require Import MessageRuns LibParser ShiftRegister LibCrc LibCrcTheorems LibSpec LibRep.
From S2P Require Import LibSpartnRefine LibMessages LibMachine LibRoundTrip.

Definition item_bytes (x : item) : list Z := match x with Msg _ m => m | Inv m => m end.

Section conserve.
  Context `{SU : LSetup}.
  Abbreviation step := (lspec_step lB ltable laccepts hands_back).
  Abbreviation run := (lspec_run lB ltable laccepts hands_back).

(** [accounted l out rest]: the bytes [l] are, in order, those of [out], of
    unfinished blocks of the size of the buffer, and [rest]. *)
Inductive accounted : list Z -> items -> list Z -> Prop :=
| accounted_rest m : accounted m [] m
| accounted_item x l out rest : accounted l out rest -> accounted (item_bytes x ++ l) (x :: out) rest
| accounted_lost c l out rest :
    Z.of_nat (length c) = lB -> sbf_verdict c = Continue -> accounted l out rest ->
    accounted (c ++ l) out rest.

(** Without a block that fills the buffer nothing is lost. *)
Lemma accounted_short l out rest :
  accounted l out rest -> Z.of_nat (length l) < lB -> l = concat (item_bytes <$> out) ++ rest.
Proof.
  induction 1 as [m|x l out rest H IH|c l out rest Hc _ H IH]; intros Hl; [done| |].
  - rewrite length_app in Hl. rewrite IH by lia. cbn. by rewrite app_assoc.
  - rewrite length_app in Hl. lia.
Qed.

Definition pending (st : lspec_state) : list Z := match st with LFrame _ _ m => m | _ => [] end.

Section sbf_only.
  Context (Htable : ltable = [fn_sempSbfPreamble]) (Hback : hands_back = true).

Definition sbf_state (st : lspec_state) : Prop :=
  match st with
  | LScan => True
  | LFrame i k m => i = 0%nat /\ k = fn_sempSbfPreamble /\ sbf_verdict m = Continue /\
                    Z.of_nat (length m) <= lB
  | _ => False
  end.

Lemma sbf_scan b :
  lscan ltable hands_back [] b
    = Some (if b =? 0x24 then (LFrame 0 fn_sempSbfPreamble [b], []) else (LScan, [Inv [b]])).
Proof. unfold lscan. rewrite Htable, Hback. cbn. by destruct (b =? 0x24). Qed.

Lemma sbf_step_accounted st b st' out :
  sbf_state st -> step st b = Some (st', out) ->
  sbf_state st' /\
  (out = [] /\ pending st' = pending st ++ [b] \/
   (exists x, out = [x] /\ item_bytes x = pending st ++ [b] /\ pending st' = []) \/
   Z.of_nat (length (pending st)) = lB /\ sbf_verdict (pending st) = Continue /\
   lscan ltable hands_back [] b = Some (st', out)).
Proof.
  pose proof lB_range as HB. intros Hst H. assert (forall st out, lscan ltable hands_back [] b = Some (st, out) ->
    sbf_state st /\ (out = [] /\ pending st = [b] \/ out = [Inv [b]] /\ pending st = [])) as Hscan.
  { intros st0 out0 Hs. rewrite sbf_scan in Hs. destruct (b =? 0x24); simplify_eq; cbn; [|by auto].
    split; [split_and!; done || lia|by auto]. }
  destruct st as [|i k m| |]; try done; cbn [lspec_step pending] in *.
  - destruct (Hscan _ _ H) as [Hs Hcase]. split; [done|].
    destruct Hcase as [[-> ->]|[-> ->]]; [by left|]. right. left. by eexists.
  - destruct Hst as (-> & -> & Hv & Hl). destruct (lB <=? _) eqn:E.
    + destruct (Hscan _ _ H) as [Hs _]. split; [done|]. right. right. split_and!; [lia|done|done].
    + unfold lframe_step in H. destruct (lib_verdict _ _) as [| | |ok] eqn:Ev; cbn [lib_verdict] in Ev.
      * simplify_eq. split; [|by left]. cbn [sbf_state]. rewrite length_app. cbn [length]. split_and!; done || lia.
      * exfalso. revert Ev. unfold sbf_verdict. repeat case_match; congruence.
      * simplify_eq. unfold invalid. rewrite Hback. split; [done|]. right. left. by eexists.
      * simplify_eq. split; [done|]. right. left. unfold invalid. rewrite Hback.
        destruct (ok || _); by eexists.
Qed.

Lemma sbf_run_state st l st' out : sbf_state st -> run st l = Some (st', out) -> sbf_state st'.
Proof.
  revert st out. induction l as [|b l IH]; intros st out Hst; cbn [lspec_run]; [by intros [= <- <-]|].
  destruct (step st b) as [[st1 out1]|] eqn:E1; [|done].
  destruct (run st1 l) as [[st2 out2]|] eqn:E2; [|done]. intros [= <- <-].
  destruct (sbf_step_accounted st b st1 out1 Hst E1) as [Hst1 _]. by eapply IH.
Qed.

Lemma sbf_run_accounted st l st' out :
  sbf_state st -> run st l = Some (st', out) -> accounted (pending st ++ l) out (pending st').
Proof.
  revert st out. induction l as [|b l IH]; intros st out Hst; cbn [lspec_run].
  - intros [= <- <-]. rewrite app_nil_r. constructor.
  - destruct (step st b) as [[st1 out1]|] eqn:E1; [|done].
    destruct (run st1 l) as [[st2 out2]|] eqn:E2; [|done]. intros [= <- <-].
    destruct (sbf_step_accounted st b st1 out1 Hst E1) as [Hst1 Hcase].
    specialize (IH st1 out2 Hst1 E2). replace (pending st ++ b :: l) with ((pending st ++ [b]) ++ l)
      by by rewrite <-app_assoc.
    destruct Hcase as [[-> Hp]|[(x & -> & Hx & Hp)|(Hl & Hv & Hs)]].
    + by rewrite <-Hp.
    + rewrite <-Hx. rewrite Hp in IH. by constructor.
    + rewrite <-app_assoc. apply accounted_lost; [done|done|].
      rewrite sbf_scan in Hs. destruct (b =? 0x24); simplify_eq; [done|].
      by apply (accounted_item (Inv [b])).
Qed.

End sbf_only.

(** ** Frames that are never complete *)

Lemma lstuck_run i k l m :
  Z.of_nat (length (m ++ l)) <= lB ->
  (forall j, (0 < j <= length l)%nat -> lib_verdict k (m ++ take j l) = Continue) ->
  run (LFrame i k m) l = Some (LFrame i k (m ++ l), []).
Proof.
  revert m. induction l as [|b l IH]; intros m HB Hm; [by rewrite app_nil_r|].
  rewrite length_app in HB. cbn [length] in HB. cbn [lspec_run lspec_step].
  destruct (lB <=? _) eqn:E; [lia|]. unfold lframe_step.
  pose proof (Hm 1%nat ltac:(cbn; lia)) as H1. change (lib_verdict k (m ++ [b]) = Continue) in H1. rewrite H1.
  replace (m ++ b :: l) with ((m ++ [b]) ++ l) by (by rewrite <-app_assoc). rewrite IH; [done| |].
  - rewrite !length_app. cbn. lia.
  - intros j Hj. rewrite <-app_assoc. apply (Hm (S j)). cbn. lia.
Qed.

(** The SBF parser takes its first byte without handing anything back. *)
Lemma sbf_first_scan i :
  lfirst_parser i fn_sempSbfPreamble 0x24 ->
  lscan ltable hands_back [] 0x24 = Some (LFrame i fn_sempSbfPreamble [0x24], []).
Proof.
  intros (Hk & _ & Hmin). unfold lscan.
  assert (forall l n, (forall j, l !! j = ltable !! (n + j)%nat) -> (n <= i)%nat ->
    lscan_from hands_back l n 0x24 = (LFrame i fn_sempSbfPreamble [0x24], [])) as H;
    [|by rewrite (H ltable 0%nat) by (done || lia)].
  induction l as [|k' l IH]; intros n Hl Hn.
  - specialize (Hl (i - n)%nat). replace (n + (i - n))%nat with i in Hl by lia. by rewrite Hk in Hl.
  - cbn [lscan_from]. pose proof (Hl 0%nat) as H0. rewrite Nat.add_0_r in H0. cbn in H0.
    destruct (decide (n = i)) as [->|Hne]; [rewrite Hk in H0; by simplify_eq|].
    pose proof (Hmin n k' ltac:(lia) (eq_sym H0)) as Hs. rewrite Hs, IH; [by destruct k'| |lia].
    intros j. specialize (Hl (S j)). rewrite Nat.add_succ_comm. exact Hl.
Qed.

(** A block whose length field says at most eight, the length of its header. *)
Lemma sbf_short_stuck i c1 c2 i1 i2 n l :
  lfirst_parser i fn_sempSbfPreamble 0x24 -> n = 0 \/ n = 4 \/ n = 8 ->
  let m := 0x24 :: 0x40 :: c1 :: c2 :: i1 :: i2 :: n :: 0 :: l in
  Z.of_nat (length m) <= lB -> run LScan m = Some (LFrame i fn_sempSbfPreamble m, []).
Proof.
  intros Hi Hn m HB. unfold m in *. set (r := 0x40 :: _) in *. cbn [lspec_run lspec_step].
  rewrite (sbf_first_scan i), (lstuck_run i fn_sempSbfPreamble r [0x24]); [done|done| |done].
  intros j _. unfold r.
  do 7 (destruct j as [|j]; [done|]). cbn [take lib_verdict app].
  rewrite sbf_verdict_header by by destruct Hn as [->|[->| ->]].
  destruct Hn as [->|[->| ->]]; cbn [orb Z.leb]; done.
Qed.

(** A SPARTN frame without payload. *)
Lemma spartn_empty_stuck i m :
  lfirst_parser i fn_sempSpartnPreamble 0x73 -> head m = Some 0x73 ->
  spartn_payload m = 0 -> spartn_header_ok m = true -> (4 <= length m)%nat -> Z.of_nat (length m) <= lB ->
  reaches LScan m (LFrame i fn_sempSpartnPreamble m) [].
Proof.
  intros Hi Hh Hp Hok Hl HB. destruct m as [|b l]; [cbn in Hl; lia|]. injection Hh as ->.
  apply (reaches_app LScan [0x73] (LFrame i fn_sempSpartnPreamble [0x73]) [] l _ []);
    [by apply (lfirst_parser_scan i fn_sempSpartnPreamble)|].
  eexists. split; [apply (lstuck_run i fn_sempSpartnPreamble l [0x73] HB)|done].
  intros j Hj. change (spartn_verdict (take (S j) (0x73 :: l)) = Continue).
  pose proof (take_drop (S j) (0x73 :: l)) as Hm. set (q := take _ _) in *.
  assert (length q = S j) as Hq by (unfold q; rewrite length_take; cbn in *; lia).
  destruct (decide (S j < 4)%nat).
  - unfold spartn_verdict. destruct (_ <? 4) eqn:E; [done|lia].
  - destruct (spartn_header_app q (drop (S j) (0x73 :: l)) ltac:(lia)) as (E1 & E2 & _).
    rewrite Hm, Hok in E1. rewrite Hm, Hp in E2.
    apply spartn_continue; [lia|exact (eq_sym E1)|right; left; exact (eq_sym E2)].
Qed.

End conserve.
