(* ===== verification/LibOverlap.v ===== *)
(** * The SBF callback shares its bytes with other parsers

    The scratch areas of the library's parsers are one union.  With 64-bit pointers
    the first byte of the SBF parser's callback is the NMEA parser's name length:
    a table with both calls the callback at another address. *)
From S2P Require Import Prelude Sentences LibParser LibFramework LibText LibSbf LibNextByte.
From S2P Require Import LibRep.

(** The callback after its first byte has been overwritten with zero. *)
Lemma callback_after_name `{Plat : Platform} sp ptr :
  wide = true -> pad_ok sp -> 0 <= ptr < 2 ^ 64 ->
  get sbf_invalidDataCallback (put nmea_sentenceNameLength 0 (put sbf_invalidDataCallback ptr sp))
    = ptr / 256 * 256.
Proof.
  intros Hw [Hlen Hb] Hptr. unfold sbf_invalidDataCallback, ptr_bytes. rewrite Hw.
  unfold get, put, nmea_sentenceNameLength. cbn [offset size Nat.add].
  change (le_split 8 ptr) with (ptr mod 256 :: le_split 7 (ptr / 256)). change (le_split 1 0) with [0].
  set (a := take 16 sp). assert (length a = 16%nat) as Ha.
  { unfold a. rewrite length_take. unfold pad_size, lib_pad in Hlen. lia. }
  rewrite (take_app_length' a) by done. rewrite (drop_app_length' a _ 16) by done.
  rewrite (drop_app_ge a) by lia. rewrite Ha. cbn [Nat.sub app drop take].
  rewrite drop_0, (take_app_length' (le_split 7 _)) by by rewrite length_le_split. cbn [le_combine].
  rewrite le_combine_split; [lia|]. change (256 ^ Z.of_nat 7) with (2 ^ 56). mlia.
Qed.

Section overlap.
  Context `{App : Application} `{Plat : Platform}.

Lemma lib_push_ok p v n :
  msgLength p = n -> 0 <= n < 65535 -> n < Z.of_nat (length (buffer p)) ->
  buffer_push v p
    = Ok (tt, with_buffer (<[Z.to_nat n := v]> (buffer p)) (with_msgLength (n + 1) p), []).
Proof.
  intros Hn Hr Hl. unfold buffer_push, buffer_set. rewrite bind_gets, Hn, bind_modify, bind_gets.
  rewrite u16_id by (unfold is_u16; lia). unfold lift, bind. cbn [id buffer with_msgLength].
  by rewrite store_ok by lia.
Qed.

(** A parser that knows NMEA and SBF, in this order, and its buffer. *)
Record mixed (p : SEMP_PARSE_STATE) : Prop := {
  mixed_parsers : parsers p = [fn_sempNmeaPreamble; fn_sempSbfPreamble];
  mixed_count : parserCount p = 2;
  mixed_crc : computeCrc p = None;
  mixed_length : bufferLength p = Z.of_nat (length (buffer p));
  mixed_room : 32 <= bufferLength p < 65536;
  mixed_pad : pad_ok (scratchPad p)
}.

(** The structure when the scan reaches the parser table. *)
Definition scanned (b : Z) (p : SEMP_PARSE_STATE) : SEMP_PARSE_STATE :=
  with_buffer (<[0%nat := b]> (buffer p)) (with_msgLength 1 (with_type 2 (with_msgLength 0
    (with_computeCrc None (with_crc 0 p))))).

Lemma mixed_scan b p : mixed p -> sempFirstByte b p = walk_parsers 2 0 b (scanned b p).
Proof.
  intros [Hps Hc Hcrc Hlen Hroom Hpad]. unfold sempFirstByte. rewrite !bind_modify, bind_gets, bind_modify.
  cbn [parserCount with_msgLength with_computeCrc with_crc]. rewrite Hc.
  by rewrite (bind_silent _ _ _ _ _ (lib_push_ok (with_type 2 (with_msgLength 0
    (with_computeCrc None (with_crc 0 p)))) b 0 eq_refl ltac:(lia) ltac:(cbn; lia))).
Qed.

Lemma mixed_scanned b p : mixed p -> mixed (scanned b p).
Proof.
  intros [Hps Hc Hcrc Hlen Hroom Hpad]. split; cbn; try done. by rewrite length_insert.
Qed.

(** A byte in the middle of a message. *)
Lemma mixed_received b p n :
  mixed p -> msgLength p = n -> 0 <= n < 32 ->
  exists p', sempParseNextByte b p = (call_state (state p) b;; ret tt)%c p' /\ mixed p' /\
    scratchPad p' = scratchPad p.
Proof.
  intros [Hps Hc Hcrc Hlen Hroom Hpad] Hn Hr. unfold sempParseNextByte. rewrite !bind_gets, Hn.
  destruct (bufferLength p <=? n) eqn:E; [lia|].
  rewrite (bind_silent _ _ _ _ _ (lib_push_ok p b n Hn ltac:(lia) ltac:(lia))), bind_gets.
  cbn [computeCrc with_buffer with_msgLength]. rewrite Hcrc, bind_ret, bind_gets.
  cbn [state with_buffer with_msgLength]. eexists. split; [reflexivity|]. split; [|done].
  split; cbn; try done. by rewrite length_insert.
Qed.

Lemma walk_head n index b p k :
  parsers p !! Z.to_nat index = Some k ->
  walk_parsers (S n) index b p
    = (found <- call_preamble k b;;
       if (found : bool) then modify (with_type (u16 index));; ret true
       else walk_parsers n (index + 1) b)%c p.
Proof. intros Hk. cbn [walk_parsers]. by rewrite bind_gets, Hk. Qed.

Lemma nmea_preamble_dollar p :
  sempNmeaPreamble 0x24 p = Ok (true, with_state fn_sempNmeaFindFirstComma
    (with_scratchPad (put nmea_sentenceNameLength 0 (scratchPad p)) p), []).
Proof. reflexivity. Qed.

(** The dollar sign starts a sentence: the name has no characters yet. *)
Lemma mixed_dollar p :
  mixed p -> state p = fn_sempFirstByte -> msgLength p = 0 ->
  exists p', sempParseNextByte 0x24 p = Ok (tt, p', []) /\ mixed p' /\
    state p' = fn_sempNmeaFindFirstComma /\ msgLength p' = 1 /\
    scratchPad p' = put nmea_sentenceNameLength 0 (scratchPad p).
Proof.
  intros Hp Hs Hn. destruct (mixed_received 0x24 p 0 Hp Hn ltac:(lia)) as (q & -> & Hq & Hsp).
  rewrite Hs. cbn [call_state]. unfold bind at 1. rewrite mixed_scan by done.
  pose proof (mixed_scanned 0x24 q Hq) as [Hps Hc Hcrc Hlen Hroom Hpad].
  set (q1 := scanned _ _) in *. rewrite (walk_head _ _ _ _ fn_sempNmeaPreamble) by by rewrite Hps.
  cbn [call_preamble lib_preambles]. rewrite (bind_silent _ _ _ _ _ (nmea_preamble_dollar q1)). cbn beta iota. rewrite bind_modify.
  eexists. split; [reflexivity|]. split_and!; [|reflexivity|reflexivity|].
  - by split; [..|apply pad_ok_put].
  - change (scratchPad (with_type _ (with_state _ (with_scratchPad ?x _)))) with x.
    change (scratchPad q1) with (scratchPad q). by rewrite Hsp.
Qed.

(** The scan of a byte that starts nothing asks the SBF parser, which calls its
    callback. *)
Lemma mixed_first_wild p address :
  mixed p -> get sbf_invalidDataCallback (scratchPad p) = address -> address <> 0 ->
  routine_at address = None -> sempFirstByte 0 p = Ub WildCall.
Proof.
  intros Hp Ha Hz Hr. rewrite mixed_scan by done. pose proof (mixed_scanned 0 p Hp) as [Hps _ _ _ _ _].
  rewrite (walk_head _ _ _ _ fn_sempNmeaPreamble) by by rewrite Hps.
  change (call_preamble fn_sempNmeaPreamble 0) with (ret (S := SEMP_PARSE_STATE) (E := Event) false).
  rewrite bind_ret. cbn beta iota. rewrite (walk_head _ _ _ _ fn_sempSbfPreamble) by by rewrite Hps.
  cbn [call_preamble lib_preambles]. apply bind_ub.
  change (sempSbfPreamble 0) with (call_invalidDataCallback;; ret false)%c.
  apply bind_ub. unfold call_invalidDataCallback, pad_get. rewrite bind_gets.
  change (scratchPad (scanned 0 p)) with (scratchPad p). rewrite Ha.
  destruct (Z.eqb_spec address 0); [done|]. by rewrite Hr.
Qed.

(** A byte that is no name character restarts the scan. *)
Lemma mixed_callback p address :
  mixed p -> state p = fn_sempNmeaFindFirstComma -> msgLength p = 1 ->
  get sbf_invalidDataCallback (scratchPad p) = address -> address <> 0 -> routine_at address = None ->
  sempParseNextByte 0 p = Ub WildCall.
Proof.
  intros Hp Hs Hn Ha Hz Hr. destruct (mixed_received 0 p 1 Hp Hn ltac:(lia)) as (q & -> & Hq & Hsp).
  rewrite Hs. apply bind_ub. cbn [call_state]. unfold sempNmeaFindFirstComma, pad_get.
  rewrite bind_gets, bind_modify, bind_gets. change (negb (0 =? 0x2C)) with true.
  change (invalid_name_character 0) with true. cbn [orb]. rewrite !bind_gets.
  set (q' := with_crc _ _). assert (mixed q') as Hq' by (by destruct Hq; split).
  destruct (lsempPrintf_ok (printDebug q') "SEMP %s: NMEA invalid sentence name character 0x%02x"
    [AStr (parserName q'); AInt 0] q' eq_refl) as (ev & Hprt & _). rewrite (bind_ok _ _ _ _ _ _ Hprt).
  rewrite (mixed_first_wild q' address Hq'); [done| |done|done].
  change (scratchPad q') with (scratchPad q). by rewrite Hsp.
Qed.

End overlap.
