(* ===== verification/LibTheorems.v ===== *)
(** * What the C++ library guarantees

    The theorems about the library's [sempBeginParser] and [sempParseNextByte],
    from the refinement and the theory of the machine, each with an instance on a
    parser that is started and fed concrete bytes. *)
From S2P Require Import Prelude Crc BeginParser FrameSpec Lifecycle Messages MessageRuns.
From S2P Require Import LibParser LibFramework ShiftRegister LibCrc LibCrcTheorems LibText LibSbf LibReports.
From S2P Require Import LibSpartn LibNextByte LibSpec LibRep LibRefine LibMessages LibMachine.
From S2P Require Import LibLifecycle LibRoundTrip LibConserve LibOverlap.

(* ------------------------------------------------------------------ *)
(** ** A sample application *)

Module LibSample.

#[export] Instance lib_platform : Platform := true.

(** An application that never overrides a failed check, with one routine. *)
#[export] Instance lib_application : Application := {|
  badCrc_fn := fun _ _ => true;
  routine_at := fun a => if a =? 0x4010 then Some 7%nat else None |}.

#[export] Instance lib_allocator : Allocator := fun n =>
  if 0 <=? n then Some (replicate (Z.to_nat n) 0xCC) else None.

#[export] Instance lib_allocator_spec : AllocatorSpec lib_allocator.
Proof.
  intros n block. unfold malloc, lib_allocator. destruct (0 <=? n) eqn:E; [|done]. intros [= <-].
  rewrite length_replicate. split; [lia|]. by apply Forall_replicate.
Qed.

(** The parsers of [t] with a buffer of 100 bytes and a callback. *)
#[program] Definition lib_setup (t : list PREAMBLE_ROUTINE) (ptr : Z)
    (Ht : Z.of_nat (length t) < 65536) (Ho : existsb is_sbf t && existsb overlaps_callback t = false)
    (Hp : ptr = 0 \/ is_Some (routine_at ptr)) : LSetup := {|
  lB := 100; ltable := t; leom := 1; lbad := None; laccepts := fun _ _ => false;
  callback_pointer := ptr |}.
Solve All Obligations with done.

Definition wide_table : list PREAMBLE_ROUTINE :=
  [fn_sempNmeaPreamble; fn_sempRtcmPreamble; fn_sempUbloxPreamble; fn_sempSpartnPreamble;
   fn_sempUnicoreBinaryPreamble].
Definition sbf_table : list PREAMBLE_ROUTINE := [fn_sempSbfPreamble].
Definition mixed_table : list PREAMBLE_ROUTINE := [fn_sempNmeaPreamble; fn_sempSbfPreamble].

Definition wide_setup : LSetup := lib_setup wide_table 0 eq_refl eq_refl (or_introl eq_refl).
Definition sbf_setup : LSetup :=
  lib_setup sbf_table 0x4010 eq_refl eq_refl (or_intror (ex_intro _ 7%nat eq_refl)).

(** The parser [sempBeginParser] returns for a table, 20 scratch bytes and a
    buffer of 100 bytes, and with the callback set. *)
Definition lib_parser (t : list PREAMBLE_ROUTINE) : SEMP_PARSE_STATE :=
  match sempBeginParser (Some t) (Z.of_nat (length t)) (Some (map (fun _ => "name") t))
          (Z.of_nat (length t)) 20 100 (Some 1%nat) (Some "sample") None None None tt with
  | Ok (Some p, _, _) => p
  | _ => lstarted "" [] 0 [] None None None None 0 0 []
  end.

Definition lib_parser_with (t : list PREAMBLE_ROUTINE) (ptr : Z) : SEMP_PARSE_STATE :=
  match sempSbfSetInvalidDataCallback ptr (lib_parser t) with
  | Ok (_, p, _) => p
  | Ub _ => lib_parser t
  end.

(** The memory of the sample parsers. *)
Definition sample_block : list Z := default [] (malloc (lblock_bytes 20 100)).

Definition sample_started (t : list PREAMBLE_ROUTINE) : SEMP_PARSE_STATE :=
  lstarted "sample" t (Z.of_nat (length t)) (map (fun _ => "name") t) (Some 1%nat) None None None
    20 100 sample_block.

Lemma sample_scans (SU : LSetup) t ptr :
  ltable = t -> leom = 1%nat -> lbad = None -> lB = 100 -> callback_pointer = ptr ->
  0 <= ptr < 2 ^ 64 ->
  (has_sbf = false \/ ptr = 0 -> LR (sample_started t) LScan) /\
  (has_sbf = true -> exists p', sempSbfSetInvalidDataCallback ptr (sample_started t) = Ok (tt, p', []) /\
                                LR p' LScan).
Proof.
  intros <- He Hb HB <- Hptr. unfold sample_started. rewrite <-He, <-Hb.
  apply lstarted_callback; [done|done|by rewrite HB|reflexivity|done].
Qed.

Lemma wide_scans : LR (SU := wide_setup) (lib_parser wide_table) LScan.
Proof.
  change (lib_parser wide_table) with (sample_started wide_table).
  apply (sample_scans wide_setup wide_table 0); try done. by right.
Qed.

Lemma sbf_scans : LR (SU := sbf_setup) (lib_parser_with sbf_table 0x4010) LScan.
Proof.
  unfold lib_parser_with. change (lib_parser sbf_table) with (sample_started sbf_table).
  destruct (proj2 (sample_scans sbf_setup sbf_table 0x4010 eq_refl eq_refl eq_refl eq_refl eq_refl
    ltac:(lia)) eq_refl) as (p' & -> & HR). exact HR.
Qed.

(** A sentence, an RTCM frame, a u-blox frame, a SPARTN frame with embedded
    authentication data, a Unicore frame and an SBF block. *)
Definition lib_sentence : list Z :=
  nmea_sentence 0x24 [0x47; 0x50; 0x47; 0x47; 0x41] [0x31; 0x32; 0x2E; 0x35; 0x2C; 0x4E].
Definition lib_rtcm : list Z := rtcm_frame [0x3E; 0xD0; 0; 3; 0xFF].
Definition lib_ublox : list Z := ublox_frame 1 7 [1; 2; 3; 4].
Definition lib_spartn : list Z :=
  spartn_frame 2 true 2 [0; 0; 0; 0; 0; 0x10] [1; 2; 3; 4; 5] [9; 9; 9; 9; 9; 9; 9; 9].
Definition lib_unicore : list Z := unicore_frame [0; 17; 0] (replicate 16 5) [9; 8; 7].
Definition lib_sbf : list Z := sbf_block 4007 [1; 2; 3; 4; 5; 6; 7; 8].

Definition lib_traffic : list Z :=
  [0; 1] ++ lib_sentence ++ [0x55] ++ lib_rtcm ++ lib_ublox ++ lib_spartn ++ lib_unicore.

Lemma lib_traffic_bytes : bytes lib_traffic.
Proof. apply bytesb_spec. vm_compute. reflexivity. Qed.



End LibSample.

(* ------------------------------------------------------------------ *)
(** ** The byte interface *)

Section guarantees.
  Context `{SU : LSetup} `{Plat : Platform}.

(** C6: Feeding a parser of the C++ library any bytes refines a run of the
    abstract machine from any state it represents, for every table of its eight
    protocols that does not combine SBF with NMEA, Unicore hash or SPARTN, whose
    working values overlap the SBF parser's callback ([LSetup]): the calls write
    outside the buffer exactly when the machine is undefined, and otherwise the
    structure represents the machine's state, the application received exactly the
    messages and the invalid data the machine outputs, and the structure it
    received with a message holds that message's number, type or name. *)
Theorem lib_parse_bytes_refines p st l :
  LR p st -> bytes l -> lrefines (parse_bytes l) p (lspec_run lB ltable laccepts hands_back st l).
Proof. apply lparse_bytes_run. Qed.

(** C7: A table without the Unicore hash parser that does not combine SBF with
    NMEA or SPARTN is memory safe on every input: every call returns and the
    structure stays well formed. *)
Theorem lib_safe p l :
  forallb lsafe ltable = true -> LR p LScan -> bytes l ->
  exists p' ev, parse_bytes l p = Ok (tt, p', ev) /\ lwf p'.
Proof.
  intros Hsafe HR Hl. pose proof (lparse_bytes_run LScan p l HR Hl) as Hrun.
  destruct (lspec_run_defined Hsafe LScan l I Hl) as [[st out] E]. rewrite E in Hrun.
  destruct Hrun as ([] & p' & ev & Hp & [Hwf _] & _). by exists p', ev.
Qed.

(** C8: Without a [badCrc] callback, and for a table that does not combine SBF
    with NMEA, Unicore hash or SPARTN, every message the application receives, on
    any input, is a message of the protocol at the index it is reported with,
    its lengths and check included, and nothing that the SBF parser hands back
    is a valid SBF block. *)
Theorem lib_delivered_valid p l p' ev :
  lbad = None -> LR p LScan -> bytes l -> parse_bytes l p = Ok (tt, p', ev) ->
  Forall (fun x => match x with
                   | Msg j m => exists i k, j = Z.of_nat i /\ ltable !! i = Some k /\ lvalid_message k m
                   | Inv m => ~ lvalid_message fn_sempSbfPreamble m
                   end) (ldelivered ev).
Proof.
  intros Hbad HR Hl Hp. pose proof (lparse_bytes_run LScan p l HR Hl) as Hrun.
  destruct (lspec_run lB ltable laccepts hands_back LScan l) as [[st out]|] eqn:E.
  - destruct Hrun as (a & q & ev' & Hq & _ & Hev & _). rewrite Hp in Hq. simplify_eq.
    destruct (lspec_run_inv LScan l st _ I Hl E) as [_ Hs]. eapply Forall_impl; [exact Hs|].
    intros [j m|m] Hx; [|by destruct Hx].
    destruct Hx as (i & k & Hi & Hk & [Hv|(raw & Ha & _)]); [by exists i, k|].
    pose proof laccepts_spec as Hacc. rewrite Hbad in Hacc. by rewrite Hacc in Ha.
  - unfold lrefines in Hrun. congruence.
Qed.

(** What the accessors of the parser at an index say of a message: the class and
    number of a u-blox frame, the number of an RTCM message, the type of a SPARTN
    frame, the number and revision of an SBF block, the name of a sentence. *)
Definition reported (k : PREAMBLE_ROUTINE) (p : SEMP_PARSE_STATE) (m : list Z) : Prop :=
  match k with
  | fn_sempUbloxPreamble => sempUbloxGetMessageNumber p = 256 * byte m 2 + byte m 3
  | fn_sempRtcmPreamble => sempRtcmGetMessageNumber p = 16 * byte m 3 + byte m 4 / 16
  | fn_sempSpartnPreamble => sempSpartnGetMessageType p = byte m 1 / 2
  | fn_sempSbfPreamble =>
      sempSbfGetBlockNumber p = (byte m 4 + 256 * byte m 5) mod 8192 /\ sempSbfGetBlockRevision p = byte m 5 / 32
  | fn_sempNmeaPreamble => c_string (sempNmeaGetSentenceName p) = Ok (before_comma (tail m))
  | fn_sempUnicoreHashPreamble => c_string (sempUnicoreHashGetSentenceName p) = Ok (before_comma (tail m))
  | _ => True
  end.

Lemma eom_delivered ev c q j : EvEom c q j ∈ ev -> Msg j (lmessage q) ∈ ldelivered ev.
Proof.
  intros Hin. apply list_elem_of_split in Hin as (l1 & l2 & ->). rewrite ldelivered_app. cbn.
  apply elem_of_app. right. by left.
Qed.

(** C9: Whatever a parser is fed, for a table that does not combine SBF with NMEA,
    Unicore hash or SPARTN, an application that calls the accessors of a
    message's protocol in its end-of-message callback reads the number, type,
    revision or name that the bytes of that very message hold, although the
    parsers share one scratch area and leave the values of other messages in it. *)
Theorem lib_reports_message p l p' ev c q j :
  LR p LScan -> bytes l -> parse_bytes l p = Ok (tt, p', ev) -> EvEom c q j ∈ ev ->
  exists k, ltable !! Z.to_nat j = Some k /\ reported k q (lmessage q).
Proof.
  intros HR Hl Hp Hin. pose proof (lparse_bytes_run LScan p l HR Hl) as Hrun.
  destruct (lspec_run lB ltable laccepts hands_back LScan l) as [[st out]|] eqn:E.
  - destruct Hrun as (a & p1 & ev' & Hq & _ & Hev & Hi). rewrite Hp in Hq. simplify_eq.
    destruct (lspec_run_inv LScan l st _ I Hl E) as [_ Hs].
    pose proof (proj1 (Forall_forall _ _) Hs _ (eom_delivered _ _ _ _ Hin)) as (i & k & -> & Hk & _).
    exists k. rewrite Nat2Z.id. split; [done|].
    pose proof (proj1 (Forall_forall _ _) Hi _ Hin) as Ht. apply Ht. by rewrite Nat2Z.id.
  - unfold lrefines in Hrun. congruence.
Qed.



(** The bytes of the message under way. *)
Definition under_way (p : SEMP_PARSE_STATE) : list Z :=
  if decide (state p = fn_sempFirstByte) then [] else lmessage p.

Lemma under_way_pending p st : sbf_state st -> LR p st -> under_way p = pending st.
Proof.
  intros Hst [_ HR]. unfold under_way. destruct st as [|i k m| |]; try done.
  - by rewrite decide_True.
  - destruct Hst as (-> & -> & _), HR as (<- & _ & _ & _ & Hr). rewrite decide_False; [done|].
    intros Hs. rewrite Hs in Hr. inversion Hr.
Qed.

(** C28: A parser for SBF alone with the invalid-data callback set accounts for
    every byte it is fed, in order: it is part of a delivered block, part of the
    data handed back, part of the message under way, or part of an unfinished
    block as long as the buffer, which is dropped. *)
Theorem sbf_bytes_accounted p l :
  ltable = [fn_sempSbfPreamble] -> callback_pointer <> 0 -> LR p LScan -> bytes l ->
  exists p' ev, parse_bytes l p = Ok (tt, p', ev) /\ accounted l (ldelivered ev) (under_way p').
Proof.
  intros Htable Hptr HR Hl. pose proof (lparse_bytes_run LScan p l HR Hl) as Hrun.
  assert (hands_back = true) as Hback by (unfold hands_back; by apply negb_true_iff, Z.eqb_neq).
  destruct (lspec_run_defined ltac:(by rewrite Htable) LScan l I Hl) as [[st out] E].
  rewrite E in Hrun. destruct Hrun as ([] & p' & ev & Hp & HR' & Hev & _). exists p', ev.
  split; [done|]. rewrite Hev, (under_way_pending p' st); [|exact (sbf_run_state Htable Hback LScan l st out I E)|done].
  by apply (sbf_run_accounted Htable Hback LScan).
Qed.

(** An SBF block whose length field says at most eight, the length of its
    header, is not delivered, and neither is anything that follows it until the
    buffer is full; nothing of it is handed back either. *)
Theorem sbf_short_block_lost p i c1 c2 i1 i2 n l :
  LR p LScan -> lfirst_parser i fn_sempSbfPreamble 0x24 -> n = 0 \/ n = 4 \/ n = 8 ->
  let m := 0x24 :: 0x40 :: c1 :: c2 :: i1 :: i2 :: n :: 0 :: l in
  bytes m -> Z.of_nat (length m) <= lB ->
  exists p' ev, parse_bytes m p = Ok (tt, p', ev) /\ ldelivered ev = [].
Proof.
  intros HR Hi Hn m Hb HB. pose proof (lparse_bytes_run LScan p _ HR Hb) as Hrun.
  unfold m in Hrun. rewrite (sbf_short_stuck i c1 c2 i1 i2 n l Hi Hn HB) in Hrun.
  destruct Hrun as ([] & p' & ev & Hp & _ & Hev & _). by exists p', ev.
Qed.

End guarantees.

(* ------------------------------------------------------------------ *)
(** ** Start *)

Section start.
  Context `{SU : LSetup} `{Plat : Platform} `{Alloc : Allocator} `{AS : !AllocatorSpec Alloc}.

(** C19: [sempBeginParser] of the library, with tables of the same length that do
    not combine SBF with NMEA, Unicore hash or SPARTN, and an end-of-message
    callback, returns a structure exactly when the name and the
    tables are not empty and the memory is available.  The structure represents
    the scanning machine for a buffer of at least 32 bytes; with an SBF parser in
    the table it does once [sempSbfSetInvalidDataCallback] has set the callback. *)
Theorem lib_sempBeginParser_starts name names n len err dbg :
  is_u16 n -> 0 <= len < 65536 -> lB = Z.max 32 len -> length names = length ltable ->
  0 <= callback_pointer < 256 ^ Z.of_nat ptr_bytes ->
  exists r ev,
    sempBeginParser (Some ltable) (Z.of_nat (length ltable)) (Some names) (Z.of_nat (length names))
      n len (Some leom) (Some name) err dbg lbad tt = Ok (r, tt, ev) /\
    (is_Some r <-> name <> "" /\ ltable <> [] /\ is_Some (malloc (lblock_bytes n len))) /\
    forall p, r = Some p ->
      (has_sbf = false \/ callback_pointer = 0 -> LR p LScan) /\
      (has_sbf = true -> exists p',
         sempSbfSetInvalidDataCallback callback_pointer p = Ok (tt, p', []) /\ LR p' LScan).
Proof.
  intros Hn Hlen HB Hnames Hptr.
  destruct (lsempBeginParser_returns (Some name) (Some ltable) (Z.of_nat (length ltable))
    (Some names) (Z.of_nat (length names)) n len (Some leom) err dbg lbad) as (r & ev & Hr & Hp);
    [done|done|by intros l [= <-]|].
  exists r, ev. split; [done|]. destruct r as [p|].
  - destruct Hp as ((_ & _ & _ & _ & _ & Hne & Hcount) & block & Hm & ->). split.
    + split; [|by eexists]. intros _. split_and!; [congruence|by intros Ht; rewrite Ht in Hcount|].
      rewrite Hm. by eexists.
    + intros p [= <-]. exact (lstarted_callback name names err dbg n len block Hn Hlen HB Hm Hptr).
  - split; [|done]. split; [by intros [? ?]|]. intros (Hne & Ht & [block Hm]). exfalso.
    destruct Hp as [Hp|Hp]; [|congruence]. apply Hp. rewrite Hnames.
    split_and!; try done; (try by eexists).
    + congruence.
    + destruct ltable; [done|]. cbn. lia.
Qed.

End start.

(* ------------------------------------------------------------------ *)
(** ** The shared scratch area *)

(** C34: In the table of the NMEA and the SBF parser, in this order, on a platform
    with 64-bit pointers, the start of a sentence overwrites a byte of the SBF
    parser's callback: after [sempSbfSetInvalidDataCallback] with an address of at
    least 256, a dollar sign and a zero byte make the parser call the address with
    its last byte cleared, a wild call when no routine lies there. *)
Theorem lib_callback_overwritten `{App : Application} `{Plat : Platform} p ptr :
  wide = true -> mixed p -> state p = fn_sempFirstByte -> msgLength p = 0 ->
  256 <= ptr < 2 ^ 64 -> routine_at (ptr / 256 * 256) = None ->
  exists p', sempSbfSetInvalidDataCallback ptr p = Ok (tt, p', []) /\
             parse_bytes [0x24; 0] p' = Ub WildCall.
Proof.
  intros Hw Hp Hs Hn Hptr Hr. eexists. split; [reflexivity|]. set (q := with_scratchPad _ p).
  assert (mixed q) as Hq.
  { destruct Hp. split; try done. apply pad_ok_put; [done|]. apply pointer_in_pad. }
  destruct (mixed_dollar q Hq Hs Hn) as (q1 & H1 & Hq1 & Hs1 & Hn1 & Hsp).
  change (parse_bytes [0x24; 0]) with (sempParseNextByte 0x24;; sempParseNextByte 0;; ret tt)%c.
  rewrite (bind_silent _ _ _ _ _ H1). apply bind_ub.
  apply (mixed_callback q1 (ptr / 256 * 256)); [done..| |mlia|done].
  rewrite Hsp. apply callback_after_name; [done|apply Hp|lia].
Qed.

(* ------------------------------------------------------------------ *)
(** ** The theorems on the sample *)

Section lib_witnesses.
Import LibSample.

Lemma lib_parse_bytes_refines_witness :
  lrefines (SU := wide_setup) (parse_bytes lib_traffic) (lib_parser wide_table)
    (Some (LScan, [Msg 0 lib_sentence; Msg 1 lib_rtcm; Msg 2 lib_ublox; Msg 3 lib_spartn; Msg 4 lib_unicore])).
Proof.
  replace (Some (LScan, [Msg 0 lib_sentence; Msg 1 lib_rtcm; Msg 2 lib_ublox; Msg 3 lib_spartn; Msg 4 lib_unicore]))
    with (lspec_run 100 wide_table (fun _ _ => false) false LScan lib_traffic) by (vm_compute; reflexivity).
  apply (lib_parse_bytes_refines (SU := wide_setup) (lib_parser wide_table) LScan lib_traffic).
  - apply wide_scans.
  - apply lib_traffic_bytes.
Defined.

Lemma lib_safe_witness :
  exists p' ev, parse_bytes (lib_traffic ++ [0x24; 0xb5; 0xd3; 0xAA; 0x73]) (lib_parser wide_table)
                  = Ok (tt, p', ev) /\ lwf (SU := wide_setup) p'.
Proof.
  apply (lib_safe (SU := wide_setup)).
  - reflexivity.
  - apply wide_scans.
  - apply bytesb_spec. vm_compute. reflexivity.
Defined.

(** SBF data: noise, a block, a block with a wrong check and one more byte. *)
Definition sbf_traffic : list Z := [7] ++ lib_sbf ++ [0x24; 0x40; 1; 2; 3; 4; 12; 0; 5; 6; 7; 8] ++ [0x24].

Definition sbf_events : list Event :=
  match parse_bytes sbf_traffic (lib_parser_with sbf_table 0x4010) with Ok (_, _, ev) => ev | Ub _ => [] end.
Definition sbf_after : SEMP_PARSE_STATE :=
  match parse_bytes sbf_traffic (lib_parser_with sbf_table 0x4010) with
  | Ok (_, p, _) => p
  | Ub _ => lib_parser []
  end.

Lemma lib_delivered_valid_witness :
  ldelivered sbf_events = [Inv [7]; Msg 0 lib_sbf; Inv [0x24; 0x40; 1; 2; 3; 4; 12; 0; 5; 6; 7; 8]] /\
  Forall (fun x => match x with
                   | Msg j m => exists i k, j = Z.of_nat i /\ sbf_table !! i = Some k /\ lvalid_message k m
                   | Inv m => ~ lvalid_message fn_sempSbfPreamble m
                   end) (ldelivered sbf_events).
Proof.
  split; [vm_compute; reflexivity|].
  apply (lib_delivered_valid (SU := sbf_setup) (lib_parser_with sbf_table 0x4010) sbf_traffic sbf_after).
  - reflexivity.
  - apply sbf_scans.
  - apply bytesb_spec. vm_compute. reflexivity.
  - vm_compute. reflexivity.
Defined.

(** The calls for the messages of the traffic, and the structure of the third one,
    for the u-blox frame. *)
Definition lib_calls : list Event :=
  match parse_bytes lib_traffic (lib_parser wide_table) with Ok (_, _, ev) => ev | Ub _ => [] end.
Definition lib_after : SEMP_PARSE_STATE :=
  match parse_bytes lib_traffic (lib_parser wide_table) with Ok (_, p, _) => p | Ub _ => lib_parser [] end.
Definition lib_at_ublox : SEMP_PARSE_STATE :=
  match lib_calls !! 2%nat with Some (EvEom _ p _) => p | _ => lib_parser [] end.

Lemma lib_reports_message_witness :
  lmessage lib_at_ublox = lib_ublox /\ sempUbloxGetMessageNumber lib_at_ublox = 0x0107 /\
  exists k, wide_table !! 2%nat = Some k /\ reported k lib_at_ublox (lmessage lib_at_ublox).
Proof.
  split_and!; [vm_compute; reflexivity..|].
  apply (lib_reports_message (SU := wide_setup) (lib_parser wide_table) lib_traffic lib_after lib_calls
    1 lib_at_ublox 2).
  - apply wide_scans.
  - apply lib_traffic_bytes.
  - vm_compute. reflexivity.
  - apply list_elem_of_lookup. exists 2%nat. vm_compute. reflexivity.
Defined.



Lemma sbf_bytes_accounted_witness :
  exists p' ev, parse_bytes sbf_traffic (lib_parser_with sbf_table 0x4010) = Ok (tt, p', ev) /\
    accounted (SU := sbf_setup) sbf_traffic (ldelivered ev) (under_way p').
Proof.
  apply (sbf_bytes_accounted (SU := sbf_setup)).
  - reflexivity.
  - discriminate.
  - apply sbf_scans.
  - apply bytesb_spec. vm_compute. reflexivity.
Defined.

Lemma sbf_short_block_lost_witness :
  exists p' ev, parse_bytes (0x24 :: 0x40 :: 1 :: 2 :: 3 :: 4 :: 8 :: 0 :: lib_sbf ++ lib_sbf)
                  (lib_parser_with sbf_table 0x4010) = Ok (tt, p', ev) /\ ldelivered ev = [].
Proof.
  apply (sbf_short_block_lost (SU := sbf_setup) (lib_parser_with sbf_table 0x4010) 0).
  - apply sbf_scans.
  - by apply lfirst_parser_intro.
  - auto.
  - apply bytesb_spec. vm_compute. reflexivity.
  - apply Z.leb_le. vm_compute. reflexivity.
Defined.

Lemma lib_sempBeginParser_starts_witness :
  exists r ev,
    sempBeginParser (Some sbf_table) 1 (Some ["SBF"]) 1 20 100 (Some 1%nat) (Some "sample") None None None tt
      = Ok (r, tt, ev) /\
    (is_Some r <-> "sample" <> "" /\ sbf_table <> [] /\ is_Some (malloc (lblock_bytes 20 100))) /\
    forall p, r = Some p ->
      (has_sbf (SU := sbf_setup) = false \/ 0x4010 = 0 -> LR (SU := sbf_setup) p LScan) /\
      (has_sbf (SU := sbf_setup) = true -> exists p',
         sempSbfSetInvalidDataCallback 0x4010 p = Ok (tt, p', []) /\ LR (SU := sbf_setup) p' LScan).
Proof.
  apply (lib_sempBeginParser_starts (SU := sbf_setup) "sample" ["SBF"] 20 100 None None).
  - done.
  - done.
  - reflexivity.
  - reflexivity.
  - done.
Defined.

(** The routine at 0x4010 is called at 0x4000. *)
Lemma lib_callback_overwritten_witness :
  exists p', sempSbfSetInvalidDataCallback 0x4010 (lib_parser mixed_table) = Ok (tt, p', []) /\
             parse_bytes [0x24; 0] p' = Ub WildCall.
Proof.
  apply lib_callback_overwritten.
  - reflexivity.
  - change (lib_parser mixed_table) with (sample_started mixed_table). split; try done.
    split; [by apply Nat.leb_le|]. by apply Forall_replicate.
  - reflexivity.
  - reflexivity.
  - done.
  - reflexivity.
Defined.

End lib_witnesses.
