(* ===== verification/LibFields.v ===== *)
(** * The readers of an SBF block

    The readers [sempSbfGet...] return the number whose little-endian encoding
    the block holds at the offset: unsigned, in two's complement, or an IEEE 754
    number. *)
From Stdlib Require Import SpecFloat.
From S2P Require Import Prelude LibParser LibSbf.

(** The [n] bytes at offset [o] of the block hold the low bytes of [v], least
    significant first; for a negative [v] these are its two's complement. *)
Definition holds (p : SEMP_PARSE_STATE) (o n : nat) (v : Z) : Prop :=
  take n (drop o (buffer p)) = le_split n v.

(** ** Integers *)

Lemma holds_load p o n v i d :
  holds p o n v -> le_split n v !! i = Some d -> load (buffer p) (Z.of_nat o + Z.of_nat i) = Ok d.
Proof.
  intros Hh Hi. rewrite <-Hh in Hi. apply lookup_take_Some in Hi as [Hi _]. rewrite lookup_drop in Hi.
  rewrite <-Nat2Z.inj_add. by apply load_ok.
Qed.

(** The loop adds the bytes at their places. *)
Lemma sbf_bytes_read p o l i data :
  (forall j d, l !! j = Some d -> load (buffer p) (Z.of_nat o + (Z.of_nat i + Z.of_nat j)) = Ok d) ->
  bytes l -> 0 <= data < 2 ^ (8 * Z.of_nat i) ->
  sbf_bytes p (Z.of_nat o) (length l) (Z.of_nat i) data
    = Ok (data + 2 ^ (8 * Z.of_nat i) * le_combine l).
Proof.
  revert i data. induction l as [|d l IH]; intros i data Hl Hb Hd; cbn [length sbf_bytes le_combine].
  - f_equal. lia.
  - apply Forall_cons_1 in Hb as [Hd8 Hb]. unfold is_u8 in Hd8.
    pose proof (Hl 0%nat d eq_refl) as H0. rewrite Z.add_0_r in H0. rewrite H0. cbn [res_bind].
    assert (2 ^ (8 * Z.of_nat (S i)) = 256 * 2 ^ (8 * Z.of_nat i)) as Hp.
    { rewrite Nat2Z.inj_succ. replace (8 * Z.succ (Z.of_nat i)) with (8 + 8 * Z.of_nat i) by lia.
      by rewrite Z.pow_add_r by lia. }
    assert (Z.lor data (Z.shiftl d (8 * Z.of_nat i)) = data + d * 2 ^ (8 * Z.of_nat i)) as ->.
    { destruct (decide (i = 0%nat)) as [->|]; [|apply lor_shiftl_add; lia].
      change (8 * Z.of_nat 0) with 0 in *. replace data with 0 by lia.
      rewrite Z.lor_0_l, Z.shiftl_0_r. lia. }
    replace (Z.of_nat i + 1) with (Z.of_nat (S i)) by lia.
    rewrite IH; [rewrite Hp; f_equal; lia| |done|rewrite Hp; nia].
    intros j d' Hj. specialize (Hl (S j) d' Hj). rewrite <-Hl. f_equal. lia.
Qed.

Lemma holds_bytes p o n v :
  holds p o n v -> 0 <= v < 256 ^ Z.of_nat n ->
  sbf_bytes p (Z.of_nat o) n 0 0 = Ok v.
Proof.
  intros Hh Hv. pose proof (sbf_bytes_read p o (le_split n v) 0 0) as H.
  rewrite length_le_split, le_combine_split in H by done.
  change (2 ^ (8 * Z.of_nat 0)) with 1 in H. change (Z.of_nat 0) with 0 in H. rewrite H; [f_equal; lia| |apply le_split_bytes|lia].
  intros j d Hj. by apply (holds_load p o n v).
Qed.

Lemma sempSbfGetU1_holds p o v : holds p o 1 v -> 0 <= v < 2 ^ 8 -> sempSbfGetU1 p (Z.of_nat o) = Ok v.
Proof.
  intros Hh Hv. unfold sempSbfGetU1. rewrite <-(Z.add_0_r (Z.of_nat o)).
  apply (holds_load p o 1 v 0 v Hh). cbn. f_equal. by apply Z.mod_small.
Qed.

Lemma sempSbfGetU2_holds p o v : holds p o 2 v -> 0 <= v < 2 ^ 16 -> sempSbfGetU2 p (Z.of_nat o) = Ok v.
Proof.
  intros Hh Hv. unfold sempSbfGetU2.
  pose proof (holds_load p o 2 v 0 (v mod 256) Hh eq_refl) as H0. rewrite Z.add_0_r in H0.
  pose proof (holds_load p o 2 v 1 (v / 256 mod 256) Hh eq_refl) as H1. change (Z.of_nat 1) with 1 in H1.
  rewrite H0, H1. cbn [res_bind]. f_equal. rewrite lor_shiftl_add by mlia.
  rewrite u16_id; [|unfold is_u16]; mlia.
Qed.

Lemma sempSbfGetU4_holds p o v : holds p o 4 v -> 0 <= v < 2 ^ 32 -> sempSbfGetU4 p (Z.of_nat o) = Ok v.
Proof. intros Hh Hv. by apply holds_bytes. Qed.

Lemma sempSbfGetU8_holds p o v : holds p o 8 v -> 0 <= v < 2 ^ 64 -> sempSbfGetU8 p (Z.of_nat o) = Ok v.
Proof. intros Hh Hv. by apply holds_bytes. Qed.

(** The bytes only depend on the value modulo their range. *)
Lemma le_split_mod n v : le_split n (v mod 256 ^ Z.of_nat n) = le_split n v.
Proof.
  rewrite <-le_combine_split_mod. rewrite <-(length_le_split n v) at 1.
  apply le_split_combine, le_split_bytes.
Qed.

Lemma holds_mod p o n v : holds p o n v -> holds p o n (v mod 256 ^ Z.of_nat n).
Proof. unfold holds. by rewrite le_split_mod. Qed.

Lemma signed_mod w v : 0 < w -> - 2 ^ (w - 1) <= v < 2 ^ (w - 1) -> signed w (v mod 2 ^ w) = v.
Proof.
  intros Hw Hv. unfold signed. assert (2 ^ w = 2 * 2 ^ (w - 1)) as Hp.
  { rewrite <-Z.pow_succ_r by lia. f_equal. lia. }
  destruct (Z.ltb_spec v 0).
  - replace (v mod 2 ^ w) with (v + 2 ^ w).
    + destruct (_ <? _) eqn:E; lia.
    + rewrite <-(Z.mod_small (v + 2 ^ w) (2 ^ w)) by lia.
      by rewrite <-Z.add_mod_idemp_r, Z.mod_same, Z.add_0_r by lia.
  - rewrite Z.mod_small by lia. destruct (_ <? _) eqn:E; lia.
Qed.

(** ** Floating-point numbers *)

(** The IEEE 754 pattern of a number, with [mw] fraction and [ew] exponent bits. *)
Definition bits_of_float (mw ew : Z) (x : spec_float) : Z :=
  let sign (s : bool) := if s then 2 ^ (mw + ew) else 0 in
  let bias := 2 ^ (ew - 1) - 1 in
  match x with
  | S754_zero s => sign s
  | S754_infinity s => sign s + (2 ^ ew - 1) * 2 ^ mw
  | S754_nan => (2 ^ ew - 1) * 2 ^ mw + 2 ^ (mw - 1)
  | S754_finite s m e =>
      if Zpos m <? 2 ^ mw then sign s + Zpos m
      else sign s + (e + bias + mw) * 2 ^ mw + (Zpos m - 2 ^ mw)
  end.

Lemma digits2_pos_bounds m :
  2 ^ (Zpos (digits2_pos m) - 1) <= Zpos m < 2 ^ Zpos (digits2_pos m).
Proof.
  induction m as [m IH|m IH|]; cbn [digits2_pos]; [| |done];
    rewrite Pos2Z.inj_succ, Z.pow_succ_r by lia; replace (Z.succ _ - 1) with (Z.succ (Zpos (digits2_pos m) - 1)) by lia;
    rewrite Z.pow_succ_r by lia; lia.
Qed.

Section ieee.
  Context (mw ew : Z) (Hmw : 1 <= mw) (Hew : 2 <= ew).
  Abbreviation bias := (2 ^ (ew - 1) - 1).

(** The number with a sign, exponent and fraction, and its pattern. *)
Definition float_of_fields (s : bool) (e f : Z) : spec_float :=
  if e =? 0 then
    match f with Zpos m => S754_finite s m (1 - bias - mw) | _ => S754_zero s end
  else if e =? 2 ^ ew - 1 then if f =? 0 then S754_infinity s else S754_nan
  else S754_finite s (Z.to_pos (f + 2 ^ mw)) (e - bias - mw).

Definition pattern (s : bool) (e f : Z) : Z := (if s then 2 ^ (mw + ew) else 0) + e * 2 ^ mw + f.

Lemma float_of_parts (s : bool) e f :
  0 <= e < 2 ^ ew -> 0 <= f < 2 ^ mw -> float_of_bits mw ew (pattern s e f) = float_of_fields s e f.
Proof.
  intros He Hf. unfold pattern, float_of_fields. rewrite Z.pow_add_r by lia. set (P := 2 ^ mw) in *. set (Q := 2 ^ ew) in *.
  assert (0 < P /\ 0 < Q) as [HP HQ] by (split; apply Z.pow_pos_nonneg; lia).
  set (v := _ + f). unfold float_of_bits. fold P Q.
  set (b := if s then 1 else 0). assert (v = f + (e + b * Q) * P) as Hv by (unfold v, b; destruct s; lia).
  assert (v mod P = f) as -> by (rewrite Hv, Z.mod_add by lia; by apply Z.mod_small).
  assert (v / P = e + b * Q) as Hdiv by (rewrite Hv, Z.div_add, Z.div_small by lia; lia).
  rewrite Hdiv. replace ((e + b * Q) mod Q) with e by (rewrite Z.mod_add by lia; by rewrite Z.mod_small).
  assert (Z.testbit v (mw + ew) = s) as ->; [|done].
  rewrite Z.testbit_odd, Z.shiftr_div_pow2, Z.pow_add_r by lia. fold P Q.
  rewrite <-Z.div_div, Hdiv, Z.div_add, Z.div_small by lia. unfold b. by destruct s.
Qed.

Lemma canonical_cases m e :
  bounded (mw + 1) (2 ^ (ew - 1)) m e = true ->
  Zpos m < 2 ^ mw /\ e = 1 - bias - mw \/
  2 ^ mw <= Zpos m < 2 * 2 ^ mw /\ 1 - bias - mw <= e <= 2 ^ ew - 2 - bias - mw.
Proof.
  intros [Hc He]%andb_true_iff. apply Z.leb_le in He. unfold canonical_mantissa, fexp, emin in Hc.
  apply Z.eqb_eq in Hc. pose proof (digits2_pos_bounds m) as [Hlo Hhi]. set (d := Zpos (digits2_pos m)) in *.
  assert (2 ^ ew = 2 * 2 ^ (ew - 1)) as Hq by (rewrite <-Z.pow_succ_r by lia; f_equal; lia).
  destruct (decide (d <= mw)).
  - left. assert (2 ^ d <= 2 ^ mw) by (apply Z.pow_le_mono_r; lia). lia.
  - assert (d = mw + 1) as Hd by lia. right. rewrite Hd in Hlo, Hhi.
    rewrite Z.pow_add_r in Hhi by lia. replace (mw + 1 - 1) with mw in Hlo by lia. lia.
Qed.

Lemma pattern_range s e f :
  0 <= e < 2 ^ ew -> 0 <= f < 2 ^ mw -> 0 <= pattern s e f < 2 ^ (1 + mw + ew).
Proof.
  intros He Hf. unfold pattern. rewrite <-Z.add_assoc, !Z.pow_add_r by lia. change (2 ^ 1) with 2.
  destruct s; nia.
Qed.

(** The pattern of a number has its fields. *)
Lemma bits_of_fields x :
  valid_binary (mw + 1) (2 ^ (ew - 1)) x = true ->
  exists s e f, 0 <= e < 2 ^ ew /\ 0 <= f < 2 ^ mw /\ bits_of_float mw ew x = pattern s e f /\
                float_of_fields s e f = x.
Proof.
  intros Hx. assert (0 < 2 ^ mw) by (apply Z.pow_pos_nonneg; lia).
  assert (0 < 2 ^ (ew - 1)) by (apply Z.pow_pos_nonneg; lia).
  assert (4 <= 2 ^ ew) by (change 4 with (2 ^ 2); apply Z.pow_le_mono_r; lia).
  assert (2 ^ mw = 2 * 2 ^ (mw - 1)) by (rewrite <-Z.pow_succ_r by lia; f_equal; lia).
  unfold pattern, float_of_fields. destruct x as [s|s| |s m e]; cbn [bits_of_float].
  - exists s, 0, 0. split_and!; done || lia.
  - exists s, (2 ^ ew - 1), 0. split_and!; try lia. rewrite !Z.eqb_refl. by destruct (_ =? 0) eqn:E; [lia|].
  - exists false, (2 ^ ew - 1), (2 ^ (mw - 1)). split_and!; try lia. rewrite Z.eqb_refl.
    destruct (_ =? 0) eqn:E; [lia|]. destruct (2 ^ (mw - 1) =? 0) eqn:E2; [lia|done].
  - apply canonical_cases in Hx as [[Hm ->]|[Hm He]].
    + exists s, 0, (Zpos m). destruct (Zpos m <? 2 ^ mw) eqn:E; [|lia]. split_and!; done || lia.
    + exists s, (e + bias + mw), (Zpos m - 2 ^ mw). destruct (Zpos m <? 2 ^ mw) eqn:E; [lia|].
      split_and!; try lia. destruct (_ =? 0) eqn:E1; [lia|]. destruct (_ =? 2 ^ ew - 1) eqn:E2; [lia|].
      f_equal; [|lia]. by replace (Zpos m - 2 ^ mw + 2 ^ mw) with (Zpos m) by lia.
Qed.

Lemma float_round_trip x :
  valid_binary (mw + 1) (2 ^ (ew - 1)) x = true ->
  0 <= bits_of_float mw ew x < 2 ^ (1 + mw + ew) /\ float_of_bits mw ew (bits_of_float mw ew x) = x.
Proof.
  intros (s & e & f & He & Hf & -> & <-)%bits_of_fields.
  split; [by apply pattern_range|by apply float_of_parts].
Qed.

End ieee.

(* ------------------------------------------------------------------ *)
(** ** The readers *)

(** C29: Every reader of an SBF block returns the number whose encoding the block
    holds at the offset: unsigned integers of one, two, four and eight bytes,
    signed ones in two's complement, and numbers of the IEEE 754 formats of four
    and eight bytes. *)
Theorem sbf_readers_read p o :
  (forall v, holds p o 1 v -> 0 <= v < 2 ^ 8 -> sempSbfGetU1 p (Z.of_nat o) = Ok v) /\
  (forall v, holds p o 2 v -> 0 <= v < 2 ^ 16 -> sempSbfGetU2 p (Z.of_nat o) = Ok v) /\
  (forall v, holds p o 4 v -> 0 <= v < 2 ^ 32 -> sempSbfGetU4 p (Z.of_nat o) = Ok v) /\
  (forall v, holds p o 8 v -> 0 <= v < 2 ^ 64 -> sempSbfGetU8 p (Z.of_nat o) = Ok v) /\
  (forall v, holds p o 1 v -> - 2 ^ 7 <= v < 2 ^ 7 -> sempSbfGetI1 p (Z.of_nat o) = Ok v) /\
  (forall v, holds p o 2 v -> - 2 ^ 15 <= v < 2 ^ 15 -> sempSbfGetI2 p (Z.of_nat o) = Ok v) /\
  (forall v, holds p o 4 v -> - 2 ^ 31 <= v < 2 ^ 31 -> sempSbfGetI4 p (Z.of_nat o) = Ok v) /\
  (forall v, holds p o 8 v -> - 2 ^ 63 <= v < 2 ^ 63 -> sempSbfGetI8 p (Z.of_nat o) = Ok v) /\
  (forall x, holds p o 4 (bits_of_float 23 8 x) -> valid_binary 24 128 x = true ->
     sempSbfGetF4 p (Z.of_nat o) = Ok x) /\
  (forall x, holds p o 8 (bits_of_float 52 11 x) -> valid_binary 53 1024 x = true ->
     sempSbfGetF8 p (Z.of_nat o) = Ok x).
Proof.
  assert (forall n v, holds p o n v -> 0 <= v mod 256 ^ Z.of_nat n < 256 ^ Z.of_nat n) as Hr.
  { intros n v _. apply Z.mod_pos_bound, Z.pow_pos_nonneg; lia. }
  split_and!; intros v Hh Hv.
  - by apply sempSbfGetU1_holds.
  - by apply sempSbfGetU2_holds.
  - by apply sempSbfGetU4_holds.
  - by apply sempSbfGetU8_holds.
  - unfold sempSbfGetI1. rewrite (sempSbfGetU1_holds p o _ (holds_mod _ _ _ _ Hh) (Hr _ _ Hh)).
    cbn [res_bind]. f_equal. by apply (signed_mod 8).
  - unfold sempSbfGetI2. rewrite (sempSbfGetU2_holds p o _ (holds_mod _ _ _ _ Hh) (Hr _ _ Hh)).
    cbn [res_bind]. f_equal. by apply (signed_mod 16).
  - unfold sempSbfGetI4. rewrite (sempSbfGetU4_holds p o _ (holds_mod _ _ _ _ Hh) (Hr _ _ Hh)).
    cbn [res_bind]. f_equal. by apply (signed_mod 32).
  - unfold sempSbfGetI8. rewrite (sempSbfGetU8_holds p o _ (holds_mod _ _ _ _ Hh) (Hr _ _ Hh)).
    cbn [res_bind]. f_equal. by apply (signed_mod 64).
  - destruct (float_round_trip 23 8 ltac:(lia) ltac:(lia) v Hv) as [Hb Hf].
    unfold sempSbfGetF4. rewrite (sempSbfGetU4_holds p o _ Hh Hb). cbn [res_bind]. by rewrite Hf.
  - destruct (float_round_trip 52 11 ltac:(lia) ltac:(lia) v Hv) as [Hb Hf].
    unfold sempSbfGetF8. rewrite (sempSbfGetU8_holds p o _ Hh Hb). cbn [res_bind]. by rewrite Hf.
Qed.

(** A block with the double-precision number one and a half at offset 4, and
    minus two before it. *)
Definition sample_fields : SEMP_PARSE_STATE :=
  mkParse [] [] fn_sempFirstByte None None None "" [] None None 0
    [0xFE; 0xFF; 0xFF; 0xFF; 0; 0; 0; 0; 0; 0; 0xF8; 0x3F] 12 0 12 0.

Lemma sbf_readers_read_witness :
  sempSbfGetI4 sample_fields 0 = Ok (-2) /\
  sempSbfGetF8 sample_fields 4 = Ok (S754_finite false 6755399441055744 (-52)).
Proof.
  split.
  - apply (sbf_readers_read sample_fields 0); [reflexivity|done].
  - apply (sbf_readers_read sample_fields 4); [reflexivity|reflexivity].
Defined.
