(* ===== verification/AppPrelude.v ===== *)
(** * What the programs that use the parsers share

    The programs of [src/single_parser] and [src/my_parser/demo] print and hand
    bytes to a parser, which calls them back.  Their state is a record of their
    static objects; what they do that can be seen is printing.  Here are the
    library functions they use and the call of a parser. *)
From Stdlib Require Import Ascii.
From S2P Require Import Prelude.

(** A call of [printf] that returned, with its format and arguments, and a line
    on the error output. *)
Inductive Output :=
| Printf (format : string) (args : list arg)
| Perror (s : string).

(* ------------------------------------------------------------------ *)
(** ** Strings *)

(** The characters of a string constant, without and with its terminator. *)
Definition chars (s : string) : list Z :=
  (fun c => Z.of_N (N_of_ascii c)) <$> String.list_ascii_of_string s.
Definition literal (s : string) : list Z := chars s ++ [0].

(** The characters [printf] shows of a character array with the precision [n]:
    at most [n], fewer when the terminator comes first. *)
Fixpoint c_prefix (n : nat) (l : list Z) : res (list Z) :=
  match n with
  | O => Ok []
  | S n =>
      match l with
      | [] => Ub OutOfBounds
      | c :: l => if c =? 0 then Ok [] else res_bind (c_prefix n l) (fun s => Ok (c :: s))
      end
  end.

(** A negative precision is taken as if it were not given. *)
Definition c_precision (n : Z) (l : list Z) : res (list Z) :=
  if n <? 0 then c_string l else c_prefix (Z.to_nat n) l.

(** [strncmp(a, b, n) == 0] *)
Fixpoint strncmp_equal (n : nat) (a b : list Z) : res bool :=
  match n with
  | O => Ok true
  | S n =>
      match a, b with
      | x :: a, y :: b =>
          if negb (x =? y) then Ok false
          else if x =? 0 then Ok true else strncmp_equal n a b
      | _, _ => Ub OutOfBounds
      end
  end.

(** [memcpy(dst + i, src + j, n)] *)
Definition memcpy (dst : list Z) (i : Z) (src : list Z) (j n : Z) : res (list Z) :=
  if (0 <=? i) && (i + n <=? Z.of_nat (length dst)) && (0 <=? j) && (j + n <=? Z.of_nat (length src)) && (0 <=? n)
  then Ok (take (Z.to_nat i) dst ++ take (Z.to_nat n) (drop (Z.to_nat j) src) ++
           drop (Z.to_nat (i + n)) dst)
  else Ub OutOfBounds.

(** A member of a structure that lies over the start of an array. *)
Definition member_of (l : list Z) (f : member) : res Z :=
  if (offset f + size f <=? length l)%nat then Ok (get f l) else Ub OutOfBounds.

(** The array from an index on, for a pointer into it. *)
Definition from (l : list Z) (i : Z) : list Z := drop (Z.to_nat i) l.

Lemma member_of_ok (l : list Z) f : (offset f + size f <= length l)%nat -> member_of l f = Ok (get f l).
Proof. intros H. unfold member_of. by rewrite (proj2 (Nat.leb_le _ _)) by done. Qed.

Lemma strncmp_equal_ok k (a b : list Z) :
  (k <= length a)%nat -> (k <= length b)%nat -> exists v, strncmp_equal k a b = Ok v.
Proof.
  revert a b. induction k as [|k IH]; intros a b Ha Hb; [by eexists|].
  destruct a as [|x a]; [cbn in Ha; lia|]. destruct b as [|y b]; [cbn in Hb; lia|]. cbn in *.
  destruct (negb (x =? y)); [by eexists|]. destruct (x =? 0); [by eexists|]. apply IH; lia.
Qed.

Lemma memcpy_ok (dst src : list Z) i j n :
  0 <= i -> 0 <= j -> 0 <= n -> i + n <= Z.of_nat (length dst) -> j + n <= Z.of_nat (length src) ->
  memcpy dst i src j n = Ok (take (Z.to_nat i) dst ++ take (Z.to_nat n) (drop (Z.to_nat j) src) ++
                             drop (Z.to_nat (i + n)) dst).
Proof.
  intros. unfold memcpy. by rewrite !(proj2 (Z.leb_le _ _)) by done.
Qed.

(* ------------------------------------------------------------------ *)
(** ** Output and the call of a parser *)

Section programs.
  Context {S : Type}.

Definition printf (format : string) (args : list arg) : M S Output unit :=
  if forallb printable args then emit (Printf format args) else undefined OutOfBounds.

(** [perror(s)] *)
Definition perror (s : string) : M S Output unit := emit (Perror s).

(** Several constant lines. *)
Definition print_lines (l : list string) : M S Output unit := for_each l (fun s => printf s []).

(** [for (i = 0; i < n; i++) printf(format, l[i]);] *)
Definition print_bytes (format : string) (l : list Z) (n : Z) : M S Output unit :=
  for_each (seqZ 0 n) (fun i => d <- lift (load l i);; printf format [AInt d]).

(** [v << n] on [int] in C, where the result has to be an [int] *)
Definition shift_left (v n : Z) : M S Output Z :=
  if v <? 0 then undefined NegativeShift
  else if 2 ^ 31 <=? v * 2 ^ n then undefined ShiftOverflow
  else ret (Z.shiftl v n).

(** Runs code of a parser that works on a part of the program's state.  The
    parser calls the program back while it runs; the callbacks read the
    structure they are called with and no other part of the parser, so they are
    run one after the other on what the parser recorded. *)
Definition call_parser {W E A} (part : S -> W) (update : W -> S -> S)
    (answer : E -> M S Output unit) (m : M W E A) : M S Output A := fun s =>
  match m (part s) with
  | Ub u => Ub u
  | Ok (a, w, ev) => (for_each ev answer;; ret a) (update w s)
  end.

End programs.

(** How many of the lines a run printed have the format [format]. *)
Definition printed (format : string) (o : list Output) : nat :=
  length (List.filter (fun x => match x with Printf f _ => String.eqb f format | Perror _ => false end) o).

(* ------------------------------------------------------------------ *)
(** ** Programs that return *)

Create HintDb programs.

Section program_logic.
  Context {S : Type}.

(** The code returns from the state [s], with a value and a state as [Q] says. *)
Definition runs {A} (m : M S Output A) (s : S) (Q : A -> S -> list Output -> Prop) : Prop :=
  exists a s' o, m s = Ok (a, s', o) /\ Q a s' o.

Lemma runs_bind {A B} (m : M S Output A) (k : A -> M S Output B) s Q :
  runs m s (fun a s' o => runs (k a) s' (fun b s'' o' => Q b s'' (o ++ o'))) -> runs (bind m k) s Q.
Proof.
  intros (a & s1 & o1 & Hm & b & s2 & o2 & Hk & HQ). exists b, s2, (o1 ++ o2).
  by rewrite (bind_ok _ _ _ _ _ _ Hm), Hk.
Qed.

Lemma runs_mono {A} (m : M S Output A) s (Q Q' : A -> S -> list Output -> Prop) :
  runs m s Q -> (forall a s' o, Q a s' o -> Q' a s' o) -> runs m s Q'.
Proof. intros (a & s1 & o & Hm & HQ) H. exists a, s1, o. auto. Qed.

(** The code returns a value as [Q] says and leaves the state as it was. *)
Definition shows {A} (m : M S Output A) (Q : A -> Prop) : Prop :=
  forall s, exists a o, m s = Ok (a, s, o) /\ Q a.

Lemma shows_ret {A} (a : A) (Q : A -> Prop) : Q a -> shows (ret a) Q.
Proof. intros HQ s. by exists a, []. Qed.

Lemma shows_bind {A B} (m : M S Output A) (k : A -> M S Output B) Q Q' :
  shows m Q -> (forall a, Q a -> shows (k a) Q') -> shows (bind m k) Q'.
Proof.
  intros Hm Hk s. destruct (Hm s) as (a & o & Ha & HQ). destruct (Hk a HQ s) as (b & o' & Hb & HQ').
  exists b, (o ++ o'). by rewrite (bind_ok _ _ _ _ _ _ Ha), Hb.
Qed.

Lemma shows_then {A B} (m : M S Output A) (k : M S Output B) Q :
  shows m (fun _ => True) -> shows k Q -> shows (m;; k) Q.
Proof. intros Hm Hk. eapply shows_bind; [exact Hm|]. auto. Qed.

Lemma shows_lift {A B} (r : res A) (a : A) (k : A -> M S Output B) Q :
  r = Ok a -> shows (k a) Q -> shows (bind (lift r) k) Q.
Proof.
  intros -> Hk s. destruct (Hk s) as (b & o & Hb & HQ). exists b, o.
  by rewrite (bind_silent _ _ _ a s).
Qed.

Lemma shows_if {A} (b : bool) (m m' : M S Output A) Q :
  (b = true -> shows m Q) -> (b = false -> shows m' Q) -> shows (if b then m else m') Q.
Proof. destruct b; auto. Qed.

Lemma shows_when (b : bool) (m : M S Output unit) :
  (b = true -> shows m (fun _ => True)) -> shows (when b m) (fun _ => True).
Proof. intros Hm. destruct b; [auto|]. by apply shows_ret. Qed.

Lemma shows_printf format args :
  forallb printable args = true -> shows (printf format args) (fun _ => True).
Proof. intros Ha s. exists tt, [Printf format args]. unfold printf. by rewrite Ha. Qed.

Lemma shows_for_each {X} (l : list X) (m : X -> M S Output unit) :
  (forall x, x ∈ l -> shows (m x) (fun _ => True)) -> shows (for_each l m) (fun _ => True).
Proof.
  induction l as [|x l IH]; intros Hm; cbn [for_each]; [by apply shows_ret|].
  apply shows_then; [apply Hm; left|]. apply IH. intros y Hy. apply Hm. by right.
Qed.

Lemma shows_strncmp {A} k a b (m : bool -> M S Output A) Q :
  (k <= length a)%nat -> (k <= length b)%nat -> (forall v, shows (m v) Q) ->
  shows (bind (lift (strncmp_equal k a b)) m) Q.
Proof.
  intros Ha Hb Hm. destruct (strncmp_equal_ok k a b Ha Hb) as [v Hv]. eapply shows_lift; [exact Hv|done].
Qed.

Lemma shows_print_lines l : shows (print_lines l) (fun _ => True).
Proof. apply shows_for_each. intros s _. by apply shows_printf. Qed.

End program_logic.

#[export] Hint Resolve shows_ret shows_print_lines : programs.
#[export] Hint Extern 1 (shows (printf _ _) _) => apply shows_printf; reflexivity : programs.

(** Steps over the output of a handler and follows its branches. *)
Ltac show_step :=
  first [solve [auto with programs]
        |apply shows_then; [solve [auto with programs]|]
        |apply shows_if; intros ?
        |apply shows_when; intros ?].
Ltac shows_tac := repeat show_step.

(** A parser's run inside a program: the callbacks follow it. *)
Lemma call_parser_runs {S W E A} (part : S -> W) update (answer : E -> M S Output unit) (m : M W E A) s a w ev Q :
  m (part s) = Ok (a, w, ev) ->
  runs (for_each ev answer) (update w s) (fun _ s' o => Q a s' o) ->
  runs (call_parser part update answer m) s Q.
Proof.
  intros Hm ([] & s' & o & Ho & HQ). exists a, s', o. unfold call_parser. rewrite Hm.
  rewrite (bind_ok _ _ _ _ _ _ Ho). cbn. by rewrite app_nil_r.
Qed.

(* ------------------------------------------------------------------ *)
(** ** Invariants of a parser and the calls it makes *)

Create HintDb respects.

Section respects.
  Context {W E : Type} (I : W -> Prop) (good : E -> Prop).

(** When the code returns, it has kept the invariant and made good calls only. *)
Definition respects {A} (m : M W E A) : Prop :=
  forall w, I w -> match m w with Ok (_, w', ev) => I w' /\ Forall good ev | Ub _ => True end.

Lemma respects_ret {A} (a : A) : respects (ret a).
Proof. intros w Hw. by split. Qed.

Lemma respects_bind {A A'} (m : M W E A) (k : A -> M W E A') :
  respects m -> (forall a, respects (k a)) -> respects (bind m k).
Proof.
  intros Hm Hk w Hw. specialize (Hm w Hw). unfold bind. destruct (m w) as [[[a w1] e1]|]; [|done].
  destruct Hm as [H1 He1]. specialize (Hk a w1 H1). destruct (k a w1) as [[[b w2] e2]|]; [|done].
  destruct Hk as [H2 He2]. split; [done|]. by apply Forall_app.
Qed.

Lemma respects_gets {A} (f : W -> A) : respects (gets f).
Proof. intros w Hw. by split. Qed.

Lemma respects_modify f : (forall w, I w -> I (f w)) -> respects (modify f).
Proof. intros Hf w Hw. split; [by apply Hf|constructor]. Qed.

Lemma respects_emit e : good e -> respects (emit e).
Proof. intros He w Hw. split; [done|]. by apply Forall_singleton. Qed.

Lemma respects_undefined {A} u : respects (undefined (A := A) u).
Proof. by intros w Hw. Qed.

Lemma respects_lift {A} (r : res A) : respects (lift r).
Proof. intros w Hw. unfold lift. by destruct r. Qed.

Lemma respects_if {A} (b : bool) (m m' : M W E A) : respects m -> respects m' -> respects (if b then m else m').
Proof. by destruct b. Qed.

Lemma respects_when (b : bool) (m : M W E unit) : respects m -> respects (when b m).
Proof. intros Hm. destruct b; [done|apply respects_ret]. Qed.

(** The structure a routine gives to a callback. *)
Lemma respects_get {A A'} (f : W -> A) (k : A -> M W E A') :
  (forall w, I w -> respects (k (f w))) -> respects (bind (gets f) k).
Proof. intros Hk w Hw. rewrite bind_gets. by apply Hk. Qed.

End respects.

#[export] Hint Resolve respects_ret respects_gets respects_undefined respects_lift : respects.
#[export] Hint Extern 1 (respects _ _ (emit _)) => apply respects_emit; assumption || done : respects.

Ltac respects_step :=
  first [solve [auto with respects]
        |apply respects_get; intros ? ?
        |apply respects_bind; [|intros ?]
        |apply respects_if
        |apply respects_when
        |match goal with |- respects _ _ (match ?x with _ => _ end) => destruct x end].
Ltac respects_tac := repeat respects_step.
