(* ===== verification/SempClient.v ===== *)
(** * The programs of the single-protocol parser: common parts

    The programs of [src/single_parser] that use [semp_parser.c] have one static
    parse structure with a static buffer of [SEMP_MAX_BUFFER_SIZE] bytes and no
    other state.  [None] stands for the zeroed structure before
    [sempInitParser]. *)
From S2P Require Import Prelude SempParser AppPrelude.

Definition SEMP_MAX_BUFFER_SIZE : Z := 1024.

(** The members of [SEMP_MESSAGE_HEADER] that only the programs read. *)
Definition header_syncA : member := Member 0 1.
Definition header_syncB : member := Member 1 1.
Definition header_syncC : member := Member 2 1.
Definition header_messageId : member := Member 4 2.
Definition header_RESERVED1 : member := Member 6 2.
Definition header_RESERVED_time : member := Member 8 4.
Definition header_RESERVED2 : member := Member 14 2.
Definition header_sender : member := Member 16 1.
Definition header_Protocol : member := Member 18 1.
Definition header_MsgInterval : member := Member 19 1.

Abbreviation Program := (M (option SEMP_PARSE_STATE) Output).

(** The static buffer; it lies in the structure once that is initialised. *)
Definition messageBuffer (g : option SEMP_PARSE_STATE) : list Z :=
  match g with Some p => buffer p | None => replicate 1024 0 end.

(** [sempInitParser(&parser, messageBuffer, sizeof(messageBuffer), ...)] *)
Definition init_parser (eomCallback badCrcCallback : callback) (name : string) : Program unit :=
  modify (fun g => Some (sempInitParser (messageBuffer g) SEMP_MAX_BUFFER_SIZE
                           eomCallback badCrcCallback (Some name))).

(** What the parser's calls do; [sempPrintf] of the parser ends its line. *)
Definition callbacks (eom : SEMP_PARSE_STATE -> Z -> Program unit) (bad : SEMP_PARSE_STATE -> Program bool)
    (e : Event) : Program unit :=
  match e with
  | EvEom _ parse messageType => eom parse messageType
  | EvBadCrc _ parse => bad parse;; ret tt
  | EvPrint format name args =>
      printf format (match name with Some s => [AStr s] | None => [] end ++ (AInt <$> args));;
      printf "\n" []
  end.

Section client.
  Context `{App : Application} (answer : Event -> Program unit).

(** [sempProcessByte(&parser, data)]: a zeroed structure has no state function
    and takes no byte. *)
Definition process_byte (data : Z) : Program bool :=
  g <- gets id;;
  match g with
  | None => ret false
  | Some p => call_parser (default p) (fun p _ => Some p) answer (sempProcessByte data)
  end.

(** [sempProcessBuffer(&parser, data, length)] *)
Definition process_buffer (data : list Z) : Program Z :=
  g <- gets id;;
  match g with
  | None => ret 0
  | Some p => call_parser (default p) (fun p _ => Some p) answer (sempProcessBuffer data)
  end.

End client.
