(* ===== verification/SempExample.v ===== *)
(** * The example program of the single-protocol parser

    [src/single_parser/semp_example.c]: the callbacks and the handlers of the
    message types, the initialisation, the ways bytes reach the parser, the test
    function and [main].  The interrupt handlers are comments in the source. *)
From Equations Require Import Equations.
From S2P Require Import Prelude SempParser LibSbf AppPrelude SempClient.

(* ------------------------------------------------------------------ *)
(** ** The handlers of the message types *)

Definition handleControlCommand (fullMessage : list Z) : Program unit :=
  messageId <- lift (member_of fullMessage header_messageId);;
  printf "处理控制命令 (ID: 0x%04X)\n" [AInt messageId];;
  let cmdData := from fullMessage sizeof_SEMP_MESSAGE_HEADER in
  cmdLength <- lift (member_of fullMessage header_messageLength);;
  if messageId =? 0x0001 then
    when (1 <=? cmdLength)
      (ledState <- lift (load cmdData 0);;
       printf "设置LED状态: %s\n" [AStr (if negb (ledState =? 0) then "开启" else "关闭")])
  else if messageId =? 0x0002 then
    when (2 <=? cmdLength)
      (d1 <- lift (load cmdData 1);; d0 <- lift (load cmdData 0);;
       let motorSpeed := u16 (Z.lor (Z.shiftl d1 8) d0) in
       printf "设置电机速度: %d RPM\n" [AInt motorSpeed])
  else printf "未知控制命令ID: 0x%04X\n" [AInt messageId].

Definition handleDataTransfer (fullMessage : list Z) : Program unit :=
  messageId <- lift (member_of fullMessage header_messageId);;
  printf "处理数据传输 (ID: 0x%04X)\n" [AInt messageId];;
  let data := from fullMessage sizeof_SEMP_MESSAGE_HEADER in
  dataLength <- lift (member_of fullMessage header_messageLength);;
  if messageId =? 0x1001 then
    when (4 <=? dataLength)
      (v <- lift (member_of data (Member 0 4));;
       printf "接收到温度数据: %.2f°C\n" [AFloat (float_of_bits 23 8 v)])
  else if messageId =? 0x1002 then
    printf "接收到配置数据，长度: %d字节\n" [AInt dataLength]
  else printf "未知数据传输ID: 0x%04X\n" [AInt messageId].

Definition handleStatusQuery (fullMessage : list Z) : Program unit :=
  messageId <- lift (member_of fullMessage header_messageId);;
  printf "处理状态查询 (ID: 0x%04X)\n" [AInt messageId];;
  if messageId =? 0x2001 then printf "返回系统状态信息\n" []
  else if messageId =? 0x2002 then printf "返回传感器状态信息\n" []
  else printf "未知状态查询ID: 0x%04X\n" [AInt messageId].

(* ------------------------------------------------------------------ *)
(** ** Callbacks *)

(** The payload, as far as it is shown. *)
Definition show_payload (parse : SEMP_PARSE_STATE) : Program unit :=
  let messageData := from (buffer parse) sizeof_SEMP_MESSAGE_HEADER in
  let dataLength := u16 (length parse - sizeof_SEMP_MESSAGE_HEADER - SEMP_CRC_SIZE) in
  printf "数据长度: %d字节\n" [AInt dataLength];;
  printf "数据内容: " [];;
  print_bytes "%02X " messageData (Z.min dataLength 16);;
  when (16 <? dataLength) (printf "..." []);;
  printf "\n" [].

Definition onMessageReceived (parse : SEMP_PARSE_STATE) (messageType : Z) : Program unit :=
  printf "=== 收到完整消息 ===\n" [];;
  printf "消息类型: 0x%02X\n" [AInt messageType];;
  messageId <- lift (member_of (buffer parse) header_messageId);;
  printf "消息ID: 0x%04X\n" [AInt messageId];;
  sender <- lift (member_of (buffer parse) header_sender);;
  printf "发送者: 0x%02X\n" [AInt sender];;
  protocol <- lift (member_of (buffer parse) header_Protocol);;
  printf "协议版本: 0x%02X\n" [AInt protocol];;
  printf "总长度: %d字节\n" [AInt (length parse)];;
  when (sizeof_SEMP_MESSAGE_HEADER <? length parse) (show_payload parse);;
  (if messageType =? 0x01 then handleControlCommand (buffer parse)
   else if messageType =? 0x02 then handleDataTransfer (buffer parse)
   else if messageType =? 0x03 then handleStatusQuery (buffer parse)
   else printf "未知消息类型: 0x%02X\n" [AInt messageType]);;
  printf "==================\n\n" [].

Definition onCrcError (parse : SEMP_PARSE_STATE) : Program bool :=
  printf "CRC校验失败，消息被丢弃\n" [];;
  ret false.

(** The callbacks by number. *)
Definition fn_onMessageReceived : nat := 1.
Definition fn_onCrcError : nat := 2.

#[export] Instance semp_example_answers : Application := fun _ _ => false.

Definition answer : Event -> Program unit := callbacks onMessageReceived onCrcError.

(* ------------------------------------------------------------------ *)
(** ** The parser *)

Definition sempInit : Program unit :=
  init_parser (Some fn_onMessageReceived) (Some fn_onCrcError) "主解析器";;
  printf "SEMP协议解析器初始化完成\n" [].

Definition processBluetoothPacket (packet : list Z) : Program unit :=
  for_each packet (fun b => process_byte answer b;; ret tt).

(** [while ((bytesRead = fread(buffer, 1, sizeof(buffer), file)) > 0)] for the
    bytes left in the file *)
Equations? processFileStream (file : list Z) : Program unit by wf (List.length file) lt :=
  processFileStream [] := ret tt;
  processFileStream (b :: file) :=
    process_buffer answer (take 512 (b :: file));; processFileStream (drop 512 (b :: file)).
Proof. rewrite length_drop. cbn [List.length]. lia. Defined.

(* ------------------------------------------------------------------ *)
(** ** Test data and main *)

Definition testMessage1 : list Z :=
  [0xAA; 0x44; 0x18; 0x14; 0x01; 0x00; 0x00; 0x00; 0x00; 0x00; 0x00; 0x00;
   0x01; 0x00; 0x00; 0x00; 0x01; 0x01; 0x01; 0x00;
   0x01; 0x8E; 0x42; 0x7A; 0x75].

Definition testMessage2 : list Z :=
  [0xAA; 0x44; 0x18; 0x14; 0x01; 0x10; 0x00; 0x00; 0x00; 0x00; 0x00; 0x00;
   0x04; 0x00; 0x00; 0x00; 0x02; 0x02; 0x01; 0x00;
   0x00; 0x00; 0xBC; 0x41; 0x00; 0x00; 0x00; 0x00].

Definition testSempParser : Program unit :=
  printf "开始测试SEMP协议解析器...\n\n" [];;
  sempInit;;
  printf "测试消息1 - LED控制命令:\n" [];;
  process_buffer answer testMessage1;;
  printf "测试消息2 - 温度传感器数据:\n" [];;
  process_buffer answer testMessage2;;
  printf "测试完成\n" [].

Definition bluetoothPacket : list Z :=
  [0xAA; 0x44; 0x18; 0x14; 0x01; 0x00; 0x00; 0x00; 0x00; 0x00; 0x00; 0x00;
   0x01; 0x00; 0x00; 0x00; 0x01; 0x01; 0x01; 0x00;
   0x01; 0x8E; 0x42; 0x7A; 0x75].

Definition main : Program Z :=
  printf "=== SEMP协议解析库完整示例 ===\n\n" [];;
  sempInit;;
  print_lines
    ["📖 此示例展示了SEMP解析库在实际项目中的使用方法\n";
     "📋 包含的功能:\n";
     "   • UART中断处理 (注释状态)\n";
     "   • DMA批量处理 (注释状态)\n";
     "   • 蓝牙/WiFi数据包处理\n";
     "   • 文件流处理\n";
     "   • 完整的消息类型处理框架\n";
     "   • 性能优化建议\n\n";
     "🔧 在实际单片机项目中使用时:\n";
     "   1. 取消注释相关中断处理函数\n";
     "   2. 根据具体MCU调整硬件相关代码\n";
     "   3. 实现具体的消息处理逻辑\n";
     "   4. 配置相应的回调函数\n\n"];;
  printf "🧪 模拟蓝牙数据包处理...\n" [];;
  processBluetoothPacket bluetoothPacket;;
  printf "✨ 示例程序运行完成！\n" [];;
  printf "📚 更多详细信息请查看源代码注释\n" [];;
  ret 0.
