(* ===== verification/SempTool.v ===== *)
(** * The packet tool of the single-protocol parser

    [src/single_parser/test_tool.c]: the report of a packet, member by member, and
    the three packets of [main]. *)
From S2P Require Import Prelude SempParser LibSbf AppPrelude SempClient.

Module Tool.

Definition show_header (l : list Z) : Program unit :=
  printf "\n--- 协议头部 (20字节) ---\n" [];;
  a <- lift (member_of l header_syncA);; b <- lift (member_of l header_syncB);;
  c <- lift (member_of l header_syncC);;
  printf "同步字节: 0x%02X 0x%02X 0x%02X %s\n"
    [AInt a; AInt b; AInt c;
     AStr (if (a =? 0xAA) && (b =? 0x44) && (c =? 0x18) then "✓" else "✗")];;
  h <- lift (member_of l header_headerLength);;
  printf "头部长度: 0x%02X (%d字节) %s\n" [AInt h; AInt h; AStr (if h =? 0x14 then "✓" else "✗")];;
  i <- lift (member_of l header_messageId);; printf "消息ID: 0x%04X (%d)\n" [AInt i; AInt i];;
  r <- lift (member_of l header_RESERVED1);; printf "保留字段1: 0x%04X\n" [AInt r];;
  t <- lift (member_of l header_RESERVED_time);; printf "保留时间戳: 0x%08X (%u)\n" [AInt t; AInt t];;
  n <- lift (member_of l header_messageLength);; printf "消息长度: %d字节\n" [AInt n];;
  r <- lift (member_of l header_RESERVED2);; printf "保留字段2: 0x%04X\n" [AInt r];;
  s <- lift (member_of l header_sender);; printf "发送者: 0x%02X (%d)\n" [AInt s; AInt s];;
  t <- lift (member_of l header_messageType);; printf "消息类型: 0x%02X (%d)\n" [AInt t; AInt t];;
  p <- lift (member_of l header_Protocol);; printf "协议版本: 0x%02X (%d)\n" [AInt p; AInt p];;
  m <- lift (member_of l header_MsgInterval);; printf "消息间隔: %d\n" [AInt (signed 8 m)].

(** [for (i = 0; i < n; i++) { printf("%02X ", l[i]); if ((i + 1) % 16 == 0) printf(line); }] *)
Definition dump (line : string) (l : list Z) (n : Z) : Program unit :=
  for_each (seqZ 0 n) (fun i =>
    d <- lift (load l i);; printf "%02X " [AInt d];;
    when ((i + 1) mod 16 =? 0) (printf line [])).

Definition show_ascii (l : list Z) (n : Z) : Program unit :=
  for_each (seqZ 0 n) (fun i =>
    d <- lift (load l i);;
    if (32 <=? d) && (d <=? 126) then printf "%c" [AInt d] else printf "." []).

(** The first bytes of the data as integers of two byte orders and as a float. *)
Definition show_values (data : list Z) (messageLength : Z) : Program unit :=
  when (1 <=? messageLength)
    (d0 <- lift (load data 0);; printf "8位值: %d (0x%02X)\n" [AInt d0; AInt d0]);;
  when (2 <=? messageLength)
    (d1 <- lift (load data 1);; d0 <- lift (load data 0);;
     let val16_le := u16 (Z.lor (Z.shiftl d1 8) d0) in
     let val16_be := u16 (Z.lor (Z.shiftl d0 8) d1) in
     printf "16位值 (小端): %d (0x%04X)\n" [AInt val16_le; AInt val16_le];;
     printf "16位值 (大端): %d (0x%04X)\n" [AInt val16_be; AInt val16_be]);;
  when (4 <=? messageLength)
    (d3 <- lift (load data 3);; d2 <- lift (load data 2);;
     d1 <- lift (load data 1);; d0 <- lift (load data 0);;
     h3 <- shift_left d3 24;; h2 <- shift_left d2 16;; h1 <- shift_left d1 8;;
     let val32_le := u32 (Z.lor (Z.lor (Z.lor h3 h2) h1) d0) in
     h0 <- shift_left d0 24;; h1 <- shift_left d1 16;; h2 <- shift_left d2 8;;
     let val32_be := u32 (Z.lor (Z.lor (Z.lor h0 h1) h2) d3) in
     printf "32位值 (小端): %u (0x%08X)\n" [AInt val32_le; AInt val32_le];;
     printf "32位值 (大端): %u (0x%08X)\n" [AInt val32_be; AInt val32_be];;
     v <- lift (member_of data (Member 0 4));;
     printf "浮点数: %.6f\n" [AFloat (float_of_bits 23 8 v)]).

Definition show_data (l : list Z) (messageLength : Z) : Program unit :=
  if 0 <? messageLength then
    printf "\n--- 数据部分 (%d字节) ---\n" [AInt messageLength];;
    let data := from l sizeof_SEMP_MESSAGE_HEADER in
    printf "十六进制: " [];;
    dump "\n           " data messageLength;;
    printf "\n" [];;
    printf "ASCII字符: " [];;
    show_ascii data messageLength;;
    printf "\n" [];;
    show_values data messageLength
  else printf "\n--- 无数据部分 ---\n" [].

Definition show_crc (l : list Z) (n : Z) : Program unit :=
  printf "\n--- CRC校验信息 ---\n" [];;
  when (4 <=? n)
    (c0 <- lift (load l (n - 4));; c1 <- lift (load l (n - 3));;
     c2 <- lift (load l (n - 2));; c3 <- lift (load l (n - 1));;
     printf "CRC字节: %02X %02X %02X %02X\n" [AInt c0; AInt c1; AInt c2; AInt c3];;
     let receivedCrc := u32 (Z.lor (Z.lor (Z.lor c0 (Z.shiftl c1 8)) (Z.shiftl c2 16)) (Z.shiftl c3 24)) in
     printf "CRC值: 0x%08X (%u)\n" [AInt receivedCrc; AInt receivedCrc]);;
  printf "CRC状态: ✅ 校验通过\n" [].

Definition detailedEomCallback (parse : SEMP_PARSE_STATE) (messageType : Z) : Program unit :=
  printf "=== 数据包解析成功 ===\n" [];;
  printf "总长度: %d字节\n" [AInt (length parse)];;
  show_header (buffer parse);;
  messageLength <- lift (member_of (buffer parse) header_messageLength);;
  show_data (buffer parse) messageLength;;
  show_crc (buffer parse) (length parse);;
  printf "\n--- 完整数据包 ---\n" [];;
  dump "\n" (buffer parse) (length parse);;
  when (negb (length parse mod 16 =? 0)) (printf "\n" []);;
  printf "========================\n\n" [].

Definition crcErrorCallback (parse : SEMP_PARSE_STATE) : Program bool :=
  printf "❌ CRC校验失败！\n" [];;
  printf "数据包可能在传输过程中损坏\n" [];;
  ret false.

#[export] Instance tool_answers : Application := fun _ _ => false.

Definition answer : Event -> Program unit := callbacks detailedEomCallback crcErrorCallback.

(** The length is an [int] here and has 16 bits for the parser. *)
Definition testDataPacket (data : list Z) (description : string) : Program unit :=
  let n := Z.of_nat (List.length data) in
  printf "🔍 测试数据包: %s\n" [AStr description];;
  printf "数据长度: %d字节\n" [AInt n];;
  printf "原始数据: " [];;
  for_each (seqZ 0 n) (fun i =>
    d <- lift (load data i);; printf "%02X " [AInt d];;
    when (((i + 1) mod 16 =? 0) && (i <? n - 1)) (printf "\n          " []));;
  printf "\n\n" [];;
  init_parser (Some 1%nat) (Some 2%nat) "测试解析器";;
  process_buffer answer (take (Z.to_nat (u16 n)) data);;
  ret tt.

Definition userData : list Z :=
  [0xAA; 0x44; 0x18; 0x14; 0x01; 0x00; 0x00; 0x00; 0x00; 0x00; 0x00; 0x00;
   0x02; 0x00; 0x00; 0x00; 0x00; 0x00; 0x00; 0x00;
   0x01; 0x00; 0xC4; 0xD8; 0xDB; 0x6B].

Definition testData2 : list Z :=
  [0xAA; 0x44; 0x18; 0x14; 0x02; 0x00; 0x00; 0x00; 0x00; 0x00; 0x00; 0x00;
   0x04; 0x00; 0x00; 0x00; 0x01; 0x02; 0x01; 0x00;
   0x11; 0x22; 0x33; 0x44; 0x87; 0x65; 0x43; 0x21].

Definition testData3 : list Z :=
  [0xAA; 0x44; 0x18; 0x14; 0x03; 0x00; 0x00; 0x00; 0x00; 0x00; 0x00; 0x00;
   0x00; 0x00; 0x00; 0x00; 0x02; 0x03; 0x01; 0x00;
   0x12; 0x34; 0x56; 0x78].

Definition main : Program Z :=
  printf "=== SEMP协议数据包测试工具 ===\n\n" [];;
  testDataPacket userData "用户提供的数据包 (2字节数据)";;
  testDataPacket testData2 "示例数据包 (4字节数据)";;
  testDataPacket testData3 "示例数据包 (无数据)";;
  printf "🎉 所有测试完成！\n" [];;
  printf "📝 提示: 您可以修改此文件来测试其他数据包\n" [];;
  ret 0.

End Tool.
