(* ===== verification/SempDemonstration.v ===== *)
(** * The demonstration of the single-protocol parser

    [src/single_parser/main.cpp]. *)
From S2P Require Import Prelude SempParser AppPrelude SempClient.

Module Demonstration.

Definition simpleMessageCallback (parse : SEMP_PARSE_STATE) (messageType : Z) : Program unit :=
  printf "✅ 消息解析成功!\n" [];;
  i <- lift (member_of (buffer parse) header_messageId);;
  printf "   消息ID: 0x%04X\n" [AInt i];;
  printf "   消息类型: 0x%02X\n" [AInt messageType];;
  n <- lift (member_of (buffer parse) header_messageLength);;
  printf "   数据长度: %d字节\n" [AInt n];;
  printf "   总长度: %d字节\n" [AInt (length parse)];;
  printf "   CRC校验: 通过\n\n" [].

Definition simpleCrcErrorCallback (parse : SEMP_PARSE_STATE) : Program bool :=
  printf "❌ CRC校验失败，消息被丢弃\n\n" [];;
  ret false.

#[export] Instance demonstration_answers : Application := fun _ _ => false.

Definition answer : Event -> Program unit := callbacks simpleMessageCallback simpleCrcErrorCallback.

Definition testPacket : list Z :=
  [0xAA; 0x44; 0x18; 0x14; 0x01; 0x00; 0x00; 0x00; 0x00; 0x00; 0x00; 0x00;
   0x02; 0x00; 0x00; 0x00; 0x00; 0x00; 0x00; 0x00;
   0x01; 0x00; 0xC4; 0xD8; 0xDB; 0x6B].

Definition main : Program Z :=
  printf "=== SEMP协议解析库演示程序 ===\n\n" [];;
  init_parser (Some 1%nat) (Some 2%nat) "演示解析器";;
  printf "📡 解析器初始化完成\n\n" [];;
  printf "🔍 处理测试数据包 (%zu字节)...\n" [AInt (Z.of_nat (List.length testPacket))];;
  for_each testPacket (fun b => process_byte answer b;; ret tt);;
  print_lines
    ["✨ 演示完成！\n\n";
     "📚 更多功能请查看:\n";
     "   - test_tool: 详细数据包分析工具\n";
     "   - semp_example.c: 完整使用示例\n";
     "   - README.md: 完整文档\n"];;
  ret 0.

End Demonstration.
