(* ===== verification/MultiDemo.v ===== *)
(** * The demonstration program of the multi-protocol parser

    [src/single_parser/multi_protocol_demo.c].  The state is the parser with the
    static objects of [multi_protocol_parser.c]; before [main] has initialised it
    the structure is zero. *)
From S2P Require Import Prelude MultiParser AppPrelude.

(** A zeroed structure.  It has no buffer and its state is a null pointer, which
    is not read: a byte for such a structure is taken to be too long for the
    buffer, and [mmpFirstByte] writes it to the null pointer. *)
Definition zeroed : MMP_PARSE_STATE :=
  mkParse [] [] 0 None None None None None fn_mmpFirstByte 0 None 0 [] 0 0 (replicate 8 0) (replicate 8 0) 0.

(** The objects with static storage at the start of a program. *)
Definition static_objects : world := World zeroed (replicate sizeof_MMP_SCRATCH_PAD 0) 0.

(** The members of [MMP_SEMP_HEADER] and [MMP_UBLOX_HEADER] that only the
    programs read. *)
Definition header_messageId : member := Member 4 2.
Definition header_sender : member := Member 16 1.
Definition header_messageType : member := Member 17 1.
Definition header_Protocol : member := Member 18 1.
Definition sizeof_MMP_UBLOX_HEADER : Z := 6.
Definition ublox_messageClass : member := Member 2 1.
Definition ublox_messageId : member := Member 3 1.
Definition ublox_length : member := Member 4 2.

Lemma mmpGetProtocolName_total t : exists name, mmpGetProtocolName t = Ok name.
Proof.
  unfold mmpGetProtocolName. destruct (Z.leb_spec MMP_PROTOCOL_COUNT t) as [|H]; [by eexists|].
  destruct (lookup_lt_is_Some_2 mmp_protocolNames (Z.to_nat t)) as [name Hn].
  - unfold MMP_PROTOCOL_COUNT in H. cbn. lia.
  - rewrite Hn. by eexists.
Qed.

(** The loop over the names of the protocols. *)
Definition print_protocols {S} (format : string) : M S Output unit :=
  for_each (seqZ 0 MMP_PROTOCOL_COUNT) (fun i =>
    name <- lift (mmpGetProtocolName i);; printf format [AStr name]).

Module Demo.

Abbreviation Program := (M world Output).

(* ------------------------------------------------------------------ *)
(** ** Callbacks *)

Definition handleSempMessage (parse : MMP_PARSE_STATE) : Program unit :=
  when (sizeof_MMP_SEMP_HEADER <=? length parse)
    (printf "   📋 SEMP详细信息:\n" [];;
     i <- lift (member_of (buffer parse) header_messageId);;
     printf "      消息ID: 0x%04X\n" [AInt i];;
     t <- lift (member_of (buffer parse) header_messageType);;
     printf "      消息类型: 0x%02X\n" [AInt t];;
     s <- lift (member_of (buffer parse) header_sender);;
     printf "      发送者: 0x%02X\n" [AInt s];;
     p <- lift (member_of (buffer parse) header_Protocol);;
     printf "      协议版本: 0x%02X\n" [AInt p];;
     n <- lift (member_of (buffer parse) header_messageLength);;
     printf "      数据长度: %d字节\n" [AInt n]).

Definition handleNmeaMessage (parse : MMP_PARSE_STATE) : Program unit :=
  printf "   📋 NMEA详细信息:\n" [];;
  shown <- lift (c_precision (length parse - 2) (buffer parse));;
  printf "      语句内容: %.*s\n" [AInt (length parse - 2); AChars (shown ++ [0])];;
  when (6 <? length parse)
    (sentenceType <- lift (memcpy (replicate 7 0) 0 (buffer parse) 1 6);;
     printf "      语句类型: %s\n" [AChars sentenceType];;
     gga <- lift (strncmp_equal 5 sentenceType (literal "GPGGA"));;
     if (gga : bool) then printf "      类型: GPS固定数据\n" []
     else
       rmc <- lift (strncmp_equal 5 sentenceType (literal "GPRMC"));;
       if (rmc : bool) then printf "      类型: 推荐最小定位信息\n" []
       else
         gsv <- lift (strncmp_equal 5 sentenceType (literal "GPGSV"));;
         when gsv (printf "      类型: 可见卫星信息\n" [])).

Definition handleUbloxMessage (parse : MMP_PARSE_STATE) : Program unit :=
  when (sizeof_MMP_UBLOX_HEADER <=? length parse)
    (printf "   📋 u-blox详细信息:\n" [];;
     c <- lift (member_of (buffer parse) ublox_messageClass);;
     printf "      消息类别: 0x%02X\n" [AInt c];;
     i <- lift (member_of (buffer parse) ublox_messageId);;
     printf "      消息ID: 0x%02X\n" [AInt i];;
     n <- lift (member_of (buffer parse) ublox_length);;
     printf "      数据长度: %d字节\n" [AInt n];;
     if c =? 0x01 then
       printf "      类型: NAV (导航) 消息\n" [];;
       when (i =? 0x07) (printf "      具体: NAV-PVT (位置速度时间)\n" [])
     else when (c =? 0x02) (printf "      类型: RXM (接收器管理) 消息\n" [])).

Definition onMultiProtocolMessage (parse : MMP_PARSE_STATE) (protocolType : Z) : Program unit :=
  protocolName <- lift (mmpGetProtocolName protocolType);;
  printf "🎯 检测到 %s 协议消息!\n" [AStr protocolName];;
  printf "   消息长度: %d字节\n" [AInt (length parse)];;
  printf "   缓冲区前16字节: " [];;
  let displayLen := if 16 <? length parse then 16 else length parse in
  print_bytes "%02X " (buffer parse) displayLen;;
  when (16 <? length parse) (printf "..." []);;
  printf "\n" [];;
  (if protocolType =? MMP_PROTOCOL_SEMP then handleSempMessage parse
   else if protocolType =? MMP_PROTOCOL_NMEA then handleNmeaMessage parse
   else if protocolType =? MMP_PROTOCOL_UBLOX then handleUbloxMessage parse
   else printf "   协议处理函数待实现\n" []);;
  printf "\n" [].

Definition onMultiProtocolCrcError (parse : MMP_PARSE_STATE) : Program bool :=
  printf "❌ 检测到CRC错误，消息被丢弃\n" [];;
  ret false.

(** [debugOutput] and [errorOutput] print a prefix, the text and a line end. *)
Definition debugOutput (format : string) (args : list arg) : Program unit :=
  printf "🔧 DEBUG: " [];; printf format args;; printf "\n" [].

Definition errorOutput (format : string) (args : list arg) : Program unit :=
  printf "❌ ERROR: " [];; printf format args;; printf "\n" [].

(** The callbacks by number. *)
Definition fn_onMultiProtocolMessage : nat := 1.
Definition fn_onMultiProtocolCrcError : nat := 2.
Definition fn_errorOutput : nat := 3.

#[export] Instance demo_answers : Application := fun _ _ => false.

Definition answer (e : Event) : Program unit :=
  match e with
  | EvEom _ parse protocolType => onMultiProtocolMessage parse protocolType
  | EvBadCrc _ parse => onMultiProtocolCrcError parse;; ret tt
  | EvPrint f format args =>
      if (f =? fn_errorOutput)%nat then errorOutput format args else debugOutput format args
  end.

Definition parser {A} (m : P A) : Program A := call_parser id (fun w _ => w) answer m.

(* ------------------------------------------------------------------ *)
(** ** Test data *)

Definition sempTestData : list Z :=
  [0xAA; 0x44; 0x18; 0x14; 0x01; 0x00; 0x00; 0x00; 0x00; 0x00; 0x00; 0x00;
   0x02; 0x00; 0x00; 0x00; 0x00; 0x00; 0x00; 0x00;
   0x01; 0x00; 0xC4; 0xD8; 0xDB; 0x6B].

(** The characters of the string without its terminator, which no use includes. *)
Definition nmeaTestData : list Z :=
  chars "$GPGGA,123519,4807.038,N,01131.000,E,1,08,0.9,545.4,M,46.9,M,,*47" ++ [0x0D; 0x0A].

Definition ubloxTestData : list Z :=
  [0xB5; 0x62; 0x01; 0x07; 0x5C; 0x00;
   0x10; 0x27; 0x00; 0x00; 0xE7; 0x07; 0x0B; 0x1D; 0x0E; 0x23; 0x2E; 0x00;
   0x00; 0x00; 0x00; 0x00; 0x39; 0x00; 0x00; 0x00; 0x03; 0x03; 0x00; 0x00;
   0x72; 0x29; 0x31; 0x17; 0x18; 0x4F; 0xC2; 0x0A; 0x69; 0xC7; 0x36; 0x02;
   0x5E; 0x8F; 0x00; 0x00; 0x2D; 0x13; 0x00; 0x00; 0xC6; 0xFF; 0xFF; 0xFF;
   0x00; 0x00; 0x00; 0x00; 0x0E; 0x00; 0x00; 0x00; 0x00; 0x00; 0x00; 0x00;
   0x87; 0x01; 0x00; 0x00; 0x93; 0x00; 0x00; 0x00; 0x3B; 0x01; 0x00; 0x00;
   0x18; 0x01] ++ replicate 18 0x00 ++ [0x9A; 0x0D].

Record TestPacket := Packet { data : list Z; description : string }.

Definition mixedTestData : list TestPacket :=
  [Packet sempTestData "SEMP协议数据包";
   Packet nmeaTestData "NMEA GPS语句";
   Packet ubloxTestData "u-blox导航消息"].

(* ------------------------------------------------------------------ *)
(** ** Tests and main *)

Definition testSingleProtocol (packet : TestPacket) : Program unit :=
  let n := Z.of_nat (List.length (data packet)) in
  printf "📦 测试数据包: %s\n" [AStr (description packet)];;
  printf "   数据长度: %zu字节\n" [AInt n];;
  printf "   原始数据: " [];;
  let displayLen := if 20 <? n then 20 else n in
  for_each (seqZ 0 displayLen) (fun i =>
    d <- lift (load (data packet) i);;
    if (32 <=? d) && (d <=? 126) then printf "%c" [AInt d] else printf "." []);;
  when (20 <? n) (printf "..." []);;
  printf "\n" [];;
  printf "   十六进制: " [];;
  print_bytes "%02X " (data packet) displayLen;;
  when (20 <? n) (printf "..." []);;
  printf "\n\n" [];;
  for_each (data packet) (fun b => parser (mmpProcessByte b);; ret tt).

Definition testMixedProtocols : Program unit :=
  printf "🔀 混合协议测试 - 模拟真实通信环境\n" [];;
  printf "===========================================\n\n" [];;
  for_each mixedTestData (fun packet =>
    testSingleProtocol packet;;
    printf "-------------------------------------------\n\n" []).

(** The part of [streamData] that is filled. *)
Definition streamData : list Z :=
  sempTestData ++ [0xFF; 0x00; 0x55] ++ nmeaTestData ++ [0xAB; 0xCD] ++ ubloxTestData.

Definition testStreamData : Program unit :=
  printf "🌊 流式数据测试 - 连续数据流解析\n" [];;
  printf "===========================================\n\n" [];;
  printf "📊 流数据总长度: %zu字节\n" [AInt (Z.of_nat (List.length streamData))];;
  printf "🔍 开始解析流数据...\n\n" [];;
  processed <- parser (mmpProcessBuffer streamData);;
  printf "✅ 处理完成，共处理 %d 字节\n\n" [AInt processed].

(** [mmpInitParser(&parser, messageBuffer, sizeof(messageBuffer), ...)] with the
    static array of [main] *)
Definition init : Program bool :=
  match mmpInitParser true (Some (replicate 2048 0)) 2048 (Some fn_onMultiProtocolMessage)
          (Some fn_onMultiProtocolCrcError) (Some "演示解析器") (Some fn_errorOutput) None with
  | None => ret false
  | Some p => modify (on_parse (fun _ => p));; ret true
  end.

Definition main : Program Z :=
  printf "🚀 多协议解析器演示程序\n" [];;
  printf "==================================================\n\n" [];;
  ok <- init;;
  if negb ok then printf "❌ 解析器初始化失败！\n" [];; ret (-1)
  else
    printf "✅ 多协议解析器初始化成功\n" [];;
    printf "📋 支持的协议:\n" [];;
    print_protocols "   • %s\n";;
    printf "\n" [];;
    testMixedProtocols;;
    testStreamData;;
    printf "📊 解析统计信息\n" [];;
    printf "==================================================\n" [];;
    parser mmpPrintStats;;
    print_lines
      ["\n🎉 演示完成！\n";
       "💡 提示: 在实际应用中，您可以:\n";
       "   • 在UART中断中调用 mmpProcessByte()\n";
       "   • 在DMA完成中断中调用 mmpProcessBuffer()\n";
       "   • 根据协议类型进行相应的业务处理\n";
       "   • 监控统计信息进行性能优化\n"];;
    ret 0.

End Demo.
