(* ===== verification/MultiExample.v ===== *)
(** * The application example of the multi-protocol parser

    [src/single_parser/multi_protocol_example.c]: an embedded system with a
    simulated UART and DMA unit, the callbacks that copy a message to one of four
    buffers and report it, the interrupt handlers, the packet handlers, the
    background task with its ring buffer, and the test scenarios. *)
From S2P Require Import Prelude MultiParser AppPrelude MultiDemo.

(* ------------------------------------------------------------------ *)
(** ** Static objects *)

Record UART_TypeDef := Uart { DATA : Z; STATUS : Z; CTRL : Z }.

(** [SRC_ADDR] is not used; [DST_ADDR] is null or the address of [g_uartRxBuffer]. *)
Inductive address := NULL | to_g_uartRxBuffer.
Record DMA_TypeDef := Dma { DST_ADDR : address; COUNT : Z; DMA_CTRL : Z; DMA_STATUS : Z }.

(** [g_multiParser] comes with the static objects of the parser.  The four
    message buffers lie one behind the other in one array. *)
Record system := System {
  UART1 : UART_TypeDef;
  DMA1 : DMA_TypeDef;
  g_multiParser : world;
  g_uartRxBuffer : list Z;
  g_uartRxHead : Z;
  g_uartRxTail : Z;
  g_messageBuffers : list Z;
  g_currentBuffer : Z;
  g_processedBytes : Z;
  g_messagesReceived : Z
}.

Definition at_reset : system :=
  System (Uart 0 0 0) (Dma NULL 0 0 0) static_objects (replicate 256 0) 0 0 (replicate 2048 0) 0 0 0.

Definition with_UART1 v s := System v (DMA1 s) (g_multiParser s) (g_uartRxBuffer s) (g_uartRxHead s)
  (g_uartRxTail s) (g_messageBuffers s) (g_currentBuffer s) (g_processedBytes s) (g_messagesReceived s).
Definition with_DMA1 v s := System (UART1 s) v (g_multiParser s) (g_uartRxBuffer s) (g_uartRxHead s)
  (g_uartRxTail s) (g_messageBuffers s) (g_currentBuffer s) (g_processedBytes s) (g_messagesReceived s).
Definition with_multiParser v s := System (UART1 s) (DMA1 s) v (g_uartRxBuffer s) (g_uartRxHead s)
  (g_uartRxTail s) (g_messageBuffers s) (g_currentBuffer s) (g_processedBytes s) (g_messagesReceived s).
Definition with_uartRxBuffer v s := System (UART1 s) (DMA1 s) (g_multiParser s) v (g_uartRxHead s)
  (g_uartRxTail s) (g_messageBuffers s) (g_currentBuffer s) (g_processedBytes s) (g_messagesReceived s).
Definition with_uartRxTail v s := System (UART1 s) (DMA1 s) (g_multiParser s) (g_uartRxBuffer s)
  (g_uartRxHead s) v (g_messageBuffers s) (g_currentBuffer s) (g_processedBytes s) (g_messagesReceived s).
Definition with_messageBuffers v s := System (UART1 s) (DMA1 s) (g_multiParser s) (g_uartRxBuffer s)
  (g_uartRxHead s) (g_uartRxTail s) v (g_currentBuffer s) (g_processedBytes s) (g_messagesReceived s).
Definition with_currentBuffer v s := System (UART1 s) (DMA1 s) (g_multiParser s) (g_uartRxBuffer s)
  (g_uartRxHead s) (g_uartRxTail s) (g_messageBuffers s) v (g_processedBytes s) (g_messagesReceived s).
Definition with_processedBytes v s := System (UART1 s) (DMA1 s) (g_multiParser s) (g_uartRxBuffer s)
  (g_uartRxHead s) (g_uartRxTail s) (g_messageBuffers s) (g_currentBuffer s) v (g_messagesReceived s).
Definition with_messagesReceived v s := System (UART1 s) (DMA1 s) (g_multiParser s) (g_uartRxBuffer s)
  (g_uartRxHead s) (g_uartRxTail s) (g_messageBuffers s) (g_currentBuffer s) (g_processedBytes s) v.

Module Embedded.

Abbreviation Program := (M system Output).

(* ------------------------------------------------------------------ *)
(** ** Messages of the protocols

    [buffer] is the array from the target buffer on. *)

Definition processSempMessage (buffer : list Z) (length : Z) : Program unit :=
  printf "📡 SEMP消息处理\n" [];;
  when (sizeof_MMP_SEMP_HEADER <=? length)
    (messageId <- lift (member_of buffer header_messageId);;
     printf "   消息ID: 0x%04X\n" [AInt messageId];;
     messageType <- lift (member_of buffer header_messageType);;
     printf "   消息类型: 0x%02X\n" [AInt messageType];;
     messageLength <- lift (member_of buffer header_messageLength);;
     printf "   数据长度: %d字节\n" [AInt messageLength];;
     if messageType =? 0x01 then printf "   ❤️  心跳消息 - 设备正常运行\n" []
     else if messageType =? 0x02 then
       printf "   📊 传感器数据消息\n" [];;
       when (2 <=? messageLength)
         (sensorValue <- lift (member_of (from buffer sizeof_MMP_SEMP_HEADER) (Member 0 2));;
          printf "      传感器值: %d\n" [AInt sensorValue])
     else if messageType =? 0x03 then printf "   🎮 控制命令消息\n" []
     else printf "   ❓ 未知消息类型: 0x%02X\n" [AInt messageType]).

(** The local array [sentence] is not initialised; what lies behind the
    terminator is not read. *)
Definition processNmeaMessage (buffer : list Z) (length : Z) : Program unit :=
  printf "🗺️  NMEA GPS消息处理\n" [];;
  let copyLen := if 255 <? length then 255 else length in
  sentence <- lift (memcpy (replicate 256 0) 0 buffer 0 copyLen);;
  sentence <- lift (store sentence copyLen 0);;
  printf "   GPS语句: %s" [AChars sentence];;
  gga <- lift (strncmp_equal 6 buffer (literal "$GPGGA"));;
  if (gga : bool) then printf "   🎯 GPS固定数据 - 解析位置信息\n" []
  else
    rmc <- lift (strncmp_equal 6 buffer (literal "$GPRMC"));;
    if (rmc : bool) then printf "   🧭 推荐最小定位信息 - 解析航向和速度\n" []
    else
      gsv <- lift (strncmp_equal 6 buffer (literal "$GPGSV"));;
      when gsv (printf "   🛰️  可见卫星信息 - 解析卫星状态\n" []).

Definition processUbloxMessage (buffer : list Z) (length : Z) : Program unit :=
  printf "📍 u-blox导航消息处理\n" [];;
  when (sizeof_MMP_UBLOX_HEADER <=? length)
    (messageClass <- lift (member_of buffer ublox_messageClass);;
     messageId <- lift (member_of buffer ublox_messageId);;
     printf "   消息类别: 0x%02X, ID: 0x%02X\n" [AInt messageClass; AInt messageId];;
     n <- lift (member_of buffer ublox_length);;
     printf "   数据长度: %d字节\n" [AInt n];;
     if (messageClass =? 0x01) && (messageId =? 0x07) then
       printf "   🌍 NAV-PVT: 位置速度时间解决方案\n" []
     else if (messageClass =? 0x01) && (messageId =? 0x35) then printf "   📊 NAV-SAT: 卫星信息\n" []
     else when (messageClass =? 0x05) (printf "   ✅ ACK: 确认消息\n" [])).

(* ------------------------------------------------------------------ *)
(** ** Callbacks *)

Definition onMessageComplete (parse : MMP_PARSE_STATE) (protocolType : Z) : Program unit :=
  n <- gets g_messagesReceived;; modify (with_messagesReceived (u32 (n + 1)));;
  i <- gets g_currentBuffer;;
  b <- gets g_messageBuffers;;
  b <- lift (memcpy b (512 * i) (buffer parse) 0 (length parse));;
  modify (with_messageBuffers b);;
  let targetBuffer := from b (512 * i) in
  (if protocolType =? MMP_PROTOCOL_SEMP then processSempMessage targetBuffer (length parse)
   else if protocolType =? MMP_PROTOCOL_NMEA then processNmeaMessage targetBuffer (length parse)
   else if protocolType =? MMP_PROTOCOL_UBLOX then processUbloxMessage targetBuffer (length parse)
   else printf "❓ 未处理的协议类型: %d\n" [AInt protocolType]);;
  i <- gets g_currentBuffer;; modify (with_currentBuffer (u8 ((i + 1) mod 4)));;
  n <- gets g_messagesReceived;; k <- gets g_processedBytes;;
  printf "   📈 统计: 已处理%u条消息, %u字节\n\n" [AInt n; AInt k].

Definition onCrcError (parse : MMP_PARSE_STATE) : Program bool :=
  name <- lift (mmpGetProtocolName (type parse));;
  printf "❌ CRC错误: 长度%d字节, 协议%s\n" [AInt (length parse); AStr name];;
  ret false.

Definition debugPrint (format : string) (args : list arg) : Program unit :=
  printf "🔧 [DEBUG] " [];; printf format args;; printf "\n" [].

Definition errorPrint (format : string) (args : list arg) : Program unit :=
  printf "❌ [ERROR] " [];; printf format args;; printf "\n" [].

(** The callbacks by number. *)
Definition fn_onMessageComplete : nat := 1.
Definition fn_onCrcError : nat := 2.
Definition fn_errorPrint : nat := 3.

#[export] Instance example_answers : Application := fun _ _ => false.

Definition answer (e : Event) : Program unit :=
  match e with
  | EvEom _ parse protocolType => onMessageComplete parse protocolType
  | EvBadCrc _ parse => onCrcError parse;; ret tt
  | EvPrint f format args =>
      if (f =? fn_errorPrint)%nat then errorPrint format args else debugPrint format args
  end.

Definition parser {A} (m : P A) : Program A := call_parser g_multiParser with_multiParser answer m.

(* ------------------------------------------------------------------ *)
(** ** Interrupts, packets and tasks *)

Definition UART1_IRQHandler : Program unit :=
  u <- gets UART1;;
  when (negb (Z.land (STATUS u) 0x01 =? 0))
    (k <- gets g_processedBytes;; modify (with_processedBytes (u32 (k + 1)));;
     parser (mmpProcessByte (DATA u));;
     ret tt).

(** The loop of [mmpProcessBuffer] over the next [n] bytes of an array, which may
    be shorter. *)
Fixpoint process_array (l : list Z) (n : nat) (processed : Z) : P Z :=
  match n with
  | O => ret processed
  | S n =>
      match l with
      | [] => undefined OutOfBounds
      | b :: l =>
          more <- mmpProcessByte b;;
          if (more : bool) then process_array l n (u16 (processed + 1)) else ret (u16 (processed + 1))
      end
  end.

Definition DMA1_IRQHandler : Program unit :=
  d <- gets DMA1;;
  when (negb (Z.land (DMA_STATUS d) 0x01 =? 0))
    (let receivedCount := COUNT d in
     printf "📦 DMA接收完成: %d字节\n" [AInt receivedCount];;
     b <- gets g_uartRxBuffer;;
     processed <- parser (process_array b (Z.to_nat receivedCount) 0);;
     printf "   处理了 %d/%d 字节\n" [AInt processed; AInt receivedCount];;
     d <- gets DMA1;;
     modify (with_DMA1 (Dma to_g_uartRxBuffer 256 (Z.lor (DMA_CTRL d) 0x01)
                          (u8 (Z.land (DMA_STATUS d) (Z.lnot 0x01)))))).

Definition processNetworkPacket (packet : list Z) : Program unit :=
  printf "🌐 网络数据包处理: %d字节\n" [AInt (Z.of_nat (List.length packet))];;
  for_each packet (fun b => parser (mmpProcessByte b);; ret tt).

Definition processBluetoothData (data : list Z) : Program unit :=
  let n := Z.of_nat (List.length data) in
  printf "📱 蓝牙数据处理: %d字节\n" [AInt n];;
  processed <- parser (mmpProcessBuffer data);;
  printf "   蓝牙数据解析: %d/%d字节\n" [AInt processed; AInt n].

(** The loop of the task for at most [fuel] bytes; the answer says whether the
    loop ended. *)
Fixpoint backgroundProcessTask (fuel : nat) : Program bool :=
  s <- gets id;;
  if g_uartRxTail s =? g_uartRxHead s then ret true
  else
    match fuel with
    | O => ret false
    | S fuel =>
        data <- lift (load (g_uartRxBuffer s) (g_uartRxTail s));;
        modify (with_uartRxTail (u16 ((g_uartRxTail s + 1) mod 256)));;
        parser (mmpProcessByte data);;
        backgroundProcessTask fuel
    end.

Definition statisticsTask : Program unit :=
  printf "\n📊 === 多协议解析器统计报告 ===\n" [];;
  parser mmpPrintStats;;
  k <- gets g_processedBytes;; printf "总接收字节: %u\n" [AInt k];;
  n <- gets g_messagesReceived;; printf "总消息数: %u\n" [AInt n];;
  printf "=============================\n\n" [].

(* ------------------------------------------------------------------ *)
(** ** Initialisation *)

(** [g_parseBuffer]: it lies in the structure once that is initialised. *)
Definition g_parseBuffer (s : system) : list Z :=
  let p := parse (g_multiParser s) in
  if bufferLength p =? 0 then replicate 1024 0 else buffer p.

(** The structure [mmpInitParser(&g_multiParser, g_parseBuffer, sizeof(g_parseBuffer), ...)] leaves. *)
Definition init_parser (s : system) : option MMP_PARSE_STATE :=
  mmpInitParser true (Some (g_parseBuffer s)) 1024 (Some fn_onMessageComplete) (Some fn_onCrcError)
    (Some "嵌入式多协议解析器") (Some fn_errorPrint) None.

Definition initMultiProtocolSystem : Program bool :=
  printf "🚀 初始化多协议通信系统...\n" [];;
  s <- gets id;;
  match init_parser s with
  | None => printf "❌ 多协议解析器初始化失败!\n" [];; ret false
  | Some p =>
      modify (fun s => with_multiParser (on_parse (fun _ => p) (g_multiParser s)) s);;
      modify (fun s => with_UART1 (Uart (DATA (UART1 s)) (STATUS (UART1 s)) 0x01) s);;
      printf "✅ UART1初始化完成\n" [];;
      modify (fun s => with_DMA1 (Dma to_g_uartRxBuffer 256 0x01 (DMA_STATUS (DMA1 s))) s);;
      printf "✅ DMA1初始化完成\n" [];;
      printf "✅ 多协议通信系统初始化成功!\n" [];;
      printf "📋 支持的协议: " [];;
      print_protocols "%s ";;
      printf "\n\n" [];;
      ret true
  end.

(* ------------------------------------------------------------------ *)
(** ** Scenarios and main *)

Definition uartData : list Z :=
  [0xAA; 0x44; 0x18; 0x14; 0x01; 0x00; 0x00; 0x00;
   0x00; 0x00; 0x00; 0x00; 0x02; 0x00; 0x00; 0x00;
   0x00; 0x00; 0x00; 0x00; 0x01; 0x00; 0xC4; 0xD8; 0xDB; 0x6B].

(** The characters of the strings without their terminators, which no use includes. *)
Definition dmaData : list Z :=
  chars "$GPGGA,123519,4807.038,N,01131.000,E,1,08,0.9,545.4,M,46.9,M,,*47" ++ [0x0D; 0x0A].

Definition networkPacket : list Z :=
  [0xB5; 0x62; 0x01; 0x07; 0x04; 0x00; 0x12; 0x34; 0x56; 0x78; 0x99; 0x0D].

Definition bluetoothData : list Z :=
  chars "$GPRMC,123519,A,4807.038,N,01131.000,E,022.4,084.4,230394,003.1,W*6A" ++ [0x0D; 0x0A].

(** [UART1.DATA = b; UART1.STATUS |= 0x01; UART1_IRQHandler();] *)
Definition uart_receives (b : Z) : Program unit :=
  modify (fun s => with_UART1 (Uart b (STATUS (UART1 s)) (CTRL (UART1 s))) s);;
  modify (fun s => with_UART1 (Uart (DATA (UART1 s)) (Z.lor (STATUS (UART1 s)) 0x01) (CTRL (UART1 s))) s);;
  UART1_IRQHandler.

(** [memcpy(g_uartRxBuffer, l, n); DMA1.COUNT = n; DMA1.STATUS |= 0x01; DMA1_IRQHandler();] *)
Definition dma_receives (l : list Z) : Program unit :=
  let n := Z.of_nat (List.length l) in
  b <- gets g_uartRxBuffer;;
  b <- lift (memcpy b 0 l 0 n);;
  modify (with_uartRxBuffer b);;
  modify (fun s => with_DMA1 (Dma (DST_ADDR (DMA1 s)) (u16 n) (DMA_CTRL (DMA1 s)) (DMA_STATUS (DMA1 s))) s);;
  modify (fun s => with_DMA1 (Dma (DST_ADDR (DMA1 s)) (COUNT (DMA1 s)) (DMA_CTRL (DMA1 s))
                                (Z.lor (DMA_STATUS (DMA1 s)) 0x01)) s);;
  DMA1_IRQHandler.

Definition testEmbeddedScenarios : Program unit :=
  printf "🧪 嵌入式应用场景测试\n" [];;
  printf "=====================================\n\n" [];;
  printf "📡 场景1: UART串口数据接收\n" [];;
  for_each uartData uart_receives;;
  printf "\n" [];;
  printf "📦 场景2: DMA批量数据接收\n" [];;
  dma_receives dmaData;;
  printf "\n" [];;
  printf "🌐 场景3: 网络数据包处理\n" [];;
  processNetworkPacket networkPacket;;
  printf "\n" [];;
  printf "📱 场景4: 蓝牙数据处理\n" [];;
  processBluetoothData bluetoothData;;
  printf "\n" [];;
  printf "🔄 场景5: 混合数据流处理\n" [];;
  processNetworkPacket (uartData ++ [0xFF; 0x00] ++ dmaData);;
  printf "\n" [].

Definition main : Program Z :=
  printf "🔧 嵌入式多协议解析器应用示例\n" [];;
  printf "================================================\n\n" [];;
  ok <- initMultiProtocolSystem;;
  if negb ok then ret (-1)
  else
    testEmbeddedScenarios;;
    statisticsTask;;
    print_lines
      ["💡 实际使用建议:\n";
       "================\n";
       "1. 🎯 中断优化:\n";
       "   - 在UART中断中只存储数据到缓冲区\n";
       "   - 在主循环或低优先级任务中进行解析\n";
       "   - 使用DMA减少CPU占用\n\n";
       "2. 📊 内存优化:\n";
       "   - 根据实际需求调整缓冲区大小\n";
       "   - 使用多个小缓冲区避免阻塞\n";
       "   - 及时处理完成的消息释放空间\n\n";
       "3. ⚡ 性能优化:\n";
       "   - 优先处理高频协议\n";
       "   - 使用协议优先级队列\n";
       "   - 监控统计信息进行调优\n\n";
       "4. 🛡️  错误处理:\n";
       "   - 实现超时机制防止死锁\n";
       "   - 记录错误统计便于调试\n";
       "   - 提供协议重置恢复机制\n\n";
       "🎉 示例程序完成!\n"];;
    ret 0.

End Embedded.
