(* ===== verification/FunctionalTest.v ===== *)
(** * The functional test of the C framework

    [src/my_parser/demo/func_test.c]: a parser for the custom protocol, its
    callbacks, two messages and the result it records. *)
From S2P Require Import Prelude ParseState MessageParser NextByte BeginParser AppPrelude.

(** The output callbacks get the text of [sempPrintf], which ends with CR and LF,
    or a line of [sempPrintln]; they add a line feed. *)
Definition output_callback {S} (e : Event) : M S Output unit :=
  match e with
  | EvLine _ format args => printf format args;; printf "\r\n" [];; printf "\n" []
  | EvPrint _ format args => printf format args;; printf "\n" []
  | _ => ret tt
  end.

Module FuncTest.

Record TestState := Test {
  test_count : Z;
  pass_count : Z;
  current_protocol : option string;
  message_parsed : bool;
  parsed_type : Z
}.

(** [g_test_state], and the local variable [parser] of [main]. *)
Record program := State { g_test_state : TestState; parser : option SEMP_PARSE_STATE }.

Definition start : program := State (Test 0 0 None false 0) None.

Abbreviation Program := (M program Output).

Definition set_result (parsed : bool) (type : Z) : Program unit :=
  modify (fun s => let t := g_test_state s in
    State (Test (test_count t) (pass_count t) (current_protocol t) parsed type) (parser s)).

Definition eomCallback (parse : SEMP_PARSE_STATE) (type : Z) : Program unit :=
  name <- lift (sempGetTypeName (Some parse) type);;
  printf "  [Callback] 协议 '%s' 消息解析成功, 类型索引: %d, 长度: %d\n"
    [AStr name; AInt type; AInt (msg_length parse)];;
  set_result true type.

Definition badCrcCallback (parse : SEMP_PARSE_STATE) : Program bool :=
  name <- lift (sempGetTypeName (Some parse) (parser_type parse));;
  printf "  [Callback] 协议 '%s' 消息解析失败, 类型索引: %d, 长度: %d\n"
    [AStr name; AInt (parser_type parse); AInt (msg_length parse)];;
  set_result false (parser_type parse);;
  ret true.

#[export] Instance func_test_answers : Application := fun _ _ => true.

Definition answer (e : Event) : Program unit :=
  match e with
  | EvEom _ parse type => eomCallback parse type
  | EvBadCrc _ parse => badCrcCallback parse;; ret tt
  | e => output_callback e
  end.

Definition parsersTable : list PREAMBLE_ROUTINE := [fn_sempCustomPreamble].
Definition parserNamesTable : list string := ["Custom-BIN"].

(** [sempParseNextByte(parser, b)] *)
Definition parse_next_byte (b : Z) : Program unit :=
  p <- gets parser;;
  match p with
  | None => ret tt
  | Some p =>
      call_parser (fun s => default p (parser s)) (fun p s => State (g_test_state s) (Some p)) answer
        (sempParseNextByte b)
  end.

Definition testMessage1 : list Z :=
  [0xAA; 0x44; 0x18; 0x14; 0x01; 0x00; 0x00; 0x00; 0x00; 0x00; 0x00; 0x00;
   0x01; 0x00; 0x00; 0x00; 0x01; 0x01; 0x01; 0x00;
   0x01; 0x8E; 0x42; 0x7A; 0x75].

Definition testMessage2 : list Z :=
  [0xAA; 0x44; 0x18; 0x14; 0x01; 0x10; 0x00; 0x00; 0x00; 0x00; 0x00; 0x00;
   0x04; 0x00; 0x00; 0x00; 0x02; 0x02; 0x01; 0x00;
   0x00; 0x00; 0xBC; 0x41; 0x00; 0x00; 0x00; 0x00].

Section main.
  Context `{Alloc : Allocator} (ptr : Z).

Definition begin : Program unit :=
  p <- call_parser (fun _ => tt) (fun _ s => s) answer
    (sempBeginParser ptr (Some "FuncTestParser") (Some parsersTable) (Z.of_nat (length parsersTable))
       (Some parserNamesTable) (Z.of_nat (length parsersTable)) 1024 2048
       (Some 1%nat) (Some 2%nat) (Some 3%nat) (Some 4%nat));;
  modify (fun s => State (g_test_state s) p).

Definition main : Program Z :=
  printf "=================================\n" [];;
  printf "  解析器功能测试 v1.0\n" [];;
  printf "=================================\n" [];;
  begin;;
  for_each testMessage1 parse_next_byte;;
  for_each testMessage2 parse_next_byte;;
  ret 0.

End main.
End FuncTest.
