(* ===== verification/StressProgram.v ===== *)
(** * The stress test of the C framework

    [src/my_parser/demo/stress_test.c]: five parsers read a file, and a counter per
    parser is printed. *)
From S2P Require Import Prelude ParseState MessageParser NextByte BeginParser AppPrelude.

Module StressTest.

Definition MAX_PROTOCOL_TYPES : Z := 16.

(** The counters are of type [long]; a file is too short to make them overflow. *)
Record StressTestState := Stress { total_bytes_processed : Z; success_counts : list Z }.

Record program := State { g_stress_state : StressTestState; parser : option SEMP_PARSE_STATE }.

Definition start : program := State (Stress 0 (replicate 16 0)) None.

Abbreviation Program := (M program Output).

Definition stressEomCallback (parse : SEMP_PARSE_STATE) (type : Z) : Program unit :=
  when (type <? MAX_PROTOCOL_TYPES)
    (g <- gets g_stress_state;;
     v <- lift (load (success_counts g) type);;
     l <- lift (store (success_counts g) type (v + 1));;
     modify (fun s => State (Stress (total_bytes_processed g) l) (parser s))).

(** [stressPrintError] prints nothing. *)
Definition answer (e : Event) : Program unit :=
  match e with
  | EvEom _ parse type => stressEomCallback parse type
  | _ => ret tt
  end.

Definition parsersTable : list PREAMBLE_ROUTINE :=
  [fn_sempNmeaPreamble; fn_sempRtcmPreamble; fn_sempUbloxPreamble; fn_sempUnicoreBinaryPreamble;
   fn_sempUnicoreHashPreamble].
Definition parserNamesTable : list string :=
  ["NMEA"; "RTCM3"; "u-blox"; "Unicore-BIN"; "Unicore-HASH"; "Custom-BIN"].
Definition parserCount : Z := Z.of_nat (length parsersTable).

(** No [badCrc] callback is set. *)
#[export] Instance stress_test_answers : Application := fun _ _ => true.

Section main.
  Context `{Alloc : Allocator} (ptr : Z).

Definition begin : Program unit :=
  p <- call_parser (fun _ => tt) (fun _ s => s) answer
    (sempBeginParser ptr (Some "StressTestParser") (Some parsersTable) parserCount
       (Some parserNamesTable) parserCount 1024 2048 (Some 1%nat) (Some 2%nat) None None);;
  modify (fun s => State (g_stress_state s) p).

(** The loop over the bytes of the file. *)
Definition process_file (file : list Z) : Program unit :=
  for_each file (fun byte =>
    p <- gets parser;;
    match p with
    | None => ret tt
    | Some p =>
        call_parser (fun s => default p (parser s)) (fun p s => State (g_stress_state s) (Some p)) answer
          (sempParseNextByte (u8 byte))
    end;;
    modify (fun s => State (Stress (total_bytes_processed (g_stress_state s) + 1)
                              (success_counts (g_stress_state s))) (parser s))).

(** [sempStopParser(&parser)] *)
Definition stop : Program unit :=
  modify (fun s => State (g_stress_state s) (default None (sempStopParser (Some (parser s))).1)).

Definition print_summary : Program unit :=
  g <- gets g_stress_state;;
  printf "\n--- 压力测试总结 ---\n" [];;
  printf "总处理字节数: %ld\n" [AInt (total_bytes_processed g)];;
  printf "成功解析的消息统计:\n" [];;
  for_each (seqZ 0 parserCount) (fun i =>
    n <- lift (load (success_counts g) i);;
    when (0 <? n)
      (name <- lift (match parserNamesTable !! Z.to_nat i with Some s => Ok s | None => Ub OutOfBounds end);;
       printf "  - %-15s: %ld 条\n" [AStr name; AInt n]));;
  when (forallb (fun n => n <=? 0) (take (Z.to_nat parserCount) (success_counts g)))
    (printf "  (未成功解析任何消息)\n" []);;
  printf "=======================\n" [].

(** [file] is the contents of the file, or [None] when it cannot be opened. *)
Definition main (file : option (list Z)) : Program Z :=
  printf "=================================\n" [];;
  printf "  解析器压力测试 v1.0\n" [];;
  printf "=================================\n" [];;
  if MAX_PROTOCOL_TYPES <? parserCount then
    printf "错误: 协议数量超过了测试状态数组的最大容量!\n" [];; ret (-1)
  else
    begin;;
    p <- gets parser;;
    match p with
    | None => printf "解析器初始化失败!\n" [];; ret (-1)
    | Some _ =>
        match file with
        | None => perror "错误: 无法打开 'mixed_data.bin'";; stop;; ret (-1)
        | Some file =>
            printf "正在处理 'mixed_data.bin'...\n" [];;
            process_file file;;
            print_summary;;
            stop;;
            ret 0
        end
    end.

End main.
End StressTest.
