(* ===== verification/FrameworkDemoTheorems.v ===== *)
(** * The stress test counts what the file carries

    The program of [src/my_parser/demo/stress_test.c] composed with the parser it
    drives: the counts it reports, and the input on which it is undefined. *)
From S2P Require Import Prelude ParseState MessageParser NextByte BeginParser FrameSpec.
From S2P Require Import Representation Refine Lifecycle RoundTrip ParserTheorems AppPrelude.
From S2P Require Import FunctionalTest StressProgram.
Import StressTest.

(** How many of the messages have the parser index [i]. *)
Definition messages_of (i : nat) (out : output) : Z :=
  Z.of_nat (length (filter (fun x => x.1 = Z.of_nat i) out)).

(** The configuration of the stress test. *)
#[program] Definition stress_setup : Setup (App := stress_test_answers) := {|
  B := 2048; table := StressTest.parsersTable; eom := 1; bad := None; accepts := fun _ _ => false |}.
Solve All Obligations with (cbn; done || lia).

(* ------------------------------------------------------------------ *)
(** ** The counters *)

Definition count_message (l : list Z) (x : Z * list Z) : list Z :=
  if x.1 <? MAX_PROTOCOL_TYPES then <[Z.to_nat x.1 := default 0 (l !! Z.to_nat x.1) + 1]> l else l.
Definition tally (out : output) (l : list Z) : list Z := fold_left count_message out l.

Lemma length_tally out l : length (tally out l) = length l.
Proof.
  revert l. induction out as [|x out IH]; intros l; cbn; [done|].
  rewrite IH. unfold count_message. case_match; [apply length_insert|done].
Qed.

Lemma tally_lookup out l i v :
  Forall (fun x => 0 <= x.1) out -> (i < 16)%nat -> l !! i = Some v ->
  tally out l !! i = Some (v + messages_of i out).
Proof.
  unfold messages_of. intros Hout Hi. revert l v.
  induction Hout as [|x out Hx _ IH]; intros l v Hl; cbn [tally fold_left].
  - rewrite Hl. f_equal. cbn. lia.
  - rewrite filter_cons. destruct (decide (x.1 = Z.of_nat i)) as [E|E].
    + rewrite (IH _ (v + 1)); [f_equal; cbn [length]; lia|]. unfold count_message, MAX_PROTOCOL_TYPES.
      rewrite (proj2 (Z.ltb_lt _ _)) by lia. rewrite E, Nat2Z.id, Hl.
      by rewrite list_lookup_insert_eq by (by eapply lookup_lt_Some).
    + apply IH. unfold count_message. case_match; [|done].
      rewrite list_lookup_insert_ne; [done|]. lia.
Qed.

Lemma stressEomCallback_counts p type t c q :
  length c = 16%nat -> 0 <= type ->
  stressEomCallback p type (State (Stress t c) q)
  = Ok (tt, State (Stress t (count_message c (type, message p))) q, []).
Proof.
  intros Hc Ht. unfold stressEomCallback, count_message, MAX_PROTOCOL_TYPES. cbn [fst].
  destruct (Z.ltb_spec type 16) as [H|H]; [|done]. cbn [when]. run_monad. cbn [g_stress_state success_counts].
  destruct (lookup_lt_is_Some_2 c (Z.to_nat type)) as [v Hv]; [lia|].
  assert (load c type = Ok v) as Hload by (rewrite <-(Z2Nat.id type) by lia; by apply load_ok).
  unfold bind, lift. rewrite Hload, store_ok by lia. cbn. by rewrite Hv.
Qed.

Lemma answers_count ev t c p :
  length c = 16%nat -> Forall (fun x => 0 <= x.1) (delivered ev) ->
  for_each ev answer (State (Stress t c) p) = Ok (tt, State (Stress t (tally (delivered ev) c)) p, []).
Proof.
  revert c. induction ev as [|e ev IH]; intros c Hc Hev; [done|]. cbn [for_each].
  destruct e as [f q type| | |]; cbn [delivered answer] in *; rewrite ?bind_ret; auto.
  apply Forall_cons in Hev as [H0 Hev].
  rewrite (bind_silent _ _ _ _ _ (stressEomCallback_counts q type t c p Hc H0)).
  apply IH; [|done]. rewrite <-Hc. apply (length_tally [_] c).
Qed.

(* ------------------------------------------------------------------ *)
(** ** The run over the file *)

(** Calls of the parser byte by byte, with the callbacks after each, give the
    state of the calls in a row. *)
Lemma process_file_run l t c p p' ev :
  length c = 16%nat -> bytes l -> parse_bytes l p = Ok (tt, p', ev) ->
  Forall (fun x => 0 <= x.1) (delivered ev) ->
  process_file l (State (Stress t c) (Some p))
  = Ok (tt, State (Stress (t + Z.of_nat (length l)) (tally (delivered ev) c)) (Some p'), []).
Proof.
  intros Hc Hl. revert t c p ev Hc.
  induction Hl as [|b l Hb Hl IH]; intros t c p ev Hc Hp Hev.
  - injection Hp as <- <-. cbn. by rewrite Z.add_0_r.
  - cbn [parse_bytes for_each] in Hp. unfold bind in Hp.
    destruct (sempParseNextByte b p) as [[[[] p1] ev1]|] eqn:Hb1; [|done].
    destruct (for_each l sempParseNextByte p1) as [[[[] p2] ev2]|] eqn:Hl2; [|done].
    injection Hp as -> <-. rewrite delivered_app in *. apply Forall_app in Hev as [Hev1 Hev2].
    unfold process_file. cbn [for_each]. rewrite !bind_assoc, bind_gets. cbn [parser].
    rewrite bind_assoc.
    assert (call_parser (fun s => default p (parser s)) (fun p s => State (g_stress_state s) (Some p))
              answer (sempParseNextByte (u8 b)) (State (Stress t c) (Some p))
            = Ok (tt, State (Stress t (tally (delivered ev1) c)) (Some p1), [])) as Hcall.
    { unfold call_parser. cbn -[u8 bind for_each sempParseNextByte]. rewrite u8_id, Hb1 by done.
      by rewrite (bind_silent _ _ _ _ _ (answers_count ev1 t c (Some p1) Hc Hev1)). }
    rewrite (bind_silent _ _ _ _ _ Hcall), bind_modify.
    cbn [g_stress_state total_bytes_processed success_counts parser].
    etransitivity; [apply (IH _ _ p1 ev2); [by rewrite length_tally|exact Hl2|done]|].
    do 4 f_equal. f_equal.
    + cbn [length]. lia.
    + unfold tally. by rewrite fold_left_app.
Qed.

(* ------------------------------------------------------------------ *)
(** ** The program *)

Section program.
  Context `{Alloc : Allocator} `{AS : !AllocatorSpec Alloc} (ptr : Z) (Hptr : ptr = 4 \/ ptr = 8).

Definition new_parser (block : list Z) : SEMP_PARSE_STATE :=
  started ptr "StressTestParser" parsersTable parserCount parserNamesTable (Some 1%nat) (Some 2%nat)
    None None 1024 2048 block.

Lemma begin_run block g :
  malloc (block_bytes ptr 1024 2048) = Some block ->
  begin ptr (State g None) = Ok (tt, State g (Some (new_parser block)), []).
Proof.
  intros Hm. unfold begin, call_parser.
  assert (sempBeginParser ptr (Some "StressTestParser") (Some parsersTable) parserCount
       (Some parserNamesTable) parserCount 1024 2048 (Some 1%nat) (Some 2%nat) None None tt
     = Ok (Some (new_parser block), tt, [])) as Hb.
  { unfold new_parser, started. unfold block_bytes in Hm. change (scratch_bytes 1024) with 1024 in *.
    change (256 `max` 2048) with 2048 in *.
    unfold sempBeginParser, sempAllocateParseStructure. cbn zeta. change (SEMP_ALIGN 1024) with 1024.
    change (SEMP_ALIGN sizeof_SEMP_SCRATCH_PAD) with 24. change (parserCount) with 5. revert Hm.
    generalize (SEMP_ALIGN (sizeof_SEMP_PARSE_STATE ptr)). intros k Hm.
    unfold bind, ret, sempPrintf, sempPrintln, semp_util_malloc.
    cbn -[malloc Z.add replicate drop]. by rewrite Hm. }
  unfold bind at 1. by rewrite Hb.
Qed.

Lemma new_parser_scans block :
  malloc (block_bytes ptr 1024 2048) = Some block -> R (SU := stress_setup) (new_parser block) Scan.
Proof.
  intros Hm. apply (started_scans (SU := stress_setup) ptr Hptr "StressTestParser" parserNamesTable
    (Some 2%nat) None 1024 2048 block); done.
Qed.

Lemma print_summary_shows t c p :
  length c = 16%nat ->
  exists o, print_summary (State (Stress t c) p) = Ok (tt, State (Stress t c) p, o).
Proof.
  intros Hc. unfold print_summary. rewrite bind_gets. cbn [g_stress_state success_counts total_bytes_processed].
  match goal with |- exists o, ?m _ = _ => assert (shows m (fun _ => True)) as Hm end.
  { shows_tac. apply shows_then; [|apply shows_then; shows_tac]. apply shows_for_each. intros i Hi.
    apply elem_of_seqZ in Hi. destruct (load_in_range c i) as (v & Hv & _); [change parserCount with 5 in Hi; lia|].
    eapply shows_lift; [exact Hv|]. apply shows_when. intros _.
    destruct (lookup_lt_is_Some_2 parserNamesTable (Z.to_nat i)) as [s Hs]; [change parserCount with 5 in Hi; cbn; lia|].
    eapply shows_lift; [by rewrite Hs|]. by apply shows_printf. }
  destruct (Hm (State (Stress t c) p)) as ([] & o & Ho & _). by exists o.
Qed.

Lemma main_begins block file :
  malloc (block_bytes ptr 1024 2048) = Some block ->
  exists o, main ptr (Some file) start
  = match (process_file file;; print_summary;; stop;; ret 0)
            (State (g_stress_state start) (Some (new_parser block))) with
    | Ok (a, s, o') => Ok (a, s, o ++ o')
    | Ub u => Ub u
    end.
Proof.
  intros Hm. unfold main. change (MAX_PROTOCOL_TYPES <? parserCount) with false. cbn iota.
  eexists ([Printf _ []] ++ [Printf _ []] ++ [Printf _ []] ++ [Printf _ []]).
  do 3 (erewrite bind_ok; [|reflexivity]). 
  rewrite (bind_silent _ _ _ _ _ (begin_run block (g_stress_state start) Hm)).
  rewrite bind_gets. cbn [parser]. erewrite bind_ok; [|reflexivity].
  by destruct (bind _ _ _) as [[[? ?] ?]|].
Qed.

Lemma process_file_stream block file out :
  malloc (block_bytes ptr 1024 2048) = Some block -> bytes file -> stream (SU := stress_setup) file out ->
  Forall (fun x => 0 <= x.1) out /\
  exists p', R (SU := stress_setup) p' Scan /\
    process_file file (State (g_stress_state start) (Some (new_parser block)))
    = Ok (tt, State (Stress (Z.of_nat (length file)) (tally out (replicate 16 0))) (Some p'), []).
Proof.
  intros Hm Hb Hs.
  pose proof (parse_bytes_run (SU := stress_setup) Scan _ file (new_parser_scans block Hm) Hb) as Hrun.
  rewrite (stream_run file out Hs) in Hrun. destruct Hrun as ([] & p' & ev & Hp & HR & <-).
  assert (Forall (fun x => 0 <= x.1) (delivered ev)) as Hpos.
  { clear -Hs. induction Hs; constructor; [cbn; lia|done]. }
  split; [done|]. exists p'. split; [done|].
  exact (process_file_run file 0 (replicate 16 0) _ p' ev eq_refl Hb Hp Hpos).
Qed.

(** C24: The stress test, when the memory for its parser is available, on a file
    that holds NMEA sentences, RTCM frames with at least three bytes of data, u-blox
    frames and Unicore hash sentences that fit the buffer, with noise around them:
    it returns 0, has processed every byte, has counted for each parser exactly the
    messages the file holds for it, and has released the parser.  The other
    parser of its table, Unicore binary, is undefined on its first byte. *)
Theorem stress_test_counts file out :
  is_Some (malloc (block_bytes ptr 1024 2048)) -> bytes file -> stream (SU := stress_setup) file out ->
  runs (main ptr (Some file)) start (fun code s _ =>
    code = 0 /\ parser s = None /\
    total_bytes_processed (g_stress_state s) = Z.of_nat (length file) /\
    forall i, (i < 16)%nat -> success_counts (g_stress_state s) !! i = Some (messages_of i out)).
Proof.
  intros [block Hm] Hb Hs. destruct (main_begins block file Hm) as [o Hmain].
  destruct (process_file_stream block file out Hm Hb Hs) as (Hpos & p' & _ & Hf).
  rewrite (bind_silent _ _ _ _ _ Hf) in Hmain.
  destruct (print_summary_shows (Z.of_nat (length file)) (tally out (replicate 16 0)) (Some p'))
    as [o' Ho]; [apply length_tally|].
  rewrite (bind_ok _ _ _ _ _ _ Ho) in Hmain. unfold stop in Hmain. rewrite bind_modify in Hmain.
  eexists _, _, _. split; [exact Hmain|]. split_and!; try done. intros i Hi.
  exact (tally_lookup out _ i 0 Hpos Hi (lookup_replicate_2 16 0 i Hi)).
Qed.


End program.

(* ------------------------------------------------------------------ *)
(** ** Witnesses *)

Definition stress_file : list Z := [0; 1] ++ Sample.sentence ++ [0x55] ++ Sample.ublox ++ Sample.rtcm.
Definition stress_messages : output := [(0, Sample.sentence); (2, Sample.ublox); (1, Sample.rtcm)].

Lemma stress_file_bytes : bytes stress_file.
Proof. apply bytesb_spec. vm_compute. reflexivity. Qed.

Lemma stress_file_stream : stream (SU := stress_setup) stress_file stress_messages.
Proof.
  apply (stream_message (SU := stress_setup) [0; 1] 0 Sample.sentence); [by repeat constructor| |].
  { apply sent_nmea; [by apply first_parser_intro|by split_and!; [|cbn; lia|repeat constructor]| | |done].
    - by repeat constructor.
    - by apply bytesb_spec. }
  apply (stream_message (SU := stress_setup) [0x55] 2 Sample.ublox); [by repeat constructor| |].
  { by apply sent_ublox; [apply first_parser_intro|..]. }
  rewrite <-(app_nil_r Sample.rtcm) at 1.
  apply (stream_message (SU := stress_setup) [] 1 Sample.rtcm); [constructor| |].
  { by apply sent_rtcm; [apply first_parser_intro|..]. }
  apply stream_end. constructor.
Qed.

Lemma sample_memory : is_Some (malloc (Allocator := Sample.allocator) (block_bytes 8 1024 2048)).
Proof. vm_compute. by eexists. Qed.

Lemma stress_test_counts_witness :
  runs (main (Alloc := Sample.allocator) 8 (Some stress_file)) start (fun code s _ =>
    code = 0 /\ parser s = None /\
    total_bytes_processed (g_stress_state s) = Z.of_nat (length stress_file) /\
    forall i, (i < 16)%nat ->
      success_counts (g_stress_state s) !! i = Some (messages_of i stress_messages)).
Proof.
  apply (stress_test_counts (AS := Sample.allocator_spec) 8 (or_intror eq_refl)).
  - apply sample_memory.
  - apply stress_file_bytes.
  - apply stress_file_stream.
Defined.


(** The lines the callbacks of the functional test print. *)
Definition callback_lines (o : list Output) : list (list arg) :=
  omap (fun x => match x with
                 | Printf f args => if String.prefix "  [Callback]" f then Some (AStr f :: args) else None
                 | _ => None
                 end) o.

(** The functional test reports a failed check for each of its two messages and
    no parsed message. *)
Lemma func_test_parses_nothing :
  runs (FuncTest.main (Alloc := Sample.allocator) 8) FuncTest.start (fun code s o =>
    code = 0 /\ FuncTest.message_parsed (FuncTest.g_test_state s) = false /\
    callback_lines o =
      [[AStr "  [Callback] 协议 '%s' 消息解析失败, 类型索引: %d, 长度: %d\n"; AStr "Custom-BIN"; AInt 0; AInt 25];
       [AStr "  [Callback] 协议 '%s' 消息解析失败, 类型索引: %d, 长度: %d\n"; AStr "Custom-BIN"; AInt 0; AInt 28]]).
Proof. eexists _, _, _. split; [vm_compute; reflexivity|]. vm_compute. done. Qed.
