(* ===== verification/MultiExampleRefine.v ===== *)
(** * The embedded example implements machine and mailbox

    What the callbacks of the multi-protocol parser receive: every call of the
    application comes with a structure whose length lies in its buffer, and with
    printable arguments, which is what the programs rely on when they read the
    message.  Then the refinement of the handlers and tasks of [MultiExample] onto
    the machine of the parser followed by a mailbox. *)
From S2P Require Import Prelude FrameSpec MultiParser MultiSpec MultiRep MultiMachine.
From S2P Require Import MultiTheorems AppPrelude MultiDemo MultiExample.
Local Abbreviation len := List.length.

Section calls.
  Context (n : Z) (Hn : n < 65536).

(** The stored bytes lie in the buffer of [n] bytes. *)
Definition in_buffer (p : MMP_PARSE_STATE) : Prop :=
  0 <= length p <= n /\ Z.of_nat (len (buffer p)) = n /\ bytes (buffer p).

Definition good_call (e : Event) : Prop :=
  match e with
  | EvEom _ p _ | EvBadCrc _ p => in_buffer p
  | EvPrint _ _ args => forallb printable args = true
  end.

(** Code that keeps the stored bytes in the buffer and makes good calls. *)
Abbreviation calls := (respects (fun w => in_buffer (parse w)) good_call).

Lemma calls_the {A} (f : MMP_PARSE_STATE -> A) : calls (the f).
Proof. apply respects_gets. Qed.

Lemma calls_modify f : (forall w, parse (f w) = parse w) -> calls (modify f).
Proof. intros Hf. apply respects_modify. intros w Hw. by rewrite Hf. Qed.

Lemma calls_assign f :
  (forall p, length (f p) = length p /\ buffer (f p) = buffer p) -> calls (assign f).
Proof.
  intros Hf. apply respects_modify. intros w Hw. destruct (Hf (parse w)) as [H1 H2].
  unfold in_buffer in *. cbn [parse on_parse]. by rewrite H1, H2.
Qed.

Lemma calls_printf cb format args : calls (mmpSafePrintf cb format args).
Proof.
  unfold mmpSafePrintf. destruct cb; [|apply respects_ret]. intros w Hw.
  destruct (forallb printable args) eqn:E; [|done]. split; [done|]. by apply Forall_singleton.
Qed.

Lemma calls_pad_set f v : calls (pad_set f v).
Proof. by apply calls_modify. Qed.

Lemma calls_eom type : calls (call_eomCallback type).
Proof.
  intros w Hw. unfold call_eomCallback. unfold the. rewrite bind_gets. unfold id.
  destruct (eomCallback (parse w)); split; try done; by apply Forall_singleton.
Qed.

Lemma calls_length_0 : calls (assign (with_length 0)).
Proof. intros w [Hl Hb]. split; [|constructor]. split; [cbn; lia|done]. Qed.

Lemma calls_buffer_set i v : is_u8 v -> calls (buffer_set i v).
Proof.
  intros Hv w (Hl & Hb & Hbs). unfold buffer_set, the, bind, gets, lift, store. cbn. destruct (_ && _) eqn:E; [|done].
  split; [|constructor]. split; [done|]. cbn. rewrite length_insert. split; [done|]. by apply Forall_insert.
Qed.

Lemma calls_buffer_push v : is_u8 v -> calls (buffer_push v).
Proof.
  intros Hv w (Hl & Hb & Hbs). unfold buffer_push, buffer_set, the, bind, gets, lift, assign, modify, store. cbn.
  destruct (_ && _) eqn:E; [|done]. apply andb_prop in E as [_ E%Z.ltb_lt]. split; [|constructor].
  split_and!; cbn; [..|by rewrite length_insert|by apply Forall_insert]; rewrite u16_id by (unfold is_u16; lia); lia.
Qed.

Lemma calls_bad_unhandled `{Application} : calls badCrc_unhandled.
Proof.
  intros w Hw. unfold badCrc_unhandled, the. rewrite bind_gets. unfold id.
  destruct (badCrc (parse w)); split; try done; by apply Forall_singleton.
Qed.

Lemma calls_bad_overrides `{Application} : calls badCrc_overrides.
Proof.
  intros w Hw. unfold badCrc_overrides, the. rewrite bind_gets. unfold id.
  destruct (badCrc (parse w)); split; try done; by apply Forall_singleton.
Qed.

End calls.

(** Code of the parser with a buffer of [n] bytes. *)
Abbreviation calls n := (respects (fun w => in_buffer n (parse w)) (good_call n)).

#[export] Hint Resolve calls_the calls_printf calls_pad_set calls_eom calls_length_0 calls_buffer_set
  calls_buffer_push calls_bad_unhandled calls_bad_overrides : respects.
#[export] Hint Extern 1 (is_u8 _) => done : respects.
#[export] Hint Extern 1 (respects _ _ (assign _)) => apply calls_assign; by split : respects.
#[export] Hint Extern 2 (respects _ _ (modify _)) => apply calls_modify; done : respects.

(* ------------------------------------------------------------------ *)
(** ** The routines *)

Section routines.
  Context `{App : Application} (n : Z) (Hn : n < 65536).

Lemma mmpFirstByte_calls b : is_u8 b -> calls n (mmpFirstByte b).
Proof.
  intros Hb.  unfold mmpFirstByte. cbn [try_parsers mmp_parserTable call_preamble].
  unfold mmpSempPreamble, mmpNmeaPreamble, mmpUbloxPreamble, mmpRtcmPreamble, mmpSempComputeCrc. respects_tac.
Qed.
#[local] Hint Resolve mmpFirstByte_calls : respects.

Lemma count_message_calls i : calls n (count_message i).
Proof. unfold count_message. respects_tac. Qed.
Lemma count_error_calls i : calls n (count_error i).
Proof. unfold count_error. respects_tac. Qed.
Lemma buffer_at_calls i : calls n (buffer_at i).
Proof. unfold buffer_at. respects_tac. Qed.
Lemma header_get_calls f : calls n (header_get f).
Proof. unfold header_get. respects_tac. Qed.
Lemma begin_crc_calls : calls n begin_crc.
Proof. unfold begin_crc. respects_tac. Qed.
Lemma sentenceName_set_calls i v : calls n (sentenceName_set i v).
Proof. unfold sentenceName_set. respects_tac. Qed.
Lemma shift_left_int_calls v k : calls n (shift_left_int v k).
Proof. unfold shift_left_int. respects_tac. Qed.
Lemma mmpUbloxComputeChecksum_calls b : calls n (mmpUbloxComputeChecksum b).
Proof. unfold mmpUbloxComputeChecksum, pad_get. respects_tac. Qed.
#[local] Hint Resolve count_message_calls count_error_calls buffer_at_calls header_get_calls begin_crc_calls
  sentenceName_set_calls shift_left_int_calls mmpUbloxComputeChecksum_calls : respects.

Lemma mmpNmeaValidateChecksum_calls : calls n mmpNmeaValidateChecksum.
Proof. unfold mmpNmeaValidateChecksum. respects_tac. Qed.
#[local] Hint Resolve mmpNmeaValidateChecksum_calls : respects.

(** The line termination takes the last byte back: there has to be one. *)
Lemma mmpNmeaLineTermination_calls b w :
  is_u8 b -> in_buffer n (parse w) -> 1 <= length (parse w) ->
  match mmpNmeaLineTermination b w with
  | Ok (_, w', ev) => in_buffer n (parse w') /\ Forall (good_call n) ev
  | Ub _ => True
  end.
Proof.
  intros Hb [Hl Hin] H1. unfold mmpNmeaLineTermination, the, assign. rewrite bind_gets, bind_modify.
  match goal with |- match ?m ?x with _ => _ end => assert (calls n m) as Hm by respects_tac; apply (Hm x) end.
  split; [cbn; rewrite u16_id by (unfold is_u16; lia); lia|done].
Qed.

Lemma call_state_calls f b w :
  is_u8 b -> in_buffer n (parse w) -> 1 <= length (parse w) ->
  match call_state f b w with
  | Ok (_, w', ev) => in_buffer n (parse w') /\ Forall (good_call n) ev
  | Ub _ => True
  end.
Proof.
  intros Hb Hw H1. destruct f; cbn [call_state]; try by apply mmpNmeaLineTermination_calls.
  all: match goal with |- match ?m ?x with _ => _ end => assert (calls n m) as Hm; [|by apply (Hm x)] end.
  all: unfold mmpSempSync2, mmpSempSync3, mmpSempReadHeader, mmpSempReadData, mmpSempReadCrc,
    mmpNmeaFindFirstComma, mmpNmeaFindAsterisk, mmpNmeaChecksumByte1, mmpNmeaChecksumByte2,
    mmpUbloxSync2, mmpUbloxReadClass, mmpUbloxReadMessageId, mmpUbloxReadLength, mmpUbloxReadData,
    mmpUbloxChecksumA, mmpUbloxChecksumB, pad_get; respects_tac.
Qed.

End routines.

(** One byte for a parser in any of its states. *)
Lemma mmpProcessByte_calls `{SU : MSetup} b w w' more ev :
  mC < 65536 -> mwf w -> is_u8 b -> mmpProcessByte b w = Ok (more, w', ev) -> Forall (good_call mC) ev.
Proof.
  intros HC Hw Hb Hp. pose proof mC_range. pose proof (mwf_length w Hw).
  assert (in_buffer mC (parse w)) as Hin by (split_and!; [lia|lia|apply Hw..]).
  destruct (mB <=? length (parse w)) eqn:E.
  - unfold mmpProcessByte, the in Hp. rewrite bind_gets in Hp. unfold id in Hp.
    rewrite (mwf_bufferLength w Hw), E in Hp.
    match type of Hp with ?m w = _ => assert (calls mC m) as Hm end.
    { apply respects_bind; [auto with respects|]. intros _. by apply mmpFirstByte_calls. }
    specialize (Hm w Hin). rewrite Hp in Hm. by destruct Hm.
  - rewrite (mmp_taken_run b w Hw ltac:(lia)) in Hp. destruct (taken_ok b w Hw Hb ltac:(lia)) as [Hw1 Hs].
    assert (1 <= length (parse (on_parse (taken b) w))) as H1.
    { pose proof (mwf_length _ Hw1). destruct (decide (length (parse (on_parse (taken b) w)) = 0)) as [Hz|]; [|lia].
      exfalso. unfold stored in Hs at 1. rewrite Hz in Hs. cbn in Hs. by destruct (stored w). }
    pose proof (call_state_calls mC HC (state (parse w)) b (on_parse (taken b) w)) as Hc.
    rewrite Hp in Hc. apply Hc; [done| |done]. split_and!; [..|apply Hw1|apply Hw1]; pose proof (mwf_length _ Hw1); lia.
Qed.

(* ------------------------------------------------------------------ *)
(** ** The embedded example as a mailbox

    An abstract account of [src/single_parser/multi_protocol_example.c]: the
    machine of the parser and a mailbox of four buffers that the messages fill in
    turn.  The interrupt handlers, the packet handlers and the background task
    implement it, and are undefined exactly where it is. *)

(* ------------------------------------------------------------------ *)
(** ** The mailbox *)

Record mailbox := Mailbox { slots : list Z; slot : Z; received : Z }.

Definition mailbox_ok (mb : mailbox) : Prop :=
  len (slots mb) = 2048%nat /\ 0 <= slot mb < 4 /\ bytes (slots mb) /\ is_u32 (received mb).

(** A message goes to the current buffer.  [None]: it does not fit behind the
    start of that buffer. *)
Definition deposit (mb : mailbox) (m : list Z) : option mailbox :=
  if 512 * slot mb + Z.of_nat (len m) <=? 2048
  then Some (Mailbox (take (Z.to_nat (512 * slot mb)) (slots mb) ++ m ++
                      drop (Z.to_nat (512 * slot mb + Z.of_nat (len m))) (slots mb))
               ((slot mb + 1) mod 4) (u32 (received mb + 1)))
  else None.

Fixpoint deposits (mb : mailbox) (out : output) : option mailbox :=
  match out with
  | [] => Some mb
  | (_, m) :: out => match deposit mb m with Some mb => deposits mb out | None => None end
  end.

Lemma deposits_app mb out1 out2 :
  deposits mb (out1 ++ out2) = match deposits mb out1 with Some mb => deposits mb out2 | None => None end.
Proof.
  revert mb. induction out1 as [|[i m] out1 IH]; intros mb; cbn; [done|]. by destruct (deposit mb m).
Qed.

Lemma deposit_ok mb m mb' : mailbox_ok mb -> bytes m -> deposit mb m = Some mb' -> mailbox_ok mb'.
Proof.
  intros (Hl & Hs & Hb & _) Hm H. unfold deposit in H. destruct (_ <=? 2048) eqn:E; [|done]. injection H as <-.
  unfold mailbox_ok. cbn [slots slot received]. split; [|split; [apply Z.mod_pos_bound; lia|split; [|apply u32_range]]].
  - rewrite !length_app, length_take, length_drop. lia.
  - apply Forall_app. split; [by apply Forall_take|]. apply Forall_app. split; [done|by apply Forall_drop].
Qed.

Lemma deposits_ok mb out mb' :
  mailbox_ok mb -> Forall (fun im => bytes im.2) out -> deposits mb out = Some mb' -> mailbox_ok mb'.
Proof.
  intros Hmb Hout. revert mb Hmb. induction Hout as [|[i m] out Hm _ IH]; intros mb Hmb; cbn; [by intros [= <-]|].
  destruct (deposit mb m) as [mb1|] eqn:E; [|done]. intros H.
  by apply (IH mb1); [eapply deposit_ok|].
Qed.

(* ------------------------------------------------------------------ *)
(** ** The system *)

(** What the parser and its callbacks do not change. *)
Record devices := Devices {
  uart : UART_TypeDef; dma : DMA_TypeDef; ring : list Z; head : Z; tail : Z; processed : Z
}.

Definition assemble (d : devices) (w : world) (mb : mailbox) : system :=
  System (uart d) (dma d) w (ring d) (head d) (tail d) (slots mb) (slot mb) (processed d) (received mb).

Definition devices_of (s : system) : devices :=
  Devices (UART1 s) (DMA1 s) (g_uartRxBuffer s) (g_uartRxHead s) (g_uartRxTail s) (g_processedBytes s).
Definition mailbox_of (s : system) : mailbox :=
  Mailbox (g_messageBuffers s) (g_currentBuffer s) (g_messagesReceived s).

Lemma assembled s : s = assemble (devices_of s) (g_multiParser s) (mailbox_of s).
Proof. by destruct s. Qed.

(** The configuration of the example; its [badCrc] callback answers [false], which
    the NMEA parser takes as a consent. *)
#[program] Definition example_setup : MSetup (App := Embedded.example_answers) := {|
  mB := 1024; mC := 1024; meom := Embedded.fn_onMessageComplete; mbad := Some Embedded.fn_onCrcError;
  maccepts := fun _ => true |}.
Solve All Obligations with (cbn; done || lia).
#[local] Existing Instance example_setup.

(* ------------------------------------------------------------------ *)
(** ** Callbacks *)

Import Embedded.

Lemma processSempMessage_shows b n : (512 <= len b)%nat -> shows (processSempMessage b n) (fun _ => True).
Proof.
  intros Hb. unfold processSempMessage. shows_tac.
  do 3 (eapply shows_lift; [apply member_of_ok; cbn; lia|]; shows_tac).
  eapply shows_lift; [apply member_of_ok; unfold from; rewrite length_drop; change (Z.to_nat sizeof_MMP_SEMP_HEADER) with 20%nat; cbn; lia|].
  shows_tac.
Qed.

Lemma processUbloxMessage_shows b n : (512 <= len b)%nat -> shows (processUbloxMessage b n) (fun _ => True).
Proof.
  intros Hb. unfold processUbloxMessage. shows_tac.
  do 2 (eapply shows_lift; [apply member_of_ok; cbn; lia|]). shows_tac.
  eapply shows_lift; [apply member_of_ok; cbn; lia|]. shows_tac.
Qed.

Lemma processNmeaMessage_shows b n :
  (512 <= len b)%nat -> 0 <= n -> shows (processNmeaMessage b n) (fun _ => True).
Proof.
  intros Hb Hn. unfold processNmeaMessage. shows_tac. cbn zeta.
  set (k := if 255 <? n then 255 else n). assert (0 <= k <= 255) as Hk by (subst k; destruct (255 <? n) eqn:E; lia).
  assert (exists s, memcpy (replicate 256 0) 0 b 0 k = Ok s /\ len s = 256%nat) as (s & Hs & Hls).
  { eexists. split; [apply memcpy_ok; rewrite ?length_replicate; lia|].
    rewrite !length_app, !length_take, !length_drop, length_replicate. lia. }
  eapply shows_lift; [exact Hs|]. eapply shows_lift; [apply store_ok; lia|].
  apply shows_then.
  { apply shows_printf. cbn [forallb printable]. rewrite andb_true_r. apply existsb_exists. exists 0.
    split; [|done]. apply list_elem_of_In, list_elem_of_lookup. exists (Z.to_nat k).
    apply list_lookup_insert_eq. lia. }
  do 3 (apply shows_strncmp; [lia|vm_compute; lia|intros ?]; shows_tac).
Qed.

(** The end-of-message callback puts the message in the mailbox. *)
Lemma onMessageComplete_deposits d w mb p type :
  mailbox_ok mb -> in_buffer 1024 p ->
  match deposit mb (take (Z.to_nat (length p)) (buffer p)) with
  | Some mb' => exists o, onMessageComplete p type (assemble d w mb) = Ok (tt, assemble d w mb', o)
  | None => onMessageComplete p type (assemble d w mb) = Ub OutOfBounds
  end.
Proof.
  intros (Hl & Hs & _) (Hp & Hb & _). unfold onMessageComplete. run_monad. unfold deposit.
  rewrite length_take, Nat2Z.inj_min, Z2Nat.id, Z.min_l by lia.
  cbn [g_messagesReceived g_currentBuffer g_messageBuffers with_messagesReceived assemble].
  destruct (_ <=? 2048) eqn:E.
  - apply Z.leb_le in E. assert (exists l, l = take (Z.to_nat (512 * slot mb)) (slots mb) ++ take (Z.to_nat (length p)) (buffer p) ++
      drop (Z.to_nat (512 * slot mb + length p)) (slots mb)) as [l Hnew] by (by eexists).
    rewrite (bind_silent _ _ _ l (with_messagesReceived (u32 (received mb + 1)) (assemble d w mb))).
    + run_monad.
      match goal with |- exists o, bind ?m ?k ?s = _ => assert (shows m (fun _ => True)) as Hm end.
      { assert (512 <= len (from l (512 * slot mb)))%nat.
        { unfold from. rewrite length_drop, Hnew, !length_app, !length_take, length_drop. lia. }
        repeat case_match; eauto using processSempMessage_shows, processUbloxMessage_shows with programs.
        apply processNmeaMessage_shows; [done|lia]. }
      destruct (Hm (with_messageBuffers l (with_messagesReceived (u32 (received mb + 1)) (assemble d w mb))))
        as ([] & o & Ho & _).
      rewrite (bind_ok _ _ _ _ _ _ Ho). run_monad. cbn -[Z.modulo Z.mul Z.add]. unfold printf, emit.
      cbn [forallb printable andb]. eexists. rewrite <-Hnew. unfold assemble. cbn [slots slot received].
      rewrite (u8_id ((slot mb + 1) mod 4)); [reflexivity|]. pose proof (Z.mod_pos_bound (slot mb + 1) 4). unfold is_u8. lia.
    + unfold lift. rewrite memcpy_ok by lia. by rewrite Hnew.
  - apply Z.leb_gt in E. apply bind_ub. unfold lift, memcpy.
    rewrite (proj2 (Z.leb_gt (512 * slot mb + length p) _)) by lia. by rewrite andb_false_r.
Qed.

Lemma onCrcError_shows p : shows (onCrcError p) (fun _ => True).
Proof.
  unfold onCrcError. destruct (mmpGetProtocolName_total (type p)) as [name Hname].
  eapply shows_lift; [exact Hname|]. shows_tac.
Qed.

Lemma answer_shows e :
  good_call 1024 e -> mdelivered [e] = [] -> shows (answer e) (fun _ => True).
Proof.
  intros He Hd. destruct e as [f p type|f p|f format args]; [done| |]; cbn [answer].
  - apply shows_then; [apply onCrcError_shows|by apply shows_ret].
  - cbn [good_call] in He. case_match; unfold errorPrint, debugPrint; shows_tac;
      (apply shows_then; [by apply shows_printf|shows_tac]).
Qed.

Lemma good_calls_bytes ev : Forall (good_call 1024) ev -> Forall (fun im => bytes im.2) (mdelivered ev).
Proof.
  induction 1 as [|e ev He _ IH]; [constructor|]. destruct e as [f p type| |]; [|done|done].
  constructor; [|done]. apply Forall_take. by destruct He as (_ & _ & ?).
Qed.

Lemma answers_deposit ev d w mb :
  mailbox_ok mb -> Forall (good_call 1024) ev ->
  match deposits mb (mdelivered ev) with
  | Some mb' => exists o, for_each ev answer (assemble d w mb) = Ok (tt, assemble d w mb', o)
  | None => for_each ev answer (assemble d w mb) = Ub OutOfBounds
  end.
Proof.
  intros Hmb Hev. revert mb Hmb. induction Hev as [|e ev He _ IH]; intros mb Hmb; [by eexists|].
  assert (match deposits mb (mdelivered [e]) with
          | Some mb' => exists o, answer e (assemble d w mb) = Ok (tt, assemble d w mb', o)
          | None => answer e (assemble d w mb) = Ub OutOfBounds
          end) as Hm.
  { destruct e as [f p type|f p|f format args];
      [|by destruct (answer_shows _ He eq_refl (assemble d w mb)) as ([] & o & Ho & _); exists o..].
    pose proof (onMessageComplete_deposits d w mb p type Hmb He). cbn. by destruct (deposit mb _). }
  pose proof (good_calls_bytes [e] ltac:(by apply Forall_singleton)) as Hbs.
  cbn [for_each]. change (mdelivered (e :: ev)) with (mdelivered ([e] ++ ev)).
  rewrite mdelivered_app, deposits_app. destruct (deposits mb (mdelivered [e])) as [mb1|] eqn:E.
  - destruct Hm as [o Ho]. pose proof (IH mb1 (deposits_ok _ _ _ Hmb Hbs E)) as Hr.
    rewrite (bind_ok _ _ _ _ _ _ Ho). destruct (deposits mb1 (mdelivered ev)); [|by rewrite Hr].
    destruct Hr as [x Hr]. rewrite Hr. by eexists.
  - by apply bind_ub.
Qed.

(* ------------------------------------------------------------------ *)
(** ** The parser inside the system *)

(** Parser code whose calls the application can answer, as a run of the machine. *)
Definition delivers {A} (m : P A) (w : world) (o : option (A * mstate * output)) : Prop :=
  match o with
  | Some (a, st, out) =>
      exists w' ev, m w = Ok (a, w', ev) /\ MR w' st /\ mdelivered ev = out /\ Forall (good_call 1024) ev
  | None => m w = Ub OutOfBounds
  end.

(** System code as a step of the machine and the mailbox; [d] are the devices
    afterwards. *)
Definition serves {A} (m : Program A) (s : system) (d : devices) (o : option (A * mstate * mailbox)) : Prop :=
  match o with
  | Some (a, st, mb) => exists w out, m s = Ok (a, assemble d w mb, out) /\ MR w st /\ mailbox_ok mb
  | None => m s = Ub OutOfBounds
  end.

(** The messages of a run go to the mailbox. *)
Definition posted {A} (mb : mailbox) (o : option (A * mstate * output)) : option (A * mstate * mailbox) :=
  match o with
  | Some (a, st, out) => match deposits mb out with Some mb => Some (a, st, mb) | None => None end
  | None => None
  end.

Lemma parser_serves {A} (m : P A) d w mb o :
  mailbox_ok mb -> delivers m w o -> serves (parser m) (assemble d w mb) d (posted mb o).
Proof.
  intros Hmb Hm. destruct o as [[[a st] out]|].
  - destruct Hm as (w' & ev & Hm & HR & <- & Hev).
    assert (parser m (assemble d w mb) = (for_each ev answer;; ret a) (assemble d w' mb)) as Hp
      by (unfold parser, call_parser; cbn [g_multiParser assemble]; by rewrite Hm).
    pose proof (answers_deposit ev d w' mb Hmb Hev) as Hans. unfold serves, posted. rewrite Hp.
    destruct (deposits mb (mdelivered ev)) as [mb'|] eqn:E; [|by apply bind_ub].
    destruct Hans as [x Hx]. exists w'. eexists. rewrite (bind_ok _ _ _ _ _ _ Hx). cbn. split_and!; [reflexivity|done|].
    by apply (deposits_ok _ _ _ Hmb (good_calls_bytes ev Hev) E).
  - unfold serves, parser, call_parser. cbn [g_multiParser assemble]. by rewrite Hm.
Qed.

Lemma mmpProcessByte_delivers b w st :
  MR w st -> is_u8 b -> delivers (mmpProcessByte b) w (mstep 1024 1024 (fun _ => true) st b).
Proof.
  intros HR Hb. pose proof (mmpProcessByte_refines b w st HR Hb) as H. cbn [mB mC maccepts example_setup] in H.
  destruct (mstep _ _ _ st b) as [[[a st'] out]|]; [|done].
  destruct H as (w' & ev & Hp & HR' & Hd & _). exists w', ev. split_and!; try done.
  exact (mmpProcessByte_calls b w w' a ev eq_refl (proj1 HR) Hb Hp).
Qed.

(** The machine stops behind the byte that makes the parser answer [false]. *)
Fixpoint muntil (st : mstate) (l : list Z) (n : Z) : option (Z * mstate * output) :=
  match l with
  | [] => Some (n, st, [])
  | b :: l =>
      match mstep 1024 1024 (fun _ => true) st b with
      | Some (true, st, out) =>
          match muntil st l (n + 1) with Some (k, st, out') => Some (k, st, out ++ out') | None => None end
      | Some (false, st, out) => Some (n + 1, st, out)
      | None => None
      end
  end.

Lemma process_loop_delivers l n w st :
  MR w st -> bytes l -> 0 <= n -> n + Z.of_nat (len l) < 65536 ->
  delivers (process_loop l n) w (muntil st l n).
Proof.
  intros HR Hl. revert n w st HR. induction Hl as [|b l Hb Hl IH]; intros n w st HR H0 Hn.
  { exists w, []. by split_and!. }
  cbn [process_loop muntil List.length] in *. pose proof (mmpProcessByte_delivers b w st HR Hb) as Hs.
  destruct (mstep _ _ _ st b) as [[[[] st'] out]|].
  - destruct Hs as (w1 & ev1 & H1 & HR1 & <- & He1). specialize (IH (n + 1) w1 st' HR1 ltac:(lia) ltac:(lia)).
    assert (u16 (n + 1) = n + 1) as Hu by (apply u16_id; unfold is_u16; lia).
    destruct (muntil st' l (n + 1)) as [[[k st2] out2]|].
    + destruct IH as (w2 & ev2 & H2 & HR2 & <- & He2). exists w2, (ev1 ++ ev2).
      rewrite (bind_ok _ _ _ _ _ _ H1), Hu, H2. split_and!; [done|done|apply mdelivered_app|by apply Forall_app].
    + unfold delivers in *. by rewrite (bind_ok _ _ _ _ _ _ H1), Hu, IH.
  - destruct Hs as (w1 & ev1 & H1 & HR1 & <- & He1). exists w1, ev1.
    rewrite (bind_ok _ _ _ _ _ _ H1), u16_id by (unfold is_u16; lia). cbn. by rewrite app_nil_r.
  - by apply bind_ub.
Qed.

Lemma process_array_loop l n k w :
  (n <= len l)%nat -> process_array l n k w = process_loop (take n l) k w.
Proof.
  revert l k w. induction n as [|n IH]; intros l k w Hn; [by destruct l|].
  destruct l as [|b l]; [cbn in Hn; lia|]. cbn [process_array take process_loop]. unfold bind.
  destruct (mmpProcessByte b w) as [[[[] w1] e1]|]; [|done|done].
  rewrite IH by (cbn in Hn; lia). done.
Qed.

(* ------------------------------------------------------------------ *)
(** ** Sequences of system code *)

Lemma serves_print {A} format args (k : unit -> Program A) s d o :
  forallb printable args = true -> serves (k tt) s d o -> serves (bind (printf format args) k) s d o.
Proof.
  intros Ha Hk. assert (printf format args s = Ok (tt, s, [Printf format args])) as Hp
    by (unfold printf; by rewrite Ha).
  destruct o as [[[a st] mb]|].
  - destruct Hk as (w & out & Hk & HR). exists w. eexists. by rewrite (bind_ok _ _ _ _ _ _ Hp), Hk.
  - unfold serves in *. by rewrite (bind_ok _ _ _ _ _ _ Hp), Hk.
Qed.

(** What follows a step that serves. *)
Definition then_serve {A A'} (o : option (A * mstate * mailbox))
    (k : A -> mstate -> mailbox -> option (A' * mstate * mailbox)) : option (A' * mstate * mailbox) :=
  match o with Some (a, st, mb) => k a st mb | None => None end.

Lemma serves_bind {A A'} (m : Program A) (k : A -> Program A') s d d' o o' :
  serves m s d o ->
  (forall a st w mb, MR w st -> mailbox_ok mb -> serves (k a) (assemble d w mb) d' (o' a st mb)) ->
  serves (bind m k) s d' (then_serve o o').
Proof.
  intros Hm Hk. destruct o as [[[a st] mb]|]; cbn [then_serve].
  - destruct Hm as (w & out & Hm & HR & Hmb). specialize (Hk a st w mb HR Hmb).
    destruct (o' a st mb) as [[[a' st'] mb']|].
    + destruct Hk as (w' & out' & Hk & HR'). exists w'. eexists. by rewrite (bind_ok _ _ _ _ _ _ Hm), Hk.
    + unfold serves in *. by rewrite (bind_ok _ _ _ _ _ _ Hm), Hk.
  - by apply bind_ub.
Qed.

(* ------------------------------------------------------------------ *)
(** ** The handlers *)

Abbreviation machine := (mrun 1024 1024 (fun _ => true)).

(** A run over all the bytes. *)
Definition run_posted (mb : mailbox) (o : option (mstate * output)) : option (unit * mstate * mailbox) :=
  match o with
  | Some (st, out) => match deposits mb out with Some mb => Some (tt, st, mb) | None => None end
  | None => None
  end.

Definition answered {A} (o : option (A * mstate * mailbox)) : option (unit * mstate * mailbox) :=
  then_serve o (fun _ st mb => Some (tt, st, mb)).

Lemma serves_tt {A} (m : Program A) s d o : serves m s d o -> serves (m;; ret tt) s d (answered o).
Proof.
  intros Hm. apply (serves_bind m _ s d d); [done|]. intros a st w mb HR Hmb. exists w, []. by split_and!.
Qed.

Lemma byte_serves b d w st mb :
  MR w st -> mailbox_ok mb -> is_u8 b ->
  serves (parser (mmpProcessByte b);; ret tt) (assemble d w mb) d (run_posted mb (machine st [b])).
Proof.
  intros HR Hmb Hb. pose proof (mmpProcessByte_delivers b w st HR Hb) as H.
  pose proof (serves_tt _ _ _ _ (parser_serves _ d w mb _ Hmb H)) as Hs.
  cbn [mrun]. destruct (mstep _ _ _ st b) as [[[a st'] out]|]; [|done]. cbn [run_posted].
  rewrite app_nil_r. cbn [posted] in Hs. by destruct (deposits mb out).
Qed.

(** The run over [b :: l] is the run over [b] and then over [l]. *)
Lemma run_posted_cons mb st b l :
  run_posted mb (machine st (b :: l))
  = then_serve (run_posted mb (machine st [b])) (fun _ st mb => run_posted mb (machine st l)).
Proof.
  cbn [mrun]. destruct (mstep _ _ _ st b) as [[[a st1] out1]|]; [|done]. rewrite app_nil_r.
  cbn [run_posted]. destruct (machine st1 l) as [[st2 out2]|] eqn:E; cbn [run_posted].
  - rewrite deposits_app. destruct (deposits mb out1); [|done]. cbn [then_serve]. by rewrite E.
  - destruct (deposits mb out1); [|done]. cbn [then_serve]. by rewrite E.
Qed.

(** Code that hands every byte of a list to the parser; [after] says what it does
    to the devices. *)
Lemma for_each_serves (m : Z -> Program unit) (after : devices -> Z -> devices) l d w st mb :
  (forall b d w st mb, MR w st -> mailbox_ok mb -> is_u8 b ->
     serves (m b) (assemble d w mb) (after d b) (run_posted mb (machine st [b]))) ->
  MR w st -> mailbox_ok mb -> bytes l ->
  serves (for_each l m) (assemble d w mb) (foldl after d l) (run_posted mb (machine st l)).
Proof.
  intros Hm HR Hmb Hl. revert d w st mb HR Hmb. induction Hl as [|b l Hb Hl IH]; intros d w st mb HR Hmb.
  { exists w, []. by split_and!. }
  rewrite run_posted_cons. cbn [for_each foldl].
  apply (serves_bind (m b) _ _ (after d b)); [by apply Hm|]. intros [] st1 w1 mb1 HR1 Hmb1. by apply IH.
Qed.

Lemma processNetworkPacket_serves l d w st mb :
  MR w st -> mailbox_ok mb -> bytes l ->
  serves (processNetworkPacket l) (assemble d w mb) d (run_posted mb (machine st l)).
Proof.
  intros HR Hmb Hl. apply serves_print; [done|].
  pose proof (for_each_serves _ (fun d _ => d) l d w st mb byte_serves HR Hmb Hl) as H.
  assert (foldl (fun d _ => d) d l = d) as Hd by (clear; induction l; done). by rewrite Hd in H.
Qed.

Lemma serves_run {A} (m m' : Program A) s s' d o : m s = m' s' -> serves m' s' d o -> serves m s d o.
Proof. intros E. unfold serves. by rewrite E. Qed.

(** The receive flags the handlers test. *)
Lemma bit0_set v : (Z.land (Z.lor v 0x01) 0x01 =? 0) = false.
Proof.
  apply Z.eqb_neq. intros H0.
  assert (Z.testbit (Z.land (Z.lor v 1) 1) 0 = false) as Hbit by (by rewrite H0).
  by rewrite Z.land_spec, Z.lor_spec, orb_true_r in Hbit.
Qed.

(** A byte of the UART. *)
Definition uart_after (d : devices) (b : Z) : devices :=
  Devices (Uart b (Z.lor (STATUS (uart d)) 0x01) (CTRL (uart d))) (dma d) (ring d) (head d) (tail d)
    (u32 (processed d + 1)).

Lemma uart_receives_serves b d w st mb :
  MR w st -> mailbox_ok mb -> is_u8 b ->
  serves (uart_receives b) (assemble d w mb) (uart_after d b) (run_posted mb (machine st [b])).
Proof.
  intros HR Hmb Hb. pose proof (byte_serves b (uart_after d b) w st mb HR Hmb Hb) as H.
  assert (uart_receives b (assemble d w mb)
          = (parser (mmpProcessByte b);; ret tt) (assemble (uart_after d b) w mb)) as E.
  { unfold uart_receives, UART1_IRQHandler. run_monad. cbn [UART1 with_UART1 assemble STATUS DATA CTRL].
    rewrite bit0_set.
    cbn [negb when]. run_monad. done. }
  by apply (serves_run _ _ _ _ _ _ E).
Qed.

(** A buffer the parser leaves at the first answer [false]. *)
Lemma processBluetoothData_serves l d w st mb :
  MR w st -> mailbox_ok mb -> bytes l -> Z.of_nat (len l) < 65536 ->
  serves (processBluetoothData l) (assemble d w mb) d (answered (posted mb (muntil st l 0))).
Proof.
  intros HR Hmb Hl Hn. apply serves_print; [done|]. unfold mmpProcessBuffer.
  eapply (serves_bind _ _ _ d).
  - apply parser_serves; [done|]. by apply process_loop_delivers.
  - intros k st1 w1 mb1 HR1 Hmb1. exists w1. eexists. by split_and!.
Qed.

(** A block of the DMA unit: it lies at the start of the receive buffer, and the
    unit is set up for the next block. *)
Definition dma_after (d : devices) (l : list Z) : devices :=
  Devices (uart d)
    (Dma to_g_uartRxBuffer 256 (Z.lor (DMA_CTRL (dma d)) 0x01)
       (u8 (Z.land (Z.lor (DMA_STATUS (dma d)) 0x01) (Z.lnot 0x01))))
    (l ++ drop (len l) (ring d)) (head d) (tail d) (processed d).

Lemma dma_receives_serves l d w st mb :
  MR w st -> mailbox_ok mb -> bytes l -> (len l <= 256)%nat -> len (ring d) = 256%nat ->
  serves (dma_receives l) (assemble d w mb) (dma_after d l) (answered (posted mb (muntil st l 0))).
Proof.
  intros HR Hmb Hl Hn Hr. set (n := Z.of_nat (len l)).
  set (d1 := Devices (uart d) (Dma (DST_ADDR (dma d)) n (DMA_CTRL (dma d)) (Z.lor (DMA_STATUS (dma d)) 0x01))
    (l ++ drop (len l) (ring d)) (head d) (tail d) (processed d)).
  apply (serves_run _ DMA1_IRQHandler _ (assemble d1 w mb)).
  { unfold dma_receives. run_monad. cbn [g_uartRxBuffer assemble].
    rewrite (bind_silent _ _ _ (l ++ drop (len l) (ring d)) (assemble d w mb)).
    - run_monad. cbn -[u16 Z.of_nat DMA1_IRQHandler]. by rewrite u16_id by (unfold is_u16; lia).
    - unfold lift. rewrite memcpy_ok by lia. change (Z.to_nat 0) with 0%nat. rewrite Z.add_0_l, Nat2Z.id.
      rewrite take_0, drop_0, (take_ge l) by done. done. }
  unfold DMA1_IRQHandler. eapply serves_run; [apply bind_gets|]. cbn [DMA1 assemble d1 dma DMA_STATUS COUNT].
  rewrite bit0_set. cbn [negb when]. cbn zeta. apply serves_print; [done|].
  eapply serves_run; [apply bind_gets|]. cbn [g_uartRxBuffer assemble ring].
  eapply (serves_bind _ _ _ d1).
  - apply parser_serves; [done|].
    pose proof (process_loop_delivers l 0 w st HR Hl ltac:(lia) ltac:(lia)) as Hp.
    unfold delivers in *. subst d1 n. cbn [ring].
    by rewrite process_array_loop, Nat2Z.id, take_app_length by (rewrite length_app; lia).
  - intros k st1 w1 mb1 HR1 Hmb1. apply serves_print; [done|]. exists w1, []. by split_and!.
Qed.

(** ** The background task *)

(** The next [n] bytes of the ring. *)
Fixpoint ring_bytes (l : list Z) (i : Z) (n : nat) : list Z :=
  match n with
  | O => []
  | S n => nth (Z.to_nat i) l 0 :: ring_bytes l ((i + 1) mod 256) n
  end.

Definition pending (d : devices) : nat := Z.to_nat ((head d - tail d) mod 256).
Definition waiting (d : devices) : list Z := ring_bytes (ring d) (tail d) (pending d).

Definition with_tail (i : Z) (d : devices) : devices :=
  Devices (uart d) (dma d) (ring d) (head d) i (processed d).

Definition ring_ok (d : devices) : Prop :=
  len (ring d) = 256%nat /\ bytes (ring d) /\ 0 <= head d < 256 /\ 0 <= tail d < 256.

Lemma waiting_next d :
  ring_ok d -> tail d <> head d ->
  exists b, load (ring d) (tail d) = Ok b /\ is_u8 b /\
    pending d = S (pending (with_tail ((tail d + 1) mod 256) d)) /\
    waiting d = b :: waiting (with_tail ((tail d + 1) mod 256) d).
Proof.
  intros (Hl & Hb & Hh & Ht) Hne.
  destruct (lookup_lt_is_Some_2 (ring d) (Z.to_nat (tail d))) as [b E]; [lia|].
  assert (pending d = S (pending (with_tail ((tail d + 1) mod 256) d))) as Hp.
  { unfold pending. cbn [head tail with_tail]. mlia. }
  exists b. split_and!; [|by eapply Forall_lookup_1|done|].
  - rewrite <-(Z2Nat.id (tail d)) by lia. by apply load_ok.
  - unfold waiting. rewrite Hp. cbn [ring_bytes with_tail ring tail]. by rewrite (nth_lookup_Some _ _ _ _ E).
Qed.

Lemma drained d : ring_ok d -> tail d = head d -> waiting d = [] /\ with_tail (head d) d = d.
Proof.
  intros _ He. split; [unfold waiting, pending; by rewrite He, Z.sub_diag|].
  rewrite <-He. by destruct d.
Qed.

Lemma backgroundProcessTask_serves fuel d w st mb :
  ring_ok d -> MR w st -> mailbox_ok mb -> (pending d <= fuel)%nat ->
  serves (backgroundProcessTask fuel) (assemble d w mb) (with_tail (head d) d)
    (then_serve (run_posted mb (machine st (waiting d))) (fun _ st mb => Some (true, st, mb))).
Proof.
  revert d w st mb. induction fuel as [|fuel IH]; intros d w st mb Hd HR Hmb Hf;
    cbn [backgroundProcessTask]; (eapply serves_run; [apply bind_gets|]);
    cbn [id assemble g_uartRxTail g_uartRxHead g_uartRxBuffer];
    (destruct (Z.eqb_spec (tail d) (head d)) as [He|He];
      [destruct (drained d Hd He) as [-> ->]; exists w, []; by split_and!|]);
    destruct (waiting_next d Hd He) as (b & Hload & Hb & Hp & ->); [lia|].
  set (d1 := with_tail ((tail d + 1) mod 256) d) in *.
  assert (ring_ok d1) as Hd1.
  { destruct Hd as (Hl & Hbs & Hh & _).
    exact (conj Hl (conj Hbs (conj Hh (Z.mod_pos_bound (tail d + 1) 256 eq_refl)))). }
  rewrite run_posted_cons.
  apply (serves_run _ ((parser (mmpProcessByte b);; ret tt);; backgroundProcessTask fuel) _ (assemble d1 w mb)).
  { rewrite (bind_silent _ _ _ b (assemble d w mb)) by (unfold lift; by rewrite Hload).
    rewrite bind_modify, u16_id by (pose proof (Z.mod_pos_bound (tail d + 1) 256); unfold is_u16; lia).
    change (with_uartRxTail ((tail d + 1) mod 256) (assemble d w mb)) with (assemble d1 w mb).
    rewrite bind_assoc. unfold bind. destruct (parser _ _) as [[[? s] ?]|]; [|done]. cbn [ret].
    by destruct (backgroundProcessTask fuel s) as [[[? ?] ?]|]. }
  assert (forall o k1 k2, then_serve (then_serve o k1) k2
    = then_serve (A := unit) (A' := bool) o (fun a st mb => then_serve (A := unit) (k1 a st mb) k2)) as Hassoc.
  { by intros [[[? ?] ?]|]. }
  rewrite Hassoc. eapply (serves_bind _ _ _ d1); [by apply byte_serves|].
  intros [] st1 w1 mb1 HR1 Hmb1. change (with_tail (head d) d) with (with_tail (head d1) d1).
  apply IH; try done. lia.
Qed.
