(* ===== verification/MultiExampleTheorems.v ===== *)
(** * The embedded example as a whole

    The program of [src/single_parser/multi_protocol_example.c] from its start,
    for every sequence of interrupts, packets and tasks: it refines the machine of
    the parser with the mailbox, every state it reaches is well typed, the
    messages fill the four buffers in turn, the background task ends, and the
    defects of its buffers, its DMA handler and its [badCrc] callback. *)
From S2P Require Import Prelude FrameSpec Sentences SentenceRefine Messages MultiParser MultiSpec.
From S2P Require Import MultiRep MultiMachine MultiTheorems AppPrelude MultiDemo MultiExample.
From S2P Require Import MultiExampleRefine.

Local Abbreviation len := List.length.
Import Embedded.
#[local] Existing Instance example_setup.

(* ------------------------------------------------------------------ *)
(** ** Statistics and start *)

(** Parser code that only prints. *)
Definition quiet {A} (m : P A) : Prop :=
  forall w, exists a ev, m w = Ok (a, w, ev) /\ mdelivered ev = [] /\ Forall (good_call 1024) ev.

Lemma quiet_ret {A} (a : A) : quiet (ret a).
Proof. intros w. by exists a, []. Qed.

Lemma quiet_the {A} (f : MMP_PARSE_STATE -> A) : quiet (the f).
Proof. intros w. by exists (f (parse w)), []. Qed.

Lemma quiet_print cb format args : forallb printable args = true -> quiet (mmpSafePrintf cb format args).
Proof.
  intros Ha w. unfold mmpSafePrintf. destruct cb as [f|]; [rewrite Ha|by exists tt, []].
  exists tt, [EvPrint f format args]. split_and!; [done|done|]. by apply Forall_singleton.
Qed.

Lemma quiet_bind {A A'} (m : P A) (k : A -> P A') : quiet m -> (forall a, quiet (k a)) -> quiet (bind m k).
Proof.
  intros Hm Hk w. destruct (Hm w) as (a & ev & Ha & Hd & He). destruct (Hk a w) as (b & ev' & Hb & Hd' & He').
  exists b, (ev ++ ev'). rewrite (bind_ok _ _ _ _ _ _ Ha), Hb, mdelivered_app, Hd, Hd'.
  split_and!; [done|done|]. by apply Forall_app.
Qed.

Lemma print_loop_quiet l has : quiet (print_loop l has).
Proof.
  revert has. induction l as [|[[name m] e] l IH]; intros has; [apply quiet_ret|]. cbn [print_loop].
  case_match; [|apply IH]. apply quiet_bind; [apply quiet_the|]. intros dbg.
  apply quiet_bind; [by apply quiet_print|]. intros _. apply IH.
Qed.

Lemma mmpPrintStats_quiet : quiet mmpPrintStats.
Proof.
  apply quiet_bind; [apply quiet_the|]. intros p. destruct (printDebug p) as [f|]; [|apply quiet_ret].
  do 2 (apply quiet_bind; [by apply quiet_print|intros _]).
  apply quiet_bind; [apply print_loop_quiet|]. intros has.
  apply quiet_bind; [|intros _; by apply quiet_print].
  destruct has; [apply quiet_ret|by apply quiet_print].
Qed.

Lemma statisticsTask_serves d w st mb :
  MR w st -> mailbox_ok mb -> serves statisticsTask (assemble d w mb) d (Some (tt, st, mb)).
Proof.
  intros HR Hmb. apply serves_print; [done|].
  assert (serves (parser mmpPrintStats) (assemble d w mb) d (Some (tt, st, mb))) as H.
  { apply (parser_serves _ d w mb (Some (tt, st, []))); [done|].
    destruct (mmpPrintStats_quiet w) as ([] & ev & Hp & Hd & He). by exists w, ev. }
  apply (serves_bind _ _ _ d d _ (fun _ st mb => Some (tt, st, mb)) H). intros [] st1 w1 mb1 HR1 Hmb1.
  do 2 (eapply serves_run; [apply bind_gets|]; apply serves_print; [done|]).
  eexists _, _. by split_and!.
Qed.

(** The devices, the parser and the mailbox after the initialisation. *)
Definition ready : devices := Devices (Uart 0 0 0x01) (Dma to_g_uartRxBuffer 256 0x01 0) (replicate 256 0) 0 0 0.
Definition empty : mailbox := Mailbox (replicate 2048 0) 0 0.
Definition first_parser : world :=
  on_parse (fun p => default p (init_parser at_reset)) static_objects.

Lemma initMultiProtocolSystem_starts :
  exists o, initMultiProtocolSystem at_reset = Ok (true, assemble ready first_parser empty, o).
Proof. eexists. vm_compute. reflexivity. Qed.

Lemma empty_ok : mailbox_ok empty.
Proof. split_and!; try done. by apply Forall_replicate. Qed.

Lemma ready_ok : ring_ok ready.
Proof. split_and!; try done. by apply Forall_replicate. Qed.

Lemma first_parser_idle : MR first_parser Idle.
Proof.
  apply (initialised_idle (SU := example_setup)).
  exists (replicate 1024 0), (Some "嵌入式多协议解析器"), (Some fn_errorPrint), None.
  split_and!; [reflexivity|by apply Forall_replicate|reflexivity| |reflexivity].
  split; [done|]. by apply Forall_replicate.
Qed.

(* ------------------------------------------------------------------ *)
(** ** Activities of the system *)

Inductive activity :=
| UartByte (b : Z)
| DmaBlock (l : list Z)
| NetworkPacket (l : list Z)
| BluetoothData (l : list Z)
| Background
| Statistics.

(** The code that runs; the ring holds at most 255 bytes. *)
Definition perform (a : activity) : Program unit :=
  match a with
  | UartByte b => uart_receives b
  | DmaBlock l => dma_receives l
  | NetworkPacket l => processNetworkPacket l
  | BluetoothData l => processBluetoothData l
  | Background => backgroundProcessTask 255;; ret tt
  | Statistics => statisticsTask
  end.

(** The counts are of 16 bits, and a block of the DMA unit fits its buffer. *)
Definition admissible (a : activity) : Prop :=
  match a with
  | UartByte b => is_u8 b
  | DmaBlock l => bytes l /\ (len l <= 256)%nat
  | NetworkPacket l | BluetoothData l => bytes l /\ Z.of_nat (len l) < 65536
  | Background | Statistics => True
  end.

(** What an activity does to the devices, and to the machine and the mailbox. *)
Definition after (d : devices) (a : activity) : devices :=
  match a with
  | UartByte b => uart_after d b
  | DmaBlock l => dma_after d l
  | NetworkPacket _ | BluetoothData _ | Statistics => d
  | Background => with_tail (head d) d
  end.

Definition effect (d : devices) (a : activity) (st : mstate) (mb : mailbox) : option (unit * mstate * mailbox) :=
  match a with
  | UartByte b => run_posted mb (machine st [b])
  | NetworkPacket l => run_posted mb (machine st l)
  | DmaBlock l | BluetoothData l => answered (posted mb (muntil st l 0))
  | Background => run_posted mb (machine st (waiting d))
  | Statistics => Some (tt, st, mb)
  end.

Fixpoint effects (d : devices) (l : list activity) (st : mstate) (mb : mailbox) : option (unit * mstate * mailbox) :=
  match l with
  | [] => Some (tt, st, mb)
  | a :: l => then_serve (effect d a st mb) (fun _ st mb => effects (after d a) l st mb)
  end.

Lemma answered_true (o : option (unit * mstate * mailbox)) :
  answered (then_serve o (fun _ st mb => Some (true, st, mb))) = o.
Proof. by destruct o as [[[[] st] mb]|]. Qed.

Lemma perform_serves a d w st mb :
  admissible a -> ring_ok d -> MR w st -> mailbox_ok mb ->
  serves (perform a) (assemble d w mb) (after d a) (effect d a st mb).
Proof.
  intros Ha Hd HR Hmb. destruct a as [b|l|l|l| |]; cbn [perform after effect admissible] in *.
  - by apply uart_receives_serves.
  - destruct Ha. destruct Hd. by apply dma_receives_serves.
  - destruct Ha. by apply processNetworkPacket_serves.
  - destruct Ha. by apply processBluetoothData_serves.
  - rewrite <-(answered_true (run_posted _ _)). apply serves_tt, backgroundProcessTask_serves; try done.
    unfold pending. pose proof (Z.mod_pos_bound (head d - tail d) 256). lia.
  - by apply statisticsTask_serves.
Qed.

Lemma after_ok d a : admissible a -> ring_ok d -> ring_ok (after d a).
Proof.
  intros Ha (Hl & Hb & Hh & Ht). destruct a as [b|l|l|l| |]; try done.
  destruct Ha as [Hbl Hn]. unfold ring_ok. cbn [after dma_after ring head tail]. split_and!; try lia.
  - rewrite length_app, length_drop. lia.
  - apply Forall_app. split; [done|]. by apply Forall_drop.
Qed.

Lemma performs_serves l d w st mb :
  Forall admissible l -> ring_ok d -> MR w st -> mailbox_ok mb ->
  serves (for_each l perform) (assemble d w mb) (foldl after d l) (effects d l st mb).
Proof.
  intros Hl. revert d w st mb. induction Hl as [|a l Ha Hl IH]; intros d w st mb Hd HR Hmb.
  { exists w, []. by split_and!. }
  cbn [for_each foldl effects]. apply (serves_bind (perform a) _ _ (after d a)); [by apply perform_serves|].
  intros [] st1 w1 mb1 HR1 Hmb1. apply IH; try done. by apply after_ok.
Qed.

(** The system from its start. *)
Definition runs_of (l : list activity) : Program unit :=
  initMultiProtocolSystem;; for_each l perform.

(** C20: From its start, the example refines the machine of the parser with the
    mailbox for every sequence of UART bytes, DMA blocks, packets, Bluetooth data
    and tasks: the system is undefined exactly when the mailbox or the machine is,
    and otherwise its buffers and counters are the mailbox, its devices are as the
    activities leave them, and the parser represents the machine's state. *)
Theorem example_refines l :
  Forall admissible l ->
  serves (runs_of l) at_reset (foldl after ready l) (effects ready l Idle empty).
Proof.
  intros Hl. destruct initMultiProtocolSystem_starts as [o Ho].
  pose proof (performs_serves l ready first_parser Idle empty Hl ready_ok first_parser_idle empty_ok) as H.
  unfold serves, runs_of in *. rewrite (bind_ok _ _ _ _ _ _ Ho).
  destruct (effects ready l Idle empty) as [[[[] st] mb]|].
  - destruct H as (w & out & H & HR). rewrite H. by eexists _, _.
  - by rewrite H.
Qed.

(* ------------------------------------------------------------------ *)
(** ** Reachable states *)

Inductive reachable : system -> Prop :=
| reachable_start s o : initMultiProtocolSystem at_reset = Ok (true, s, o) -> reachable s
| reachable_activity s a s' o :
    reachable s -> admissible a -> perform a s = Ok (tt, s', o) -> reachable s'.

(** The registers hold values of their widths, the ring is an array of 256 bytes
    with its two indices inside it, the counters have 32 bits, the mailbox and the
    parse structure are well formed, and the parser is in a state of the machine. *)
Record well_typed (s : system) : Prop := {
  typed_uart : is_u8 (DATA (UART1 s)) /\ is_u8 (STATUS (UART1 s)) /\ is_u8 (CTRL (UART1 s));
  typed_dma : is_u16 (COUNT (DMA1 s)) /\ is_u8 (DMA_CTRL (DMA1 s)) /\ is_u8 (DMA_STATUS (DMA1 s));
  typed_processed : is_u32 (g_processedBytes s);
  typed_ring : ring_ok (devices_of s);
  typed_mailbox : mailbox_ok (mailbox_of s);
  typed_parser : exists st, MR (g_multiParser s) st
}.

Lemma lor_1_u8 v : is_u8 v -> is_u8 (Z.lor v 0x01).
Proof. intros Hv. apply (lor_range v 1 8); [lia|exact Hv|lia]. Qed.

Lemma assemble_typed d w mb st :
  is_u8 (DATA (uart d)) /\ is_u8 (STATUS (uart d)) /\ is_u8 (CTRL (uart d)) ->
  is_u16 (COUNT (dma d)) /\ is_u8 (DMA_CTRL (dma d)) /\ is_u8 (DMA_STATUS (dma d)) ->
  is_u32 (processed d) -> ring_ok d -> MR w st -> mailbox_ok mb -> well_typed (assemble d w mb).
Proof.
  intros Hu Hdma Hp Hd HR Hmb. split; [exact Hu|exact Hdma|exact Hp|by destruct d|by destruct mb|by exists st].
Qed.

(** C21: Every state the example reaches from its start, by any sequence of
    interrupts, packets and tasks that return, is well typed. *)
Theorem example_well_typed s : reachable s -> well_typed s.
Proof.
  induction 1 as [s o Hs|s a s' o _ IH Ha Hp].
  - destruct initMultiProtocolSystem_starts as [o' Ho']. rewrite Ho' in Hs. injection Hs as <- _.
    by apply (assemble_typed _ _ _ Idle); [| | |apply ready_ok|apply first_parser_idle|apply empty_ok].
  - destruct IH as [Hu Hdma Hproc Hring Hmb [st HR]]. rewrite (assembled s) in Hp.
    pose proof (perform_serves a _ _ st _ Ha Hring HR Hmb) as H.
    destruct (effect _ a st _) as [[[[] st'] mb']|]; cbn [serves] in H.
    + destruct H as (w' & out & H & HR' & Hmb'). rewrite Hp in H. injection H as -> _.
      apply (assemble_typed _ _ _ st'); try done; [| | |by apply after_ok].
      * destruct a; try done. destruct Hu as (_ & ? & ?). by split_and!; [|apply lor_1_u8|].
      * destruct a; try done. destruct Hdma as (_ & ? & _). by split_and!; [|apply lor_1_u8|apply u8_range].
      * destruct a; try done. apply u32_range.
    + congruence.
Qed.

(* ------------------------------------------------------------------ *)
(** ** The buffers in turn *)

(** The message [m] lies at the start of buffer [j]. *)
Definition holds (l : list Z) (j : Z) (m : list Z) : Prop :=
  take (len m) (drop (Z.to_nat (512 * j)) l) = m.

Lemma deposit_small mb m :
  mailbox_ok mb -> (len m <= 512)%nat ->
  exists mb', deposit mb m = Some mb' /\ slot mb' = (slot mb + 1) mod 4 /\
    received mb' = u32 (received mb + 1) /\ holds (slots mb') (slot mb) m /\
    forall j m', 0 <= j < 4 -> j <> slot mb -> (len m' <= 512)%nat ->
      holds (slots mb) j m' -> holds (slots mb') j m'.
Proof.
  intros (Hl & Hs & _) Hm. unfold deposit. rewrite (proj2 (Z.leb_le _ _)) by lia. eexists. split; [done|].
  cbn [slots slot received]. split_and!; [done|done| |].
  - unfold holds. rewrite drop_app_ge by (rewrite length_take; lia).
    rewrite length_take, Nat.min_l, Nat.sub_diag by lia. rewrite drop_0. by rewrite take_app_length.
  - intros j m' Hj Hne Hm'. unfold holds. intros H. rewrite <-H at 2. clear H.
    destruct (decide (j < slot mb)) as [Hlt|Hge].
    + rewrite drop_app_le, take_app_le by (rewrite ?length_drop, length_take; lia).
      rewrite skipn_firstn_comm, take_take. f_equal. lia.
    + rewrite drop_app_ge, length_take, Nat.min_l by (rewrite ?length_take; lia).
      rewrite drop_app_ge, drop_drop by lia. do 2 f_equal. lia.
Qed.

Lemma deposits_small mb out :
  mailbox_ok mb -> Forall (fun im => bytes im.2) out -> Forall (fun im => (len im.2 <= 512)%nat) out ->
  exists mb', deposits mb out = Some mb' /\ mailbox_ok mb' /\
    slot mb' = (slot mb + Z.of_nat (len out)) mod 4 /\
    received mb' = u32 (received mb + Z.of_nat (len out)) /\
    forall i im, out !! i = Some im -> (len out <= i + 4)%nat ->
      holds (slots mb') ((slot mb + Z.of_nat i) mod 4) im.2.
Proof.
  intros Hmb. induction out as [|[t m] out IH] using rev_ind; intros Hb Hs.
  - exists mb. destruct Hmb as (? & ? & ? & ?). split_and!; try done.
    + cbn. rewrite Z.add_0_r, Z.mod_small; lia.
    + cbn. by rewrite Z.add_0_r, u32_id.
  - apply Forall_app in Hb as [Hb Hbm%Forall_inv], Hs as [Hs Hm%Forall_inv]. cbn [snd] in *.
    destruct (IH Hb Hs) as (mb1 & Hd1 & Hok1 & Hslot1 & Hr1 & Hh1).
    destruct (deposit_small mb1 m Hok1 Hm) as (mb2 & Hd2 & Hslot2 & Hr2 & Hh2 & Hkeep).
    exists mb2. rewrite deposits_app, Hd1, length_app. cbn [deposits List.length]. rewrite Hd2.
    split_and!; [done|by eapply deposit_ok| | |].
    + rewrite Hslot2, Hslot1, Zplus_mod_idemp_l. f_equal. lia.
    + rewrite Hr2, Hr1. unfold u32. rewrite Zplus_mod_idemp_l. f_equal. lia.
    + intros i im Hi Hlast. apply lookup_app_Some in Hi as [Hi|[Hi Him]].
      * pose proof (lookup_lt_Some _ _ _ Hi). apply Hkeep; [apply Z.mod_pos_bound; lia|rewrite Hslot1; mlia| |].
        { rewrite Forall_lookup in Hs. exact (Hs i im Hi). }
        apply Hh1; [done|lia].
      * apply list_lookup_singleton_Some in Him as [Hz <-]. cbn [snd].
        replace (slot mb + Z.of_nat i) with (slot mb + Z.of_nat (len out)) by lia. by rewrite <-Hslot1.
Qed.

Lemma mstream_bytes l out : bytes l -> mstream l out -> Forall (fun im => bytes im.2) out.
Proof.
  intros Hl Hs. induction Hs as [|l i m rest out _ _ _ IH]; [constructor|].
  apply Forall_app in Hl as [_ Hl]. apply Forall_app in Hl as [Hm Hrest]. by constructor; [|apply IH].
Qed.

Lemma machine_stream l out : mstream l out -> machine Idle l = Some (Idle, out).
Proof. exact (mstream_run l out). Qed.

(** C22: A packet that holds messages of at most 512 bytes, with noise around them,
    is served: the counter and the index of the current buffer advance by the
    number of messages, each of the last four messages lies complete at the start
    of its buffer, and the parser is ready for the next one. *)
Theorem example_serves s packet out :
  MR (g_multiParser s) Idle -> mailbox_ok (mailbox_of s) -> bytes packet -> mstream packet out ->
  Forall (fun im => (len im.2 <= 512)%nat) out ->
  runs (processNetworkPacket packet) s (fun _ s' _ =>
    MR (g_multiParser s') Idle /\
    g_messagesReceived s' = u32 (g_messagesReceived s + Z.of_nat (len out)) /\
    g_currentBuffer s' = (g_currentBuffer s + Z.of_nat (len out)) mod 4 /\
    forall i im, out !! i = Some im -> (len out <= i + 4)%nat ->
      holds (g_messageBuffers s') ((g_currentBuffer s + Z.of_nat i) mod 4) im.2).
Proof.
  intros HR Hmb Hb Hs Hsmall.
  pose proof (processNetworkPacket_serves packet (devices_of s) _ Idle _ HR Hmb Hb) as H.
  rewrite <-assembled, (machine_stream packet out Hs) in H.
  destruct (deposits_small _ out Hmb (mstream_bytes _ _ Hb Hs) Hsmall) as (mb' & Hd & _ & Hslot & Hr & Hh).
  cbn [run_posted] in H. rewrite Hd in H. destruct H as (w & o & Hp & HR' & _).
  by exists tt, (assemble (devices_of s) w mb'), o.
Qed.

(* ------------------------------------------------------------------ *)
(** ** The background task *)

(** C23: The background task ends in every state in which the indices lie in the
    ring: given at least 255 turns it stops by itself with the ring empty, having
    handed the waiting bytes to the parser in the order of their arrival, or it
    writes outside an array, exactly when the machine or the mailbox does on these
    bytes. *)
Theorem background_task_ends s st fuel :
  ring_ok (devices_of s) -> MR (g_multiParser s) st -> mailbox_ok (mailbox_of s) -> (255 <= fuel)%nat ->
  match run_posted (mailbox_of s) (machine st (waiting (devices_of s))) with
  | Some (_, st', mb') =>
      runs (backgroundProcessTask fuel) s (fun ended s' _ =>
        ended = true /\ g_uartRxTail s' = g_uartRxHead s' /\ MR (g_multiParser s') st' /\ mailbox_of s' = mb')
  | None => backgroundProcessTask fuel s = Ub OutOfBounds
  end.
Proof.
  intros Hd HR Hmb Hf.
  pose proof (backgroundProcessTask_serves fuel (devices_of s) _ st _ Hd HR Hmb) as H.
  rewrite <-assembled in H. specialize (H ltac:(unfold pending;
    pose proof (Z.mod_pos_bound (head (devices_of s) - tail (devices_of s)) 256); lia)).
  destruct (run_posted _ _) as [[[[] st'] mb']|]; cbn [then_serve serves] in H; [|done].
  destruct H as (w & o & Hp & HR' & _). eexists true, _, o. split; [exact Hp|]. by destruct mb'.
Qed.

(* ------------------------------------------------------------------ *)
(** ** Defects *)

Lemma muntil_steps l st st' out rest n :
  msteps l st st' out ->
  muntil st (l ++ rest) n
  = match muntil st' rest (n + Z.of_nat (len l)) with Some (k, st, o) => Some (k, st, out ++ o) | None => None end.
Proof.
  intros H. revert n. induction H as [st|b l st st1 st2 out1 out2 Hs _ IH]; intros n.
  - cbn [app List.length]. rewrite Z.add_0_r. by destruct (muntil st rest n) as [[[? ?] ?]|].
  - cbn [app muntil List.length]. cbn [mB mC maccepts example_setup] in Hs. rewrite Hs, IH.
    replace (n + 1 + Z.of_nat (len l)) with (n + Z.of_nat (S (len l))) by lia.
    destruct (muntil st2 rest _) as [[[? ?] ?]|]; [|done]. by rewrite app_assoc.
Qed.

Lemma muntil_whole l out rest n :
  whole Idle l out -> muntil Idle (l ++ rest) n = Some (n + Z.of_nat (len l), Idle, out).
Proof.
  intros (l' & b & st & out1 & out2 & -> & Hs & Hlast & ->). rewrite <-app_assoc, (muntil_steps _ _ _ _ _ _ Hs).
  cbn [app muntil mB mC maccepts example_setup] in *. rewrite Hlast, length_app. cbn [List.length]. do 3 f_equal. lia.
Qed.

(** C39: Of a DMA block, and of Bluetooth data, that starts with a message only
    the message is processed: whatever follows it does not reach the parser. *)
Theorem rest_of_buffer_lost s i m rest :
  ring_ok (devices_of s) -> MR (g_multiParser s) Idle -> mailbox_ok (mailbox_of s) ->
  bytes (m ++ rest) -> (len (m ++ rest) <= 256)%nat -> msent i m ->
  (exists mb, deposit (mailbox_of s) m = Some mb /\
    runs (dma_receives (m ++ rest)) s (fun _ s' _ => MR (g_multiParser s') Idle /\ mailbox_of s' = mb) /\
    runs (processBluetoothData (m ++ rest)) s (fun _ s' _ => MR (g_multiParser s') Idle /\ mailbox_of s' = mb)).
Proof.
  intros Hd HR Hmb Hb Hn Hm. pose proof (muntil_whole m _ rest 0 (msent_delivered i m Hm)) as Hu.
  pose proof (dma_receives_serves (m ++ rest) (devices_of s) _ Idle _ HR Hmb Hb Hn (proj1 Hd)) as H1.
  pose proof (processBluetoothData_serves (m ++ rest) (devices_of s) _ Idle _ HR Hmb Hb ltac:(lia)) as H2.
  rewrite <-assembled, Hu in H1, H2. rewrite length_app in Hn. apply Forall_app in Hb as [Hb _].
  destruct (deposit_small (mailbox_of s) m Hmb ltac:(lia)) as (mb & Hdep & _). exists mb.
  cbn [posted deposits answered then_serve] in H1, H2. rewrite Hdep in H1, H2.
  destruct H1 as (w1 & o1 & H1 & HR1 & _), H2 as (w2 & o2 & H2 & HR2 & _).
  split_and!; [done|eexists tt, _, o1; split; [exact H1|by destruct mb]|eexists tt, _, o2; split; [exact H2|by destruct mb]].
Qed.

Lemma deposits_fourth mb i1 m1 i2 m2 i3 m3 i4 m4 :
  slot mb = 0 -> (512 < len m4)%nat -> deposits mb [(i1, m1); (i2, m2); (i3, m3); (i4, m4)] = None.
Proof.
  intros H0 H4. cbn [deposits]. unfold deposit. rewrite H0. do 3 (destruct (_ <=? 2048); [|done]; cbn [slot]).
  rewrite (proj2 (Z.leb_gt _ _)); [done|]. cbn. lia.
Qed.

(** C37: The fourth message of a packet, when it is longer than its buffer of 512
    bytes, is copied past the end of the array of buffers (an access out of bounds), whatever the first
    three messages were. *)
Theorem fourth_message_overflows i1 m1 i2 m2 i3 m3 i4 m4 :
  msent i1 m1 -> msent i2 m2 -> msent i3 m3 -> msent i4 m4 -> bytes (m1 ++ m2 ++ m3 ++ m4) ->
  (512 < len m4)%nat ->
  (initMultiProtocolSystem;; processNetworkPacket (m1 ++ m2 ++ m3 ++ m4)) at_reset = Ub OutOfBounds.
Proof.
  intros H1 H2 H3 H4 Hb Hlong.
  assert (mstream (m1 ++ m2 ++ m3 ++ m4) [(i1, m1); (i2, m2); (i3, m3); (i4, m4)]) as Hs.
  { apply (mstream_message []); [constructor|done|]. apply (mstream_message []); [constructor|done|].
    apply (mstream_message []); [constructor|done|]. rewrite <-(app_nil_r m4) at 1.
    apply (mstream_message []); [constructor|done|]. apply mstream_end. constructor. }
  destruct initMultiProtocolSystem_starts as [o Ho].
  pose proof (processNetworkPacket_serves _ ready _ Idle _ first_parser_idle empty_ok Hb) as H.
  rewrite (machine_stream _ _ Hs) in H. unfold run_posted in H.
  rewrite (deposits_fourth empty) in H by done.
  by rewrite (bind_ok _ _ _ _ _ _ Ho), H.
Qed.

Lemma machine_sentence name body d1 d2 :
  sentence_name name -> Forall (fun b => b <> 0x2A) body -> is_Some (digit_value d1) -> is_Some (digit_value d2) ->
  let m := 0x24 :: name ++ 0x2C :: body ++ [0x2A; d1; d2] in
  Z.of_nat (len m) + 3 <= 1024 ->
  machine Idle (m ++ [0x0D; 0x0A]) = Some (Idle, [(1, m ++ [0x0D; 0x0A])]).
Proof.
  intros Hn Hb H1 H2 m Hl.
  assert (msteps m Idle (Nmea (TSum name body [d1; d2])) []) as Hs.
  { apply sentence_closed_mrun; try done. unfold flatten. subst m. cbn [mB example_setup].
    cbn [List.length] in *. rewrite !length_app in *. cbn [List.length] in *. rewrite length_app in *. cbn [List.length] in *. lia. }
  pose proof (mrun_app _ _ _ _ _ [0x0D; 0x0A] _ _ (msteps_run _ _ _ _ Hs)) as H.
  cbn [mB mC maccepts example_setup] in H. rewrite H. clear H. 
  cbn [mrun mstep mclosed closed List.length check_digits Nat.eqb]. unfold mfinish. rewrite orb_true_r.
  change (flatten 0x24 (TSum name body [d1; d2])) with m. rewrite (proj2 (Z.leb_le _ _)) by lia. done.
Qed.

(** C38: A sentence with any two hexadecimal digits as its checksum is delivered
    as a message: the answer [false] of the callback [onCrcError], meant to
    discard the sentence, makes the NMEA parser accept it. *)
Theorem bad_checksum_delivered s name body d1 d2 :
  MR (g_multiParser s) Idle -> mailbox_ok (mailbox_of s) ->
  sentence_name name -> Forall (fun b => b <> 0x2A) body -> is_Some (digit_value d1) -> is_Some (digit_value d2) ->
  let m := 0x24 :: name ++ 0x2C :: body ++ [0x2A; d1; d2] ++ [0x0D; 0x0A] in
  bytes m -> (len m <= 512)%nat ->
  runs (processNetworkPacket m) s (fun _ s' _ =>
    deposit (mailbox_of s) m = Some (mailbox_of s') /\ MR (g_multiParser s') Idle).
Proof.
  intros HR Hmb Hn Hb H1 H2 m Hm Hl.
  assert (m = (0x24 :: name ++ 0x2C :: body ++ [0x2A; d1; d2]) ++ [0x0D; 0x0A]) as E
    by (subst m; cbn; by rewrite <-app_assoc, <-app_comm_cons, <-app_assoc).
  pose proof (machine_sentence name body d1 d2 Hn Hb H1 H2) as Hrun. cbv zeta in Hrun.
  rewrite <-E in Hrun. specialize (Hrun ltac:(rewrite E, length_app in Hl; cbn in *; lia)).
  pose proof (processNetworkPacket_serves m (devices_of s) _ Idle _ HR Hmb Hm) as H.
  rewrite <-assembled, Hrun in H. unfold run_posted, deposits in H.
  destruct (deposit_small (mailbox_of s) m Hmb Hl) as (mb & Hd & _). rewrite Hd in *.
  destruct H as (w & o & Hp & HR' & _). eexists tt, _, o. split; [exact Hp|]. by destruct mb.
Qed.

(* ------------------------------------------------------------------ *)
(** ** Witnesses *)

(** The frame of the example's first scenario, and a frame of 624 bytes. *)
Definition small_frame : list Z := custom_frame [0x14; 1; 0; 0; 0; 0; 0; 0; 0] [0; 0; 0; 0; 0; 0] [1; 0].
Definition large_frame : list Z := custom_frame [0x14; 1; 0; 0; 0; 0; 0; 0; 0] [0; 0; 0; 0; 0; 0] (replicate 600 7).

Lemma small_frame_sent : msent 0 small_frame.
Proof. by apply msent_semp. Qed.

Lemma large_frame_sent : msent 0 large_frame.
Proof. apply msent_semp; [done|done|]. rewrite length_replicate. cbn. lia. Qed.

Definition sample_activities : list activity :=
  [UartByte 0xAA; DmaBlock dmaData; NetworkPacket uartData; BluetoothData bluetoothData; Background; Statistics].

Lemma example_refines_witness :
  serves (runs_of sample_activities) at_reset (foldl after ready sample_activities)
    (effects ready sample_activities Idle empty).
Proof.
  apply example_refines. repeat first [apply Forall_nil_2|apply Forall_cons_2]; try done;
    (split; [apply bytesb_spec; vm_compute; reflexivity|first [reflexivity|vm_compute; lia]]).
Defined.

(** The start, and the state after two packets with a frame and the start of one. *)
Definition afterwards (l : list Z) (s : system) : system :=
  match perform (NetworkPacket l) s with Ok (_, s, _) => s | Ub _ => at_reset end.
Definition first_state : system :=
  match initMultiProtocolSystem at_reset with Ok (_, s, _) => s | Ub _ => at_reset end.
Definition busy_state : system := afterwards [0xAA; 0x44; 0x18] (afterwards small_frame first_state).

Lemma example_well_typed_witness :
  g_messagesReceived busy_state = 1 /\ state (parse (g_multiParser busy_state)) <> fn_mmpFirstByte /\
  well_typed busy_state.
Proof.
  split; [vm_compute; reflexivity|]. split; [vm_compute; discriminate|]. apply example_well_typed.
  apply (reachable_activity (afterwards small_frame first_state) (NetworkPacket [0xAA; 0x44; 0x18]) busy_state
    (match perform (NetworkPacket [0xAA; 0x44; 0x18]) (afterwards small_frame first_state) with
     | Ok (_, _, o) => o | Ub _ => [] end)).
  - apply (reachable_activity first_state (NetworkPacket small_frame) _
      (match perform (NetworkPacket small_frame) first_state with Ok (_, _, o) => o | Ub _ => [] end)).
    + apply (reachable_start _ (match initMultiProtocolSystem at_reset with Ok (_, _, o) => o | Ub _ => [] end)).
      vm_compute. reflexivity.
    + split; [apply bytesb_spec; vm_compute; reflexivity|done].
    + vm_compute. reflexivity.
  - split; [apply bytesb_spec; vm_compute; reflexivity|done].
  - vm_compute. reflexivity.
Defined.

Lemma two_frames_stream :
  mstream (small_frame ++ [0xFF; 0x00] ++ small_frame) [(0, small_frame); (0, small_frame)].
Proof.
  apply (mstream_message []); [constructor|apply small_frame_sent|]. rewrite <-(app_nil_r small_frame) at 1.
  apply (mstream_message [0xFF; 0x00]); [by repeat constructor|apply small_frame_sent|]. apply mstream_end. constructor.
Qed.

Lemma example_serves_witness :
  runs (processNetworkPacket (small_frame ++ [0xFF; 0x00] ++ small_frame)) (assemble ready first_parser empty)
    (fun _ s' _ =>
       MR (g_multiParser s') Idle /\ g_messagesReceived s' = u32 (0 + 2) /\ g_currentBuffer s' = (0 + 2) mod 4 /\
       forall i im, [(0, small_frame); (0, small_frame)] !! i = Some im -> (2 <= i + 4)%nat ->
         holds (g_messageBuffers s') ((0 + Z.of_nat i) mod 4) im.2).
Proof.
  apply (example_serves (assemble ready first_parser empty) _ [(0, small_frame); (0, small_frame)]).
  - apply first_parser_idle.
  - apply empty_ok.
  - apply bytesb_spec. vm_compute. reflexivity.
  - apply two_frames_stream.
  - by repeat (constructor; [vm_compute; lia|]).
Defined.

(** The ring holds a sentence. *)
Definition loaded : devices :=
  Devices (Uart 0 0 0x01) (Dma to_g_uartRxBuffer 256 0x01 0) (replicate 200 0 ++ take 56 dmaData)
    10 200 0.

Lemma background_task_ends_witness :
  match run_posted empty (machine Idle (waiting loaded)) with
  | Some (_, st', mb') =>
      runs (backgroundProcessTask 255) (assemble loaded first_parser empty) (fun ended s' _ =>
        ended = true /\ g_uartRxTail s' = g_uartRxHead s' /\ MR (g_multiParser s') st' /\ mailbox_of s' = mb')
  | None => backgroundProcessTask 255 (assemble loaded first_parser empty) = Ub OutOfBounds
  end.
Proof.
  apply (background_task_ends (assemble loaded first_parser empty) Idle 255).
  - split_and!; [done| |done..]. apply bytesb_spec. vm_compute. reflexivity.
  - apply first_parser_idle.
  - apply empty_ok.
  - done.
Defined.

Lemma rest_of_buffer_lost_witness :
  exists mb, deposit empty small_frame = Some mb /\
    runs (dma_receives (small_frame ++ dmaData)) (assemble ready first_parser empty)
      (fun _ s' _ => MR (g_multiParser s') Idle /\ mailbox_of s' = mb) /\
    runs (processBluetoothData (small_frame ++ dmaData)) (assemble ready first_parser empty)
      (fun _ s' _ => MR (g_multiParser s') Idle /\ mailbox_of s' = mb).
Proof.
  apply (rest_of_buffer_lost (assemble ready first_parser empty) 0).
  - apply ready_ok.
  - apply first_parser_idle.
  - apply empty_ok.
  - apply bytesb_spec. vm_compute. reflexivity.
  - vm_compute. lia.
  - apply small_frame_sent.
Defined.

Lemma fourth_message_overflows_witness :
  (initMultiProtocolSystem;;
             processNetworkPacket (small_frame ++ small_frame ++ small_frame ++ large_frame)) at_reset = Ub OutOfBounds.
Proof.
  apply (fourth_message_overflows 0 small_frame 0 small_frame 0 small_frame 0 large_frame);
    [apply small_frame_sent..|apply large_frame_sent| |].
  - apply bytesb_spec. vm_compute. reflexivity.
  - vm_compute. lia.
Defined.

Lemma bad_checksum_delivered_witness :
  runs (processNetworkPacket (chars "$GPGGA,1*00" ++ [0x0D; 0x0A])) (assemble ready first_parser empty)
    (fun _ s' _ => deposit empty (chars "$GPGGA,1*00" ++ [0x0D; 0x0A]) = Some (mailbox_of s') /\
                   MR (g_multiParser s') Idle).
Proof.
  apply (bad_checksum_delivered (assemble ready first_parser empty) (chars "GPGGA") (chars "1") 0x30 0x30).
  - apply first_parser_idle.
  - apply empty_ok.
  - by split_and!; [|vm_compute; lia|repeat constructor].
  - by repeat constructor.
  - by eexists.
  - by eexists.
  - apply bytesb_spec. vm_compute. reflexivity.
  - vm_compute. lia.
Defined.

(** The example as it stands: five messages arrive, one u-blox packet has a wrong
    check, and only the bytes of the first scenario are counted. *)
Lemma example_main_run :
  runs Embedded.main at_reset (fun code s _ =>
    code = 0 /\ g_messagesReceived s = 5 /\ g_currentBuffer s = 1 /\ g_processedBytes s = 26 /\
    messagesProcessed (parse (g_multiParser s)) = [2; 3; 0; 0; 0; 0; 0; 0] /\
    crcErrors (parse (g_multiParser s)) = [0; 0; 1; 0; 0; 0; 0; 0]).
Proof. eexists _, _, _. split; [vm_compute; reflexivity|]. vm_compute. done. Qed.

(** The demonstration: the u-blox packet has a wrong check, the stream of 198
    bytes is left after its first message, and the statistics are not shown. *)
Lemma demo_main_run :
  runs Demo.main static_objects (fun code w o =>
    code = 0 /\ messagesProcessed (parse w) = [2; 1; 0; 0; 0; 0; 0; 0] /\
    crcErrors (parse w) = [0; 0; 1; 0; 0; 0; 0; 0] /\
    Printf "✅ 处理完成，共处理 %d 字节\n\n" [AInt 26] ∈ o /\ printed "🔧 DEBUG: " o = 0%nat).
Proof.
  eexists _, _, _. split; [vm_compute; reflexivity|]. split_and!; [done|done|done| |vm_compute; done].
  apply list_elem_of_In. vm_compute. tauto.
Qed.
