(* ===== verification/SempProgramTheorems.v ===== *)
(** * The programs of the single-protocol parser

    [src/single_parser/semp_example.c] returns on every input, and reads of a file
    only the first message of each chunk; [src/single_parser/test_tool.c] is
    undefined on packets with large bytes, and reads outside its buffer for a
    message that is longer than the buffer. *)
From S2P Require Import Prelude Crc FrameSpec Messages SempParser SempTheorems AppPrelude.
From S2P Require Import SempClient SempExample SempTool SempDemonstration.

Local Abbreviation len := List.length.

(* ------------------------------------------------------------------ *)
(** ** The calls of the parser *)

(** The structure of the programs: its buffer has 1024 bytes. *)
Definition sized (p : SEMP_PARSE_STATE) : Prop := base p /\ maxLength p = 1024.

Definition good_call (e : Event) : Prop := match e with EvEom _ p _ => sized p | _ => True end.

#[local] Hint Extern 2 (respects _ _ (modify _)) =>
  apply respects_modify; intros ? [[? ? ? ?] ?]; split; [split; cbn; (done || lia)|done] : respects.

Section calls.
  Context `{App : Application}.

Abbreviation calls := (respects sized good_call).

Lemma store_byte_calls b : is_u8 b -> calls (store_byte b).
Proof.
  intros Hb p [Hp Hm]. rewrite store_byte_ok by done. split; [|constructor].
  split; [by apply base_stored|]. unfold stored. by destruct (_ <? _).
Qed.

Lemma sempPrintf_calls dbg format name args : calls (sempPrintf dbg format name args).
Proof. unfold sempPrintf. apply respects_when. by apply respects_emit. Qed.

Lemma semp_buffer_at_calls i : calls (buffer_at i).
Proof. unfold buffer_at. respects_tac. Qed.

Lemma update_crc_calls b : calls (update_crc b).
Proof. unfold update_crc, sempBluetoothComputeCrc. respects_tac. Qed.

Lemma semp_header_get_calls f : calls (header_get f).
Proof. unfold header_get. respects_tac. Qed.

Lemma semp_begin_crc_calls : calls begin_crc.
Proof. unfold begin_crc. respects_tac. Qed.

#[local] Hint Resolve store_byte_calls sempPrintf_calls semp_buffer_at_calls update_crc_calls semp_header_get_calls
  semp_begin_crc_calls : respects.

Lemma sempFirstByte_calls b : is_u8 b -> calls (sempFirstByte b).
Proof. intros Hb. unfold sempFirstByte, sempBluetoothPreamble. respects_tac. Qed.
#[local] Hint Resolve sempFirstByte_calls : respects.

Lemma sempBluetoothReadCrc_calls b : is_u8 b -> calls (sempBluetoothReadCrc b).
Proof.
  intros Hb. unfold sempBluetoothReadCrc. respects_tac.
Qed.
#[local] Hint Resolve sempBluetoothReadCrc_calls : respects.

Lemma sempProcessByte_calls b : is_u8 b -> calls (sempProcessByte b).
Proof.
  intros Hb. unfold sempProcessByte. apply respects_get. intros p _. destruct (state p); cbn [call_state];
    unfold sempBluetoothSync2, sempBluetoothSync3, sempBluetoothReadHeader, sempBluetoothReadData; respects_tac.
Qed.

(** The parser of the programs between two calls. *)
Definition ready (p : SEMP_PARSE_STATE) : Prop := wf p /\ maxLength p = 1024.

Lemma sempProcessByte_step b p :
  ready p -> is_u8 b ->
  exists more p' ev, sempProcessByte b p = Ok (more, p', ev) /\ ready p' /\ Forall good_call ev.
Proof.
  intros [Hwf Hm] Hb. destruct (sempProcessByte_keeps b p Hwf Hb) as (more & p' & ev & Hp & Hwf').
  pose proof (sempProcessByte_calls b Hb p (conj (proj1 Hwf) Hm)) as Hc. rewrite Hp in Hc.
  destruct Hc as [[_ Hm'] He]. by exists more, p', ev.
Qed.

Lemma process_loop_step l n p :
  ready p -> bytes l -> exists k p' ev, process_loop l n p = Ok (k, p', ev) /\ ready p' /\ Forall good_call ev.
Proof.
  intros Hp Hl. revert n p Hp. induction Hl as [|b l Hb Hl IH]; intros n p Hp; [by exists n, p, []|].
  destruct (sempProcessByte_step b p Hp Hb) as (more & p1 & ev1 & H1 & Hp1 & He1). cbn [process_loop].
  destruct more.
  - destruct (IH (u16 (n + 1)) p1 Hp1) as (k & p2 & ev2 & H2 & Hp2 & He2). exists k, p2, (ev1 ++ ev2).
    rewrite (bind_ok _ _ _ _ _ _ H1), H2. split_and!; [done|done|by apply Forall_app].
  - exists n, p1, ev1. rewrite (bind_ok _ _ _ _ _ _ H1). cbn. by rewrite app_nil_r.
Qed.

End calls.

(* ------------------------------------------------------------------ *)
(** ** Programs *)

Section client.
  Context `{App : Application} (answer : Event -> Program unit).
  Context (answers : forall e, good_call e -> shows (answer e) (fun _ => True)).

(** Code that returns and leaves a parser ready for the next call. *)
Definition goes_on {A} (m : Program A) : Prop :=
  forall p, ready p -> runs m (Some p) (fun _ g _ => exists p', g = Some p' /\ ready p').

Lemma goes_on_bind {A A'} (m : Program A) (k : A -> Program A') :
  goes_on m -> (forall a, goes_on (k a)) -> goes_on (bind m k).
Proof.
  intros Hm Hk p Hp. apply runs_bind. eapply runs_mono; [by apply Hm|]. intros a g o (p' & -> & Hp').
  eapply runs_mono; [by apply Hk|]. done.
Qed.

Lemma goes_on_shows {A} (m : Program A) Q : shows m Q -> goes_on m.
Proof. intros Hm p Hp. destruct (Hm (Some p)) as (a & o & Ha & _). exists a, (Some p), o. eauto. Qed.

Lemma goes_on_for_each {X} (l : list X) (m : X -> Program unit) :
  (forall x, x ∈ l -> goes_on (m x)) -> goes_on (for_each l m).
Proof.
  induction l as [|x l IH]; intros Hm; cbn [for_each]; [by apply (goes_on_shows _ (fun _ => True)), shows_ret|].
  apply goes_on_bind; [apply Hm; left|]. intros _. apply IH. intros y Hy. apply Hm. by right.
Qed.

Lemma call_goes_on {A} (m : P A) p :
  (exists a p' ev, m p = Ok (a, p', ev) /\ ready p' /\ Forall good_call ev) ->
  runs (call_parser (default p) (fun p _ => Some p) answer m) (Some p)
    (fun _ g _ => exists p', g = Some p' /\ ready p').
Proof.
  intros (a & p' & ev & Hm & Hp' & He). eapply call_parser_runs; [exact Hm|].
  assert (shows (for_each ev answer) (fun _ => True)) as Hs.
  { apply shows_for_each. intros e Hin. apply answers. rewrite Forall_forall in He. by apply He. }
  destruct (Hs (Some p')) as ([] & o & Ho & _). exists tt, (Some p'), o. eauto.
Qed.

Lemma process_byte_goes_on b : is_u8 b -> goes_on (process_byte answer b).
Proof.
  intros Hb p Hp. unfold process_byte. apply runs_bind. exists (Some p), (Some p), []. split; [done|].
  eapply runs_mono; [apply call_goes_on; by apply sempProcessByte_step|]. done.
Qed.

Lemma process_buffer_goes_on l : bytes l -> goes_on (process_buffer answer l).
Proof.
  intros Hl p Hp. unfold process_buffer. apply runs_bind. exists (Some p), (Some p), []. split; [done|].
  eapply runs_mono; [apply call_goes_on; by apply process_loop_step|]. done.
Qed.

End client.

Lemma callbacks_shows eom bad e :
  (forall f p t, e = EvEom f p t -> shows (eom p t) (fun _ => True)) ->
  (forall p, shows (bad p) (fun _ => True)) -> shows (callbacks eom bad e) (fun _ => True).
Proof.
  intros He Hb. destruct e as [f p t|f p|format name args]; cbn [callbacks].
  - by eapply He.
  - apply shows_then; [apply Hb|by apply shows_ret].
  - apply shows_then; [|shows_tac]. apply shows_printf. rewrite forallb_app.
    assert (forallb printable (AInt <$> args) = true) as -> by (clear He; by induction args as [|a args IH]; [|exact IH]). by destruct name.
Qed.

Lemma sized_member p f : sized p -> (offset f + size f <= 1024)%nat -> member_of (buffer p) f = Ok (get f (buffer p)).
Proof. intros [[Hb _ _ _] Hm] Hf. apply member_of_ok. lia. Qed.

Lemma sized_from p i f :
  sized p -> (offset f + size f + i <= 1024)%nat -> exists v, member_of (from (buffer p) (Z.of_nat i)) f = Ok v.
Proof.
  intros [[Hb _ _ _] Hm] Hf. eexists. apply member_of_ok. unfold from. rewrite length_drop, Nat2Z.id. lia.
Qed.

Lemma sized_load p i j : sized p -> 0 <= j -> (Z.of_nat i + j < 1024) -> exists v, load (from (buffer p) (Z.of_nat i)) j = Ok v.
Proof.
  intros [[Hb _ _ _] Hm] Hj Hf. unfold from. rewrite Nat2Z.id.
  destruct (load_in_range (drop i (buffer p)) j) as (v & Hv & _); [rewrite length_drop; lia|]. by exists v.
Qed.

(* ------------------------------------------------------------------ *)
(** ** The example *)

Ltac show_member H := eapply shows_lift; [apply (sized_member _ _ H); cbn; lia|].
Ltac show_load H i := edestruct (sized_load _ 20 i H) as [? Hload]; [lia|lia|]; eapply shows_lift; [exact Hload|clear Hload].

Lemma handleControlCommand_shows p : sized p -> shows (handleControlCommand (buffer p)) (fun _ => True).
Proof.
  intros Hp. unfold handleControlCommand. show_member Hp. shows_tac. cbn zeta. show_member Hp. shows_tac.
  - show_load Hp 0. shows_tac.
  - show_load Hp 1. show_load Hp 0. cbn zeta. shows_tac.
Qed.

Lemma handleDataTransfer_shows p : sized p -> shows (handleDataTransfer (buffer p)) (fun _ => True).
Proof.
  intros Hp. unfold handleDataTransfer. show_member Hp. shows_tac. cbn zeta. show_member Hp. shows_tac.
  destruct (sized_from p 20 (Member 0 4) Hp) as [v Hv]; [cbn; lia|]. eapply shows_lift; [exact Hv|]. shows_tac.
Qed.

Lemma handleStatusQuery_shows p : sized p -> shows (handleStatusQuery (buffer p)) (fun _ => True).
Proof. intros Hp. unfold handleStatusQuery. show_member Hp. shows_tac. Qed.

Lemma show_payload_shows p : sized p -> shows (show_payload p) (fun _ => True).
Proof.
  intros Hp. unfold show_payload. cbn zeta. shows_tac.
  apply shows_then; [|apply shows_then; shows_tac]. apply shows_for_each. intros i Hi.
  apply elem_of_seqZ in Hi. show_load Hp i. shows_tac.
Qed.

Lemma onMessageReceived_shows p t : sized p -> shows (onMessageReceived p t) (fun _ => True).
Proof.
  intros Hp. unfold onMessageReceived. shows_tac. do 3 (show_member Hp; shows_tac).
  apply shows_then; [apply shows_when; intros _; by apply show_payload_shows|]. apply shows_then; [|shows_tac].
  repeat case_match; eauto using handleControlCommand_shows, handleDataTransfer_shows, handleStatusQuery_shows with programs.
Qed.

Lemma example_answers_shows e : good_call e -> shows (answer e) (fun _ => True).
Proof.
  intros He. apply callbacks_shows.
  - intros f p t ->. by apply onMessageReceived_shows.
  - intros p. unfold onCrcError. shows_tac.
Qed.

Lemma processBluetoothPacket_goes_on l : bytes l -> goes_on (processBluetoothPacket l).
Proof.
  intros Hl. apply goes_on_for_each. intros b Hb. rewrite Forall_forall in Hl. apply goes_on_bind.
  - apply process_byte_goes_on; [apply example_answers_shows|by apply Hl].
  - intros _. by apply (goes_on_shows _ (fun _ => True)), shows_ret.
Qed.

Lemma processFileStream_goes_on file : bytes file -> goes_on (processFileStream file).
Proof.
  induction file as [file IH] using (induction_ltof1 _ (@len Z)). intros Hl.
  destruct file as [|b file]; [rewrite processFileStream_equation_1|rewrite processFileStream_equation_2].
  - by apply (goes_on_shows _ (fun _ => True)), shows_ret.
  - apply goes_on_bind; [apply process_buffer_goes_on; [apply example_answers_shows|by apply Forall_take]|].
    intros _. apply IH; [|by apply Forall_drop]. unfold ltof. rewrite length_drop. cbn [List.length]. lia.
Qed.

(** Where the bytes of the example come from. *)
Inductive input := BluetoothPacket (packet : list Z) | FileStream (file : list Z).

Definition input_bytes (i : input) : list Z := match i with BluetoothPacket l | FileStream l => l end.

Definition process (i : input) : Program unit :=
  match i with BluetoothPacket l => processBluetoothPacket l | FileStream l => processFileStream l end.

(** C26: The example returns on every sequence of Bluetooth packets and files,
    whatever bytes they hold: the loop over a file ends, no handler reads outside
    the buffer, and the parser is well formed afterwards. *)
Theorem semp_example_safe inputs :
  Forall (fun i => bytes (input_bytes i)) inputs ->
  runs (sempInit;; for_each inputs process) None (fun _ g _ => exists p, g = Some p /\ wf p).
Proof.
  intros Hin. apply runs_bind. set (p0 := sempInitParser (replicate 1024 0) SEMP_MAX_BUFFER_SIZE
    (Some fn_onMessageReceived) (Some fn_onCrcError) (Some "主解析器")).
  exists tt, (Some p0). eexists. split; [reflexivity|].
  assert (ready p0) as Hp0.
  { destruct (sempInitParser_idle (replicate 1024 0) SEMP_MAX_BUFFER_SIZE (Some fn_onMessageReceived)
      (Some fn_onCrcError) (Some "主解析器")) as [Hb Hs]; [by apply Forall_replicate|done|done|].
    split; [|done]. split; [done|]. split; [done|]. by intros [?|?]. }
  assert (goes_on (for_each inputs process)) as Hgo.
  { apply goes_on_for_each. intros i Hi. rewrite Forall_forall in Hin. specialize (Hin i Hi).
    destruct i; [by apply processBluetoothPacket_goes_on|by apply processFileStream_goes_on]. }
  eapply runs_mono; [by apply Hgo|]. intros [] g o (p' & -> & [Hwf _]). by exists p'.
Qed.

(** What follows the first message in a chunk of 512 bytes of a file is lost:
    a file of at most 512 bytes that starts with a message is processed exactly
    as if it ended behind that message. *)
Theorem semp_file_rest_lost f x rest p :
  idle p -> eomCallback p = Some f -> sendable (maxLength p) x -> (len (frame_of x ++ rest) <= 512)%nat ->
  processFileStream (frame_of x ++ rest) (Some p) = processFileStream (frame_of x) (Some p).
Proof.
  intros Hi Hf Hx Hl.
  assert (forall l, l <> [] -> (len l <= 512)%nat ->
    processFileStream l (Some p) = bind (process_buffer answer l) (fun _ => ret tt) (Some p)) as Hone.
  { intros l Hne H512. destruct l as [|b l]; [done|]. rewrite processFileStream_equation_2.
    by rewrite take_ge, drop_ge by done. }
  assert (process_buffer answer (frame_of x ++ rest) (Some p) = process_buffer answer (frame_of x) (Some p)) as E.
  { unfold process_buffer. rewrite !bind_gets. unfold id, call_parser. cbn [default from_option].
    destruct (semp_frame_buffer f x p Hi Hf Hx) as (p' & e & _ & _ & H).
    pose proof (H []) as H0. rewrite app_nil_r in H0. by rewrite H, H0. }
  rewrite length_app in Hl. rewrite !Hone; [|done|lia|done|rewrite length_app; lia].
  unfold bind. by rewrite E.
Qed.

(* ------------------------------------------------------------------ *)
(** ** The packet tool *)

Import Tool.

(** The tool shifts the first and the fourth byte of the data by 24 bits. *)
Definition shiftable (data : list Z) : bool :=
  (len data <? 4)%nat || (nth 0 data 0 <? 128) && (nth 3 data 0 <? 128).

(** The buffer of a delivered message. *)
Lemma delivered_buffer q x :
  sized q -> sendable 1024 x -> stored_bytes q = frame_of x ->
  exists rest, buffer q = header_of x ++ payload x ++ rest /\ (4 <= len rest)%nat /\
    length q = Z.of_nat (len (payload x)) + 24 /\
    member_of (buffer q) header_messageLength = Ok (Z.of_nat (len (payload x))).
Proof.
  intros Hq Hx Hs. pose proof Hq as [[Hb _ _ Hl] Hm].
  destruct (frame_of_split _ _ Hx ltac:(lia)) as (b1 & b2 & b3 & b4 & Hfr & _).
  destruct (header_of_fields _ _ Hx ltac:(lia)) as (Hh & _ & Hlen & _).
  exists ([b1; b2; b3; b4] ++ drop (Z.to_nat (length q)) (buffer q)).
  assert (buffer q = header_of x ++ payload x ++ [b1; b2; b3; b4] ++ drop (Z.to_nat (length q)) (buffer q)) as E.
  { rewrite <-(take_drop (Z.to_nat (length q)) (buffer q)) at 1. unfold stored_bytes in Hs.
    rewrite Hs, Hfr. by rewrite <-!app_assoc. }
  split_and!; [done|rewrite length_app; cbn [List.length]; lia| |].
  - apply (f_equal len) in Hs. unfold stored_bytes in Hs. rewrite Hfr, length_take, !length_app in Hs.
    cbn [List.length] in Hs. lia.
  - rewrite sized_member by (done || cbn; lia). rewrite E, get_app; [by rewrite Hlen|]. unfold fits. rewrite Hh. cbn. lia.
Qed.

Lemma from_header x rest : sendable 1024 x -> from (header_of x ++ rest) sizeof_SEMP_MESSAGE_HEADER = rest.
Proof.
  intros Hx. destruct (header_of_fields _ _ Hx ltac:(lia)) as (Hh & _). unfold from.
  change (Z.to_nat sizeof_SEMP_MESSAGE_HEADER) with 20%nat. by rewrite <-Hh, drop_app_length.
Qed.

Lemma frame_of_bytes max x : sendable max x -> max < 65536 -> bytes (frame_of x).
Proof.
  intros Hx Hm. destruct (frame_of_split _ _ Hx Hm) as (b1 & b2 & b3 & b4 & -> & Hb & _).
  destruct (header_of_fields _ _ Hx Hm) as (_ & _ & _ & _ & Hh). destruct Hx as (_ & _ & _ & _ & Hp & _).
  apply Forall_app. split; [by apply Forall_app|done].
Qed.

Lemma shows_load {A} (l : list Z) i (k : Z -> Program A) Q :
  0 <= i < Z.of_nat (len l) -> (forall v, shows (k v) Q) -> shows (bind (lift (load l i)) k) Q.
Proof. intros Hi Hk. destruct (load_in_range l i Hi) as (v & Hv & _). eapply shows_lift; [exact Hv|apply Hk]. Qed.

Lemma dump_shows line l n : n <= Z.of_nat (len l) -> shows (dump line l n) (fun _ => True).
Proof.
  intros Hn. apply shows_for_each. intros i Hi. apply elem_of_seqZ in Hi. apply shows_load; [lia|]. intros v. shows_tac.
Qed.

Lemma show_ascii_shows l n : n <= Z.of_nat (len l) -> shows (show_ascii l n) (fun _ => True).
Proof.
  intros Hn. apply shows_for_each. intros i Hi. apply elem_of_seqZ in Hi. apply shows_load; [lia|]. intros v. shows_tac.
Qed.

Lemma show_header_shows q : sized q -> shows (show_header (buffer q)) (fun _ => True).
Proof.
  intros Hq. unfold show_header. shows_tac. do 3 show_member Hq. shows_tac. do 10 (show_member Hq; shows_tac).
Qed.

Lemma show_crc_shows q : sized q -> shows (show_crc (buffer q) (length q)) (fun _ => True).
Proof.
  intros [[Hb _ _ Hl] Hm]. unfold show_crc. shows_tac. apply shows_then; [|shows_tac]. apply shows_when. intros H%Z.leb_le.
  do 4 (apply shows_load; [lia|intros ?]). shows_tac.
Qed.

(** Code that shifts an int past its greatest value in every state. *)
Definition fails {A} (m : Program A) : Prop := forall s, m s = Ub ShiftOverflow.

Lemma fails_head {A A'} (m : Program A) (k : A -> Program A') : fails m -> fails (bind m k).
Proof. intros Hm s. by apply bind_ub. Qed.

Lemma fails_then {A A'} (m : Program A) (k : Program A') : shows m (fun _ => True) -> fails k -> fails (m;; k).
Proof.
  intros Hm Hk s. destruct (Hm s) as (a & o & Ha & _). by rewrite (bind_ok _ _ _ _ _ _ Ha), Hk.
Qed.

Lemma fails_lift {A A'} (r : res A) a (k : A -> Program A') : r = Ok a -> fails (k a) -> fails (bind (lift r) k).
Proof. intros -> Hk s. by rewrite (bind_silent _ _ _ a s). Qed.

Lemma shift_left_fits {A} v n (k : Z -> Program A) s :
  0 <= v -> v * 2 ^ n < 2 ^ 31 -> bind (shift_left v n) k s = k (Z.shiftl v n) s.
Proof.
  intros H0 H. unfold shift_left. rewrite (proj2 (Z.ltb_ge v 0)), (proj2 (Z.leb_gt _ _)) by lia. apply bind_ret.
Qed.

Lemma shows_shift {A} v n (k : Z -> Program A) Q :
  0 <= v -> v * 2 ^ n < 2 ^ 31 -> shows (k (Z.shiftl v n)) Q -> shows (bind (shift_left v n) k) Q.
Proof. intros H0 H Hk s. rewrite shift_left_fits by done. apply Hk. Qed.

Lemma fails_shift {A} v n (k : Z -> Program A) :
  0 <= v -> v * 2 ^ n < 2 ^ 31 -> fails (k (Z.shiftl v n)) -> fails (bind (shift_left v n) k).
Proof. intros H0 H Hk s. rewrite shift_left_fits by done. apply Hk. Qed.

Lemma shift_left_fails v n : 0 <= v -> 2 ^ 31 <= v * 2 ^ n -> fails (shift_left v n).
Proof.
  intros H0 H s. unfold shift_left.
  by rewrite (proj2 (Z.ltb_ge v 0)), (proj2 (Z.leb_le _ _)) by lia.
Qed.

Lemma payload_load (l rest : list Z) i :
  (i < len l)%nat -> load (l ++ rest) (Z.of_nat i) = Ok (nth i l 0).
Proof.
  intros Hi. apply load_ok. rewrite lookup_app_l by done.
  destruct (lookup_lt_is_Some_2 l i Hi) as [v Hv]. by rewrite Hv, (nth_lookup_Some _ _ _ _ Hv).
Qed.

Lemma nth_u8 (l : list Z) i : bytes l -> (i < len l)%nat -> is_u8 (nth i l 0).
Proof.
  intros Hl Hi. destruct (lookup_lt_is_Some_2 l i Hi) as [v Hv]. rewrite (nth_lookup_Some _ _ _ _ Hv).
  by eapply Forall_lookup_1.
Qed.

(** The 8-bit and 16-bit values are shown in any case. *)
Ltac show_small :=
  apply shows_when; intros _; repeat (apply shows_load; [rewrite length_app; lia|intros ?]); cbn zeta; shows_tac.

Lemma show_values_shows l rest :
  bytes l -> (4 <= len rest)%nat -> shiftable l = true ->
  shows (show_values (l ++ rest) (Z.of_nat (len l))) (fun _ => True).
Proof.
  intros Hl Hrest Hs. unfold show_values. do 2 (apply shows_then; [show_small|]).
  apply shows_when. intros H%Z.leb_le. apply orb_prop in Hs as [Hs%Nat.ltb_lt|Hs]; [lia|].
  apply andb_prop in Hs as [Ha%Z.ltb_lt Hb%Z.ltb_lt].
  pose proof (nth_u8 l 0 Hl ltac:(lia)). pose proof (nth_u8 l 1 Hl ltac:(lia)). pose proof (nth_u8 l 2 Hl ltac:(lia)).
  pose proof (nth_u8 l 3 Hl ltac:(lia)). unfold is_u8 in *.
  eapply shows_lift; [apply (payload_load l rest 3); lia|]. eapply shows_lift; [apply (payload_load l rest 2); lia|].
  eapply shows_lift; [apply (payload_load l rest 1); lia|]. eapply shows_lift; [apply (payload_load l rest 0); lia|].
  do 3 (apply shows_shift; [lia|lia|]). cbn zeta. do 3 (apply shows_shift; [lia|lia|]). cbn zeta. shows_tac.
  eapply shows_lift; [apply member_of_ok; rewrite length_app; cbn; lia|]. shows_tac.
Qed.

Lemma show_values_fails l rest :
  bytes l -> (4 <= len rest)%nat -> shiftable l = false -> fails (show_values (l ++ rest) (Z.of_nat (len l))).
Proof.
  intros Hl Hrest Hs. unfold show_values. do 2 (apply fails_then; [show_small|]).
  apply orb_false_elim in Hs as [Hs%Nat.ltb_ge Hbig]. rewrite (proj2 (Z.leb_le _ _)) by lia. cbn [when].
  pose proof (nth_u8 l 0 Hl ltac:(lia)). pose proof (nth_u8 l 1 Hl ltac:(lia)). pose proof (nth_u8 l 2 Hl ltac:(lia)).
  pose proof (nth_u8 l 3 Hl ltac:(lia)). unfold is_u8 in *.
  eapply fails_lift; [apply (payload_load l rest 3); lia|]. eapply fails_lift; [apply (payload_load l rest 2); lia|].
  eapply fails_lift; [apply (payload_load l rest 1); lia|]. eapply fails_lift; [apply (payload_load l rest 0); lia|].
  destruct (Z.lt_ge_cases (nth 3 l 0) 128) as [H3|H3]; [|apply fails_head, shift_left_fails; lia].
  do 3 (apply fails_shift; [lia|lia|]). cbn zeta. apply fails_head, shift_left_fails; [lia|].
  destruct (Z.ltb_spec (nth 0 l 0) 128); [|lia]. destruct (Z.ltb_spec (nth 3 l 0) 128); [done|lia].
Qed.

Lemma detailedEomCallback_result q x t :
  sized q -> sendable 1024 x -> stored_bytes q = frame_of x ->
  if shiftable (payload x) then shows (detailedEomCallback q t) (fun _ => True)
  else fails (detailedEomCallback q t).
Proof.
  intros Hq Hx Hs. destruct (delivered_buffer q x Hq Hx Hs) as (rest & Hbuf & Hrest & Hlen & Hml).
  pose proof Hx as (_ & _ & _ & _ & Hbp & _). pose proof Hq as [[Hsize _ _ Hin] Hmax].
  destruct (shiftable (payload x)) eqn:E.
  - unfold detailedEomCallback. shows_tac. apply shows_then; [by apply show_header_shows|].
    eapply shows_lift; [exact Hml|]. apply shows_then.
    { unfold show_data. apply shows_if; intros _; [|shows_tac]. shows_tac. cbn zeta. rewrite Hbuf, from_header by done.
      shows_tac. apply shows_then; [apply dump_shows; rewrite length_app; lia|]. shows_tac.
      apply shows_then; [apply show_ascii_shows; rewrite length_app; lia|]. shows_tac. by apply show_values_shows. }
    apply shows_then; [by apply show_crc_shows|]. shows_tac. apply shows_then; [apply dump_shows; lia|].
    apply shows_then; shows_tac.
  - unfold detailedEomCallback. do 2 (apply fails_then; [shows_tac|]). apply fails_then; [by apply show_header_shows|].
    eapply fails_lift; [exact Hml|]. apply fails_head. unfold show_data.
    destruct (Z.ltb_spec 0 (Z.of_nat (len (payload x)))) as [Hpos|Hpos];
      [|exfalso; destruct (payload x); [done|cbn in Hpos; lia]].
    apply fails_then; [shows_tac|]. cbn zeta. rewrite Hbuf, from_header by done. apply fails_then; [shows_tac|].
    apply fails_then; [apply dump_shows; rewrite length_app; lia|]. do 2 (apply fails_then; [shows_tac|]).
    apply fails_then; [apply show_ascii_shows; rewrite length_app; lia|]. apply fails_then; [shows_tac|].
    by apply show_values_fails.
Qed.

(** The code returns, or it shifts an int past its greatest value. *)
Definition outcome {A} (returns : bool) (m : Program A) (g : option SEMP_PARSE_STATE) : Prop :=
  if returns then runs m g (fun _ _ _ => True) else m g = Ub ShiftOverflow.

Lemma outcome_then {A A'} b (m : Program A) (k : Program A') g :
  shows m (fun _ => True) -> outcome b k g -> outcome b (m;; k) g.
Proof.
  intros Hm Hk. destruct (Hm g) as (a & o & Ha & _). destruct b; cbn [outcome] in *.
  - apply runs_bind. exists a, g, o. split; [done|]. eapply runs_mono; [exact Hk|done].
  - by rewrite (bind_ok _ _ _ _ _ _ Ha), Hk.
Qed.

(** The parser of the tool on a frame, and its callback. *)
Lemma tool_buffer x p :
  idle p -> maxLength p = 1024 -> eomCallback p = Some 1%nat -> sendable 1024 x ->
  outcome (shiftable (payload x)) (process_buffer answer (frame_of x);; ret tt) (Some p).
Proof.
  intros Hi Hm Hf Hx. rewrite <-Hm in Hx.
  destruct (semp_frame_buffer 1 x p Hi Hf Hx) as (p' & e & (q & -> & Hs) & _ & Hrun).
  specialize (Hrun []). rewrite app_nil_r in Hrun. rewrite Hm in Hx.
  assert (sized q) as Hq.
  { destruct (process_loop_step (frame_of x) 0 p) as (k & p1 & ev & H1 & _ & He).
    - split; [|done]. destruct Hi as [Hb Hst]. split; [done|]. rewrite Hst. split; [done|]. by intros [?|?].
    - by apply (frame_of_bytes 1024).
    - unfold sempProcessBuffer in Hrun. rewrite Hrun in H1. injection H1 as _ _ <-. exact (Forall_inv He). }
  assert (process_buffer answer (frame_of x) (Some p)
          = ((detailedEomCallback q (type_of x);; ret tt);; ret (Z.of_nat (len (frame_of x)) - 1)) (Some p')) as Hbuf.
  { unfold process_buffer. rewrite bind_gets. unfold id, call_parser. cbn [default from_option]. by rewrite Hrun. }
  pose proof (detailedEomCallback_result q x (type_of x) Hq Hx Hs) as Hcb.
  destruct (shiftable (payload x)); cbn [outcome].
  - destruct (Hcb (Some p')) as ([] & o & Ho & _).
    assert ((detailedEomCallback q (type_of x);; ret tt) (Some p') = Ok (tt, Some p', o ++ [])) as Ho'
      by (by rewrite (bind_ok _ _ _ _ _ _ Ho)).
    eexists tt, (Some p'), _. split; [|done]. unfold bind at 1. rewrite Hbuf, (bind_ok _ _ _ _ _ _ Ho'). reflexivity.
  - unfold bind at 1. rewrite Hbuf. by erewrite bind_ub; [|by apply bind_ub].
Qed.

(** C27: The packet tool on any frame that fits its buffer: it returns when the
    data has fewer than four bytes, or when its first and fourth byte are less
    than 128; otherwise it is undefined, since it shifts one of them into the sign
    bit of an int. *)
Theorem tool_packet x description g :
  sendable 1024 x -> bytes (messageBuffer g) -> len (messageBuffer g) = 1024%nat ->
  if shiftable (payload x)
  then runs (testDataPacket (frame_of x) description) g (fun _ _ _ => True)
  else testDataPacket (frame_of x) description g = Ub ShiftOverflow.
Proof.
  intros Hx Hg Hlen. set (p0 := sempInitParser (messageBuffer g) SEMP_MAX_BUFFER_SIZE (Some 1%nat) (Some 2%nat) (Some "测试解析器")).
  assert (idle p0) as Hi by (apply sempInitParser_idle; [done|by rewrite Hlen|done]).
  change (outcome (shiftable (payload x)) (testDataPacket (frame_of x) description) g).
  unfold testDataPacket. cbn zeta. do 3 (apply outcome_then; [shows_tac|]). apply outcome_then.
  { apply shows_for_each. intros i Hin. apply elem_of_seqZ in Hin. apply shows_load; [lia|]. intros v. shows_tac. }
  apply outcome_then; [shows_tac|].
  assert (Z.of_nat (len (frame_of x)) < 65536) as H16.
  { destruct (frame_of_split _ _ Hx ltac:(lia)) as (b1 & b2 & b3 & b4 & -> & _).
    destruct (header_of_fields _ _ Hx ltac:(lia)) as (Hh & _). destruct Hx as (_ & _ & _ & _ & _ & Hmax).
    rewrite !length_app, Hh. cbn [List.length]. lia. }
  rewrite u16_id, Nat2Z.id, firstn_all by (unfold is_u16; lia). pose proof (tool_buffer x p0 Hi eq_refl eq_refl Hx) as Hb.
  unfold outcome, init_parser in *. destruct (shiftable (payload x)).
  - apply runs_bind. exists tt, (Some p0), []. split; [done|]. eapply runs_mono; [exact Hb|done].
  - by rewrite bind_modify.
Qed.

(** ** A message longer than the buffer *)

(** Header and payload of a message of 1008 bytes of data, 1028 bytes in all; the
    check of the whole is zero, and so are the last four bytes the buffer of 1024
    bytes has room for. *)
Definition overlong : list Z :=
  [0xAA; 0x44; 0x18; 0x14; 1; 0; 0; 0; 0; 0; 0; 0; 0xF0; 0x03; 0; 0; 1; 7; 0; 0] ++
  replicate 1004 0 ++ [0xB1; 0x9D; 0x5C; 0x62].

(** Of a message longer than the buffer the parser compares the check with the
    last bytes it stored: this one is delivered whatever its four check bytes are,
    and the packet tool then reads the data outside the buffer. *)
Theorem overlong_unchecked `{Application} c1 c2 c3 c4 description :
  (exists p' q t, feed (overlong ++ [c1; c2; c3; c4]) (sempInitParser (replicate 1024 0) 1024 (Some 1%nat) (Some 2%nat) None)
     = Ok (tt, p', [EvEom 1 q t]) /\ length q = 1024) /\
  testDataPacket (overlong ++ [c1; c2; c3; c4]) description None = Ub OutOfBounds.
Proof.
  split; [|vm_compute; reflexivity]. eexists _, _, _. split; [vm_compute; reflexivity|]. reflexivity.
Qed.

(* ------------------------------------------------------------------ *)
(** ** Runs and witnesses *)

(** The Bluetooth packet of the example has a wrong check. *)
Lemma semp_example_main_run :
  runs SempExample.main None (fun code _ o =>
    code = 0 /\ printed "=== 收到完整消息 ===\n" o = 0%nat /\ printed "CRC校验失败，消息被丢弃\n" o = 1%nat).
Proof. eexists _, _, _. split; [vm_compute; reflexivity|]. vm_compute. done. Qed.

(** Of the three packets of the tool, two have a wrong check. *)
Lemma tool_main_run :
  runs Tool.main None (fun code _ o =>
    code = 0 /\ printed "=== 数据包解析成功 ===\n" o = 1%nat /\ printed "❌ CRC校验失败！\n" o = 2%nat).
Proof. eexists _, _, _. split; [vm_compute; reflexivity|]. vm_compute. done. Qed.

(** The packet of the demonstration is delivered. *)
Lemma demonstration_main_run :
  runs Demonstration.main None (fun code _ o => code = 0 /\ printed "✅ 消息解析成功!\n" o = 1%nat).
Proof. eexists _, _, _. split; [vm_compute; reflexivity|]. vm_compute. done. Qed.

Lemma semp_example_safe_witness :
  runs (sempInit;; for_each [BluetoothPacket bluetoothPacket; FileStream (testMessage1 ++ testMessage2)] process)
    None (fun _ g _ => exists p, g = Some p /\ wf p).
Proof.
  apply semp_example_safe. apply Forall_cons_2; [|apply Forall_cons_2; [|apply Forall_nil_2]];
    (apply bytesb_spec; vm_compute; reflexivity).
Defined.

Definition hello : content := Content [1; 0; 0; 0; 0; 0; 0; 0] [0; 0; 1; 1; 0; 0] [0x68; 0x69; 0x21; 0xFF].

Lemma hello_sendable : sendable 1024 hello.
Proof. split_and!; try done; (apply bytesb_spec; reflexivity). Qed.

Definition new_parser : SEMP_PARSE_STATE :=
  sempInitParser (replicate 1024 0) 1024 (Some 1%nat) (Some 2%nat) None.

Lemma new_parser_idle : idle new_parser.
Proof. apply sempInitParser_idle; [by apply Forall_replicate|done|done]. Qed.

Lemma semp_file_rest_lost_witness :
  processFileStream (frame_of hello ++ frame_of hello) (Some new_parser)
  = processFileStream (frame_of hello) (Some new_parser).
Proof.
  apply (semp_file_rest_lost 1).
  - apply new_parser_idle.
  - reflexivity.
  - apply hello_sendable.
  - vm_compute. lia.
Defined.

Lemma tool_packet_witness : testDataPacket (frame_of hello) "packet" None = Ub ShiftOverflow.
Proof.
  apply (tool_packet hello "packet" None).
  - apply hello_sendable.
  - by apply Forall_replicate.
  - reflexivity.
Defined.
