(* ===== verification/TestSuite.v ===== *)
(** * The test suite of the C framework

    [src/my_parser/main.cpp].  The program is written for a library whose names
    start with [msgp_] and [MP_] and whose source is not in the repository; the
    class [Library] is what the program uses of it.  The theorems hold for every
    such library; [cpp_library] is one of them, made of the parsers of [src/lib],
    which has the six protocols of the program's table. *)
From S2P Require Import Prelude BeginParser LibParser LibFramework LibBinary LibText LibSbf LibSpartn.
From S2P Require Import LibNextByte LibReports FrameSpec Messages MessageRuns LibMessages AppPrelude.

Module Suite.

(** A call of one of the program's callbacks, with the structure it gets. *)
Inductive Call (S : Type) :=
| Parsed (parse : S) (protocolIndex : Z)
| CrcError (parse : S).
Arguments Parsed {_} _ _.
Arguments CrcError {_} _.

(** The library.  [unset] is the structure before [msgp_init]; the value
    [msgp_processByte] returns is not used.  The answers of the callback for a bad
    check are an argument of [msgp_init]. *)
Class Library := {
  MP_PARSE_STATE : Type;
  unset : MP_PARSE_STATE;
  message_length : MP_PARSE_STATE -> Z;
  protocolIndex : MP_PARSE_STATE -> Z;
  preamble : Type;
  msgp_bt_preamble : preamble;
  msgp_nmea_preamble : preamble;
  msgp_ublox_preamble : preamble;
  msgp_rtcm_preamble : preamble;
  msgp_unicore_bin_preamble : preamble;
  msgp_unicore_hash_preamble : preamble;
  msgp_getProtocolName : MP_PARSE_STATE -> Z -> string;
  msgp_bt_getMessageId : MP_PARSE_STATE -> Z;
  msgp_nmea_getSentenceName : MP_PARSE_STATE -> list Z;
  msgp_ublox_getMessageNumber : MP_PARSE_STATE -> Z;
  msgp_init : list Z -> Z -> list (string * preamble) -> Z -> (MP_PARSE_STATE -> bool) -> string ->
    M MP_PARSE_STATE (Call MP_PARSE_STATE) bool;
  msgp_processByte : Z -> M MP_PARSE_STATE (Call MP_PARSE_STATE) unit
}.

(** The enumeration, and the enumerator with a value. *)
Inductive TestProtocols :=
| PROTOCOL_BT
| PROTOCOL_NMEA
| PROTOCOL_UBLOX
| PROTOCOL_RTCM
| PROTOCOL_UNICORE_BIN
| PROTOCOL_UNICORE_HASH.

Definition enumerator (v : Z) : option TestProtocols :=
  if v <? 0 then None
  else [PROTOCOL_BT; PROTOCOL_NMEA; PROTOCOL_UBLOX; PROTOCOL_RTCM; PROTOCOL_UNICORE_BIN;
        PROTOCOL_UNICORE_HASH] !! Z.to_nat v.

(* ------------------------------------------------------------------ *)
(** ** Test data *)

(** The arrays of strings without their terminator, which the program leaves out. *)
Definition valid_nmea : list Z :=
  chars "$GPRMC,123519,A,4807.038,N,01131.000,E,022.4,084.4,230394,003.1,W*6A" ++ [0x0D; 0x0A].
Definition valid_ublox : list Z :=
  [0xB5; 0x62; 0x01; 0x07; 0x04; 0x00; 0x00; 0x00; 0x00; 0x00; 0x16; 0xD2].
Definition valid_bt : list Z :=
  [0xAA; 0x44; 0x18; 0x14; 0x02; 0x00; 0x00; 0x00; 0x00; 0x00; 0x00; 0x00; 0x04; 0x00; 0x00; 0x00;
   0x00; 0x00; 0x00; 0x00; 0xDE; 0xAD; 0xBE; 0xEF; 0x50; 0x8C; 0x7E; 0x51].
Definition invalid_nmea : list Z :=
  chars "$GPGGA,123519,4807.038,N,01131.000,E,1,08,0.9,545.4,M,46.9,M,,*FF" ++ [0x0D; 0x0A].
Definition noise : list Z := [0xDE; 0xAD; 0xBE; 0xEF; 0x12; 0x34; 0x56; 0x78].

(** The three vectors of [main]. *)
Definition back_to_back_stream : list Z := valid_nmea ++ valid_ublox ++ valid_bt.
Definition mixed_stream : list Z := valid_nmea ++ noise ++ invalid_nmea ++ valid_bt.
Definition bulk_stream : list Z := mjoin (replicate 50 valid_nmea).

Section suite.
  Context `{Lib : Library}.

(** The static objects: the two counters, and the parser of [main]. *)
Record program := State { parser : MP_PARSE_STATE; successCount : Z; failureCount : Z }.

Definition start : program := State unset 0 0.

Abbreviation Program := (M program Output).

Definition testParsers : list (string * preamble) :=
  [("BT/SEMP", msgp_bt_preamble); ("NMEA", msgp_nmea_preamble); ("u-blox", msgp_ublox_preamble);
   ("RTCM", msgp_rtcm_preamble); ("Unicore-Bin", msgp_unicore_bin_preamble);
   ("Unicore-Hash", msgp_unicore_hash_preamble)].
Definition testParserCount : Z := u16 (Z.of_nat (List.length testParsers)).

(** [counter++] on an [int] *)
Definition increment (v : Z) : Program Z :=
  if v =? 2 ^ 31 - 1 then undefined IntOverflow else ret (v + 1).

(* ------------------------------------------------------------------ *)
(** ** Callbacks *)

Definition onMessageParsed (parse : MP_PARSE_STATE) (protocolIndex : Z) : Program unit :=
  printf "\033[0;32m  [ ✓ ] SUCCESS:\033[0m 协议 '%s' (索引 %u), 长度 %d\n"
    [AStr (msgp_getProtocolName parse protocolIndex); AInt protocolIndex; AInt (message_length parse)];;
  s <- gets id;; n <- increment (successCount s);;
  modify (fun s => State (parser s) n (failureCount s));;
  match enumerator protocolIndex with
  | Some PROTOCOL_BT =>
      printf "      └─ BT/SEMP Info: Message ID = 0x%04X\n" [AInt (msgp_bt_getMessageId parse)]
  | Some PROTOCOL_NMEA =>
      printf "      └─ NMEA Info: Sentence Name = %s\n" [AChars (msgp_nmea_getSentenceName parse)]
  | Some PROTOCOL_UBLOX =>
      printf "      └─ u-blox Info: Message Number (Class|ID) = 0x%04X\n" [AInt (msgp_ublox_getMessageNumber parse)]
  | _ => printf "      └─ 未知或未处理的协议索引: %d\n" [AInt protocolIndex]
  end.

Definition onCrcError (parse : MP_PARSE_STATE) : Program bool :=
  printf "\033[0;31m  [ ✗ ] FAILURE:\033[0m 协议 '%s' CRC 错误, 丢弃 %d 字节\n"
    [AStr (msgp_getProtocolName parse (protocolIndex parse)); AInt (message_length parse)];;
  s <- gets id;; n <- increment (failureCount s);;
  modify (fun s => State (parser s) (successCount s) n);;
  ret true.

Definition answer (c : Call MP_PARSE_STATE) : Program unit :=
  match c with
  | Parsed parse protocolIndex => onMessageParsed parse protocolIndex
  | CrcError parse => onCrcError parse;; ret tt
  end.

(** A call of the library on the parser of [main]. *)
Definition library {A} (m : M MP_PARSE_STATE (Call MP_PARSE_STATE) A) : Program A :=
  call_parser parser (fun p s => State p (successCount s) (failureCount s)) answer m.

(* ------------------------------------------------------------------ *)
(** ** The program *)

Definition run_test_stream (testName : string) (stream : list Z) : Program unit :=
  printf "\n--- Running Test: %s ---\n" [AStr testName];;
  for_each stream (fun byte => library (msgp_processByte byte)).

Definition print_report : Program unit :=
  printf "\n\n╔═════════════════════════════════════════════════╗\n" [];;
  printf "║                  测试结果总结                   ║\n" [];;
  printf "╚═════════════════════════════════════════════════╝\n" [];;
  s <- gets id;;
  printf "  ▶ 成功解析的消息: %d\n" [AInt (successCount s)];;
  printf "  ▶ 检测到CRC错误: %d\n" [AInt (failureCount s)];;
  printf "\n✅ 综合测试完成。\n" [].

Definition init : Program bool :=
  library (msgp_init (replicate 2048 0) 2048 testParsers testParserCount (fun _ => true) "Comprehensive-Tester").

Definition main : Program Z :=
  printf "╔═════════════════════════════════════════════════╗\n" [];;
  printf "║          消息解析器库 - 综合测试套件            ║\n" [];;
  printf "╚═════════════════════════════════════════════════╝\n" [];;
  ready <- init;;
  if negb ready then emit (Perror "解析器初始化失败!\n");; ret 1
  else
    run_test_stream "Back-to-Back Valid Messages" back_to_back_stream;;
    run_test_stream "Mixed Errors, Noise, and Fragments" mixed_stream;;
    run_test_stream "High-Volume NMEA Stream (50 messages)" bulk_stream;;
    print_report;;
    ret 0.

(* ------------------------------------------------------------------ *)
(** ** What the program reports

    The calls of the library, taken together, are what the program counts: it
    reports how many of each kind there were in the whole run. *)

Definition is_parsed (c : Call MP_PARSE_STATE) : bool := match c with Parsed _ _ => true | CrcError _ => false end.
Definition successes (l : list (Call MP_PARSE_STATE)) : Z := Z.of_nat (List.length (List.filter is_parsed l)).
Definition failures (l : list (Call MP_PARSE_STATE)) : Z := Z.of_nat (List.length (List.filter (negb ∘ is_parsed) l)).

(** The counters after the calls [l]. *)
Definition counted (l : list (Call MP_PARSE_STATE)) (s : program) : program :=
  State (parser s) (successCount s + successes l) (failureCount s + failures l).
Definition in_range (s : program) : Prop :=
  0 <= successCount s <= 2 ^ 31 - 1 /\ 0 <= failureCount s <= 2 ^ 31 - 1.

(** The sentence name of the library is a terminated string. *)
Context (Hname : forall p, existsb (fun c => c =? 0) (msgp_nmea_getSentenceName p) = true).

Lemma successes_app l1 l2 : successes (l1 ++ l2) = successes l1 + successes l2.
Proof. unfold successes. rewrite List.filter_app, length_app. lia. Qed.
Lemma failures_app l1 l2 : failures (l1 ++ l2) = failures l1 + failures l2.
Proof. unfold failures. rewrite List.filter_app, length_app. lia. Qed.

Lemma counted_calls_app l1 l2 s : counted l2 (counted l1 s) = counted (l1 ++ l2) s.
Proof.
  unfold counted. cbn. rewrite successes_app, failures_app. f_equal; lia.
Qed.

Lemma in_range_prefix l1 l2 s : in_range s -> in_range (counted (l1 ++ l2) s) -> in_range (counted l1 s).
Proof.
  unfold in_range. rewrite <-counted_calls_app. cbn. unfold successes, failures. lia.
Qed.

Lemma increment_run v s : v < 2 ^ 31 - 1 -> increment v s = Ok (v + 1, s, []).
Proof. intros Hv. unfold increment. destruct (Z.eqb_spec v (2 ^ 31 - 1)); [lia|done]. Qed.

Lemma answer_counts c s :
  in_range s -> in_range (counted [c] s) -> exists o, answer c s = Ok (tt, counted [c] s, o).
Proof.
  intros _ [H1 H2]. destruct s as [p n m]. unfold counted, successes, failures in *.
  destruct c as [q i|q]; cbn [answer]; cbn in H1, H2.
  - unfold onMessageParsed. erewrite bind_ok; [|reflexivity]. rewrite bind_gets.
    rewrite (bind_silent _ _ _ _ _ (increment_run n _ ltac:(lia))), bind_modify. cbn -[printf Z.add].
    match goal with |- exists o, match ?m _ with _ => _ end = _ => assert (shows m (fun _ => True)) as Hm end.
    { destruct (enumerator i) as [[]|]; apply shows_printf; cbn; by rewrite ?Hname. }
    destruct (Hm (State p (n + 1) m)) as ([] & o & -> & _). eexists. by rewrite Z.add_0_r.
  - unfold onCrcError. eexists. rewrite !bind_assoc. erewrite bind_ok; [|reflexivity].
    rewrite bind_assoc, bind_gets, bind_assoc.
    rewrite (bind_silent _ _ _ _ _ (increment_run m _ ltac:(lia))), bind_assoc, bind_modify. cbn.
    by rewrite Z.add_0_r.
Qed.

Lemma answers_counts l s :
  in_range s -> in_range (counted l s) -> exists o, for_each l answer s = Ok (tt, counted l s, o).
Proof.
  revert s. induction l as [|c l IH]; intros s Hs Hl.
  - exists []. destruct s. unfold counted. cbn. by rewrite !Z.add_0_r.
  - pose proof (in_range_prefix [c] l s Hs Hl) as Hc. destruct (answer_counts c s Hs Hc) as [o Ho].
    rewrite <-(counted_calls_app [c] l) in Hl. destruct (IH _ Hc Hl) as [o' Ho']. exists (o ++ o').
    cbn [for_each]. rewrite (bind_ok _ _ _ _ _ _ Ho), Ho'. by rewrite counted_calls_app.
Qed.

(** The program after the library has gone to [p] with the calls [l]. *)
Definition served (p : MP_PARSE_STATE) (l : list (Call MP_PARSE_STATE)) (s : program) : program :=
  counted l (State p (successCount s) (failureCount s)).

Lemma served_app p p' l l' s : served p' l' (served p l s) = served p' (l ++ l') s.
Proof. unfold served. rewrite <-counted_calls_app. done. Qed.

Lemma library_counts {A} (m : M MP_PARSE_STATE (Call MP_PARSE_STATE) A) s a p l :
  m (parser s) = Ok (a, p, l) -> in_range s -> in_range (served p l s) ->
  exists o, library m s = Ok (a, served p l s, o).
Proof.
  intros Hm Hs Hl. unfold library, call_parser. rewrite Hm.
  destruct (answers_counts l (State p _ _) Hs Hl) as [o Ho]. exists o. rewrite (bind_ok _ _ _ _ _ _ Ho). cbn.
  by rewrite app_nil_r.
Qed.

Lemma stream_counts stream s p l :
  for_each stream msgp_processByte (parser s) = Ok (tt, p, l) -> in_range s -> in_range (served p l s) ->
  exists o, for_each stream (fun byte => library (msgp_processByte byte)) s = Ok (tt, served p l s, o).
Proof.
  revert s l. induction stream as [|b stream IH]; intros s l Hm Hs Hl; cbn [for_each] in *.
  - injection Hm as <- <-. exists []. destruct s. unfold served, counted. cbn. by rewrite !Z.add_0_r.
  - unfold bind in Hm. destruct (msgp_processByte b (parser s)) as [[[[] p1] l1]|] eqn:H1; [|done].
    destruct (for_each stream msgp_processByte p1) as [[[[] p2] l2]|] eqn:H2; [|done]. injection Hm as -> <-.
    pose proof (in_range_prefix l1 l2 (State p1 _ _) Hs Hl) as Hr1.
    destruct (library_counts _ s _ p1 l1 H1 Hs Hr1) as [o1 Ho1]. rewrite (bind_ok _ _ _ _ _ _ Ho1).
    rewrite <-(served_app p1) in *. destruct (IH (served p1 l1 s) l2 H2 Hr1 Hl) as [o2 Ho2]. rewrite Ho2. by eexists.
Qed.

Lemma run_test_stream_counts name stream s q p k l :
  for_each stream msgp_processByte q = Ok (tt, p, l) -> in_range (served q k s) -> in_range (served p (k ++ l) s) ->
  exists o, run_test_stream name stream (served q k s) = Ok (tt, served p (k ++ l) s, o).
Proof.
  rewrite <-(served_app q p). intros Hm Hs Hl. destruct (stream_counts stream (served q k s) p l Hm Hs Hl) as [o Ho].
  eexists. unfold run_test_stream. erewrite bind_ok; [|reflexivity]. by rewrite Ho.
Qed.

(** The run over two streams in a row, from its parts. *)
Lemma for_each_split (l1 l2 : list Z) (q p : MP_PARSE_STATE) (ev : list (Call MP_PARSE_STATE)) :
  for_each (l1 ++ l2) msgp_processByte q = Ok (tt, p, ev) ->
  exists q' ev1 ev2, for_each l1 msgp_processByte q = Ok (tt, q', ev1) /\
    for_each l2 msgp_processByte q' = Ok (tt, p, ev2) /\ ev = ev1 ++ ev2.
Proof.
  rewrite for_each_app. unfold bind. intros H.
  destruct (for_each l1 _ q) as [[[[] q'] ev1]|] eqn:H1; [|done].
  destruct (for_each l2 _ q') as [[[[] p'] ev2]|] eqn:H2; [|done]. injection H as <- <-. by eexists _, _, _.
Qed.

(** The last lines of the report. *)
Definition report (s : program) : list Output :=
  [Printf "  ▶ 成功解析的消息: %d\n" [AInt (successCount s)];
   Printf "  ▶ 检测到CRC错误: %d\n" [AInt (failureCount s)];
   Printf "\n✅ 综合测试完成。\n" []].

Lemma print_report_shows s :
  print_report s = Ok (tt, s,
    [Printf "\n\n╔═════════════════════════════════════════════════╗\n" [];
     Printf "║                  测试结果总结                   ║\n" [];
     Printf "╚═════════════════════════════════════════════════╝\n" []] ++ report s).
Proof. reflexivity. Qed.

(** Without a parser the program returns 1 after its title and the error. *)
Theorem suite_refused p0 :
  msgp_init (replicate 2048 0) 2048 testParsers testParserCount (fun _ => true) "Comprehensive-Tester" unset
    = Ok (false, p0, []) ->
  runs main start (fun code s o =>
    code = 1 /\ s = State p0 0 0 /\ exists o', length o' = 3%nat /\ o = o' ++ [Perror "解析器初始化失败!\n"]).
Proof.
  intros Hinit.
  eexists _, _, _. split.
  { unfold main. do 3 (erewrite bind_ok; [|reflexivity]). unfold init, library, call_parser.
    erewrite bind_ok; [|cbn [parser start]; rewrite Hinit; reflexivity]. reflexivity. }
  split_and!; [done|done|]. by eexists [_; _; _].
Qed.

(** C25: The test suite with any library that initialises and takes the bytes of the
    three streams: the program returns 0, and the two numbers it prints at the end
    are how many messages and how many bad checks the library reported in the
    whole run, as long as these fit an [int]. *)
Theorem suite_reports p0 l0 p l :
  msgp_init (replicate 2048 0) 2048 testParsers testParserCount (fun _ => true) "Comprehensive-Tester" unset
    = Ok (true, p0, l0) ->
  for_each (back_to_back_stream ++ mixed_stream ++ bulk_stream) msgp_processByte p0 = Ok (tt, p, l) ->
  successes (l0 ++ l) < 2 ^ 31 -> failures (l0 ++ l) < 2 ^ 31 ->
  runs main start (fun code s o =>
    code = 0 /\ s = State p (successes (l0 ++ l)) (failures (l0 ++ l)) /\ exists o', o = o' ++ report s).
Proof.
  intros Hinit Hrun Hs Hf.
  destruct (for_each_split _ _ _ _ _ Hrun) as (p1 & l1 & l' & H1 & H' & ->).
  destruct (for_each_split _ _ _ _ _ H') as (p2 & l2 & l3 & H2 & H3 & ->).
  assert (in_range (served p (((l0 ++ l1) ++ l2) ++ l3) start)) as Hr3.
  { rewrite <-!app_assoc. unfold in_range, served, counted, successes, failures in *. cbn [start successCount failureCount]. lia. }
  pose proof (in_range_prefix _ l3 (State p2 0 0) ltac:(done) Hr3) as Hr2.
  pose proof (in_range_prefix _ l2 (State p1 0 0) ltac:(done) Hr2) as Hr1.
  pose proof (in_range_prefix l0 l1 (State p0 0 0) ltac:(done) Hr1) as Hr0.
  destruct (library_counts _ start true p0 l0 Hinit ltac:(done) Hr0) as [o0 Ho0].
  destruct (run_test_stream_counts "Back-to-Back Valid Messages" _ start p0 p1 l0 l1 H1 Hr0 Hr1) as [o1 Ho1].
  destruct (run_test_stream_counts "Mixed Errors, Noise, and Fragments" _ start p1 p2 _ l2 H2 Hr1 Hr2) as [o2 Ho2].
  destruct (run_test_stream_counts "High-Volume NMEA Stream (50 messages)" _ start p2 p _ l3 H3 Hr2 Hr3) as [o3 Ho3].
  eexists _, _, _. split.
  { unfold main. do 3 (erewrite bind_ok; [|reflexivity]). unfold init. rewrite (bind_ok _ _ _ _ _ _ Ho0). cbn [negb].
    rewrite (bind_ok _ _ _ _ _ _ Ho1), (bind_ok _ _ _ _ _ _ Ho2), (bind_ok _ _ _ _ _ _ Ho3).
    rewrite (bind_ok _ _ _ _ _ _ (print_report_shows _)). reflexivity. }
  split_and!; [done| |].
  - unfold served, counted. cbn [start successCount failureCount parser]. by rewrite <-!app_assoc.
  - eexists. rewrite app_nil_r, !app_assoc. reflexivity.
Qed.

End suite.
End Suite.

(* ------------------------------------------------------------------ *)
(** ** The parsers of [src/lib] as the library *)

Definition suite_application : Application := {| badCrc_fn := fun _ _ => true; routine_at := fun _ => None |}.
Definition suite_memory : Allocator := fun n => Some (replicate (Z.to_nat n) 0).
Definition suite_platform : Platform := true.

(** The callbacks [onMessageParsed] and [onCrcError] have the numbers 1 and 2. *)
Definition calls_of (ev : list Event) : list (Suite.Call SEMP_PARSE_STATE) :=
  omap (fun e => match e with
                 | EvEom _ parse type => Some (Suite.Parsed parse type)
                 | EvBadCrc _ parse => Some (Suite.CrcError parse)
                 | _ => None
                 end) ev.

(** The array of the sentence name is terminated from a sentence's first comma on;
    the zero behind it makes it a string before that, too. *)
#[local] Instance cpp_library : Suite.Library := {|
  Suite.MP_PARSE_STATE := SEMP_PARSE_STATE;
  Suite.unset := mkParse [] [] fn_sempFirstByte None None None "" [] None None 0 [] 0 0 0 0;
  Suite.message_length := msgLength;
  Suite.protocolIndex := type;
  Suite.preamble := PREAMBLE_ROUTINE;
  Suite.msgp_bt_preamble := fn_sempBluetoothPreamble;
  Suite.msgp_nmea_preamble := fn_sempNmeaPreamble;
  Suite.msgp_ublox_preamble := fn_sempUbloxPreamble;
  Suite.msgp_rtcm_preamble := fn_sempRtcmPreamble;
  Suite.msgp_unicore_bin_preamble := fn_sempUnicoreBinaryPreamble;
  Suite.msgp_unicore_hash_preamble := fn_sempUnicoreHashPreamble;
  Suite.msgp_getProtocolName := fun p i => match sempGetTypeName (Some p) i with Ok s => s | Ub _ => "" end;
  Suite.msgp_bt_getMessageId := fun p => get (Member 4 2) (buffer p);
  Suite.msgp_nmea_getSentenceName := fun p => sempNmeaGetSentenceName p ++ [0];
  Suite.msgp_ublox_getMessageNumber := sempUbloxGetMessageNumber;
  Suite.msgp_init := fun buffer bufferLength table count _ name p =>
    match sempBeginParser (Plat := suite_platform) (Alloc := suite_memory) (Some table.*2) count (Some table.*1) count
            0 bufferLength (Some 1%nat) (Some name) None None (Some 2%nat) tt with
    | Ok (Some p', _, _) => Ok (true, p', [])
    | Ok (None, _, _) => Ok (false, p, [])
    | Ub u => Ub u
    end;
  Suite.msgp_processByte := fun b p =>
    match sempParseNextByte (App := suite_application) (Plat := suite_platform) b p with
    | Ok (_, p', ev) => Ok (tt, p', calls_of ev)
    | Ub u => Ub u
    end
|}.

Lemma cpp_library_names p :
  existsb (fun c => c =? 0) (@Suite.msgp_nmea_getSentenceName cpp_library p) = true.
Proof. cbn. rewrite existsb_app. apply orb_true_r. Qed.

(** The structure the suite starts with, the one it ends with, and the calls in
    between. *)
Definition result {S E A} (m : M S E A) (s : S) : S * list E :=
  match m s with Ok (_, s', ev) => (s', ev) | Ub _ => (s, []) end.
Definition cpp_begin : SEMP_PARSE_STATE :=
  (result (@Suite.msgp_init cpp_library (replicate 2048 0) 2048 Suite.testParsers Suite.testParserCount
    (fun _ => true) "Comprehensive-Tester") Suite.unset).1.
Definition cpp_run : SEMP_PARSE_STATE * list (Suite.Call SEMP_PARSE_STATE) :=
  result (for_each (Suite.back_to_back_stream ++ Suite.mixed_stream ++ Suite.bulk_stream)
    (@Suite.msgp_processByte cpp_library)) cpp_begin.

(** With the parsers of [src/lib] the suite reports 52 messages and four bad checks. *)
Lemma suite_reports_witness :
  Suite.successes cpp_run.2 = 52 /\ Suite.failures cpp_run.2 = 4 /\
  runs (Suite.main (Lib := cpp_library)) (Suite.start (Lib := cpp_library)) (fun code s o =>
    code = 0 /\ s = Suite.State cpp_run.1
      (Suite.successes ([] ++ cpp_run.2)) (Suite.failures ([] ++ cpp_run.2)) /\
    exists o', o = o' ++ Suite.report s).
Proof.
  split; [vm_compute; reflexivity|]. split; [vm_compute; reflexivity|].
  apply (Suite.suite_reports cpp_library_names cpp_begin [] cpp_run.1 cpp_run.2);
    vm_compute; reflexivity.
Defined.

Lemma ublox_message_checked m :
  valid_message ParseState.fn_sempUbloxPreamble m -> ublox_verdict m = Done true.
Proof. inversion 1. by apply ublox_framed. Qed.

Lemma custom_message_checked m :
  valid_message ParseState.fn_sempCustomPreamble m -> custom_verdict m = Done true.
Proof. inversion 1. by apply custom_framed. Qed.

(** The u-blox frame and the Bluetooth frame that the suite calls valid have wrong
    checks: they are no messages of their protocols. *)
Theorem suite_frames_invalid :
  ~ lvalid_message fn_sempUbloxPreamble Suite.valid_ublox /\
  ~ lvalid_message fn_sempBluetoothPreamble Suite.valid_bt.
Proof.
  split; intros H; inversion H as [k k' m b Hk Hb Hs Hv| | |]; subst; injection Hk as <-.
  - apply ublox_message_checked in Hv.
    assert (ublox_verdict Suite.valid_ublox = Done false) as E by (vm_compute; reflexivity).
    rewrite E in Hv. discriminate Hv.
  - apply custom_message_checked in Hv.
    assert (custom_verdict Suite.valid_bt = Done false) as E by (vm_compute; reflexivity).
    rewrite E in Hv. discriminate Hv.
Qed.
